(* ===== verification/_CoqProject ===== *)
-Q . S2P
Prelude.v
GoStrings.v
Rfc3339.v
KvStorage.v
KvMemory.v
Bolt.v
KvBolt.v
KvRemote.v
KvPlugin.v
KvDrivers.v
JobsProtocol.v
JobsPlugin.v
JobsListener.v
JobsMetrics.v
JobsMemory.v
JobsBolt.v
JobsDrivers.v
JobsBroker.v
JobsSqs.v
JobsBeanstalk.v
JobsNats.v
JobsAmqp.v
JobsWorker.v
PubSub.v
PubSubRedis.v
PubSubDrivers.v
Config.v
Reload.v
ReloadSystem.v
HttpBase.v
HttpForm.v
HttpConfig.v
HttpRequest.v
HttpHandler.v
HttpPlugin.v
HttpServers.v
HttpMiddleware.v
HttpCache.v
HttpObserve.v
Websockets.v
WsServe.v
BroadcastSystem.v
Metrics.v
Tcp.v
Grpc.v
PhpGen.v
Admin.v
Services.v
WorkerServer.v
Logger.v
FileServer.v
