(* ===== verification/Prelude.v ===== *)
(** * Verification of the RoadRunner plugins

    ** The program

    The repository is a set of Go plugins for the RoadRunner application server,
    which runs PHP workers.  Its parts:

    - key-value storages: the plugin [kv] with its RPC methods, and the drivers
      [memory/memorykv], [boltdb/boltkv], [redis/kv] and [memcached];
    - job queues: the plugin [jobs] with its RPC methods, its pollers, its
      metrics and the protocol of worker responses ([jobs/protocol]), and the
      drivers [memory/memoryjobs], [boltdb/boltjobs], [sqs], [beanstalk],
      [nats] and [amqp];
    - publish/subscribe: the plugin [broadcast] and the drivers
      [memory/memorypubsub] and [redis/pubsub];
    - the configuration plugin [config] and the plugin [reload], which restarts
      the others when files change;
    - the HTTP plugin [http]: its configuration, the request handler
      ([http/handler]), the servers and their life cycle, and the middleware for
      headers, static files, X-Sendfile, caching, websockets, New Relic and
      Prometheus; the file server [fileserver];
    - the servers [tcp] and [grpc], with the code generator for PHP in
      [grpc/protoc_plugins];
    - the plugins that run processes: [server], which makes the commands of the
      workers, and [service];
    - administration: [metrics], [status], [informer], [resetter], [rpc] and
      [logger].

    A plugin is built from the configuration, collects constructors of drivers,
    builds a driver per configured storage, pipeline or broker, and forwards RPC
    requests to it.  The HTTP plugin wraps its handler in the middleware the
    configuration names; the handler turns a request into a payload for a PHP
    worker and the answer into a response, as the TCP and gRPC servers do for
    their connections and calls.  Plugins reach drivers through interfaces; here
    an interface is a class, the theorems of the plugin are proved against the
    class, and the drivers of the repository are instances of it where they keep
    its laws.

    ** Files

    - [Prelude]: errors and results, machine integers with their wrap-around,
      object pools, iteration over Go maps in an arbitrary order.
      [GoStrings]: the functions of [strings], [strconv] and [unicode/utf8] the
      sources use.  [Rfc3339]: [time.Format] and [time.Parse] for the layout the
      drivers use; printed UTC times compare as text like the seconds they stand
      for.
    - [KvStorage]: the storage interface of the kv plugin with its laws.
      [KvMemory] models [memorykv/kv.go]: a map whose entries carry a timeout,
      and the sweep of expired entries.  [Bolt] states what the boltdb drivers
      use of bbolt (buckets, transactions, cursors) as a class with laws, and
      gives a concrete instance.  [KvBolt] models [boltkv/driver.go] with the
      bytes of the gob messages it stores.  [KvRemote] models [redis/kv] and
      [memcached/memcachedkv] over their clients.  [KvPlugin] models
      [kv/plugin.go] and [kv/rpc.go]; [KvDrivers] puts the four drivers behind
      it through the constructors of their plugins.
    - [JobsProtocol] models [jobs/protocol]: decoding of a worker response and
      the call on the job it leads to, with the object pools.  [JobsPlugin]
      models [jobs/plugin.go], [JobsListener] a round of a poller
      ([jobs/listener.go]) and [jobs/rpc.go], [JobsMetrics] [jobs/metrics.go].
      [JobsMemory] models [memoryjobs]: goroutines interleave as atomic actions.
      [JobsBolt] models [boltjobs]: transactions interleave, and a restart is an
      action.  [JobsDrivers] puts these two behind the plugin and composes it
      with the goroutines of the drivers and the pollers.  [JobsBroker] holds
      what the drivers of brokers share; [JobsSqs], [JobsBeanstalk], [JobsNats]
      and [JobsAmqp] model [sqsjobs], [beanstalkjobs], [natsjobs] and
      [amqpjobs]: packing and unpacking of jobs, settlement, listeners,
      reconnection, and the life cycle of a pipeline.  [JobsWorker]: what a
      worker is given of a job that went through a broker.
    - [PubSub]: [memorypubsub/pubsub.go] (module [MemPubSub]) and
      [broadcast/plugin.go], [broadcast/rpc.go] (module [Broadcast]).
      [PubSubRedis]: [redis/pubsub], with its requests to the server as programs
      whose steps interleave.  [PubSubDrivers] puts both drivers behind the
      broadcast plugin through the constructors of their plugins.
      [BroadcastSystem] composes the memory driver with the sessions, the pump
      and the workers of the websockets plugin.
    - [Config]: [config/plugin.go], [config/versions.go] and the driver sections
      of [config/configs].
    - [Reload]: [reload/watcher.go], [reload/plugin.go], [reload/config.go].
      [ReloadSystem]: the three goroutines of the plugin, their channels and the
      stop.
    - [HttpBase]: headers, the response writer, query escapes and addresses.
      [HttpForm] models the trees of [http/handler/parse.go], [HttpConfig]
      [http/config], [HttpRequest] [http/attributes] and the requests and
      uploads of [http/handler] with the temporary files on disk, [HttpHandler]
      [http/handler/handler.go] and [response.go] with their pools, [HttpPlugin]
      [http/plugin.go], [serve.go] and [metrics.go].  [HttpServers]: obtaining
      certificates ([http/acme.go], module [Acme]) and the goroutines of the
      servers with their stop ([http.go], [ssl.go], [serve.go], module
      [Servers]).
    - [HttpMiddleware]: modules [Headers], [Static] and [Send].  [HttpCache]:
      the request directives (module [Directives]), the driver
      [memory/memoryhttpcache] and the cache middleware.  [HttpObserve]: the
      middleware for New Relic and Prometheus.  [Websockets]: origins (module
      [Origin]), the commands of a connection ([Executor]), the delivery of
      messages ([WsPool]), the lock of the plugin as interleaved threads
      ([RWLock]) and the handshake ([WsPlugin]).  [WsServe]: the plugin's start
      and stop, the goroutines between driver and connections, and the pool of
      payloads.
    - [Metrics]: [metrics/config.go], [metrics/plugin.go], [metrics/rpc.go], and
      the server of the exporter (module [MetricsServer]).
    - [Tcp]: [tcp/config.go], [tcp/plugin.go] and [tcp/handler].  [Grpc]: the
      parser of proto files, the proxy, the codec, the registry of services and
      the server options of [grpc].  [PhpGen]: the generator
      [protoc-gen-php-grpc/php], up to the text it prints.
    - [Admin]: modules for [status], [informer], [resetter] and [rpc].
      [Services]: [service], processes and the goroutines that restart and stop
      them.  [WorkerServer]: [server], the commands and environments of workers.
      [Logger]: [logger].  [FileServer]: [fileserver].

    State is passed explicitly: an operation takes the state and returns the new
    one with a [res] (value, error or panic) or an optional error.  Calls that
    may wait for ever return an option, [None] being that they wait.  Arguments
    stand for what the code does not determine: the time, the order of a map
    ([GoRange]), the branch a select takes, the object a pool hands out, the
    pairs a database cursor visits while its bucket changes, the answers of a
    server.  Log output and tracing are left out.

    ** What the theorems show

    - Key-value: invariants of the drivers under every sequence of operations
      and sweeps, sweeps that remove exactly what is expired, read-after-write
      through RPC for every driver with the laws of the interface and for the
      configured drivers of the repository, and the error paths of writes --
      also where they lose a value or hide an error.
    - Jobs: a worker response leads to exactly the settlement it asks for; a
      round of a poller makes exactly the calls its outcome asks for and counts
      the job once; the plugin keeps consumers and pipelines consistent until it
      is stopped.  The memory driver accounts for every job, the dropped ones
      included, and stays within its bounds; the boltdb driver never loses a
      stored job through errors and restarts as long as no two delayed jobs are
      due in the same second, and delivers delayed jobs when they are due.  In
      the composed system a job the plugin accepts stays with the driver of its
      pipeline until one of the listed events on that driver ends it, and
      pipelines do not share drivers.  The drivers of brokers keep an accepted
      job on the queue or subject of the consumer through requeues and failing
      calls; a requeue over AMQP acknowledges only what it has published, and
      its pushes wait exactly while the redialer dials or has ended; a job
      survives packing and unpacking.  The theorems also pin down where counters
      wrap, delayed jobs collide and a listener stalls or panics.
    - Publish/subscribe: the memory driver refines a set of subscriptions with a
      bounded queue, for connections that leave only topics they are in; an
      accepted request reaches every driver in order, and the memory driver of a
      section gets every later request until it is asked for again; a message to
      a redis topic reaches the server of every subscribed connection, when
      calls do not overlap and subscriptions succeed.  In the composed system a
      message that is published in memory is written to a websocket that stays
      subscribed, once, after finitely many steps of the pump and the workers
      in any order, unless a write to it or to a connection before it fails.
    - Configuration: the migration keeps every field the old sections are read
      with and runs for exactly one pair of versions; flags are split as
      documented.
    - Reload: a poll reports exactly the differences; services are reset once;
      every change that is seen leads to a reset, and the stop returns, after
      finitely many steps of the goroutines in any order, as long as the
      resetter reports no error; where it does not return is shown too.
    - HTTP: form keys are split as they are printed and the tree of a form holds
      exactly its entries, within a depth bound; the handler refines one without
      object pools, up to the uploads a pooled request keeps, and leaves no
      temporary file when it returns; the size limit, the client address, the
      accepted extensions and the status after a failure are characterised on
      every branch; a configuration that is accepted is well formed.  After a
      stop no HTTP or HTTPS server serves again, a FastCGI server does;
      certificates are asked for as configured.
    - Middleware: static files are served exactly when allowed, decimal digits
      fit their buffer, X-Sendfile delivers what its loop delivers, a cached
      response without headers is served again, New Relic passes a response in
      one piece unchanged, connections are upgraded only when allowed and a
      session that is closed leaves nothing behind when the subscriber does not
      fail.  The theorems also show which requests block a reset for ever.
    - TCP: the worker receives the stream of a connection cut at its delimiters,
      when no read is shorter than one, and is told last that the connection is
      closed.  gRPC: parsing ends for files whose imports are acyclic, with
      exactly the services these files declare, and exactly those are served; a
      call is answered as the worker answers.  PHP: the names an interface uses
      resolve to the classes of its messages, keywords with their prefix, under
      the conditions of the theorem.
    - Processes: a service runs at most one process at a time; the environment
      of a worker is the system's overridden by the configured one.
    - Metrics: a call succeeds exactly on a declared collector that supports it.

    ** Bounds and fuel

    Loops follow the recursion of a list.  Some definitions take fuel: trimming
    and draining use the length of their input, which every round shortens, as
    does splitting a text into runes; the decimal digits of a number and its
    big-endian bytes use as many rounds as their bound has digits.  The loop of
    X-Sendfile takes the number of rounds as an argument, and its theorem says
    for how many it ends and when no number is enough.  The parser of proto
    files takes a depth: its theorem gives one that is enough for acyclic
    imports.  Attempts to connect again are arguments.  Integers
    are [Z] with [u32], [u64], [i32] and [i64] written where the code's width
    matters; the back-off of the AMQP driver computes in float64
    ([SpecFloat]).

    ** Not modelled

    The gzip middleware, which hands the handler to a library; sockets and the
    HTTP protocol; accessors and constants.  The constructors of the consumers
    of brokers only forward to the functions modelled with the drivers; these
    drivers are verified on their own and are not part of the composed system of
    [JobsDrivers].  In [PubSubDrivers] the content of the redis server of a
    driver may change at any time, as by another driver of the same server.  Code of other repositories appears as a class or an
    argument with the documented behaviour its callers rely on: certmagic, fiber,
    bbolt, the gob codec of a job, JSON encoding, viper, semantic versions, the
    topic storage, worker pools, [net], the protobuf codec of cached responses,
    the Prometheus registry, the clients of redis, memcached, SQS, beanstalk,
    NATS and AMQP, the parser of a single proto file, zap. *)

From stdpp Require Import base gmap strings list numbers.
From Stdlib Require Import ZArith Ascii Lia.
From Stdlib Require String.

(** ** Errors and results

    The sources build every error with [github.com/spiral/errors]:
    [errors.E(op, x)], [errors.Str], [errors.Errorf].  An [error] records the
    arguments the source passes and nothing else. *)

Inductive Kind :=
  | Disabled | NoKeys | EmptyKey | EmptyItem | NoSuchBucket | TimeOut | SkipFile
  | NoFreeWorkers | SoftJob | WatcherStopped | WorkerAllocate | ExecTTL | IdleTTL | TTLKind
  | Encode | Decode | Network | InitKind.

Inductive error :=
  | EKind (k : Kind)
  | EStr (s : string)
  | EErrorf (fmt : string) (args : list string)
  | EOp (op : string) (e : error)
  | EOpKind (op : string) (k : Kind) (e : error)
  | EExt (s : string).

Global Instance Kind_eq_dec : EqDecision Kind.
Proof. solve_decision. Defined.
Global Instance error_eq_dec : EqDecision error.
Proof. solve_decision. Defined.

(** [errors.Is(kind, err)]: the kind found under the operation names. *)
Fixpoint errors_Is (k : Kind) (e : error) : bool :=
  match e with
  | EKind k' | EOpKind _ k' _ => bool_decide (k = k')
  | EOp _ e' => errors_Is k e'
  | _ => false
  end.

(** What a Go function with results [(A, error)] does: it returns a value, it
    returns a non-nil error, or it panics. *)
Inductive res (A : Type) :=
  | Ok (a : A)
  | Err (e : error)
  | Panic.
Arguments Ok {A} a.
Arguments Err {A} e.
Arguments Panic {A}.

Global Instance res_eq_dec {A} `{EqDecision A} : EqDecision (res A).
Proof. solve_decision. Defined.

Global Instance res_ret : MRet res := @Ok.
Global Instance res_bind : MBind res := λ A B f m,
  match m with Ok a => f a | Err e => Err e | Panic => Panic end.

Definition wrap_err {A} (op : string) (r : res A) : res A :=
  match r with Err e => Err (EOp op e) | _ => r end.

Definition is_ok {A} (r : res A) : bool :=
  match r with Ok _ => true | _ => false end.

Declare Scope go_scope.
Delimit Scope go_scope with go.

(** A Go slice parameter that the source compares with [nil]. *)
Abbreviation slice A := (option (list A)).

(** Byte slices and strings are both sequences of bytes. *)
Abbreviation bytes := string.

(** ** Machine integers *)

Definition u8 (z : Z) : Z := z mod 2 ^ 8.
Definition u32 (z : Z) : Z := z mod 2 ^ 32.
Definition u64 (z : Z) : Z := z mod 2 ^ 64.
Definition i64 (z : Z) : Z := (z + 2 ^ 63) mod 2 ^ 64 - 2 ^ 63.

Definition i32 (z : Z) : Z := (z + 2 ^ 31) mod 2 ^ 32 - 2 ^ 31.

(** [atomic.AddUint64(&x, ^uint64(0))] and its 32 bit and signed siblings. *)
Definition u64_dec (z : Z) : Z := u64 (z + (2 ^ 64 - 1)).
Definition u64_inc (z : Z) : Z := u64 (z + 1).
Definition u32_dec (z : Z) : Z := u32 (z + (2 ^ 32 - 1)).
Definition u32_inc (z : Z) : Z := u32 (z + 1).
Definition i64_inc (z : Z) : Z := i64 (z + 1).
Definition i64_dec (z : Z) : Z := i64 (z + -1).

Lemma u64_id z : (0 ≤ z < 2 ^ 64)%Z → u64 z = z.
Proof. apply Z.mod_small. Qed.
Lemma u64_range z : (0 ≤ u64 z < 2 ^ 64)%Z.
Proof. apply Z.mod_pos_bound. lia. Qed.
Lemma i64_id z : (- 2 ^ 63 ≤ z < 2 ^ 63)%Z → i64 z = z.
Proof. intros H. unfold i64. rewrite Z.mod_small; lia. Qed.

Lemma i32_id z : (- 2 ^ 31 ≤ z < 2 ^ 31)%Z → i32 z = z.
Proof. intros H. unfold i32. rewrite Z.mod_small; lia. Qed.
Lemma u32_range z : (0 ≤ u32 z < 2 ^ 32)%Z.
Proof. apply Z.mod_pos_bound. lia. Qed.
Lemma u32_inc_small z : (0 ≤ z < 2 ^ 32 - 1)%Z → u32_inc z = (z + 1)%Z.
Proof. intros H. apply Z.mod_small. lia. Qed.
Lemma u32_dec_pos z : (0 < z < 2 ^ 32)%Z → u32_dec z = (z - 1)%Z.
Proof.
  intros H. unfold u32_dec, u32.
  replace (z + (2 ^ 32 - 1))%Z with ((z - 1) + 1 * 2 ^ 32)%Z by lia.
  rewrite Z_mod_plus_full. apply Z.mod_small. lia.
Qed.

Lemma u64_dec_pos z : (0 < z < 2 ^ 64)%Z → u64_dec z = (z - 1)%Z.
Proof.
  intros H. unfold u64_dec, u64.
  replace (z + (2 ^ 64 - 1))%Z with ((z - 1) + 1 * 2 ^ 64)%Z by lia.
  rewrite Z_mod_plus_full. apply Z.mod_small. lia.
Qed.
Lemma u64_dec_zero : u64_dec 0 = (2 ^ 64 - 1)%Z.
Proof. reflexivity. Qed.
Lemma u64_inc_small z : (0 ≤ z < 2 ^ 64 - 1)%Z → u64_inc z = (z + 1)%Z.
Proof. intros H. apply u64_id. lia. Qed.

Lemma u64_inc_dec z : (0 ≤ z < 2 ^ 64)%Z → u64_dec (u64_inc z) = z.
Proof.
  intros H. unfold u64_dec, u64_inc, u64.
  rewrite Zplus_mod_idemp_l.
  replace (z + 1 + (2 ^ 64 - 1))%Z with (z + 1 * 2 ^ 64)%Z by lia.
  rewrite Z_mod_plus_full. apply Z.mod_small. lia.
Qed.

(** ** [strings.TrimSpace]

    Go trims the code points with the Unicode White_Space property.  A code
    point is looked at through its UTF-8 encoding, so [space_runes] lists the
    encodings; a byte that is not part of one of them stops the trimming. *)

Definition space_runes : list (list ascii) :=
  map (map ascii_of_nat)
    [[9]; [10]; [11]; [12]; [13]; [32];                (* ASCII *)
     [194; 133]; [194; 160];                           (* U+0085, U+00A0 *)
     [225; 154; 128];                                  (* U+1680 *)
     [226; 128; 128]; [226; 128; 129]; [226; 128; 130]; [226; 128; 131];
     [226; 128; 132]; [226; 128; 133]; [226; 128; 134]; [226; 128; 135];
     [226; 128; 136]; [226; 128; 137]; [226; 128; 138]; (* U+2000 .. U+200A *)
     [226; 128; 168]; [226; 128; 169]; [226; 128; 175]; (* U+2028, 2029, 202F *)
     [226; 129; 159]; [227; 128; 128]].                 (* U+205F, U+3000 *)

Fixpoint strip_prefix (p l : list ascii) : option (list ascii) :=
  match p, l with
  | [], _ => Some l
  | a :: p', b :: l' => if Ascii.eqb a b then strip_prefix p' l' else None
  | _ :: _, [] => None
  end.

Fixpoint strip_any (ps : list (list ascii)) (l : list ascii) : option (list ascii) :=
  match ps with
  | [] => None
  | p :: ps' =>
      match strip_prefix p l with Some l' => Some l' | None => strip_any ps' l end
  end.

Fixpoint trim_left (fuel : nat) (ps : list (list ascii)) (l : list ascii) : list ascii :=
  match fuel with
  | O => l
  | S n => match strip_any ps l with Some l' => trim_left n ps l' | None => l end
  end.

Definition trim_runes (l : list ascii) : list ascii :=
  let l1 := trim_left (length l) space_runes l in
  rev (trim_left (length l1) (map (@rev ascii) space_runes) (rev l1)).

Definition TrimSpace (s : string) : string :=
  String.string_of_list_ascii (trim_runes (String.list_ascii_of_string s)).

(** The test [strings.TrimSpace(key) == ""] of the key-value drivers. *)
Definition blank_key (s : string) : bool := String.eqb (TrimSpace s) "".

Inductive all_space : list ascii → Prop :=
  | all_space_nil : all_space []
  | all_space_cons r l : r ∈ space_runes → all_space l → all_space (r ++ l).

Lemma strip_prefix_app p l l' : strip_prefix p l = Some l' → l = p ++ l'.
Proof.
  revert l. induction p as [|a p IH]; intros [|b l] H; simplify_eq/=; try done.
  destruct (Ascii.eqb_spec a b) as [->|]; [|done]. by rewrite (IH l H).
Qed.

Lemma strip_prefix_self p l : strip_prefix p (p ++ l) = Some l.
Proof. induction p as [|a p IH]; [done|]. simpl. by rewrite Ascii.eqb_refl. Qed.

Lemma strip_any_app ps l l' :
  strip_any ps l = Some l' → ∃ p, p ∈ ps ∧ l = p ++ l'.
Proof.
  induction ps as [|p ps IH]; [done|]. simpl.
  destruct (strip_prefix p l) as [l0|] eqn:E; intros H; simplify_eq.
  - exists p. split; [left|by apply strip_prefix_app].
  - destruct (IH H) as (q & Hq & ->). exists q. split; [by right|done].
Qed.

Lemma strip_space_app r l : r ∈ space_runes → strip_any space_runes (r ++ l) = Some l.
Proof.
  intros Hr. unfold space_runes in Hr. simpl in Hr.
  repeat (apply elem_of_cons in Hr as [->|Hr]; [reflexivity|]).
  by apply elem_of_nil in Hr.
Qed.

Lemma space_rune_length r : r ∈ space_runes → 1 ≤ length r.
Proof.
  intros Hr. unfold space_runes in Hr. simpl in Hr.
  repeat (apply elem_of_cons in Hr as [->|Hr]; [simpl; lia|]).
  by apply elem_of_nil in Hr.
Qed.

Lemma all_space_app l1 l2 : all_space l1 → all_space l2 → all_space (l1 ++ l2).
Proof.
  induction 1 as [|r l Hr _ IH]; intros H2; [done|].
  rewrite <- app_assoc. constructor; auto.
Qed.

Lemma trim_left_split n ps l :
  (∀ p, p ∈ ps → p ∈ space_runes ∨ rev p ∈ space_runes) →
  ∃ pre, l = pre ++ trim_left n ps l ∧
    ((∀ p, p ∈ ps → p ∈ space_runes) → all_space pre) ∧
    ((∀ p, p ∈ ps → rev p ∈ space_runes) → all_space (rev pre)).
Proof.
  intros Hps. revert l. induction n as [|n IH]; intros l; simpl.
  { exists []. split_and!; [done|intros; constructor..]. }
  destruct (strip_any ps l) as [l'|] eqn:E.
  - destruct (strip_any_app _ _ _ E) as (p & Hp & ->).
    destruct (IH l') as (pre & Hl' & H1 & H2). exists (p ++ pre). split_and!.
    + by rewrite <- app_assoc, <- Hl'.
    + intros Hin. constructor; auto.
    + intros Hin. rewrite rev_app_distr. apply all_space_app; [by apply H2|].
      rewrite <- (app_nil_r (rev p)). constructor; [by apply Hin|constructor].
  - exists []. split_and!; [done|intros; constructor..].
Qed.

Lemma trim_left_all_space n l :
  all_space l → length l ≤ n → trim_left n space_runes l = [].
Proof.
  intros Hl. revert n. induction Hl as [|r l Hr Hl IH]; intros n Hn.
  { destruct n; reflexivity. }
  pose proof (space_rune_length r Hr). rewrite length_app in Hn.
  destruct n as [|n]; [lia|]. cbn [trim_left]. rewrite (strip_space_app r l Hr).
  apply IH. lia.
Qed.

(** A key is rejected as blank exactly when it is a sequence of white space
    code points. *)
Lemma blank_key_spec s : blank_key s = true ↔ all_space (String.list_ascii_of_string s).
Proof.
  unfold blank_key, TrimSpace. rewrite String.eqb_eq.
  set (l := String.list_ascii_of_string s). split.
  - intros H. apply (f_equal String.list_ascii_of_string) in H.
    rewrite String.list_ascii_of_string_of_list_ascii in H. unfold trim_runes in H.
    set (l1 := trim_left (length l) space_runes l) in *.
    apply (f_equal (@rev ascii)) in H. rewrite rev_involutive in H.
    destruct (trim_left_split (length l) space_runes l) as (p1 & Hp1 & Hs1 & _); [auto|].
    destruct (trim_left_split (length l1) (map (@rev ascii) space_runes) (rev l1))
      as (p2 & Hp2 & _ & Hs2).
    { intros p (q & -> & Hq)%list_elem_of_fmap. right. by rewrite rev_involutive. }
    rewrite H, app_nil_r in Hp2. fold l1 in Hp1. rewrite Hp1.
    apply all_space_app; [apply Hs1; auto|].
    rewrite <- (rev_involutive l1), Hp2. apply Hs2.
    intros p (q & -> & Hq)%list_elem_of_fmap. by rewrite rev_involutive.
  - intros H. unfold trim_runes. rewrite (trim_left_all_space (length l) l H) by lia.
    reflexivity.
Qed.

Example blank_tabs : blank_key (String "009" (String " " "")) = true.
Proof. reflexivity. Qed.
Example not_blank_key : blank_key " key " = false.
Proof. reflexivity. Qed.

(** ** Iteration over a Go map

    [for k, v := range m] visits the entries in an order the language leaves
    open.  Definitions that range over a map take the order from this class, so
    that their theorems hold for every order. *)
Class GoRange := {
  range_map {A} : gmap string A → list (string * A);
  range_map_perm {A} (m : gmap string A) : range_map m ≡ₚ map_to_list m
}.

#[export] Program Instance first_range : GoRange := {| range_map A m := map_to_list m |}.
Next Obligation. done. Qed.

Program Definition last_range : GoRange := {| range_map A m := rev (map_to_list m) |}.
Next Obligation. intros A m. simpl. by rewrite <- Permutation_rev. Qed.

Lemma elem_of_range_map `{GoRange} {A} (m : gmap string A) k a :
  (k, a) ∈ range_map m ↔ m !! k = Some a.
Proof. by rewrite range_map_perm, elem_of_map_to_list. Qed.

Lemma range_map_NoDup `{GoRange} {A} (m : gmap string A) : NoDup (range_map m).*1.
Proof. rewrite range_map_perm. apply NoDup_fst_map_to_list. Qed.

(** Deleting a list of keys one after the other. *)
Lemma lookup_foldl_delete {A} (m : gmap string A) ks k :
  foldl (λ m n, delete n m) m ks !! k = if decide (k ∈ ks) then None else m !! k.
Proof.
  revert m. induction ks as [|k0 ks IH]; intros m.
  { rewrite decide_False by apply not_elem_of_nil. done. }
  simpl. rewrite IH, lookup_delete. repeat case_decide; set_solver.
Qed.

(** Inserting a list of pairs one after the other. *)
Definition insert_pair {A} (m : gmap string A) (kv : string * A) : gmap string A := <[kv.1 := kv.2]> m.

Lemma lookup_foldl_insert_ne {A} (m : gmap string A) l k :
  k ∉ l.*1 → foldl insert_pair m l !! k = m !! k.
Proof.
  revert m. induction l as [|[k0 a] l IH]; intros m Hk; [done|]. simpl in *.
  apply not_elem_of_cons in Hk as [Hne Hk]. rewrite IH by done. unfold insert_pair. simpl.
  by rewrite lookup_insert_ne.
Qed.

Lemma lookup_foldl_insert {A} (m : gmap string A) l k a :
  NoDup l.*1 → (k, a) ∈ l → foldl insert_pair m l !! k = Some a.
Proof.
  revert m. induction l as [|[k0 a0] l IH]; intros m Hnd Hin; [by apply elem_of_nil in Hin|].
  simpl in *. apply list.NoDup_cons in Hnd as [Hn Hnd]. apply elem_of_cons in Hin as [[= -> ->]|Hin].
  - rewrite lookup_foldl_insert_ne by done. unfold insert_pair. simpl. apply lookup_insert_eq.
  - by apply IH.
Qed.

(** ** Object pools *)

(** [sync.Pool.Get]: some object put back before, or a new one. *)
Definition pool_get {A} (new : A) (pick : option nat) (pool : list A) : A * list A :=
  match pick with
  | Some i => match pool !! i with
              | Some a => (a, delete i pool)
              | None => (new, pool)
              end
  | None => (new, pool)
  end.

Lemma pool_get_cases {A} (new : A) pick pool a pool' :
  pool_get new pick pool = (a, pool') →
  (a = new ∧ pool' = pool) ∨ (a ∈ pool ∧ ∃ i, pool' = delete i pool).
Proof.
  unfold pool_get. destruct pick as [i|]; [|naive_solver].
  destruct (pool !! i) as [b|] eqn:E; [|naive_solver]. intros [= <- <-].
  right. split; [by eapply list_elem_of_lookup_2|]. by exists i.
Qed.

Lemma Forall_pool_get {A} (P : A → Prop) new pick pool a pool' :
  P new → Forall P pool → pool_get new pick pool = (a, pool') → P a ∧ Forall P pool'.
Proof.
  intros Hn Hp Hg. destruct (pool_get_cases _ _ _ _ _ Hg) as [[-> ->]|[Ha [i ->]]]; [done|].
  split; [by apply (proj1 (list.Forall_forall _ _) Hp)|]. by apply Forall_delete.
Qed.
