(* ===== verification/GoStrings.v ===== *)
(** * Strings

    What the plugins use of the packages [strings], [strconv] and [unicode/utf8]:
    a string is a sequence of bytes, and a loop over its runes decodes UTF-8. *)

From stdpp Require Import base strings list.
From Stdlib Require Import ZArith Ascii Lia.
From Stdlib Require String.
From S2P Require Import Prelude.

Abbreviation chars := String.list_ascii_of_string.
Abbreviation text := String.string_of_list_ascii.

Lemma chars_app a b : chars (a +:+ b) = chars a ++ chars b.
Proof. induction a as [|c a IH]; [done|]. simpl. by rewrite IH. Qed.
Lemma text_chars s : text (chars s) = s.
Proof. apply String.string_of_list_ascii_of_string. Qed.
Lemma chars_text l : chars (text l) = l.
Proof. apply String.list_ascii_of_string_of_list_ascii. Qed.
Lemma chars_inj s t : chars s = chars t → s = t.
Proof. intros H. by rewrite <- (text_chars s), H, text_chars. Qed.
Lemma text_app a b : text (a ++ b) = text a +:+ text b.
Proof. apply chars_inj. by rewrite chars_app, !chars_text. Qed.

Lemma append_assoc (a b c : string) : (a +:+ b) +:+ c = a +:+ (b +:+ c).
Proof. apply chars_inj. by rewrite !chars_app, (assoc_L (++)). Qed.
Lemma append_nil_r (s : string) : s +:+ "" = s.
Proof. apply chars_inj. by rewrite chars_app, app_nil_r. Qed.

(** ** Sets of characters *)

Definition mem_char (set : string) (a : ascii) : bool := existsb (Ascii.eqb a) (chars set).

Fixpoint drop_while (f : ascii → bool) (l : list ascii) : list ascii :=
  match l with
  | [] => []
  | a :: l' => if f a then drop_while f l' else l
  end.

(** [strings.TrimLeft], [strings.Trim] with a set of ASCII characters. *)
Definition TrimLeft (s set : string) : string := text (drop_while (mem_char set) (chars s)).
Definition Trim (s set : string) : string :=
  text (rev (drop_while (mem_char set) (rev (drop_while (mem_char set) (chars s))))).

(** ** Searching and splitting *)

(** [strings.Contains] *)
Definition contains (s pattern : string) : bool :=
  match String.index 0 pattern s with Some _ => true | None => false end.

Lemma substring_middle a p b : String.substring (String.length a) (String.length p) (a +:+ p +:+ b) = p.
Proof.
  assert (H : ∀ q, String.substring 0 (String.length q) (q +:+ b) = q).
  { induction q as [|y q IH]; [by destruct b|]. simpl. by rewrite IH. }
  induction a as [|x a IH]; [apply H|exact IH].
Qed.

Lemma contains_app a p b : p ≠ "" → contains (a +:+ p +:+ b) p = true.
Proof.
  intros Hp. unfold contains. destruct (String.index 0 p (a +:+ p +:+ b)) eqn:E; [done|]. exfalso.
  eapply (String.index_correct3 0 (String.length a) p); [exact E|done|lia|]. apply substring_middle.
Qed.

(** [strings.HasPrefix], [strings.HasSuffix] *)
Definition HasPrefix (s p : string) : bool :=
  match strip_prefix (chars p) (chars s) with Some _ => true | None => false end.
Definition HasSuffix (s p : string) : bool :=
  match strip_prefix (rev (chars p)) (rev (chars s)) with Some _ => true | None => false end.

Lemma HasPrefix_spec s p : HasPrefix s p = true ↔ ∃ t, s = p +:+ t.
Proof.
  unfold HasPrefix. split.
  - destruct (strip_prefix (chars p) (chars s)) as [l|] eqn:E; [|done]. intros _.
    apply strip_prefix_app in E. exists (text l). apply chars_inj.
    by rewrite chars_app, chars_text.
  - intros [t ->]. by rewrite chars_app, strip_prefix_self.
Qed.

Lemma HasSuffix_spec s p : HasSuffix s p = true ↔ ∃ t, s = t +:+ p.
Proof.
  unfold HasSuffix. split.
  - destruct (strip_prefix (rev (chars p)) (rev (chars s))) as [l|] eqn:E; [|done]. intros _.
    apply strip_prefix_app in E. exists (text (rev l)). apply chars_inj.
    rewrite chars_app, chars_text, <- (rev_involutive (chars s)), E, rev_app_distr.
    by rewrite rev_involutive.
  - intros [t ->]. by rewrite chars_app, rev_app_distr, strip_prefix_self.
Qed.

(** [strings.Split] at a one-byte separator: always at least one part. *)
Fixpoint split_on (a : ascii) (l : list ascii) : list (list ascii) :=
  match l with
  | [] => [[]]
  | b :: l' =>
      if Ascii.eqb a b then [] :: split_on a l'
      else match split_on a l' with
           | [] => [[b]]
           | p :: ps => (b :: p) :: ps
           end
  end.

Definition Split (s : string) (a : ascii) : list string := map text (split_on a (chars s)).

(** [strings.Split(s, sep)] for a separator of any length: the characters of a
    separator that was found are skipped. *)
Fixpoint split_str (sep : list ascii) (skip : nat) (acc l : list ascii) : list (list ascii) :=
  match l with
  | [] => [rev acc]
  | a :: l' =>
      match skip with
      | S k => split_str sep k acc l'
      | O => match strip_prefix sep l with
             | Some _ => rev acc :: split_str sep (pred (length sep)) [] l'
             | None => split_str sep 0 (a :: acc) l'
             end
      end
  end.
Definition SplitStr (s sep : string) : list string := map text (split_str (chars sep) 0 [] (chars s)).

Example SplitStr_dsn : SplitStr "tcp://127.0.0.1:11300" "://" = ["tcp"; "127.0.0.1:11300"].
Proof. reflexivity. Qed.
Example SplitStr_none : SplitStr "a:b//c" "://" = ["a:b//c"].
Proof. reflexivity. Qed.
Example SplitStr_two : SplitStr "a://b://" "://" = ["a"; "b"; ""].
Proof. reflexivity. Qed.

Fixpoint join_with (a : ascii) (ps : list (list ascii)) : list ascii :=
  match ps with
  | [] => []
  | [p] => p
  | p :: ps' => p ++ a :: join_with a ps'
  end.

Lemma split_on_ne a l : split_on a l ≠ [].
Proof.
  destruct l as [|b l]; simpl; [done|]. destruct (Ascii.eqb a b); [done|].
  by destruct (split_on a l).
Qed.

Lemma split_on_pure a p : Forall (λ b, b ≠ a) p → split_on a p = [p].
Proof.
  induction 1 as [|b p Hb _ IH]; [done|]. simpl.
  destruct (Ascii.eqb_spec a b) as [->|]; [done|]. by rewrite IH.
Qed.

Lemma split_on_app a p l :
  Forall (λ b, b ≠ a) p → split_on a (p ++ a :: l) = p :: split_on a l.
Proof.
  induction 1 as [|b p Hb _ IH]; simpl.
  - by rewrite Ascii.eqb_refl.
  - destruct (Ascii.eqb_spec a b) as [->|]; [done|]. by rewrite IH.
Qed.

(** Splitting finds the parts of a joined text again. *)
Lemma split_join a ps :
  ps ≠ [] → Forall (Forall (λ b, b ≠ a)) ps → split_on a (join_with a ps) = ps.
Proof.
  intros Hne H. induction H as [|p ps Hp Hps IH]; [done|].
  destruct ps as [|q ps]; [by apply split_on_pure|].
  change (join_with a (p :: q :: ps)) with (p ++ a :: join_with a (q :: ps)).
  rewrite split_on_app by done. by rewrite IH.
Qed.

(** [strings.ReplaceAll(s, c, q)] with an empty [q]: the byte is removed. *)
Definition remove_char (a : ascii) (s : string) : string :=
  text (List.filter (λ b, negb (Ascii.eqb a b)) (chars s)).

Definition strip_newlines (s : string) : string :=
  remove_char "013"%char (remove_char "010"%char s).

Lemma elem_of_remove_char a b s : b ∈ chars (remove_char a s) ↔ b ∈ chars s ∧ b ≠ a.
Proof.
  unfold remove_char. rewrite chars_text, !list_elem_of_In, filter_In.
  destruct (Ascii.eqb_spec a b); simpl; naive_solver.
Qed.

Lemma strip_newlines_clean s :
  "010"%char ∉ chars (strip_newlines s) ∧ "013"%char ∉ chars (strip_newlines s).
Proof.
  unfold strip_newlines. split; rewrite elem_of_remove_char; [|naive_solver].
  intros [H _]. apply elem_of_remove_char in H. naive_solver.
Qed.

(** ** Integers ([strconv.ParseInt(s, 10, 64)], [strconv.Atoi]) *)

Definition digit_of (a : ascii) : option Z :=
  let n := N_of_ascii a in
  if (48 <=? n)%N && (n <=? 57)%N then Some (Z.of_N n - 48)%Z else None.

Fixpoint parse_digits (acc : Z) (l : list ascii) : option Z :=
  match l with
  | [] => Some acc
  | a :: l' => match digit_of a with
               | Some d => parse_digits (10 * acc + d) l'
               | None => None
               end
  end.

Definition sign_of (l : list ascii) : bool * list ascii :=
  match l with
  | a :: l' => if Ascii.eqb a "-" then (true, l')
               else if Ascii.eqb a "+" then (false, l') else (false, l)
  | [] => (false, [])
  end.

(** No digits, another character or a value out of range is an error. *)
Definition ParseInt (s : string) : option Z :=
  let '(neg, l) := sign_of (chars s) in
  match l, parse_digits 0 l with
  | _ :: _, Some n =>
      let z := if (neg : bool) then (- n)%Z else n in
      if (- 2 ^ 63 <=? z)%Z && (z <? 2 ^ 63)%Z then Some z else None
  | _, _ => None
  end.

Lemma ParseInt_range s z : ParseInt s = Some z → (- 2 ^ 63 ≤ z < 2 ^ 63)%Z.
Proof.
  unfold ParseInt. destruct (sign_of (chars s)) as [neg [|a l]]; [done|].
  destruct (parse_digits 0 (a :: l)) as [n|]; [|done].
  destruct ((_ <=? _)%Z && _) eqn:E; [|done]. intros [= <-].
  apply andb_prop in E as [E1 E2]. lia.
Qed.

Example ParseInt_42 : ParseInt "-42" = Some (-42)%Z.
Proof. reflexivity. Qed.
Example ParseInt_bad : ParseInt "1_0" = None.
Proof. reflexivity. Qed.
Example ParseInt_big : ParseInt "9223372036854775808" = None.
Proof. reflexivity. Qed.

(** [strconv.ParseUint(s, 10, 64)] takes no sign. *)
Definition ParseUint (s : string) : option Z :=
  match chars s, parse_digits 0 (chars s) with
  | _ :: _, Some n => if (n <? 2 ^ 64)%Z then Some n else None
  | _, _ => None
  end.

(** [strconv.FormatUint] and [%v] of a natural number: fuel is the number of binary
    digits, and every round takes a decimal one. *)
Definition digit_char (d : Z) : ascii := ascii_of_N (Z.to_N (48 + d)).

Fixpoint decimal (fuel : nat) (n : Z) : list ascii :=
  match fuel with
  | O => [digit_char n]
  | S k => if (n <? 10)%Z then [digit_char n] else decimal k (n / 10) ++ [digit_char (n mod 10)]
  end.

Definition FormatUint (n : Z) : string := text (decimal (Z.to_nat (Z.log2 n)) n).
Definition Itoa (n : Z) : string :=
  if (n <? 0)%Z then "-" +:+ FormatUint (- n) else FormatUint n.

Lemma digit_of_char d : (0 ≤ d < 10)%Z → digit_of (digit_char d) = Some d.
Proof.
  intros Hd. unfold digit_of, digit_char. rewrite N_ascii_embedding by lia.
  destruct (N.leb_spec 48 (Z.to_N (48 + d))); [|lia].
  destruct (N.leb_spec (Z.to_N (48 + d)) 57); [|lia]. cbn [andb]. f_equal. lia.
Qed.

Lemma parse_digits_app acc l1 l2 :
  parse_digits acc (l1 ++ l2) =
    match parse_digits acc l1 with Some a => parse_digits a l2 | None => None end.
Proof.
  revert acc. induction l1 as [|a l1 IH]; intros acc; [done|]. simpl.
  destruct (digit_of a); [apply IH|done].
Qed.

(** Printed numbers are read back. *)
Lemma parse_decimal fuel n :
  (0 ≤ n < 2 ^ (Z.of_nat fuel + 1))%Z → parse_digits 0 (decimal fuel n) = Some n.
Proof.
  revert n. induction fuel as [|k IH]; intros n Hn.
  - simpl. by rewrite digit_of_char by lia.
  - cbn [decimal]. destruct (Z.ltb_spec n 10).
    + simpl. by rewrite digit_of_char by lia.
    + rewrite parse_digits_app, IH.
      * simpl. rewrite digit_of_char by (apply Z.mod_pos_bound; lia). f_equal.
        pose proof (Z.div_mod n 10). lia.
      * split; [apply Z.div_pos; lia|]. apply Z.div_lt_upper_bound; [lia|].
        replace (Z.of_nat (S k) + 1)%Z with (Z.succ (Z.of_nat k + 1)) in Hn by lia.
        rewrite Z.pow_succ_r in Hn by lia. lia.
Qed.

Lemma decimal_ne fuel n : decimal fuel n ≠ [].
Proof. destruct fuel; simpl; [done|]. destruct (n <? 10)%Z; [done|]. by destruct (decimal _ _). Qed.

Lemma decimal_length fuel n k : (0 ≤ n < 10 ^ (Z.of_nat k + 1))%Z → length (decimal fuel n) ≤ S k.
Proof.
  revert n k. induction fuel as [|f IH]; intros n k Hn; [simpl; lia|]. cbn [decimal].
  destruct (Z.ltb_spec n 10); [simpl; lia|]. destruct k as [|k]; [simpl in Hn; lia|].
  rewrite length_app. simpl. assert (length (decimal f (n / 10)) ≤ S k); [|lia]. apply IH.
  split; [apply Z.div_pos; lia|]. apply Z.div_lt_upper_bound; [lia|].
  replace (Z.of_nat (S k) + 1)%Z with (Z.succ (Z.of_nat k + 1)) in Hn by lia.
  rewrite Z.pow_succ_r in Hn by lia. lia.
Qed.

Lemma parse_FormatUint n : (0 ≤ n)%Z → parse_digits 0 (chars (FormatUint n)) = Some n.
Proof.
  intros Hn. unfold FormatUint. rewrite chars_text. apply parse_decimal.
  rewrite Z2Nat.id by apply Z.log2_nonneg. destruct (Z.eq_dec n 0) as [->|]; [done|].
  split; [done|]. pose proof (Z.log2_spec n). rewrite <- Z.add_1_r in *. lia.
Qed.

Lemma ParseUint_Format n : (0 ≤ n < 2 ^ 64)%Z → ParseUint (FormatUint n) = Some n.
Proof.
  intros Hn. unfold ParseUint. rewrite parse_FormatUint by lia.
  unfold FormatUint. rewrite chars_text.
  destruct (decimal _ n) eqn:E; [by destruct (decimal_ne _ _ E)|].
  destruct (Z.ltb_spec n (2 ^ 64)); [done|lia].
Qed.

(** Every byte of a printed number is a digit. *)
Lemma decimal_digits fuel n :
  (0 ≤ n < 2 ^ (Z.of_nat fuel + 1))%Z → Forall (λ a, is_Some (digit_of a)) (decimal fuel n).
Proof.
  revert n. induction fuel as [|k IH]; intros n Hn.
  - simpl. constructor; [|constructor]. rewrite digit_of_char by lia. by eauto.
  - cbn [decimal]. destruct (Z.ltb_spec n 10).
    + constructor; [|constructor]. rewrite digit_of_char by lia. by eauto.
    + apply Forall_app. split.
      * apply IH. split; [apply Z.div_pos; lia|]. apply Z.div_lt_upper_bound; [lia|].
        replace (Z.of_nat (S k) + 1)%Z with (Z.succ (Z.of_nat k + 1)) in Hn by lia.
        rewrite Z.pow_succ_r in Hn by lia. lia.
      * constructor; [|constructor]. rewrite digit_of_char by (apply Z.mod_pos_bound; lia). by eauto.
Qed.

Lemma FormatUint_digits n : (0 ≤ n)%Z → Forall (λ a, is_Some (digit_of a)) (chars (FormatUint n)).
Proof.
  intros Hn. unfold FormatUint. rewrite chars_text. apply decimal_digits.
  rewrite Z2Nat.id by apply Z.log2_nonneg. destruct (Z.eq_dec n 0) as [->|]; [done|].
  split; [done|]. pose proof (Z.log2_spec n). rewrite <- Z.add_1_r in *. lia.
Qed.

Example FormatUint_100 : FormatUint 100 = "100".
Proof. reflexivity. Qed.

(** [strconv.Atoi(strconv.Itoa(n))] is [n], for every 64 bit integer. *)
Lemma FormatUint_head n : (0 ≤ n)%Z → ∃ a l, chars (FormatUint n) = a :: l ∧ is_Some (digit_of a).
Proof.
  intros Hn. pose proof (FormatUint_digits n Hn) as Hd. unfold FormatUint in *. rewrite chars_text in *.
  destruct (decimal _ n) as [|a l] eqn:E; [by apply decimal_ne in E|].
  exists a, l. split; [done|]. by inversion Hd.
Qed.

Lemma sign_of_digit a l : is_Some (digit_of a) → sign_of (a :: l) = (false, a :: l).
Proof.
  intros [d Hd]. unfold sign_of. destruct (Ascii.eqb_spec a "-") as [-> | _]; [done|].
  destruct (Ascii.eqb_spec a "+") as [-> | _]; done.
Qed.

Lemma ParseInt_Itoa n : (- 2 ^ 63 ≤ n < 2 ^ 63)%Z → ParseInt (Itoa n) = Some n.
Proof.
  intros Hn. unfold ParseInt, Itoa. destruct (Z.ltb_spec n 0).
  - destruct (FormatUint_head (- n)) as (a & l & E & Ha); [lia|].
    rewrite chars_app, E. change (sign_of (chars "-" ++ a :: l)) with (true, a :: l).
    cbv beta iota. rewrite <- E, parse_FormatUint by lia. cbv beta iota. rewrite Z.opp_involutive.
    destruct (Z.leb_spec (- 2 ^ 63) n), (Z.ltb_spec n (2 ^ 63)); try lia; done.
  - destruct (FormatUint_head n) as (a & l & E & Ha); [lia|].
    rewrite E, sign_of_digit by done. cbv beta iota. rewrite <- E, parse_FormatUint by lia.
    destruct (Z.leb_spec (- 2 ^ 63) n), (Z.ltb_spec n (2 ^ 63)); try lia; done.
Qed.

(** ** Runes

    [for _, c := range s] decodes UTF-8; [string(c)] encodes the rune again.  A
    byte that starts no valid encoding is the rune U+FFFD and takes one byte. *)

Definition between (lo hi : N) (a : ascii) : bool :=
  let n := N_of_ascii a in (lo <=? n)%N && (n <=? hi)%N.
Definition cont : ascii → bool := between 128 191.

(** The ranges of the bytes that follow a leading byte. *)
Definition followers (a : ascii) : option (list (ascii → bool)) :=
  if between 0 127 a then Some []
  else if between 194 223 a then Some [cont]
  else if between 224 224 a then Some [between 160 191; cont]
  else if between 237 237 a then Some [between 128 159; cont]
  else if between 225 239 a then Some [cont; cont]
  else if between 240 240 a then Some [between 144 191; cont; cont]
  else if between 241 243 a then Some [cont; cont; cont]
  else if between 244 244 a then Some [between 128 143; cont; cont]
  else None.

Fixpoint take_followers (fs : list (ascii → bool)) (l : list ascii) : option (list ascii) :=
  match fs, l with
  | [], _ => Some []
  | f :: fs', a :: l' => if f a then (a ::.) <$> take_followers fs' l' else None
  | _ :: _, [] => None
  end.

Definition rune_error : list ascii := map ascii_of_nat [239; 191; 189].

(** The text of the first rune and the bytes it takes. *)
Definition decode_rune (a : ascii) (l : list ascii) : list ascii * nat :=
  match followers a with
  | None => (rune_error, 1)
  | Some fs => match take_followers fs l with
               | Some r => (a :: r, S (length r))
               | None => (rune_error, 1)
               end
  end.

(** Fuel: a rune takes at least one byte. *)
Fixpoint runes_fuel (n : nat) (l : list ascii) : list (list ascii) :=
  match n, l with
  | S n, a :: l' => let '(r, w) := decode_rune a l' in r :: runes_fuel n (drop (w - 1) l')
  | _, _ => []
  end.

Definition runes (s : string) : list (list ascii) := runes_fuel (length (chars s)) (chars s).

(** A rune as UTF-8 encodes it. *)
Definition valid_rune (r : list ascii) : Prop :=
  match r with [] => False | a :: l => decode_rune a l = (r, length r) end.

Lemma take_followers_app fs l r k :
  take_followers fs l = Some r → take_followers fs (l ++ k) = Some r.
Proof.
  revert l r. induction fs as [|f fs IH]; intros l r H; [done|].
  destruct l as [|a l]; [done|]. simpl in *. destruct (f a); [|done].
  destruct (take_followers fs l) as [r'|] eqn:E; [|done]. by rewrite (IH _ _ E).
Qed.

Lemma decode_rune_app a l k :
  valid_rune (a :: l) → decode_rune a (l ++ k) = (a :: l, S (length l)).
Proof.
  unfold valid_rune, decode_rune. destruct (followers a) as [fs|] eqn:Hfs.
  - destruct (take_followers fs l) as [r|] eqn:E.
    + rewrite (take_followers_app _ _ _ k E). by intros [= -> _].
    + unfold rune_error. simpl. by intros [= <- <- ].
  - unfold rune_error. simpl. by intros [= <- <- ].
Qed.

Lemma runes_fuel_concat n rs :
  Forall valid_rune rs → length (concat rs) ≤ n → runes_fuel n (concat rs) = rs.
Proof.
  intros H. revert n. induction H as [|r rs Hr Hrs IH]; intros n Hn; [by destruct n|].
  destruct r as [|a l]; [done|]. simpl in Hn. destruct n as [|n]; [lia|].
  cbn [concat app runes_fuel]. rewrite (decode_rune_app a l (concat rs) Hr).
  replace (S (length l) - 1) with (length l) by lia. rewrite drop_app_length.
  rewrite IH; [done|]. rewrite length_app in Hn. lia.
Qed.

(** Decoding finds the runes a text is made of. *)
Lemma runes_concat rs : Forall valid_rune rs → runes (text (concat rs)) = rs.
Proof. intros H. unfold runes. rewrite chars_text. by apply runes_fuel_concat. Qed.

(** The fuel is enough: nothing is left, every byte belongs to one rune. *)
Lemma runes_fuel_more n m l :
  length l ≤ n → length l ≤ m → runes_fuel n l = runes_fuel m l.
Proof.
  revert m l. induction n as [|n IH]; intros m l Hn Hm.
  { destruct l; [by destruct m|simpl in Hn; lia]. }
  destruct l as [|a l]; [by destruct m|]. simpl in Hn, Hm. destruct m as [|m]; [lia|].
  cbn [runes_fuel]. destruct (decode_rune a l) as [r w]. f_equal.
  apply IH; rewrite length_drop; lia.
Qed.

Example runes_ascii : runes "ab" = [["a"%char]; ["b"%char]].
Proof. reflexivity. Qed.
Example runes_invalid : runes (text (map ascii_of_nat [97; 255])) = [["a"%char]; rune_error].
Proof. reflexivity. Qed.

(** [strings.ToLower]: the table of the letters outside ASCII is a parameter. *)
Class Unicode := { lower_rune : list ascii → list ascii }.

Definition lower_ascii (a : ascii) : ascii :=
  if between 65 90 a then ascii_of_N (N_of_ascii a + 32) else a.

Definition ToLower `{Unicode} (s : string) : string :=
  text (concat (map (λ r, match r with [a] => [lower_ascii a] | _ => lower_rune r end) (runes s))).

Definition ascii_unicode : Unicode := {| lower_rune := id |}.

Example ToLower_php : ToLower (H := ascii_unicode) ".PhP" = ".php".
Proof. reflexivity. Qed.
