(* ===== verification/Rfc3339.v ===== *)
(** * The part of Go's [time] package the drivers use

    The key-value drivers keep a time to live as an RFC 3339 string and read it
    back with [time.Parse(time.RFC3339, s)]; the boltdb jobs driver writes
    [t.UTC().Format(time.RFC3339)] as a bucket key and compares keys as bytes.
    This file holds executable definitions of both, on instants counted in
    nanoseconds since 1970-01-01T00:00:00Z, following the parser of the Go
    release that [go.mod] names (1.17), and proves that the printed keys are
    ordered like the instants and that printing is undone by parsing. *)

From stdpp Require Import base strings list numbers.
From Stdlib Require Import ZArith Ascii Lia.
From Stdlib Require String.
From S2P Require Import Prelude.

Local Open Scope Z_scope.

(** ** The proleptic Gregorian calendar *)

Definition leap (y : Z) : bool :=
  (y mod 4 =? 0) && (negb (y mod 100 =? 0) || (y mod 400 =? 0)).

(** Days from 0000-01-01 to the first day of year [y]. *)
Definition days_before_year (y : Z) : Z :=
  365 * y + (y + 3) / 4 - (y + 99) / 100 + (y + 399) / 400.

(** Days of a (leap) year that precede month [m]. *)
Definition days_before_month (m : Z) (l : bool) : Z :=
  let f := if l then 1 else 0 in
  if m =? 1 then 0 else if m =? 2 then 31 else if m =? 3 then 59 + f
  else if m =? 4 then 90 + f else if m =? 5 then 120 + f
  else if m =? 6 then 151 + f else if m =? 7 then 181 + f
  else if m =? 8 then 212 + f else if m =? 9 then 243 + f
  else if m =? 10 then 273 + f else if m =? 11 then 304 + f
  else if m =? 12 then 334 + f else 365 + f.

Definition days_in (m y : Z) : Z :=
  days_before_month (m + 1) (leap y) - days_before_month m (leap y).

Definition unix_day : Z := 719528.

(** [time.Date(y, m, d, hh, mm, ss, ns, time.UTC)] as nanoseconds. *)
Definition date_ns (y m d hh mm ss ns : Z) : Z :=
  ((days_before_year y + days_before_month m (leap y) + (d - 1) - unix_day) * 86400
   + hh * 3600 + mm * 60 + ss) * 10 ^ 9 + ns.

Definition year_of (n : Z) : Z :=
  let y0 := (400 * n) / 146097 in
  if n <? days_before_year y0 then y0 - 1
  else if days_before_year (y0 + 1) <=? n then y0 + 1 else y0.

Definition month_of (doy : Z) (l : bool) : Z :=
  let f := if l then 1 else 0 in
  if doy <? 31 then 1 else if doy <? 59 + f then 2 else if doy <? 90 + f then 3
  else if doy <? 120 + f then 4 else if doy <? 151 + f then 5
  else if doy <? 181 + f then 6 else if doy <? 212 + f then 7
  else if doy <? 243 + f then 8 else if doy <? 273 + f then 9
  else if doy <? 304 + f then 10 else if doy <? 334 + f then 11 else 12.

Record civil := Civil { c_year : Z; c_month : Z; c_day : Z; c_sec : Z }.

(** The date and the second of the day of an instant, in UTC. *)
Definition civil_of (t : Z) : civil :=
  let s := t / 10 ^ 9 in
  let n := s / 86400 + unix_day in
  let y := year_of n in
  let doy := n - days_before_year y in
  let m := month_of doy (leap y) in
  Civil y m (doy - days_before_month m (leap y) + 1) (s mod 86400).

(** ** [Time.Format(time.RFC3339)] in UTC *)

Definition dig (n : Z) : ascii := ascii_of_nat (Z.to_nat (48 + n mod 10)).

Fixpoint dec_digits (fuel : nat) (n : Z) (acc : string) : string :=
  match fuel with
  | O => acc
  | S f => if n =? 0 then acc else dec_digits f (n / 10) (String (dig n) acc)
  end.

(** Zero padded to two and to four digits; a year outside 0..9999 is printed
    with all its digits. *)
Definition pad2 (n : Z) (rest : string) : string :=
  String (dig (n / 10)) (String (dig n) rest).
Definition pad4 (n : Z) (rest : string) : string :=
  if (0 <=? n) && (n <? 10000)
  then String (dig (n / 1000)) (String (dig (n / 100)) (String (dig (n / 10)) (String (dig n) rest)))
  else if n <? 0
  then (if n <? -9999 then ("-" +:+ dec_digits 20 (- n) "") +:+ rest
        else String "-" (String (dig (- n / 1000)) (String (dig (- n / 100))
               (String (dig (- n / 10)) (String (dig (- n)) rest)))))
  else dec_digits 20 n "" +:+ rest.

Definition Format (t : Z) : string :=
  let c := civil_of t in
  pad4 (c_year c) (String "-" (pad2 (c_month c) (String "-" (pad2 (c_day c) (String "T"
    (pad2 (c_sec c / 3600) (String ":" (pad2 (c_sec c / 60 mod 60) (String ":"
      (pad2 (c_sec c mod 60) "Z")))))))))).

(** ** [time.Parse(time.RFC3339, value)] *)

Definition digit_val (a : ascii) : option Z :=
  let n := Z.of_nat (nat_of_ascii a) in
  if (48 <=? n) && (n <=? 57) then Some (n - 48) else None.

(** Leading decimal digits: their value, how many, and the rest. *)
Fixpoint leadingInt (x : Z) (l : list ascii) : Z * list ascii :=
  match l with
  | a :: l' => match digit_val a with
               | Some d => leadingInt (x * 10 + d) l'
               | None => (x, l)
               end
  | [] => (x, [])
  end.

(** The package's [atoi]: an optional sign, then digits only. *)
Definition atoi (l : list ascii) : option Z :=
  let '(neg, l') := match l with
                    | "-"%char :: l' => (true, l')
                    | "+"%char :: l' => (false, l')
                    | _ => (false, l)
                    end in
  match leadingInt 0 l' with
  | (x, []) => Some (if neg : bool then - x else x)
  | _ => None
  end.

Definition getnum (fixed : bool) (l : list ascii) : option (Z * list ascii) :=
  match l with
  | a :: l' =>
      d ← digit_val a;
      match l' with
      | b :: l'' => match digit_val b with
                    | Some e => Some (d * 10 + e, l'')
                    | None => if fixed then None else Some (d, l')
                    end
      | [] => if fixed then None else Some (d, l')
      end
  | [] => None
  end.

Definition expect (c : ascii) (l : list ascii) : option (list ascii) :=
  match l with
  | a :: l' => if Ascii.eqb a c then Some l' else None
  | [] => None
  end.

Definition get_year (l : list ascii) : option (Z * list ascii) :=
  match l with
  | a :: b :: c :: d :: l' =>
      _ ← digit_val a; y ← atoi [a; b; c; d]; Some (y, l')
  | _ => None
  end.

(** A fraction after the seconds although the layout has none. *)
Definition get_frac (l : list ascii) : option (Z * list ascii) :=
  match l with
  | p :: d :: _ =>
      if (Ascii.eqb p "." || Ascii.eqb p ",") && bool_decide (is_Some (digit_val d)) then
        let '(x, rest) := leadingInt 0 (tail l) in
        let nd := Z.of_nat (length (tail l)) - Z.of_nat (length rest) in
        if x <? 10 ^ 9 then Some (x * 10 ^ Z.max 0 (9 - nd), rest) else None
      else Some (0, l)
  | _ => Some (0, l)
  end.

(** The zone: [Z], or a sign and [hh:mm]; the offset in seconds. *)
Definition get_zone (l : list ascii) : option (Z * list ascii) :=
  match l with
  | "Z"%char :: l' => Some (0, l')
  | sg :: h1 :: h2 :: c :: m1 :: m2 :: l' =>
      if negb (Ascii.eqb c ":") then None else
      hr ← atoi [h1; h2]; mm ← atoi [m1; m2];
      let off := (hr * 60 + mm) * 60 in
      if Ascii.eqb sg "+" then Some (off, l')
      else if Ascii.eqb sg "-" then Some (- off, l') else None
  | _ => None
  end.

Definition in_range (lo x hi : Z) : option unit :=
  if (lo <=? x) && (x <? hi) then Some tt else None.

Definition Parse (s : string) : option Z :=
  '(y, l) ← get_year (String.list_ascii_of_string s);
  l ← expect "-" l; '(m, l) ← getnum true l; _ ← in_range 1 m 13;
  l ← expect "-" l; '(d, l) ← getnum true l;
  l ← expect "T" l; '(hh, l) ← getnum false l; _ ← in_range 0 hh 24;
  l ← expect ":" l; '(mi, l) ← getnum true l; _ ← in_range 0 mi 60;
  l ← expect ":" l; '(ss, l) ← getnum true l; _ ← in_range 0 ss 60;
  '(ns, l) ← get_frac l;
  '(off, l) ← get_zone l;
  _ ← in_range 1 d (days_in m y + 1);
  match l with
  | [] => Some (date_ns y m d hh mi ss ns - off * 10 ^ 9)
  | _ => None
  end.

Example parse_epoch : Parse "1970-01-01T00:00:00Z" = Some 0.
Proof. reflexivity. Qed.
Example parse_offset : Parse "2021-03-04T5:06:07.5+01:00" = Some (1614830767 * 10 ^ 9 + 5 * 10 ^ 8).
Proof. reflexivity. Qed.
Example parse_bad_day : Parse "2021-02-29T00:00:00Z" = None.
Proof. reflexivity. Qed.
Example format_ex : Format (1614830767 * 10 ^ 9 + 5) = "2021-03-04T04:06:07Z".
Proof. reflexivity. Qed.

(** ** Calendar facts *)

Lemma days_before_year_mono y1 y2 : y1 ≤ y2 → days_before_year y1 ≤ days_before_year y2.
Proof. unfold days_before_year. intros H. Z.to_euclidean_division_equations. lia. Qed.

Lemma year_of_spec n : days_before_year (year_of n) ≤ n < days_before_year (year_of n + 1).
Proof.
  unfold year_of. set (y0 := 400 * n / 146097).
  assert (Hy0 : 146097 * y0 ≤ 400 * n < 146097 * y0 + 146097)
    by (subst y0; Z.to_euclidean_division_equations; lia).
  clearbody y0.
  destruct (Z.ltb_spec n (days_before_year y0)) as [Hlt|Hge];
    [|destruct (Z.leb_spec (days_before_year (y0 + 1)) n) as [Hle|Hgt]].
  - split; [|by replace (y0 - 1 + 1) with y0 by lia].
    unfold days_before_year in *. Z.to_euclidean_division_equations. lia.
  - split; [done|].
    unfold days_before_year in *. Z.to_euclidean_division_equations. lia.
  - lia.
Qed.

Lemma year_length y :
  days_before_year (y + 1) - days_before_year y = if leap y then 366 else 365.
Proof.
  unfold days_before_year, leap.
  destruct (Z.eqb_spec (y mod 4) 0), (Z.eqb_spec (y mod 100) 0), (Z.eqb_spec (y mod 400) 0);
    simpl; Z.to_euclidean_division_equations; lia.
Qed.

Ltac split_ifs :=
  repeat match goal with
  | |- context [if (?a <? ?b) then _ else _] => destruct (Z.ltb_spec a b)
  | |- context [if (?a =? ?b) then _ else _] => destruct (Z.eqb_spec a b); [try lia|]
  end.

Lemma month_of_spec doy l :
  0 ≤ doy < (if l : bool then 366 else 365) →
  1 ≤ month_of doy l ≤ 12 ∧
  days_before_month (month_of doy l) l ≤ doy < days_before_month (month_of doy l + 1) l.
Proof. intros H. unfold month_of. destruct l; split_ifs; unfold days_before_month; simpl; lia. Qed.

Lemma month_of_mono d1 d2 l : d1 ≤ d2 → month_of d1 l ≤ month_of d2 l.
Proof. intros H. unfold month_of. destruct l; split_ifs; lia. Qed.

Lemma civil_of_spec t :
  let c := civil_of t in
  1 ≤ c_month c ≤ 12 ∧ 1 ≤ c_day c ≤ days_in (c_month c) (c_year c) ∧
  0 ≤ c_sec c < 86400 ∧
  t / 10 ^ 9 = (days_before_year (c_year c) + days_before_month (c_month c) (leap (c_year c))
                + (c_day c - 1) - unix_day) * 86400 + c_sec c.
Proof.
  unfold civil_of. cbv zeta. cbn [c_year c_month c_day c_sec].
  set (s := t / 10 ^ 9). set (n := s / 86400 + unix_day).
  pose proof (year_of_spec n) as Hy. pose proof (year_length (year_of n)) as Hl.
  destruct (month_of_spec (n - days_before_year (year_of n)) (leap (year_of n))) as [Hm1 Hm2].
  { destruct (leap _); lia. }
  split; [done|]. split; [unfold days_in; lia|].
  pose proof (Z.mod_pos_bound s 86400). split; [lia|].
  pose proof (Z.div_mod s 86400). subst n. lia.
Qed.

Lemma days_in_le m y : 1 ≤ m ≤ 12 → days_in m y ≤ 31.
Proof.
  intros Hm. unfold days_in, days_before_month.
  assert (m = 1 ∨ m = 2 ∨ m = 3 ∨ m = 4 ∨ m = 5 ∨ m = 6 ∨ m = 7 ∨ m = 8 ∨ m = 9
          ∨ m = 10 ∨ m = 11 ∨ m = 12) as Hc by lia.
  destruct (leap y); destruct_or! Hc; subst; simpl; lia.
Qed.

(** ** Order of the printed keys *)

Lemma dig_range n : 48 ≤ Z.of_nat (nat_of_ascii (dig n)) ≤ 57 ∧
  Z.of_nat (nat_of_ascii (dig n)) = 48 + n mod 10.
Proof.
  unfold dig. pose proof (Z.mod_pos_bound n 10 ltac:(lia)).
  rewrite nat_ascii_embedding by lia. lia.
Qed.

Lemma dig_compare a b : Ascii.compare (dig a) (dig b) = (a mod 10 ?= b mod 10).
Proof.
  unfold Ascii.compare. pose proof (dig_range a) as [_ Ha]. pose proof (dig_range b) as [_ Hb].
  rewrite <- N2Z.inj_compare. unfold nat_of_ascii in *. rewrite !N_nat_Z in *.
  rewrite Ha, Hb.
  destruct (Z.compare_spec (a mod 10) (b mod 10));
    [apply Z.compare_eq_iff|apply Z.compare_lt_iff|apply Z.compare_gt_iff]; lia.
Qed.

Lemma string_compare_cons c1 c2 s1 s2 :
  String.compare (String c1 s1) (String c2 s2)
  = match Ascii.compare c1 c2 with Eq => String.compare s1 s2 | c => c end.
Proof. reflexivity. Qed.

Lemma string_compare_same c s1 s2 :
  String.compare (String c s1) (String c s2) = String.compare s1 s2.
Proof.
  rewrite string_compare_cons. unfold Ascii.compare. by rewrite N.compare_refl.
Qed.

Lemma pad2_compare a b s1 s2 :
  0 ≤ a < 100 → 0 ≤ b < 100 →
  String.compare (pad2 a s1) (pad2 b s2)
  = match a ?= b with Eq => String.compare s1 s2 | c => c end.
Proof.
  intros Ha Hb. unfold pad2. rewrite !string_compare_cons, !dig_compare.
  rewrite (Z.mod_small (a / 10)), (Z.mod_small (b / 10))
    by (Z.to_euclidean_division_equations; lia).
  destruct (Z.compare_spec (a / 10) (b / 10)), (Z.compare_spec (a mod 10) (b mod 10)),
    (Z.compare_spec a b); try done; Z.to_euclidean_division_equations; lia.
Qed.

Lemma pad4_compare a b s1 s2 :
  0 ≤ a < 10000 → 0 ≤ b < 10000 →
  String.compare (pad4 a s1) (pad4 b s2)
  = match a ?= b with Eq => String.compare s1 s2 | c => c end.
Proof.
  intros Ha Hb.
  assert (Hp : ∀ n s, 0 ≤ n < 10000 → pad4 n s = pad2 (n / 100) (pad2 (n mod 100) s)).
  { intros n s Hn. unfold pad4, pad2.
    replace ((0 <=? n) && (n <? 10000)) with true by lia.
    assert (Hd : ∀ u v, u mod 10 = v mod 10 → dig u = dig v)
      by (intros u v Huv; unfold dig; by rewrite Huv).
    rewrite (Hd (n / 1000) (n / 100 / 10)), (Hd (n / 10) (n mod 100 / 10)),
      (Hd n (n mod 100)); [done|..]; Z.to_euclidean_division_equations; lia. }
  rewrite !Hp by done.
  rewrite !pad2_compare by (Z.to_euclidean_division_equations; lia).
  destruct (Z.compare_spec (a / 100) (b / 100)), (Z.compare_spec (a mod 100) (b mod 100)),
    (Z.compare_spec a b); try done; Z.to_euclidean_division_equations; lia.
Qed.

(** Instants whose year prints with four digits. *)
Definition four_digit_year (t : Z) : Prop := 0 ≤ c_year (civil_of t) < 10000.

Lemma month_cases m : 1 ≤ m ≤ 12 →
  m = 1 ∨ m = 2 ∨ m = 3 ∨ m = 4 ∨ m = 5 ∨ m = 6 ∨ m = 7 ∨ m = 8 ∨ m = 9
  ∨ m = 10 ∨ m = 11 ∨ m = 12.
Proof. lia. Qed.

Lemma days_before_month_bounds m l :
  1 ≤ m ≤ 12 →
  0 ≤ days_before_month m l ≤ days_before_month (m + 1) l ∧
  days_before_month (m + 1) l ≤ (if l then 366 else 365).
Proof.
  intros Hm%month_cases. unfold days_before_month. destruct l; destruct_or! Hm; subst; simpl; lia.
Qed.

Lemma days_before_month_mono m m' l :
  1 ≤ m → m < m' → m' ≤ 12 → days_before_month (m + 1) l ≤ days_before_month m' l.
Proof.
  intros H1 H2 H3. replace m' with (m + 1 + Z.of_nat (Z.to_nat (m' - m - 1))) in * by lia.
  induction (Z.to_nat (m' - m - 1)) as [|k IH]; [by rewrite Z.add_0_r|].
  transitivity (days_before_month (m + 1 + Z.of_nat k) l); [apply IH; lia|].
  replace (m + 1 + Z.of_nat (S k)) with ((m + 1 + Z.of_nat k) + 1) by lia.
  apply days_before_month_bounds. lia.
Qed.

Definition valid_civil (c : civil) : Prop :=
  1 ≤ c_month c ≤ 12 ∧ 1 ≤ c_day c ≤ days_in (c_month c) (c_year c).

Definition civil_day (c : civil) : Z :=
  days_before_year (c_year c) + days_before_month (c_month c) (leap (c_year c)) + c_day c.

Lemma civil_day_lt c c' :
  valid_civil c → valid_civil c' →
  (c_year c < c_year c' ∨ c_year c = c_year c' ∧ c_month c < c_month c') →
  civil_day c < civil_day c'.
Proof.
  intros [Hm Hd] [Hm' Hd'] H. unfold days_in, civil_day in *.
  pose proof (days_before_month_bounds _ (leap (c_year c)) Hm).
  pose proof (days_before_month_bounds _ (leap (c_year c')) Hm').
  pose proof (year_length (c_year c)).
  destruct H as [H|[Hy H]].
  - pose proof (days_before_year_mono (c_year c + 1) (c_year c') ltac:(lia)).
    destruct (leap (c_year c)); lia.
  - pose proof (days_before_month_mono (c_month c) (c_month c') (leap (c_year c'))
      ltac:(lia) H ltac:(lia)). rewrite Hy in *. lia.
Qed.

Lemma civil_of_order t1 t2 :
  let c1 := civil_of t1 in let c2 := civil_of t2 in
  (t1 / 10 ^ 9 ?= t2 / 10 ^ 9) =
  match c_year c1 ?= c_year c2 with
  | Eq => match c_month c1 ?= c_month c2 with
          | Eq => match c_day c1 ?= c_day c2 with
                  | Eq => c_sec c1 ?= c_sec c2
                  | c => c
                  end
          | c => c
          end
  | c => c
  end.
Proof.
  cbv zeta.
  pose proof (civil_of_spec t1) as (Hm1 & Hd1 & Hs1 & E1).
  pose proof (civil_of_spec t2) as (Hm2 & Hd2 & Hs2 & E2).
  pose proof (civil_day_lt (civil_of t1) (civil_of t2) (conj Hm1 Hd1) (conj Hm2 Hd2)) as L12.
  pose proof (civil_day_lt (civil_of t2) (civil_of t1) (conj Hm2 Hd2) (conj Hm1 Hd1)) as L21.
  unfold civil_day in *. clear Hm1 Hd1 Hm2 Hd2.
  destruct (Z.compare_spec (c_year (civil_of t1)) (c_year (civil_of t2))) as [Ey|?|?];
    [destruct (Z.compare_spec (c_month (civil_of t1)) (c_month (civil_of t2))) as [Em|?|?];
     [destruct (Z.compare_spec (c_day (civil_of t1)) (c_day (civil_of t2)));
      [destruct (Z.compare_spec (c_sec (civil_of t1)) (c_sec (civil_of t2)))|..]|..]|..];
    try rewrite Ey in *; try rewrite Em in *;
    first [apply Z.compare_eq_iff; lia|apply Z.compare_lt_iff; lia|apply Z.compare_gt_iff; lia].
Qed.

(** Keys printed by [Format] compare as bytes like the seconds they stand for. *)
Theorem Format_order t1 t2 :
  four_digit_year t1 → four_digit_year t2 →
  String.compare (Format t1) (Format t2) = (t1 / 10 ^ 9 ?= t2 / 10 ^ 9).
Proof.
  intros Hy1 Hy2. rewrite civil_of_order. unfold Format, four_digit_year in *. cbv zeta.
  destruct (civil_of_spec t1) as (Hm1 & Hd1 & Hs1 & _).
  destruct (civil_of_spec t2) as (Hm2 & Hd2 & Hs2 & _).
  pose proof (days_in_le _ (c_year (civil_of t1)) Hm1).
  pose proof (days_in_le _ (c_year (civil_of t2)) Hm2).
  rewrite pad4_compare by done.
  do 5 (rewrite string_compare_same, pad2_compare by
    (Z.to_euclidean_division_equations; lia)).
  generalize dependent (c_sec (civil_of t1)). generalize dependent (c_sec (civil_of t2)).
  intros s2 Hs2 s1 Hs1.
  assert ((s1 ?= s2) = match s1 / 3600 ?= s2 / 3600 with
     | Eq => match s1 / 60 mod 60 ?= s2 / 60 mod 60 with
             | Eq => s1 mod 60 ?= s2 mod 60 | c => c end | c => c end) as ->.
  { destruct (Z.compare_spec (s1 / 3600) (s2 / 3600)),
      (Z.compare_spec (s1 / 60 mod 60) (s2 / 60 mod 60)),
      (Z.compare_spec (s1 mod 60) (s2 mod 60)), (Z.compare_spec s1 s2);
      try done; Z.to_euclidean_division_equations; lia. }
  by repeat case_match.
Qed.

(** ** Parsing undoes printing *)

Lemma digit_val_dig n : digit_val (dig n) = Some (n mod 10).
Proof.
  unfold digit_val. destruct (dig_range n) as [H1 H2]. rewrite H2.
  replace ((48 <=? 48 + n mod 10) && (48 + n mod 10 <=? 57)) with true by lia.
  f_equal. lia.
Qed.

Lemma atoi_digits a l d : digit_val a = Some d →
  atoi (a :: l) = match leadingInt 0 (a :: l) with (x, []) => Some x | _ => None end.
Proof. destruct a as [[] [] [] [] [] [] [] []]; try done. Qed.

Lemma getnum_pad2 b n l : 0 ≤ n < 100 →
  getnum b (dig (n / 10) :: dig n :: l) = Some (n, l).
Proof.
  intros Hn. unfold getnum. rewrite !digit_val_dig. simpl. do 2 f_equal.
  Z.to_euclidean_division_equations; lia.
Qed.

Lemma get_year_pad4 n l : 0 ≤ n < 10000 →
  get_year (dig (n / 1000) :: dig (n / 100) :: dig (n / 10) :: dig n :: l) = Some (n, l).
Proof.
  intros Hn. unfold get_year. rewrite digit_val_dig.
  rewrite (atoi_digits _ _ _ (digit_val_dig _)). cbn [leadingInt].
  rewrite !digit_val_dig. simpl. do 2 f_equal. Z.to_euclidean_division_equations; lia.
Qed.

Lemma in_range_ok lo x hi : lo ≤ x < hi → in_range lo x hi = Some tt.
Proof. intros H. unfold in_range. by replace ((lo <=? x) && (x <? hi)) with true by lia. Qed.

(** An instant printed by [Format] is read back as its second. *)
Theorem Parse_Format t :
  four_digit_year t → Parse (Format t) = Some (t / 10 ^ 9 * 10 ^ 9).
Proof.
  intros Hy. unfold four_digit_year in Hy.
  destruct (civil_of_spec t) as (Hm & Hd & Hs & E).
  pose proof (days_in_le _ (c_year (civil_of t)) Hm).
  unfold Format, pad4, pad2. cbv zeta.
  replace ((0 <=? c_year (civil_of t)) && (c_year (civil_of t) <? 10000)) with true by lia.
  unfold Parse. cbn [String.list_ascii_of_string].
  rewrite get_year_pad4 by done. cbn [mbind option_bind expect Ascii.eqb Bool.eqb].
  assert (Hsec : 0 ≤ c_sec (civil_of t) / 3600 < 24 ∧ 0 ≤ c_sec (civil_of t) / 60 mod 60 < 60
    ∧ 0 ≤ c_sec (civil_of t) mod 60 < 60) by (Z.to_euclidean_division_equations; lia).
  destruct Hsec as (Hh & Hmi & Hss).
  do 5 (rewrite getnum_pad2 by lia; cbn [mbind option_bind expect Ascii.eqb Bool.eqb];
    try (rewrite in_range_ok by lia; cbn [mbind option_bind expect Ascii.eqb Bool.eqb])).
  unfold get_frac, get_zone. cbn [mbind option_bind Ascii.eqb Bool.eqb andb orb].
  cbn [mbind option_bind]. f_equal.
  unfold date_ns. rewrite E.
  generalize (c_sec (civil_of t)). intros s. Z.to_euclidean_division_equations. lia.
Qed.
