(* ===== verification/KvStorage.v ===== *)
(** * The key-value storage contract

    [kv.Storage] of the plugin API is what the kv plugin knows of a driver.
    [Storage] lists its operations on a driver state, [StorageLaws] is the
    abstract specification a driver is shown to implement: a finite map from
    keys to values.  The drivers under [memory/memorykv], [boltdb/boltkv],
    [redis/kv] and [memcached/memcachedkv] are instances (files KvMemory, KvBolt
    and KvRemote); the RPC layer (file KvPlugin) is
    verified against the classes only. *)

From stdpp Require Import base gmap strings list.
From S2P Require Import Prelude Rfc3339.

(** [kvv1.Item], the protobuf message of an entry; a nil and an empty [Value]
    are the same sequence of bytes. *)
Record Item := MkItem { Key : string; Value : bytes; Timeout : string }.

Global Instance Item_eq_dec : EqDecision Item.
Proof. solve_decision. Defined.

(** The keys of [m] that occur in [ks]. *)
Definition restrict {A} (ks : list string) (m : gmap string A) : gmap string A :=
  filter (λ kv, kv.1 ∈ ks) m.

(** What storing a list of entries does to the map of values. *)
Definition put_items (its : list Item) (m : gmap string bytes) : gmap string bytes :=
  foldl (λ m it, <[Key it := Value it]> m) m its.

Definition delete_keys {A} (ks : list string) (m : gmap string A) : gmap string A :=
  foldl (λ m k, delete k m) m ks.

(** A time to live that the drivers accept: none, or an RFC 3339 instant. *)
Definition good_timeout (s : string) : bool :=
  String.eqb s "" || bool_decide (is_Some (Parse s)).

(** Rejects the first blank key; the loop [MGet], [TTL] and [Delete] open with. *)
Fixpoint check_keys (op : string) (ks : list string) : option error :=
  match ks with
  | [] => None
  | k :: ks' => if blank_key k then Some (EOp op (EKind EmptyKey)) else check_keys op ks'
  end.

Class Storage (D : Type) := {
  st_Has : slice string → D → res (gmap string bool);
  st_MGet : slice string → D → res (gmap string bytes);
  st_Set : slice (option Item) → D → D * res unit;
  st_MExpire : slice (option Item) → D → D * res unit;
  st_TTL : slice string → D → res (gmap string string);
  st_Delete : slice string → D → D * res unit;
  st_Clear : D → D * res unit;
  (** [None]: the call blocks for ever *)
  st_Stop : D → option D;
}.

Class StorageLaws (D : Type) `{Storage D} := {
  st_inv : D → Prop;
  st_abs : D → gmap string bytes;
  (** which keys the driver can look up and which entries it can store now *)
  st_key_ok : string → Prop;
  st_item_ok : D → Item → Prop;
  st_Has_abs d ks : st_inv d → Forall st_key_ok ks →
    st_Has (Some ks) d = Ok ((λ _, true) <$> restrict ks (st_abs d));
  st_MGet_abs d ks : st_inv d → Forall st_key_ok ks →
    st_MGet (Some ks) d = Ok (restrict ks (st_abs d));
  st_Set_abs d its : st_inv d →
    Forall (λ it, st_item_ok d it ∧ good_timeout (Timeout it) = true) its →
    ∃ d', st_Set (Some (Some <$> its)) d = (d', Ok tt) ∧ st_inv d' ∧
      st_abs d' = put_items its (st_abs d);
  st_Delete_abs d ks : st_inv d → Forall st_key_ok ks →
    ∃ d', st_Delete (Some ks) d = (d', Ok tt) ∧ st_inv d' ∧
      st_abs d' = delete_keys ks (st_abs d);
  st_Clear_abs d : st_inv d →
    ∃ d', st_Clear d = (d', Ok tt) ∧ st_inv d' ∧ st_abs d' = ∅;
}.

(** ** Shared facts *)

Lemma lookup_restrict {A} ks (m : gmap string A) k :
  restrict ks m !! k = if decide (k ∈ ks) then m !! k else None.
Proof.
  unfold restrict. case_decide as Hk.
  - destruct (m !! k) as [a|] eqn:E.
    + by apply map_lookup_filter_Some.
    + apply map_lookup_filter_None. by left.
  - apply map_lookup_filter_None. right. intros a _. simpl. done.
Qed.

Lemma lookup_delete_keys {A} ks (m : gmap string A) k :
  delete_keys ks m !! k = if decide (k ∈ ks) then None else m !! k.
Proof. apply lookup_foldl_delete. Qed.

(** The value of a key after storing entries is that of its last entry. *)
Fixpoint last_value (k : string) (its : list Item) : option bytes :=
  match its with
  | [] => None
  | it :: its' =>
      match last_value k its' with
      | Some v => Some v
      | None => if decide (Key it = k) then Some (Value it) else None
      end
  end.

Lemma lookup_put_items its m k :
  put_items its m !! k =
  match last_value k its with Some v => Some v | None => m !! k end.
Proof.
  unfold put_items. revert m. induction its as [|it its IH]; intros m; [done|].
  simpl. rewrite IH, lookup_insert. destruct (last_value k its); [done|].
  repeat case_decide; done.
Qed.

Lemma check_keys_None op ks :
  check_keys op ks = None ↔ Forall (λ k, blank_key k = false) ks.
Proof.
  induction ks as [|k ks IH]; simpl; [split; [constructor|done]|].
  rewrite Forall_cons. destruct (blank_key k); [split; [done|by intros []]|].
  rewrite IH. naive_solver.
Qed.

(** The loop that copies the values found under [ks] into a fresh map. *)
Definition collect {A B} (f : A → B) (ks : list string) (h : gmap string A)
    (m : gmap string B) : gmap string B :=
  foldl (λ m k, match h !! k with Some a => <[k := f a]> m | None => m end) m ks.

Lemma lookup_collect {A B} (f : A → B) ks h m k :
  collect f ks h m !! k =
  if decide (k ∈ ks) then match h !! k with Some a => Some (f a) | None => m !! k end
  else m !! k.
Proof.
  unfold collect. revert m. induction ks as [|k0 ks IH]; intros m.
  { rewrite decide_False by apply not_elem_of_nil. done. }
  simpl.
  rewrite IH. destruct (decide (k0 = k)) as [->|Hne].
  - rewrite (decide_True (P := k ∈ k :: ks)) by set_solver.
    destruct (h !! k); case_decide; by simplify_map_eq.
  - replace (match h !! k0 with Some a => <[k0:=f a]> m | None => m end !! k) with (m !! k)
      by (destruct (h !! k0); by simplify_map_eq).
    repeat case_decide; set_solver.
Qed.

Lemma collect_restrict {A B} (f : A → B) ks h :
  collect f ks h ∅ = f <$> restrict ks h.
Proof.
  apply map_eq. intros k. rewrite lookup_collect, lookup_fmap, lookup_restrict, lookup_empty.
  case_decide; [|done]. by destruct (h !! k).
Qed.

Create Rewrite HintDb kv.
#[export] Hint Rewrite @lookup_restrict @lookup_delete_keys lookup_put_items @lookup_collect : kv.
