(* ===== verification/KvMemory.v ===== *)
(** * The in-memory key-value driver ([memory/memorykv])

    The driver keeps a [sync.Map] from keys to the items that were set; a
    goroutine sweeps expired items on every tick of a timer.  Every operation
    of [kv.go] is a function on the driver state; the sweep takes the order in
    which [sync.Map.Range] visits the entries as an argument. *)

From stdpp Require Import base gmap strings list.
From Stdlib Require Import ZArith.
From S2P Require Import Prelude Rfc3339 KvStorage.

Module MemoryKv.

(** [Config] and its defaults. *)
Record Config := MkConfig { Interval : Z }.

Definition InitDefaults (c : Config) : Config :=
  if (Interval c =? 0)%Z then MkConfig 60 else c.

(** [gc_running]: the sweeping goroutine waits for a tick or for [Stop]. *)
Record Driver := MkDriver {
  heap : gmap string Item;
  cfg : Config;
  gc_running : bool
}.

Definition with_heap (h : gmap string Item) (d : Driver) : Driver :=
  MkDriver h (cfg d) (gc_running d).

(** [unmarshal] is the configuration plugin's [UnmarshalKey]: the section found
    under the key, or nothing. *)
Definition NewInMemoryDriver (unmarshal : string → res (option Config)) (key : string)
    : res Driver :=
  let op := "new_in_memory_driver" in
  match unmarshal key with
  | Err e => Err (EOp op e)
  | Panic => Panic
  | Ok None => Err (EOp op (EErrorf "config not found by provided key: %s" [key]))
  | Ok (Some c) => Ok (MkDriver ∅ (InitDefaults c) true)
  end.

Fixpoint has_loop (op : string) (ks : list string) (h : gmap string Item)
    (m : gmap string bool) : res (gmap string bool) :=
  match ks with
  | [] => Ok m
  | k :: ks' =>
      if blank_key k then Err (EOp op (EKind EmptyKey))
      else has_loop op ks' h (match h !! k with Some _ => <[k := true]> m | None => m end)
  end.

Definition Has (keys : slice string) (d : Driver) : res (gmap string bool) :=
  let op := "in_memory_plugin_has" in
  match keys with
  | None => Err (EOp op (EKind NoKeys))
  | Some ks => has_loop op ks (heap d) ∅
  end.

Definition Get (key : string) (d : Driver) : res (option bytes) :=
  let op := "in_memory_plugin_get" in
  if blank_key key then Err (EOp op (EKind EmptyKey))
  else Ok (Value <$> heap d !! key).

Definition MGet (keys : slice string) (d : Driver) : res (gmap string bytes) :=
  let op := "in_memory_plugin_mget" in
  match keys with
  | None => Err (EOp op (EKind NoKeys))
  | Some ks =>
      match check_keys op ks with
      | Some e => Err e
      | None => Ok (collect Value ks (heap d) ∅)
      end
  end.

(** The error [time.Parse] reports is returned as it is. *)
Definition parse_error (s : string) : error := EErrorf "parsing time %q as RFC3339" [s].

Fixpoint set_loop (items : list (option Item)) (h : gmap string Item)
    : gmap string Item * res unit :=
  match items with
  | [] => (h, Ok tt)
  | None :: items' => set_loop items' h
  | Some it :: items' =>
      if negb (String.eqb (Timeout it) "") && bool_decide (Parse (Timeout it) = None)
      then (h, Err (parse_error (Timeout it)))
      else set_loop items' (<[Key it := it]> h)
  end.

Definition Set_ (items : slice (option Item)) (d : Driver) : Driver * res unit :=
  let op := "in_memory_plugin_set" in
  match items with
  | None => (d, Err (EOp op (EKind NoKeys)))
  | Some its => let '(h, r) := set_loop its (heap d) in (with_heap h d, r)
  end.

(** [LoadAndDelete], then the check of the timestamp, then [Store]. *)
Fixpoint mexpire_loop (op : string) (items : list (option Item)) (h : gmap string Item)
    : gmap string Item * res unit :=
  match items with
  | [] => (h, Ok tt)
  | None :: items' => mexpire_loop op items' h
  | Some it :: items' =>
      if String.eqb (Timeout it) "" || blank_key (Key it)
      then (h, Err (EOp op (EStr "should set timeout and at least one key")))
      else
        match h !! Key it with
        | Some pItem =>
            let h' := delete (Key it) h in
            match Parse (Timeout it) with
            | None => (h', Err (EOp op (parse_error (Timeout it))))
            | Some _ =>
                mexpire_loop op items'
                  (<[Key it := MkItem (Key it) (Value pItem) (Timeout it)]> h')
            end
        | None => mexpire_loop op items' h
        end
  end.

Definition MExpire (items : slice (option Item)) (d : Driver) : Driver * res unit :=
  let op := "in_memory_plugin_mexpire" in
  let '(h, r) := mexpire_loop op (default [] items) (heap d) in (with_heap h d, r).

Definition TTL (keys : slice string) (d : Driver) : res (gmap string string) :=
  let op := "in_memory_plugin_ttl" in
  match keys with
  | None => Err (EOp op (EKind NoKeys))
  | Some ks =>
      match check_keys op ks with
      | Some e => Err e
      | None => Ok (collect Timeout ks (heap d) ∅)
      end
  end.

Definition Delete (keys : slice string) (d : Driver) : Driver * res unit :=
  let op := "in_memory_plugin_delete" in
  match keys with
  | None => (d, Err (EOp op (EKind NoKeys)))
  | Some ks =>
      match check_keys op ks with
      | Some e => (d, Err e)
      | None => (with_heap (delete_keys ks (heap d)) d, Ok tt)
      end
  end.

Definition Clear (d : Driver) : Driver * res unit := (with_heap ∅ d, Ok tt).

(** The send on [stop] is received by the sweeping goroutine, which returns;
    with no such goroutine left the send blocks forever ([None]). *)
Definition Stop (d : Driver) : option Driver :=
  if gc_running d then Some (MkDriver (heap d) (cfg d) false) else None.

(** One sweep: [order] is the sequence in which [Range] visits the entries; the
    callback returns false, which ends the range, on an unreadable timestamp. *)
Fixpoint gc_range (now : Z) (order : list (string * Item)) (h : gmap string Item)
    : gmap string Item :=
  match order with
  | [] => h
  | (k, v) :: order' =>
      if String.eqb (Timeout v) "" then gc_range now order' h
      else match Parse (Timeout v) with
           | None => h
           | Some t => if (t <? now)%Z then gc_range now order' (delete k h)
                       else gc_range now order' h
           end
  end.

Definition gc_tick (now : Z) (order : list (string * Item)) (d : Driver) : Driver :=
  if gc_running d then with_heap (gc_range now order (heap d)) d else d.

(** ** Invariant: an entry sits under its own key and its timestamp is readable *)

Definition entry_ok (k : string) (it : Item) : Prop :=
  Key it = k ∧ good_timeout (Timeout it) = true.

Definition inv (d : Driver) : Prop := map_Forall entry_ok (heap d).

(** The operations other goroutines may interleave. *)
Inductive step : Driver → Driver → Prop :=
  | step_Set items d : step d (Set_ items d).1
  | step_MExpire items d : step d (MExpire items d).1
  | step_Delete keys d : step d (Delete keys d).1
  | step_Clear d : step d (Clear d).1
  | step_Stop d d' : Stop d = Some d' → step d d'
  | step_gc now order d : order ≡ₚ map_to_list (heap d) → step d (gc_tick now order d).

Lemma good_timeout_spec s : good_timeout s = true ↔ s = "" ∨ is_Some (Parse s).
Proof.
  unfold good_timeout. rewrite orb_true_iff, String.eqb_eq, bool_decide_eq_true. done.
Qed.

Lemma bad_timeout_test s :
  negb (String.eqb s "") && bool_decide (Parse s = None) = negb (good_timeout s).
Proof.
  unfold good_timeout. destruct (String.eqb s ""); [done|]. simpl.
  destruct (Parse s) as [t|] eqn:E; [|done].
  rewrite bool_decide_eq_false_2, bool_decide_eq_true_2; eauto.
Qed.

Lemma set_loop_inv its h :
  map_Forall entry_ok h → map_Forall entry_ok (set_loop its h).1.
Proof.
  revert h. induction its as [|[it|] its IH]; intros h Hh; simpl; [done| |by apply IH].
  rewrite bad_timeout_test. destruct (good_timeout (Timeout it)) eqn:E; simpl; [|done].
  apply IH. apply map_Forall_insert_2; [|done]. by split.
Qed.

Lemma mexpire_loop_inv op its h :
  map_Forall entry_ok h → map_Forall entry_ok (mexpire_loop op its h).1.
Proof.
  revert h. induction its as [|[it|] its IH]; intros h Hh; simpl; [done| |by apply IH].
  case_match; [done|]. destruct (h !! Key it) as [p|] eqn:Ep; [|by apply IH].
  assert (map_Forall entry_ok (delete (Key it) h)) by by apply map_Forall_delete.
  destruct (Parse (Timeout it)) eqn:Et; simpl; [|done].
  apply IH, map_Forall_insert_2; [|done]. split; [done|].
  apply good_timeout_spec. right. simpl. by rewrite Et.
Qed.

Lemma delete_keys_inv ks h :
  map_Forall entry_ok h → map_Forall entry_ok (delete_keys ks h).
Proof.
  intros Hh k it Hk. rewrite lookup_delete_keys in Hk.
  case_decide; [done|]. by apply Hh.
Qed.

Lemma gc_range_inv now order h :
  map_Forall entry_ok h → map_Forall entry_ok (gc_range now order h).
Proof.
  revert h. induction order as [|[k v] order IH]; intros h Hh; simpl; [done|].
  repeat case_match; auto. by apply IH, map_Forall_delete.
Qed.

Create HintDb memkv.
#[local] Hint Resolve set_loop_inv mexpire_loop_inv delete_keys_inv gc_range_inv : memkv.

Lemma step_inv d d' : step d d' → inv d → inv d'.
Proof.
  unfold inv. intros Hs Hd. inversion Hs; subst; clear Hs.
  - destruct items as [its|]; simpl; [|done].
    pose proof (set_loop_inv its (heap d) Hd). by destruct (set_loop its (heap d)).
  - unfold MExpire. set (op := "in_memory_plugin_mexpire").
    pose proof (mexpire_loop_inv op (default [] items) (heap d) Hd).
    by destruct (mexpire_loop op (default [] items) (heap d)).
  - unfold Delete. repeat case_match; simpl; auto with memkv.
  - apply map_Forall_empty.
  - unfold Stop in *. by case_match; simplify_eq.
  - unfold gc_tick. case_match; simpl; auto with memkv.
Qed.

Lemma rtc_step_inv d d' : rtc step d d' → inv d → inv d'.
Proof. induction 1; eauto using step_inv. Qed.

(** ** The sweep *)

Definition expired (now : Z) (it : Item) : Prop :=
  Timeout it ≠ "" ∧ ∃ t, Parse (Timeout it) = Some t ∧ (t < now)%Z.

#[global] Instance expired_dec now it : Decision (expired now it).
Proof.
  unfold expired. destruct (decide (Timeout it = "")); [right; by intros []|].
  destruct (Parse (Timeout it)) as [t|]; [|right; by intros (_ & ? & ? & _)].
  destruct (decide (t < now)%Z); [left; eauto|right].
  intros (_ & t' & ? & ?). by simplify_eq.
Defined.

Lemma gc_range_lookup now order h k :
  Forall (λ kv, good_timeout (Timeout kv.2) = true) order →
  gc_range now order h !! k =
  if decide (Exists (λ kv, kv.1 = k ∧ expired now kv.2) order) then None else h !! k.
Proof.
  revert h. induction order as [|[k0 v] order IH]; intros h Hg.
  { rewrite decide_False; [done|]. by intros ?%Exists_nil. }
  apply Forall_cons in Hg as [Hv Hg]. simpl in Hv |- *.
  apply good_timeout_spec in Hv.
  assert (Hskip : ¬ expired now v → gc_range now order h !! k =
    if decide (Exists (λ kv, kv.1 = k ∧ expired now kv.2) ((k0, v) :: order))
    then None else h !! k).
  { intros Hne. rewrite (IH h Hg). apply decide_ext. rewrite Exists_cons. simpl. naive_solver. }
  destruct (String.eqb_spec (Timeout v) "") as [Ev|Ev].
  { apply Hskip. by intros []. }
  destruct Hv as [?|[t Ht]]; [done|]. rewrite Ht.
  destruct (Z.ltb_spec t now) as [Hlt|Hge].
  - assert (expired now v) by (split; eauto). rewrite (IH _ Hg).
    destruct (decide (k0 = k)) as [->|Hne].
    + rewrite lookup_delete_eq. symmetry. rewrite decide_True by by left. by destruct (decide _).
    + rewrite lookup_delete_ne by done. apply decide_ext. rewrite Exists_cons. naive_solver.
  - apply Hskip. intros [_ (t' & ? & ?)]. simplify_eq. lia.
Qed.

Lemma map_Forall_order (P : string → Item → Prop) order (h : gmap string Item) :
  order ≡ₚ map_to_list h → map_Forall P h → Forall (λ kv, P kv.1 kv.2) order.
Proof.
  intros Ho Hh. rewrite Ho. apply Forall_forall. intros [k it] Hin.
  apply Hh. by apply elem_of_map_to_list in Hin.
Qed.

(** ** Stored entries *)

Definition store_items (its : list (option Item)) (h : gmap string Item) : gmap string Item :=
  foldl (λ h oit, match oit with Some it => <[Key it := it]> h | None => h end) h its.

Definition bad_item (oit : option Item) : bool :=
  match oit with Some it => negb (good_timeout (Timeout it)) | None => false end.

Lemma set_loop_split its h :
  (set_loop its h = (store_items its h, Ok tt) ∧ Forall (λ o, bad_item o = false) its) ∨
  ∃ pre it post, its = pre ++ Some it :: post ∧ Forall (λ o, bad_item o = false) pre ∧
    good_timeout (Timeout it) = false ∧
    set_loop its h = (store_items pre h, Err (parse_error (Timeout it))).
Proof.
  revert h. induction its as [|[it|] its IH]; intros h; simpl.
  - left. split; [done|constructor].
  - rewrite bad_timeout_test. destruct (good_timeout (Timeout it)) eqn:E; simpl.
    + destruct (IH (<[Key it:=it]> h)) as [[-> ?]|(pre & it' & post & -> & Hpre & Hb & ->)].
      * left. split; [done|]. constructor; [simpl; by rewrite E|done].
      * right. exists (Some it :: pre), it', post. split_and!; try done.
        constructor; [simpl; by rewrite E|done].
    + right. exists [], it, its. split_and!; [done|constructor|done|done].
  - destruct (IH h) as [[-> ?]|(pre & it' & post & -> & Hpre & Hb & ->)].
    + left. split; [done|]. by constructor.
    + right. exists (None :: pre), it', post. split_and!; try done. by constructor.
Qed.

Lemma store_items_values its h :
  Value <$> store_items (Some <$> its) h = put_items its (Value <$> h).
Proof.
  unfold store_items, put_items. revert h. induction its as [|it its IH]; intros h; [done|].
  simpl. by rewrite IH, fmap_insert.
Qed.

Lemma delete_keys_fmap {A B} (f : A → B) ks (h : gmap string A) :
  f <$> delete_keys ks h = delete_keys ks (f <$> h).
Proof.
  apply map_eq. intros k. rewrite lookup_fmap, !lookup_delete_keys, lookup_fmap.
  by case_decide.
Qed.

Lemma has_loop_ok op ks h m :
  Forall (λ k, blank_key k = false) ks →
  has_loop op ks h m = Ok (collect (λ _, true) ks h m).
Proof.
  intros H. revert m. induction H as [|k ks Hk _ IH]; intros m; simpl; [done|].
  by rewrite Hk, IH.
Qed.

(** ** The driver implements the storage contract *)

#[global] Instance memory_storage : Storage Driver := {
  st_Has := Has; st_MGet := MGet; st_Set := Set_; st_MExpire := MExpire;
  st_TTL := TTL; st_Delete := Delete; st_Clear := Clear; st_Stop := Stop }.

#[global] Program Instance memory_storage_laws : StorageLaws Driver := {
  st_inv := inv; st_abs d := Value <$> heap d; st_key_ok k := blank_key k = false; st_item_ok _ _ := True }.
Next Obligation.
  intros d ks _ Hks. simpl. unfold Has. rewrite has_loop_ok by done.
  rewrite collect_restrict. f_equal. apply map_eq. intros k.
  rewrite !lookup_fmap, !lookup_restrict, lookup_fmap. case_decide; [|done].
  by destruct (heap d !! k).
Qed.
Next Obligation.
  intros d ks _ Hks. simpl. apply (check_keys_None "in_memory_plugin_mget") in Hks as Hc.
  rewrite Hc, collect_restrict. f_equal. apply map_eq. intros k.
  rewrite !lookup_fmap, !lookup_restrict, lookup_fmap. by case_decide.
Qed.
Next Obligation.
  intros d its Hd Hits. simpl.
  pose proof (set_loop_inv (Some <$> its) (heap d) Hd) as Hinv.
  destruct (set_loop_split (Some <$> its) (heap d))
    as [[Hs _]|(pre & it & post & Heq & _ & Hb & _)].
  - rewrite Hs in Hinv |- *. simpl in *. eexists. split_and!; [done|done|].
    apply store_items_values.
  - exfalso. assert (Some it ∈ (Some <$> its)) as (it' & ? & Hin)%list_elem_of_fmap
      by (rewrite Heq; set_solver). simplify_eq.
    rewrite Forall_forall in Hits. apply Hits in Hin as [_ Hg]. congruence.
Qed.
Next Obligation.
  intros d ks Hd Hks. simpl. unfold Delete.
  apply (check_keys_None "in_memory_plugin_delete") in Hks as ->.
  eexists. split_and!; [done|by apply delete_keys_inv|]. apply delete_keys_fmap.
Qed.
Next Obligation.
  intros d Hd. simpl. eexists. split_and!; [done|apply map_Forall_empty|apply fmap_empty].
Qed.

(** ** Theorems *)

(** Whatever [Set], [MExpire], [Delete], [Clear], [Stop] calls and sweeps
    follow the construction of the driver, every entry is stored under its own
    key and carries a timestamp the sweep can read. *)
Theorem memory_reachable_inv unmarshal key d0 d :
  NewInMemoryDriver unmarshal key = Ok d0 → rtc step d0 d → inv d.
Proof.
  unfold NewInMemoryDriver. intros Hnew Hr. apply (rtc_step_inv d0 d Hr).
  repeat case_match; simplify_eq. apply map_Forall_empty.
Qed.

Definition ex_item (k ttl : string) : Item := MkItem k "v" ttl.
Definition ex_driver : Driver := MkDriver ∅ (MkConfig 60) true.

Lemma memory_reachable_inv_witness :
  inv (Set_ (Some [Some (ex_item "a" "2030-01-01T00:00:00Z")]) ex_driver).1.
Proof.
  apply (memory_reachable_inv (λ _, Ok (Some (MkConfig 0))) "kv.memory.config" ex_driver).
  - reflexivity.
  - apply rtc_once. constructor.
Defined.

(** [Set] stores the items before the first one whose timeout cannot be read
    as RFC 3339 and reports that timeout; without such an item it stores all. *)
Theorem memory_Set_prefix its d :
  ∃ pre post, its = pre ++ post ∧ Forall (λ o, bad_item o = false) pre ∧
    heap (Set_ (Some its) d).1 = store_items pre (heap d) ∧
    ((post = [] ∧ (Set_ (Some its) d).2 = Ok tt) ∨
     ∃ it post', post = Some it :: post' ∧ good_timeout (Timeout it) = false ∧
       (Set_ (Some its) d).2 = Err (parse_error (Timeout it))).
Proof.
  unfold Set_. destruct (set_loop_split its (heap d))
    as [[-> H]|(pre & it & post & -> & Hpre & Hb & ->)]; simpl.
  - exists its, []. rewrite app_nil_r. naive_solver.
  - exists pre, (Some it :: post). split_and!; [done..|]. right. eauto.
Qed.

(** The timeout the last request for [k] asks for. *)
Fixpoint last_timeout (k : string) (its : list (option Item)) : option string :=
  match its with
  | [] => None
  | o :: its' =>
      match last_timeout k its' with
      | Some t => Some t
      | None => match o with
                | Some it => if decide (Key it = k) then Some (Timeout it) else None
                | None => None
                end
      end
  end.

Definition set_timeout (o : option string) (it : Item) : Item :=
  MkItem (Key it) (Value it) (default (Timeout it) o).

Lemma mexpire_loop_ok op its h h' :
  map_Forall entry_ok h → mexpire_loop op its h = (h', Ok tt) →
  ∀ k, h' !! k = set_timeout (last_timeout k its) <$> h !! k.
Proof.
  revert h. induction its as [|[it|] its IH]; intros h Hh Hl k; simpl in *.
  - simplify_eq. destruct (h' !! k) as [[]|]; done.
  - case_match; [done|]. destruct (h !! Key it) as [p|] eqn:Ep.
    + destruct (Parse (Timeout it)) as [t|] eqn:Et; [|done].
      pose proof (Hh _ _ Ep) as [Hk _].
      apply IH with (k := k) in Hl.
      * rewrite Hl, lookup_insert. destruct (decide (Key it = k)) as [Hkk|Hne].
        -- subst k. rewrite Ep. simpl. unfold set_timeout. simpl. rewrite Hk.
           by destruct (last_timeout _ its).
        -- rewrite lookup_delete_ne by done. by destruct (last_timeout k its).
      * apply map_Forall_insert_2; [|by apply map_Forall_delete].
        split; [done|]. apply good_timeout_spec. simpl. rewrite Et. eauto.
    + rewrite (IH h Hh Hl k). destruct (last_timeout k its); [done|].
      case_decide as Hd; [|done]. subst. by rewrite Ep.
  - rewrite (IH h Hh Hl k). by destruct (last_timeout k its).
Qed.

(** A successful [MExpire] replaces the timeouts of the existing keys it
    names by the last timeout asked for and changes nothing else. *)
Theorem memory_MExpire_ok its d d' :
  inv d → MExpire (Some its) d = (d', Ok tt) →
  ∀ k, heap d' !! k = set_timeout (last_timeout k its) <$> heap d !! k.
Proof.
  unfold MExpire. simpl. intros Hd H.
  destruct (mexpire_loop _ its (heap d)) as [h r] eqn:E. simplify_eq.
  by apply (mexpire_loop_ok _ _ _ _ Hd E).
Qed.

Definition ex_two : Driver :=
  with_heap {[ "a" := ex_item "a" ""; "b" := ex_item "b" "2020-01-01T00:00:00Z" ]} ex_driver.

Lemma ex_two_inv : inv ex_two.
Proof.
  apply map_Forall_insert_2; [by split|]. apply map_Forall_singleton. by split.
Defined.

Lemma memory_MExpire_ok_witness :
  heap (MExpire (Some [Some (ex_item "a" "2030-01-01T00:00:00Z")]) ex_two).1 !! "a"
  = Some (ex_item "a" "2030-01-01T00:00:00Z").
Proof.
  rewrite (memory_MExpire_ok [Some (ex_item "a" "2030-01-01T00:00:00Z")] ex_two _ ex_two_inv)
    by (vm_compute; reflexivity).
  vm_compute. reflexivity.
Defined.

(** A request to expire an existing key at an unreadable instant returns an
    error and removes the key: the entry was taken out of the map before the
    timestamp was checked. *)
Theorem memory_MExpire_bad_timestamp_drops_key it d p :
  blank_key (Key it) = false → Timeout it ≠ "" → Parse (Timeout it) = None →
  heap d !! Key it = Some p →
  MExpire (Some [Some it]) d =
    (with_heap (delete (Key it) (heap d)) d,
     Err (EOp "in_memory_plugin_mexpire" (parse_error (Timeout it)))).
Proof.
  intros Hk Ht%String.eqb_neq Hp Hh. unfold MExpire. simpl. by rewrite Hk, Ht, Hh, Hp.
Qed.

Lemma memory_MExpire_bad_timestamp_drops_key_witness :
  heap (MExpire (Some [Some (ex_item "a" "tomorrow")]) ex_two).1 !! "a" = None.
Proof.
  rewrite (memory_MExpire_bad_timestamp_drops_key (ex_item "a" "tomorrow") ex_two (ex_item "a" ""))
    by (first [discriminate|vm_compute; reflexivity]).
  vm_compute. reflexivity.
Defined.

(** C22: in whatever order the sweep visits the entries, it removes exactly those
    whose timestamp lies before the tick. *)
Theorem memory_gc_exact now order d :
  inv d → gc_running d = true → order ≡ₚ map_to_list (heap d) →
  heap (gc_tick now order d) = filter (λ kv, ¬ expired now kv.2) (heap d).
Proof.
  intros Hd Hr Ho. unfold gc_tick. rewrite Hr. simpl. apply map_eq. intros k.
  rewrite gc_range_lookup.
  2:{ eapply Forall_impl; [exact (map_Forall_order _ _ _ Ho Hd)|]. by intros [k' it] [_ ?]. }
  assert (Hex : Exists (λ kv, kv.1 = k ∧ expired now kv.2) order ↔
                ∃ it, heap d !! k = Some it ∧ expired now it).
  { rewrite Exists_exists. setoid_rewrite Ho. split.
    - intros ([k' it] & Hin & Hk & He). simpl in *. subst.
      apply elem_of_map_to_list in Hin. eauto.
    - intros (it & Hin & He). exists (k, it). by rewrite elem_of_map_to_list. }
  symmetry. destruct (decide (Exists _ order)) as [Hx|Hx].
  - apply Hex in Hx as (it & Hk & He). apply map_lookup_filter_None. right. simpl.
    intros it' ? Hn. by simplify_eq.
  - destruct (heap d !! k) as [it|] eqn:Hk.
    + apply map_lookup_filter_Some. split; [done|]. simpl. intros He. apply Hx, Hex. eauto.
    + apply map_lookup_filter_None. by left.
Qed.

Lemma memory_gc_exact_witness :
  heap (gc_tick (1700000000 * 10 ^ 9) (map_to_list (heap ex_two)) ex_two)
  = {[ "a" := ex_item "a" "" ]}.
Proof.
  rewrite (memory_gc_exact _ _ ex_two ex_two_inv) by reflexivity.
  vm_compute. reflexivity.
Defined.

End MemoryKv.
