(* ===== verification/Bolt.v ===== *)
(** * The database the boltdb drivers are written against ([go.etcd.io/bbolt])

    bbolt is not part of the repository.  [Bolt] lists the calls the drivers
    make, [BoltLaws] states what its documentation promises of them: a database
    is a set of named buckets of key/value pairs, a writable transaction works
    on a copy that [Commit] installs, a cursor visits an unmodified bucket in
    byte order of the keys.  The drivers are parametric in both classes;
    [MapBolt] is a concrete instance on which definitions are evaluated. *)

From stdpp Require Import base gmap strings list sorting.
From Stdlib Require Import ZArith.
From S2P Require Import Prelude.

Abbreviation buckets := (gmap string (gmap string bytes)).

Class Bolt := {
  DB : Type;
  Tx : Type;
  (** what a reader sees of a database and of a transaction *)
  db_pairs : DB → buckets;
  tx_pairs : Tx → buckets;
  Begin : DB → Tx + error;
  CreateBucketIfNotExists : string → Tx → Tx * option error;
  CreateBucket : string → Tx → Tx * option error;
  DeleteBucket : string → Tx → Tx * option error;
  bucket_exists : string → Tx → bool;
  Get : string → string → Tx → option bytes;
  Put : string → string → bytes → Tx → Tx * option error;
  Del : string → string → Tx → Tx * option error;
  (** the pairs a cursor visits in a bucket nobody modifies meanwhile *)
  entries : string → Tx → list (string * bytes);
  Commit : Tx → DB → DB * option error;
  Close : DB → DB * option error
}.

(** Keys are not empty and at most 32768 bytes long, values at most 2^31 - 2. *)
Definition key_ok (k : string) : Prop := (0 < Z.of_nat (String.length k) ≤ 32768)%Z.
Definition value_ok (v : bytes) : Prop := (Z.of_nat (String.length v) ≤ 2 ^ 31 - 2)%Z.

Definition key_le (kv1 kv2 : string * bytes) : Prop := String.compare kv1.1 kv2.1 ≠ Gt.

Class BoltLaws `{Bolt} := {
  (** open, on a disk that works *)
  db_ok : DB → Prop;
  db_ok_Begin db : db_ok db → ∃ tx, Begin db = inl tx;
  db_ok_Commit tx db : db_ok db → ∃ db', Commit tx db = (db', None) ∧ db_ok db';
  Begin_pairs db tx : Begin db = inl tx → tx_pairs tx = db_pairs db;
  Commit_pairs tx db db' : Commit tx db = (db', None) → db_pairs db' = tx_pairs tx;
  Commit_error tx db db' e : Commit tx db = (db', Some e) → db_pairs db' = db_pairs db;
  CreateBucketIfNotExists_pairs b tx tx' : CreateBucketIfNotExists b tx = (tx', None) →
    tx_pairs tx' = <[b := default ∅ (tx_pairs tx !! b)]> (tx_pairs tx);
  CreateBucket_pairs b tx : b ≠ "" → tx_pairs tx !! b = None →
    ∃ tx', CreateBucket b tx = (tx', None) ∧ tx_pairs tx' = <[b := ∅]> (tx_pairs tx);
  DeleteBucket_pairs b tx : is_Some (tx_pairs tx !! b) →
    ∃ tx', DeleteBucket b tx = (tx', None) ∧ tx_pairs tx' = delete b (tx_pairs tx);
  bucket_exists_pairs b tx : bucket_exists b tx = true ↔ is_Some (tx_pairs tx !! b);
  Get_pairs b k tx m : tx_pairs tx !! b = Some m → Get b k tx = m !! k;
  Put_ok b k v tx m : tx_pairs tx !! b = Some m → key_ok k → value_ok v →
    ∃ tx', Put b k v tx = (tx', None);
  Put_pairs b k v tx tx' : Put b k v tx = (tx', None) →
    tx_pairs tx' = alter (<[k := v]>) b (tx_pairs tx);
  Put_empty_key b v tx : ∃ tx' e, Put b "" v tx = (tx', Some e);
  Put_error b k v tx tx' e : Put b k v tx = (tx', Some e) → tx_pairs tx' = tx_pairs tx;
  Del_ok b k tx m : tx_pairs tx !! b = Some m →
    ∃ tx', Del b k tx = (tx', None) ∧ tx_pairs tx' = alter (delete k) b (tx_pairs tx);
  entries_sorted b tx : StronglySorted key_le (entries b tx);
  entries_pairs b tx m : tx_pairs tx !! b = Some m → entries b tx ≡ₚ map_to_list m
}.

(** [db.Update(fn)]: the transaction is committed when [fn] returns nil, and
    rolled back otherwise. *)
Definition Update `{Bolt} (fn : Tx → Tx * option error) (db : DB) : DB * option error :=
  match Begin db with
  | inl tx => match fn tx with
             | (tx', None) => Commit tx' db
             | (_, Some e) => (db, Some e)
             end
  | inr e => (db, Some e)
  end.

(** [db.View(fn)]: a read-only transaction. *)
Definition View `{Bolt} {A} (fn : Tx → res A) (db : DB) : res A :=
  match Begin db with
  | inl tx => fn tx
  | inr e => Err e
  end.

Lemma Update_ok `{BoltLaws} fn db tx tx' :
  db_ok db → Begin db = inl tx → fn tx = (tx', None) →
  ∃ db', Update fn db = (db', None) ∧ db_ok db' ∧ db_pairs db' = tx_pairs tx'.
Proof.
  intros Hok Hb Hfn. destruct (db_ok_Commit tx' db Hok) as (db' & Hc & Hok').
  exists db'. unfold Update. rewrite Hb, Hfn. split_and!; [done..|].
  by apply (Commit_pairs _ _ _ Hc).
Qed.

Lemma Update_pairs `{BoltLaws} fn db db' r :
  Update fn db = (db', r) →
  db_pairs db' = db_pairs db ∨
  ∃ tx tx', Begin db = inl tx ∧ fn tx = (tx', None) ∧ r = None ∧ db_pairs db' = tx_pairs tx'.
Proof.
  unfold Update. destruct (Begin db) as [tx|e]; [|intros [= <- <-]; by left].
  destruct (fn tx) as [tx' [e|]] eqn:E; [intros [= <- <-]; by left|].
  intros Hc. destruct r as [e|].
  - left. by apply (Commit_error _ _ _ _ Hc).
  - right. exists tx, tx'. split_and!; try done. by apply (Commit_pairs _ _ _ Hc).
Qed.

(** ** A concrete database *)

Section MapBolt.

Fixpoint insert_entry (kv : string * bytes) (l : list (string * bytes)) :=
  match l with
  | [] => [kv]
  | kv' :: l' => match String.compare kv.1 kv'.1 with
                 | Gt => kv' :: insert_entry kv l'
                 | _ => kv :: l
                 end
  end.

Definition sort_entries (l : list (string * bytes)) : list (string * bytes) :=
  foldr insert_entry [] l.

Definition key_okb (k : string) : bool :=
  ((0 <? Z.of_nat (String.length k)) && (Z.of_nat (String.length k) <=? 32768))%Z.
Definition value_okb (v : bytes) : bool := (Z.of_nat (String.length v) <=? 2 ^ 31 - 2)%Z.

Definition no_bucket : error := EStr "bucket not found".

Definition MapBolt : Bolt := {|
  DB := buckets; Tx := buckets; db_pairs := id; tx_pairs := id;
  Begin := inl;
  CreateBucketIfNotExists b m := (<[b := default ∅ (m !! b)]> m, None);
  CreateBucket b m := match m !! b with
                      | Some _ => (m, Some (EStr "bucket already exists"))
                      | None => (<[b := ∅]> m, None)
                      end;
  DeleteBucket b m := match m !! b with
                      | Some _ => (delete b m, None)
                      | None => (m, Some no_bucket)
                      end;
  bucket_exists b m := bool_decide (is_Some (m !! b));
  Get b k m := m !! b ≫= lookup k;
  Put b k v m := if key_okb k && value_okb v then (alter (<[k := v]>) b m, None)
                 else (m, Some (EStr "key or value size"));
  Del b k m := (alter (delete k) b m, None);
  entries b m := sort_entries (map_to_list (default ∅ (m !! b)));
  Commit tx _ := (tx, None);
  Close db := (db, None)
|}.

End MapBolt.

Lemma string_compare_antisym s1 s2 : String.compare s2 s1 = CompOpp (String.compare s1 s2).
Proof. apply String.compare_antisym. Qed.

Lemma key_le_total a b : String.compare a.1 b.1 = Gt → key_le b a.
Proof. intros H. unfold key_le. by rewrite string_compare_antisym, H. Qed.

Lemma key_le_trans a b c : key_le a b → key_le b c → key_le a c.
Proof.
  assert (Hs : ∀ s1 s2, String.compare s1 s2 ≠ Gt ↔ String.leb s1 s2 = true).
  { intros s1 s2. unfold String.leb. by destruct (String.compare s1 s2). }
  unfold key_le. rewrite !Hs. intros H1 H2.
  apply Is_true_true. apply (transitivity (R := String.le) (y := b.1)); by apply Is_true_true.
Qed.

Lemma insert_entry_perm kv l : insert_entry kv l ≡ₚ kv :: l.
Proof.
  induction l as [|kv' l IH]; simpl; [done|].
  destruct (String.compare kv.1 kv'.1); [done..|]. rewrite IH. apply Permutation_swap.
Qed.

Lemma insert_entry_sorted kv l :
  StronglySorted key_le l → StronglySorted key_le (insert_entry kv l).
Proof.
  induction 1 as [|kv' l Hs IH Hf]; simpl; [by repeat constructor|].
  destruct (String.compare kv.1 kv'.1) eqn:E.
  1,2: assert (key_le kv kv') by (unfold key_le; by rewrite E);
    constructor; [by constructor|]; constructor; [done|];
    eapply Forall_impl; [exact Hf|]; intros; by eapply key_le_trans.
  constructor; [done|]. rewrite insert_entry_perm. constructor; [by apply key_le_total|done].
Qed.

#[export] Program Instance MapBoltLaws : @BoltLaws MapBolt := {| db_ok _ := True |}.
Solve All Obligations with (cbn; intros; simplify_eq; eauto).
Next Obligation.
  cbn. intros b tx _ Hb. rewrite Hb. eauto.
Qed.
Next Obligation.
  cbn. intros b tx [m Hb]. rewrite Hb. eauto.
Qed.
Next Obligation. cbn. intros b tx. apply bool_decide_eq_true. Qed.
Next Obligation. cbn. intros b k tx m Hm. unfold id in Hm. by rewrite Hm. Qed.
Next Obligation.
  cbn. intros b k v tx m _ Hk Hv.
  replace (key_okb k && value_okb v) with true; [eauto|].
  unfold key_okb, value_okb, key_ok, value_ok in *. lia.
Qed.
Next Obligation. cbn. intros b k v tx tx' H. by case_match; simplify_eq. Qed.
Next Obligation. cbn. intros b k v tx tx' e H. by case_match; simplify_eq. Qed.
Next Obligation.
  cbn. intros b tx. unfold sort_entries.
  induction (map_to_list _); simpl; [constructor|by apply insert_entry_sorted].
Qed.
Next Obligation.
  cbn. intros b tx m Hm. unfold id in Hm. rewrite Hm. unfold sort_entries. simpl.
  induction (map_to_list m) as [|kv l IH]; simpl; [done|]. by rewrite insert_entry_perm, IH.
Qed.
