(* ===== verification/KvBolt.v ===== *)
(** * The boltdb key-value driver ([boltdb/boltkv])

    Values live in one bucket of a bbolt database (file Bolt), encoded with
    [encoding/gob]; times to live are kept beside it in a [sync.Map], which a
    goroutine sweeps.  Every operation of [driver.go] is a function on the
    driver state, parametric in the database. *)

From stdpp Require Import base gmap strings list.
From Stdlib Require Import ZArith Ascii.
From Stdlib Require String.
From S2P Require Import Prelude Rfc3339 KvStorage Bolt.

(** ** The gob encoding of a byte slice and of a string

    A gob message is its length, the type identifier, a zero byte and the value;
    unsigned integers below 128 take one byte, larger ones a negated byte count
    and the bytes, most significant first.  A decoder that is handed a message
    of another basic type reports an error. *)
Module Gob.

Definition byte (n : Z) : ascii := ascii_of_nat (Z.to_nat n).
Definition val (a : ascii) : Z := Z.of_nat (nat_of_ascii a).

Fixpoint be_bytes (fuel : nat) (n : Z) (acc : list ascii) : list ascii :=
  match fuel with
  | O => acc
  | S f => if (n =? 0)%Z then acc else be_bytes f (n / 256) (byte (n mod 256) :: acc)
  end.

Definition be_val (x : Z) (l : list ascii) : Z := foldl (λ x b, x * 256 + val b)%Z x l.

Definition put_uint (n : Z) : list ascii :=
  if (n <? 128)%Z then [byte n]
  else let bs := be_bytes 8 n [] in byte (256 - Z.of_nat (length bs)) :: bs.

Definition get_uint (l : list ascii) : option (Z * list ascii) :=
  match l with
  | [] => None
  | b :: l' =>
      if (val b <? 128)%Z then Some (val b, l')
      else let k := Z.to_nat (256 - val b) in
           if (8 <? k) || (length l' <? k) then None
           else Some (be_val 0 (take k l'), drop k l')
  end.

Definition tBytes : Z := 5.
Definition tString : Z := 6.

Definition encode (t : Z) (s : bytes) : bytes :=
  let d := String.list_ascii_of_string s in
  let body := byte (2 * t) :: byte 0 :: put_uint (Z.of_nat (length d)) ++ d in
  String.string_of_list_ascii (put_uint (Z.of_nat (length body)) ++ body).

Definition decode (t : Z) (s : bytes) : option bytes :=
  '(n, l) ← get_uint (String.list_ascii_of_string s);
  if (Z.of_nat (length l) <? n)%Z then None else
  '(id, l) ← get_uint (take (Z.to_nat n) l);
  if negb (id =? 2 * t)%Z then None else
  match l with
  | z :: l => if negb (val z =? 0)%Z then None else
      '(m, d) ← get_uint l;
      if (Z.of_nat (length d) <? m)%Z then None
      else Some (String.string_of_list_ascii (take (Z.to_nat m) d))
  | [] => None
  end.

Lemma val_byte n : (0 ≤ n < 256)%Z → val (byte n) = n.
Proof. intros H. unfold val, byte. rewrite nat_ascii_embedding; lia. Qed.

Lemma be_val_bytes f n acc :
  (0 ≤ n < 256 ^ Z.of_nat f)%Z → be_val 0 (be_bytes f n acc) = be_val n acc.
Proof.
  revert n acc. induction f as [|f IH]; intros n acc Hn.
  { simpl in *. by replace n with 0%Z by lia. }
  cbn [be_bytes]. destruct (Z.eqb_spec n 0) as [->|Hz]; [done|].
  rewrite Nat2Z.inj_succ, Z.pow_succ_r in Hn by lia. rewrite IH.
  - unfold be_val. cbn [foldl]. f_equal. rewrite val_byte by (apply Z.mod_pos_bound; lia).
    pose proof (Z.div_mod n 256 ltac:(lia)). lia.
  - split; [apply Z.div_pos; lia|apply Z.div_lt_upper_bound; lia].
Qed.

Lemma be_bytes_length f n acc :
  length acc ≤ length (be_bytes f n acc) ≤ f + length acc ∧
  ((0 < n)%Z → f ≠ 0 → length acc < length (be_bytes f n acc)).
Proof.
  revert n acc. induction f as [|f IH]; intros n acc; simpl; [lia|].
  destruct (Z.eqb_spec n 0); [lia|].
  specialize (IH (n / 256)%Z (byte (n mod 256) :: acc)). simpl in IH. lia.
Qed.

Lemma get_put_uint n l :
  (0 ≤ n < 2 ^ 64)%Z → get_uint (put_uint n ++ l) = Some (n, l).
Proof.
  intros Hn. unfold put_uint. destruct (Z.ltb_spec n 128) as [Hlt|Hge]; cbv zeta;
    cbn [app get_uint].
  { rewrite val_byte by lia. by replace (n <? 128)%Z with true by lia. }
  pose proof (be_bytes_length 8 n []) as [Hl Hl'].
  pose proof (be_val_bytes 8 n [] ltac:(lia)) as Hv.
  remember (be_bytes 8 n []) as bs eqn:Hbs. clear Hbs. cbn [length] in Hl, Hl'.
  rewrite val_byte by lia. replace (256 - Z.of_nat (length bs) <? 128)%Z with false by lia.
  replace (Z.to_nat (256 - (256 - Z.of_nat (length bs)))) with (length bs) by lia.
  rewrite length_app.
  rewrite orb_false_intro by (apply Nat.ltb_ge; lia).
  rewrite take_app_length, drop_app_length. do 2 f_equal.
  exact Hv.
Qed.

Lemma put_uint_length n : length (put_uint n) ≤ 9.
Proof.
  unfold put_uint. destruct (n <? 128)%Z; cbn [length]; [lia|].
  pose proof (be_bytes_length 8 n []) as [Hb _]. cbn [length] in Hb. lia.
Qed.

Definition gob_size_ok (s : bytes) : Prop := (Z.of_nat (String.length s) < 2 ^ 32)%Z.

Lemma length_list_ascii s : length (String.list_ascii_of_string s) = String.length s.
Proof. induction s; simpl; congruence. Qed.

Lemma decode_encode t t' s :
  (0 ≤ t < 64)%Z → gob_size_ok s →
  decode t' (encode t s) = if (t =? t')%Z then Some s else None.
Proof.
  intros Ht Hs. unfold decode, encode, gob_size_ok in *.
  rewrite String.list_ascii_of_string_of_list_ascii.
  set (d := String.list_ascii_of_string s).
  assert (Hd : length d = String.length s) by apply length_list_ascii.
  pose proof (put_uint_length (Z.of_nat (length d))) as Hp.
  set (body := byte (2 * t) :: byte 0 :: put_uint (Z.of_nat (length d)) ++ d).
  assert (length body = 2 + length (put_uint (Z.of_nat (length d))) + length d)
    by (simpl; rewrite length_app; lia).
  rewrite get_put_uint by lia. cbn [mbind option_bind].
  rewrite Z.ltb_irrefl, Nat2Z.id, take_ge by lia.
  assert (Hhead : ∀ n l', (0 ≤ n < 128)%Z → get_uint (byte n :: l') = Some (n, l')).
  { intros n l' Hn. cbn [get_uint]. rewrite val_byte by lia.
    by replace (n <? 128)%Z with true by lia. }
  unfold body. rewrite Hhead by lia. cbn [mbind option_bind].
  destruct (Z.eqb_spec (2 * t) (2 * t')) as [E|E]; cbn [negb].
  2:{ by replace (t =? t')%Z with false by lia. }
  replace (t =? t')%Z with true by lia.
  rewrite val_byte by lia. cbn [Z.eqb negb].
  rewrite get_put_uint by lia. cbn [mbind option_bind].
  rewrite Z.ltb_irrefl, Nat2Z.id, take_ge by lia.
  unfold d. by rewrite String.string_of_list_ascii_of_string.
Qed.

End Gob.

Module BoltKv.

Record Config := MkConfig {
  File : string; bucket : string; Permissions : Z; Interval : Z }.

Definition InitDefaults (s : Config) : Config :=
  MkConfig (if String.eqb (File s) "" then "rr.db" else File s)
           "default"
           (if (Permissions s =? 0)%Z then 511 (* 0777 *) else Permissions s)
           (if (Interval s =? 0)%Z then 60 else Interval s).

Definition parse_error (s : string) : error := EErrorf "parsing time %q as RFC3339" [s].
Definition gob_error : error := EStr "gob: wrong type received for the local value".

Section Driver.
Context `{B : Bolt}.

(** [gc] maps keys to times to live; [gc_running] as in the memory driver. *)
Record Driver := MkDriver {
  d_db : DB; d_bucket : string; d_cfg : Config;
  gc : gmap string string; gc_running : bool }.

Definition with_db (db : DB) (d : Driver) : Driver :=
  MkDriver db (d_bucket d) (d_cfg d) (gc d) (gc_running d).
Definition with_gc (g : gmap string string) (d : Driver) : Driver :=
  MkDriver (d_db d) (d_bucket d) (d_cfg d) g (gc_running d).

(** [has], [unmarshal]: the configuration plugin; [open]: [bolt.Open].  A section
    that is missing leaves [d.cfg] nil, and [InitDefaults] writes through it. *)
Definition NewBoltDBDriver (has : string → bool) (unmarshal : string → res (option Config))
    (open : string → Z → DB + error) (key : string) : res Driver :=
  let op := "new_boltdb_driver" in
  if negb (has "kv") then Err (EOp op (EStr "no kv section in the configuration")) else
  match unmarshal key with
  | Err e => Err (EOp op e)
  | Panic => Panic
  | Ok None => Panic
  | Ok (Some c0) =>
      let c := InitDefaults c0 in
      match open (File c) (Permissions c) with
      | inr e => Err (EOp op e)
      | inl db =>
          let create tx :=
            match CreateBucketIfNotExists (bucket c) tx with
            | (tx', Some _) => (tx', Some (EOp op (EStr "boltdb_plugin_update")))
            | (tx', None) => (tx', None)
            end in
          match Update create db with
          | (_, Some e) => Err (EOp op e)
          | (db', None) => Ok (MkDriver db' (bucket c) c ∅ true)
          end
      end
  end.

Fixpoint has_loop (op bkt : string) (ks : list string) (m : gmap string bool) (tx : Tx)
    : res (gmap string bool) :=
  match ks with
  | [] => Ok m
  | k :: ks' =>
      if blank_key k then Err (EOp op (EKind EmptyKey))
      else if negb (bucket_exists bkt tx) then Err (EOp op (EKind NoSuchBucket))
      else has_loop op bkt ks' (match Bolt.Get bkt k tx with
                                | Some _ => <[k := true]> m
                                | None => m
                                end) tx
  end.

Definition Has (keys : slice string) (d : Driver) : res (gmap string bool) :=
  let op := "boltdb_driver_has" in
  match keys with
  | None => Err (EOp op (EKind NoKeys))
  | Some ks => wrap_err op (View (has_loop op (d_bucket d) ks ∅) (d_db d))
  end.

(** The stored message is decoded into a string variable. *)
Definition Get (key : string) (d : Driver) : res (option bytes) :=
  let op := "boltdb_driver_get" in
  if blank_key key then Err (EOp op (EKind EmptyKey)) else
  wrap_err op (View (λ tx,
    if negb (bucket_exists (d_bucket d) tx) then Err (EOp op (EKind NoSuchBucket)) else
    match Bolt.Get (d_bucket d) key tx with
    | None => Ok None
    | Some val => match Gob.decode Gob.tString val with
                  | Some i => Ok (Some i)
                  | None => Err (EOp op gob_error)
                  end
    end) (d_db d)).

Fixpoint mget_loop (op bkt : string) (ks : list string) (m : gmap string bytes) (tx : Tx)
    : res (gmap string bytes) :=
  match ks with
  | [] => Ok m
  | k :: ks' =>
      match Bolt.Get bkt k tx with
      | None => mget_loop op bkt ks' m tx
      | Some value => match Gob.decode Gob.tBytes value with
                      | Some out => mget_loop op bkt ks' (<[k := out]> m) tx
                      | None => Err (EOp op gob_error)
                      end
      end
  end.

Definition MGet (keys : slice string) (d : Driver) : res (gmap string bytes) :=
  let op := "boltdb_driver_mget" in
  match keys with
  | None => Err (EOp op (EKind NoKeys))
  | Some ks =>
      match check_keys op ks with
      | Some e => Err e
      | None => wrap_err op (View (λ tx,
          if negb (bucket_exists (d_bucket d) tx) then Err (EOp op (EKind NoSuchBucket))
          else mget_loop op (d_bucket d) ks ∅ tx) (d_db d))
      end
  end.

(** The body of [Set] between [Begin] and the deferred [Commit]: a nil item and a
    missing bucket are dereferenced.  The test [errors.Is(errors.EmptyItem, err)]
    of the source looks at the error of the previous call, which is nil here. *)
Fixpoint set_loop (op bkt : string) (items : list (option Item)) (tx : Tx)
    (g : gmap string string) : Tx * gmap string string * res unit :=
  match items with
  | [] => (tx, g, Ok tt)
  | None :: _ => (tx, g, Panic)
  | Some it :: items' =>
      if negb (bucket_exists bkt tx) then (tx, g, Panic) else
      match Put bkt (Key it) (Gob.encode Gob.tBytes (Value it)) tx with
      | (tx', Some e) => (tx', g, Err (EOp op e))
      | (tx', None) =>
          if String.eqb (Timeout it) "" then set_loop op bkt items' tx' g
          else match Parse (Timeout it) with
               | None => (tx', g, Err (EOp op (parse_error (Timeout it))))
               | Some _ => set_loop op bkt items' tx' (<[Key it := Timeout it]> g)
               end
      end
  end.

(** The deferred function commits whatever the result is; an error of [Commit]
    is logged and does not reach the caller. *)
Definition Set_ (items : slice (option Item)) (d : Driver) : Driver * res unit :=
  let op := "boltdb_driver_set" in
  match items with
  | None => (d, Err (EOp op (EKind NoKeys)))
  | Some its =>
      match Begin (d_db d) with
      | inr e => (d, Err (EOp op e))
      | inl tx =>
          let '(tx', g, r) := set_loop op (d_bucket d) its tx (gc d) in
          let '(db', _) := Commit tx' (d_db d) in
          (with_gc g (with_db db' d), r)
      end
  end.

Fixpoint delete_loop (op bkt : string) (ks : list string) (tx : Tx) : Tx * res unit :=
  match ks with
  | [] => (tx, Ok tt)
  | k :: ks' => match Del bkt k tx with
                | (tx', Some e) => (tx', Err (EOp op e))
                | (tx', None) => delete_loop op bkt ks' tx'
                end
  end.

Definition Delete (keys : slice string) (d : Driver) : Driver * res unit :=
  let op := "boltdb_driver_delete" in
  match keys with
  | None => (d, Err (EOp op (EKind NoKeys)))
  | Some ks =>
      match check_keys op ks with
      | Some e => (d, Err e)
      | None =>
          match Begin (d_db d) with
          | inr e => (d, Err (EOp op e))
          | inl tx =>
              let '(tx', r) := if negb (bucket_exists (d_bucket d) tx)
                               then (tx, Err (EOp op (EKind NoSuchBucket)))
                               else delete_loop op (d_bucket d) ks tx in
              let '(db', _) := Commit tx' (d_db d) in
              (with_db db' d, r)
          end
      end
  end.

Fixpoint mexpire_loop (op : string) (items : list (option Item)) (g : gmap string string)
    : gmap string string * res unit :=
  match items with
  | [] => (g, Ok tt)
  | None :: _ => (g, Panic)
  | Some it :: items' =>
      if String.eqb (Timeout it) "" || blank_key (Key it)
      then (g, Err (EOp op (EStr "should set timeout and at least one key")))
      else match Parse (Timeout it) with
           | None => (g, Err (EOp op (parse_error (Timeout it))))
           | Some _ => mexpire_loop op items' (<[Key it := Timeout it]> g)
           end
  end.

Definition MExpire (items : slice (option Item)) (d : Driver) : Driver * res unit :=
  let '(g, r) := mexpire_loop "boltdb_driver_mexpire" (default [] items) (gc d) in
  (with_gc g d, r).

Definition TTL (keys : slice string) (d : Driver) : res (gmap string string) :=
  let op := "boltdb_driver_ttl" in
  match keys with
  | None => Err (EOp op (EKind NoKeys))
  | Some ks =>
      match check_keys op ks with
      | Some e => Err e
      | None => Ok (collect id ks (gc d) ∅)
      end
  end.

Definition Clear (d : Driver) : Driver * res unit :=
  let recreate tx :=
    match DeleteBucket (d_bucket d) tx with
    | (tx1, Some e) => (tx1, Some e)
    | (tx1, None) => CreateBucket (d_bucket d) tx1
    end in
  match Update recreate (d_db d) with
  | (db', Some e) => (with_db db' d, Err e)
  | (db', None) => (with_gc ∅ (with_db db' d), Ok tt)
  end.

(** The sweeping goroutine closes the database when it is stopped. *)
Definition Stop (d : Driver) : option Driver :=
  if gc_running d
  then Some (MkDriver (Close (d_db d)).1 (d_bucket d) (d_cfg d) (gc d) false)
  else None.

(** One sweep, in the order [Range] visits the times to live. *)
Fixpoint gc_range (now : Z) (order : list (string * string)) (d : Driver) : Driver :=
  match order with
  | [] => d
  | (k, v) :: order' =>
      match Parse v with
      | None => d
      | Some t =>
          if (t <? now)%Z then
            let d1 := with_gc (delete k (gc d)) d in
            let op := "boltdb_plugin_gc" in
            let del tx :=
              if negb (bucket_exists (d_bucket d) tx)
              then (tx, Some (EOp op (EKind NoSuchBucket)))
              else match Del (d_bucket d) k tx with
                   | (tx', Some e) => (tx', Some (EOp op e))
                   | (tx', None) => (tx', None)
                   end in
            match Update del (d_db d1) with
            | (db', Some _) => with_db db' d1
            | (db', None) => gc_range now order' (with_db db' d1)
            end
          else gc_range now order' d
      end
  end.

Definition gc_tick (now : Z) (order : list (string * string)) (d : Driver) : Driver :=
  if gc_running d then gc_range now order d else d.

#[global] Instance bolt_storage : Storage Driver := {
  st_Has := Has; st_MGet := MGet; st_Set := Set_; st_MExpire := MExpire;
  st_TTL := TTL; st_Delete := Delete; st_Clear := Clear; st_Stop := Stop }.

End Driver.

(** ** The driver implements the storage contract *)

Section Laws.
Context `{B : Bolt} {BL : BoltLaws}.

Definition stored (v : bytes) : Prop :=
  ∃ s, v = Gob.encode Gob.tBytes s ∧ Gob.gob_size_ok s.

(** The database works, the bucket exists and holds encoded byte slices. *)
Definition inv (d : Driver) : Prop :=
  db_ok (d_db d) ∧ d_bucket d ≠ "" ∧
  ∃ m, db_pairs (d_db d) !! d_bucket d = Some m ∧ map_Forall (λ _ v, stored v) m.

Definition values (m : gmap string bytes) : gmap string bytes := omap (Gob.decode Gob.tBytes) m.

Definition abs (d : Driver) : gmap string bytes :=
  values (default ∅ (db_pairs (d_db d) !! d_bucket d)).

(** Entries bbolt accepts; the encoding adds at most 20 bytes to a value. *)
Definition item_ok (it : Item) : Prop :=
  key_ok (Key it) ∧ (Z.of_nat (String.length (Value it)) ≤ 2 ^ 31 - 22)%Z.

Lemma decode_stored s :
  Gob.gob_size_ok s → Gob.decode Gob.tBytes (Gob.encode Gob.tBytes s) = Some s.
Proof. intros Hs. rewrite Gob.decode_encode; [done|by split|done]. Qed.

Lemma item_ok_value it :
  item_ok it → value_ok (Gob.encode Gob.tBytes (Value it)) ∧ Gob.gob_size_ok (Value it).
Proof.
  intros [_ Hv]. split; [|unfold Gob.gob_size_ok; lia].
  unfold value_ok, Gob.encode. rewrite <- Gob.length_list_ascii.
  rewrite String.list_ascii_of_string_of_list_ascii.
  set (l := String.list_ascii_of_string (Value it)).
  assert (Hl : length l = String.length (Value it)) by apply Gob.length_list_ascii.
  rewrite length_app. cbn [length]. rewrite length_app.
  pose proof (Gob.put_uint_length (Z.of_nat (length l))).
  match goal with |- context [length (Gob.put_uint ?n) + S _] =>
    pose proof (Gob.put_uint_length n) end. lia.
Qed.

Lemma with_bucket d : inv d → ∃ tx m, Begin (d_db d) = inl tx ∧
  db_pairs (d_db d) !! d_bucket d = Some m ∧ tx_pairs tx !! d_bucket d = Some m ∧
  tx_pairs tx = db_pairs (d_db d) ∧
  bucket_exists (d_bucket d) tx = true ∧ map_Forall (λ _ v, stored v) m.
Proof.
  intros (Hok & _ & m & Hm & Hst). destruct (db_ok_Begin _ Hok) as [tx Htx].
  pose proof (Begin_pairs _ _ Htx) as Hp.
  exists tx, m. rewrite Hp. split_and!; try done. apply bucket_exists_pairs. rewrite Hp. eauto.
Qed.

Lemma lookup_values m k : values m !! k = m !! k ≫= Gob.decode Gob.tBytes.
Proof. apply lookup_omap. Qed.

Lemma values_stored m k : map_Forall (λ _ v, stored v) m →
  is_Some (values m !! k) ↔ is_Some (m !! k).
Proof.
  intros Hm. rewrite lookup_values. destruct (m !! k) as [v|] eqn:E; [|done].
  destruct (Hm _ _ E) as (s & -> & Hs). cbn [mbind option_bind]. by rewrite decode_stored.
Qed.

Lemma bolt_has_loop_ok op bkt ks tx m acc :
  tx_pairs tx !! bkt = Some m → Forall (λ k, blank_key k = false) ks →
  has_loop op bkt ks acc tx = Ok (collect (λ _, true) ks m acc).
Proof.
  intros Hm Hks. assert (Hb : bucket_exists bkt tx = true)
    by (apply bucket_exists_pairs; rewrite Hm; eauto).
  revert acc. induction Hks as [|k ks Hk _ IH]; intros acc; simpl; [done|].
  by rewrite Hk, Hb, (Get_pairs _ _ _ _ Hm), IH.
Qed.

Lemma mget_loop_ok op bkt ks tx m acc :
  tx_pairs tx !! bkt = Some m → map_Forall (λ _ v, stored v) m →
  mget_loop op bkt ks acc tx = Ok (collect id ks (values m) acc).
Proof.
  intros Hm Hst. revert acc. induction ks as [|k ks IH]; intros acc; [done|].
  cbn [mget_loop]. rewrite (Get_pairs _ _ _ _ Hm). unfold collect. cbn [foldl].
  rewrite lookup_values. destruct (m !! k) as [v|] eqn:E; [|apply IH].
  destruct (Hst _ _ E) as (s & -> & Hs). cbn [mbind option_bind].
  rewrite decode_stored by done. apply IH.
Qed.

Lemma set_loop_ok op bkt its tx g m :
  tx_pairs tx !! bkt = Some m → map_Forall (λ _ v, stored v) m →
  Forall (λ it, item_ok it ∧ good_timeout (Timeout it) = true) its →
  ∃ tx' g' m', set_loop op bkt (Some <$> its) tx g = (tx', g', Ok tt) ∧
    tx_pairs tx' !! bkt = Some m' ∧ map_Forall (λ _ v, stored v) m' ∧
    values m' = put_items its (values m).
Proof.
  intros Hm Hst Hits. revert tx g m Hm Hst.
  induction Hits as [|it its [Hit Hgood] _ IH]; intros tx g m Hm Hst.
  { by exists tx, g, m. }
  assert (Hb : bucket_exists bkt tx = true) by (apply bucket_exists_pairs; rewrite Hm; eauto).
  destruct (item_ok_value _ Hit) as [Hv Hs]. pose proof (proj1 Hit) as Hk.
  destruct (Put_ok _ _ _ _ _ Hm Hk Hv) as [tx1 Hput].
  pose proof (Put_pairs _ _ _ _ _ Hput) as Hp1.
  cbn [fmap list_fmap set_loop]. rewrite Hb, Hput. cbn [negb].
  set (m1 := <[Key it := Gob.encode Gob.tBytes (Value it)]> m).
  assert (Hm1 : tx_pairs tx1 !! bkt = Some m1) by (by rewrite Hp1, lookup_alter_eq, Hm).
  assert (Hst1 : map_Forall (λ _ v, stored v) m1).
  { apply map_Forall_insert_2; [|done]. by exists (Value it). }
  assert (Hv1 : values m1 = <[Key it := Value it]> (values m)).
  { unfold values, m1. rewrite omap_insert, decode_stored by done. done. }
  assert (Hnext : ∀ g1, ∃ tx' g' m', set_loop op bkt (Some <$> its) tx1 g1 = (tx', g', Ok tt) ∧
    tx_pairs tx' !! bkt = Some m' ∧ map_Forall (λ _ v, stored v) m' ∧
    values m' = put_items (it :: its) (values m)).
  { intros g1. destruct (IH tx1 g1 m1 Hm1 Hst1) as (tx' & g' & m' & -> & ? & ? & Hvals).
    exists tx', g', m'. split_and!; try done. by rewrite Hvals, Hv1. }
  unfold good_timeout in Hgood. destruct (String.eqb (Timeout it) ""); [apply Hnext|].
  apply bool_decide_eq_true in Hgood as [t ->]. apply Hnext.
Qed.

Lemma delete_loop_ok op bkt ks tx m :
  tx_pairs tx !! bkt = Some m →
  ∃ tx', delete_loop op bkt ks tx = (tx', Ok tt) ∧
    tx_pairs tx' !! bkt = Some (delete_keys ks m).
Proof.
  revert tx m. induction ks as [|k ks IH]; intros tx m Hm; [by exists tx|].
  cbn [delete_loop]. destruct (Del_ok _ k _ _ Hm) as (tx1 & -> & Hp).
  destruct (IH tx1 (delete k m)) as (tx' & -> & ?); [by rewrite Hp, lookup_alter_eq, Hm|].
  by exists tx'.
Qed.

Lemma delete_keys_values ks m : values (delete_keys ks m) = delete_keys ks (values m).
Proof.
  apply map_eq. intros k. rewrite lookup_values, !lookup_delete_keys, lookup_values.
  by case_decide.
Qed.

Lemma delete_keys_stored ks m :
  map_Forall (λ _ v, stored v) m → map_Forall (λ _ v, stored v) (delete_keys ks m).
Proof.
  intros Hm k v Hk. rewrite lookup_delete_keys in Hk. case_decide; [done|]. by apply (Hm k).
Qed.

#[global] Program Instance bolt_storage_laws : StorageLaws Driver := {
  st_inv := inv; st_abs := abs; st_key_ok k := blank_key k = false; st_item_ok _ := item_ok }.
Next Obligation.
  intros d ks Hd Hks. destruct (with_bucket d Hd) as (tx & m & Htx & Hm & Hmt & _ & _ & Hst).
  simpl. unfold Has, View, abs. rewrite Htx, (bolt_has_loop_ok _ _ _ _ m), Hm by done. simpl.
  rewrite collect_restrict. f_equal. apply map_eq. intros k.
  rewrite !lookup_fmap, !lookup_restrict. case_decide; [|done].
  pose proof (values_stored m k Hst) as Hi.
  unfold is_Some in Hi. destruct (m !! k), (values m !! k); naive_solver.
Qed.
Next Obligation.
  intros d ks Hd Hks. destruct (with_bucket d Hd) as (tx & m & Htx & Hm & Hmt & _ & Hb & Hst).
  simpl. unfold MGet, View, abs.
  apply (check_keys_None "boltdb_driver_mget") in Hks as ->.
  rewrite Htx, Hb. simpl. rewrite (mget_loop_ok _ _ _ _ m), Hm by done. simpl.
  rewrite collect_restrict. by rewrite map_fmap_id.
Qed.
Next Obligation.
  intros d its Hd Hits. destruct (with_bucket d Hd) as (tx & m & Htx & Hm & Hmt & Hp & Hb & Hst).
  destruct Hd as (Hok & Hne & _). simpl. unfold Set_, abs. rewrite Htx.
  destruct (set_loop_ok "boltdb_driver_set" _ its tx (gc d) m Hmt Hst Hits)
    as (tx' & g' & m' & -> & Hm' & Hst' & Hv').
  destruct (db_ok_Commit tx' (d_db d) Hok) as (db' & Hc & Hok'). rewrite Hc.
  pose proof (Commit_pairs _ _ _ Hc) as Hpairs.
  eexists. split; [done|]. unfold inv. simpl. rewrite Hpairs, Hm, Hm'. simpl.
  split; [split_and!; [done..|eauto]|done].
Qed.
Next Obligation.
  intros d ks Hd Hks. destruct (with_bucket d Hd) as (tx & m & Htx & Hm & Hmt & Hp & Hb & Hst).
  destruct Hd as (Hok & Hne & _). simpl. unfold Delete, abs.
  apply (check_keys_None "boltdb_driver_delete") in Hks as ->. rewrite Htx, Hb.
  simpl. destruct (delete_loop_ok "boltdb_driver_delete" _ ks tx m Hmt) as (tx' & -> & Hm').
  destruct (db_ok_Commit tx' (d_db d) Hok) as (db' & Hc & Hok'). rewrite Hc.
  pose proof (Commit_pairs _ _ _ Hc) as Hpairs.
  eexists. split; [done|]. unfold inv. simpl. rewrite Hpairs, Hm, Hm'. simpl. split.
  - split_and!; [done..|]. exists (delete_keys ks m). split; [done|by apply delete_keys_stored].
  - apply delete_keys_values.
Qed.
Next Obligation.
  intros d Hd. destruct (with_bucket d Hd) as (tx & m & Htx & Hm & Hmt & Hp & Hb & Hst).
  destruct Hd as (Hok & Hne & _). simpl. unfold Clear.
  destruct (DeleteBucket_pairs (d_bucket d) tx) as (tx1 & Hd1 & Hp1); [by rewrite Hmt|].
  destruct (CreateBucket_pairs (d_bucket d) tx1 Hne) as (tx2 & Hc2 & Hp2);
    [by rewrite Hp1, lookup_delete_eq|].
  edestruct (Update_ok (λ tx0, match DeleteBucket (d_bucket d) tx0 with
    | (t1, Some e) => (t1, Some e) | (t1, None) => CreateBucket (d_bucket d) t1 end)
    (d_db d) tx tx2 Hok Htx) as (db' & -> & Hok' & Hpairs); [by rewrite Hd1|].
  eexists. split; [done|]. unfold inv, abs. simpl.
  rewrite Hpairs, Hp2, lookup_insert_eq. simpl. split; [|apply omap_empty].
  split_and!; [done..|]. exists ∅. split; [done|apply map_Forall_empty].
Qed.

(** ** Times to live *)

Definition ttl_readable (d : Driver) : Prop := map_Forall (λ _ v, is_Some (Parse v)) (gc d).

Lemma set_loop_ttl op bkt its tx g :
  map_Forall (λ _ v, is_Some (Parse v)) g →
  map_Forall (λ _ v, is_Some (Parse v)) (set_loop op bkt its tx g).1.2.
Proof.
  revert tx g. induction its as [|[it|] its IH]; intros tx g Hg; simpl; [done| |done].
  repeat case_match; simpl; auto. apply IH, map_Forall_insert_2; [by eauto|done].
Qed.

Lemma mexpire_loop_ttl op its g :
  map_Forall (λ _ v, is_Some (Parse v)) g →
  map_Forall (λ _ v, is_Some (Parse v)) (mexpire_loop op its g).1.
Proof.
  revert g. induction its as [|[it|] its IH]; intros g Hg; simpl; [done| |done].
  repeat case_match; simpl; auto. apply IH, map_Forall_insert_2; [by eauto|done].
Qed.

Definition expired_keys (now : Z) (order : list (string * string)) : list string :=
  omap (λ kv, match Parse kv.2 with
              | Some t => if (t <? now)%Z then Some kv.1 else None
              | None => None
              end) order.

Lemma gc_range_ok now order d :
  inv d → Forall (λ kv, is_Some (Parse kv.2)) order →
  inv (gc_range now order d) ∧
  abs (gc_range now order d) = delete_keys (expired_keys now order) (abs d) ∧
  gc (gc_range now order d) = delete_keys (expired_keys now order) (gc d).
Proof.
  revert d. induction order as [|[k v] order IH]; intros d Hd Hf; [done|].
  apply Forall_cons in Hf as [[t Ht] Hf]. simpl in Ht. simpl. rewrite Ht.
  destruct (t <? now)%Z; [|by apply IH].
  destruct (with_bucket d Hd) as (tx & m & Htx & Hm & Hmt & Hp & Hb & Hst).
  destruct Hd as (Hok & Hne & _).
  destruct (Del_ok _ k _ _ Hmt) as (tx1 & Hdel & Hp1).
  edestruct (Update_ok (λ tx0, if negb (bucket_exists (d_bucket d) tx0)
     then (tx0, Some (EOp "boltdb_plugin_gc" (EKind NoSuchBucket)))
     else match Del (d_bucket d) k tx0 with
          | (tx', Some e) => (tx', Some (EOp "boltdb_plugin_gc" e))
          | (tx', None) => (tx', None) end) (d_db d) tx tx1 Hok Htx)
    as (db' & -> & Hok' & Hpairs); [by rewrite Hb, Hdel|].
  set (d' := with_db db' (with_gc (delete k (gc d)) d)).
  assert (Hm' : db_pairs (d_db d') !! d_bucket d' = Some (delete k m)).
  { simpl. by rewrite Hpairs, Hp1, lookup_alter_eq, Hmt. }
  assert (Hd' : inv d').
  { split_and!; [done..|]. exists (delete k m). split; [done|by apply map_Forall_delete]. }
  destruct (IH d' Hd' Hf) as (? & -> & ->). split_and!; try done.
  unfold abs. rewrite Hm', Hm. simpl. unfold delete_keys. simpl. f_equal.
  unfold values. by rewrite omap_delete.
Qed.

Lemma elem_of_expired_keys now order k :
  k ∈ expired_keys now order ↔ ∃ v t, (k, v) ∈ order ∧ Parse v = Some t ∧ (t < now)%Z.
Proof.
  unfold expired_keys. rewrite list_elem_of_omap. split.
  - intros ([k' v] & Hin & He). simpl in He. repeat case_match; simplify_eq.
    exists v. eexists. split_and!; [done..|lia].
  - intros (v & t & Hin & Ht & Hlt). exists (k, v). split; [done|]. simpl.
    rewrite Ht. by replace (t <? now)%Z with true by lia.
Qed.

Lemma readable_order d order :
  ttl_readable d → order ≡ₚ map_to_list (gc d) → Forall (λ kv, is_Some (Parse kv.2)) order.
Proof.
  intros Hr Ho. rewrite Ho. apply Forall_forall. intros [k v] Hin%elem_of_map_to_list.
  by apply (Hr _ _ Hin).
Qed.

(** ** Theorems *)

(** On a working database a stored entry is found by [MGet], while [Get],
    which decodes the stored byte slice into a string, reports an error. *)
Theorem bolt_Set_MGet_Get d it :
  inv d → item_ok it → good_timeout (Timeout it) = true → blank_key (Key it) = false →
  ∃ d', Set_ (Some [Some it]) d = (d', Ok tt) ∧
    MGet (Some [Key it]) d' = Ok {[ Key it := Value it ]} ∧
    Get (Key it) d' = Err (EOp "boltdb_driver_get" (EOp "boltdb_driver_get" gob_error)).
Proof.
  intros Hd Hit Hg Hk.
  destruct (st_Set_abs d [it]) as (d' & Hset & Hd' & Habs); [exact Hd|by constructor|].
  exists d'. split; [exact Hset|]. split.
  - change (MGet (Some [Key it]) d') with (st_MGet (Some [Key it]) d').
    rewrite (st_MGet_abs d' [Key it]) by (done || by constructor). f_equal.
    apply map_eq. intros k. rewrite lookup_restrict, Habs, lookup_put_items. simpl.
    rewrite lookup_singleton. repeat case_decide; set_solver.
  - destruct (with_bucket d' Hd') as (tx & m & Htx & Hm & Hmt & _ & Hb & Hst).
    unfold Get, View. rewrite Hk, Htx, Hb. cbn [negb]. rewrite (Get_pairs _ _ _ _ Hmt).
    assert (Hv : values m !! Key it = Some (Value it)).
    { replace (values m) with (abs d') by (unfold abs; by rewrite Hm).
      change (abs d') with (st_abs d'). rewrite Habs, lookup_put_items. simpl.
      by rewrite decide_True. }
    rewrite lookup_values in Hv. destruct (m !! Key it) as [v|] eqn:E; [|done].
    destruct (Hst _ _ E) as (s & -> & Hs). rewrite Gob.decode_encode; [done|by split|done].
Qed.

(** A [Set] whose only fault is a timeout that cannot be read returns an
    error and stores the value all the same, without a time to live. *)
Theorem bolt_Set_bad_timeout_commits d it :
  inv d → item_ok it → good_timeout (Timeout it) = false →
  ∃ d', Set_ (Some [Some it]) d =
      (d', Err (EOp "boltdb_driver_set" (parse_error (Timeout it)))) ∧
    abs d' = <[Key it := Value it]> (abs d) ∧ gc d' = gc d.
Proof.
  intros Hd Hit Hg. destruct (with_bucket d Hd) as (tx & m & Htx & Hm & Hmt & _ & Hb & Hst).
  destruct (item_ok_value _ Hit) as [Hv Hs]. pose proof (proj1 Hit) as Hk.
  destruct (Put_ok _ _ _ _ _ Hmt Hk Hv) as [tx1 Hput].
  pose proof (Put_pairs _ _ _ _ _ Hput) as Hp1.
  destruct (db_ok_Commit tx1 (d_db d) (proj1 Hd)) as (db' & Hc & Hok').
  pose proof (Commit_pairs _ _ _ Hc) as Hpairs.
  exists (with_gc (gc d) (with_db db' d)).
  unfold good_timeout in Hg. apply orb_false_iff in Hg as [Hne Hp].
  apply bool_decide_eq_false in Hp. split; [|split; [|done]].
  - unfold Set_. rewrite Htx. cbn [set_loop]. rewrite Hb, Hput, Hne. cbn [negb].
    destruct (Parse (Timeout it)); [by destruct Hp; eauto|]. by rewrite Hc.
  - unfold abs. simpl. rewrite Hpairs, Hp1, lookup_alter_eq, Hmt, Hm. simpl.
    unfold values. by rewrite omap_insert, decode_stored.
Qed.

(** A [Commit] that fails is not reported: [Set] returns nil although the
    database is unchanged. *)
Theorem bolt_Set_hides_commit_error d its tx tx' g db' e :
  Begin (d_db d) = inl tx →
  set_loop "boltdb_driver_set" (d_bucket d) its tx (gc d) = (tx', g, Ok tt) →
  Commit tx' (d_db d) = (db', Some e) →
  (Set_ (Some its) d).2 = Ok tt ∧
  db_pairs (d_db (Set_ (Some its) d).1) = db_pairs (d_db d).
Proof.
  intros Hb Hl Hc. unfold Set_. rewrite Hb, Hl, Hc. simpl.
  split; [done|]. by apply (Commit_error _ _ _ _ Hc).
Qed.

(** A sweep of a working database removes exactly the keys whose recorded
    time to live lies before the tick, from the bucket and from the table of
    times to live, in whatever order it visits them. *)
Theorem bolt_gc_exact now order d :
  inv d → ttl_readable d → gc_running d = true → order ≡ₚ map_to_list (gc d) →
  ∀ k, let dead := ∃ v t, gc d !! k = Some v ∧ Parse v = Some t ∧ (t < now)%Z in
    (dead → abs (gc_tick now order d) !! k = None ∧ gc (gc_tick now order d) !! k = None) ∧
    (¬ dead → abs (gc_tick now order d) !! k = abs d !! k ∧
              gc (gc_tick now order d) !! k = gc d !! k).
Proof.
  intros Hd Ht Hr Ho k. cbv zeta. unfold gc_tick. rewrite Hr.
  destruct (gc_range_ok now order d Hd (readable_order _ _ Ht Ho)) as (_ & -> & ->).
  rewrite !lookup_delete_keys.
  assert (Hiff : k ∈ expired_keys now order ↔
    ∃ v t, gc d !! k = Some v ∧ Parse v = Some t ∧ (t < now)%Z).
  { rewrite elem_of_expired_keys. setoid_rewrite Ho. by setoid_rewrite elem_of_map_to_list. }
  split; intros Hdead.
  - by rewrite !decide_True by by apply Hiff.
  - by rewrite !decide_False by by rewrite Hiff.
Qed.

(** [Delete] leaves the time to live of a key behind, so that a value stored
    later without a timeout is removed when the old time to live runs out. *)
Theorem bolt_stale_ttl_kills_new_value now order d k ttl t v :
  inv d → ttl_readable d → gc_running d = true → key_ok k → blank_key k = false →
  (Z.of_nat (String.length v) ≤ 2 ^ 31 - 22)%Z →
  gc d !! k = Some ttl → Parse ttl = Some t → (t < now)%Z →
  ∃ d1 d2, Delete (Some [k]) d = (d1, Ok tt) ∧ abs d1 !! k = None ∧
    Set_ (Some [Some (MkItem k v "")]) d1 = (d2, Ok tt) ∧ abs d2 !! k = Some v ∧
    (order ≡ₚ map_to_list (gc d2) → abs (gc_tick now order d2) !! k = None).
Proof.
  intros Hd Ht Hr Hk Hb Hv Hg Hp Hlt.
  destruct (st_Delete_abs d [k]) as (d1 & Hdel & Hd1 & Ha1); [exact Hd|by constructor|].
  destruct (st_Set_abs d1 [MkItem k v ""]) as (d2 & Hset & Hd2 & Ha2);
    [exact Hd1|by constructor|].
  simpl in Hdel, Ha1, Hset, Ha2.
  assert (Hg1 : gc d1 = gc d ∧ gc_running d1 = true).
  { unfold Delete in Hdel. repeat case_match; by simplify_eq. }
  assert (Hg2 : gc d2 = gc d1 ∧ gc_running d2 = gc_running d1).
  { unfold Set_ in Hset. simpl in Hset. repeat case_match; by simplify_eq. }
  destruct Hg1 as [Hg1 Hr1], Hg2 as [Hg2 Hr2].
  exists d1, d2. split_and!; [done| |done| |].
  - by rewrite Ha1, lookup_delete_eq.
  - by rewrite Ha2, lookup_insert_eq.
  - intros Ho. unfold gc_tick. rewrite Hr2, Hr1.
    assert (ttl_readable d2) by (unfold ttl_readable; by rewrite Hg2, Hg1).
    destruct (gc_range_ok now order d2 Hd2) as (_ & -> & _); [by eapply readable_order|].
    rewrite lookup_delete_keys, decide_True; [done|].
    apply elem_of_expired_keys. exists ttl, t. split_and!; [|done..].
    rewrite Ho, elem_of_map_to_list. by rewrite Hg2, Hg1.
Qed.

End Laws.

(** ** Concrete inputs *)

Definition ex_driver (g : gmap string string) : @Driver MapBolt :=
  @MkDriver MapBolt {[ "default" := ∅ ]} "default" (InitDefaults (MkConfig "" "" 0 0)) g true.

Lemma ex_inv g : @inv MapBolt MapBoltLaws (ex_driver g).
Proof. split_and!; [done|done|]. exists ∅. split; [done|apply map_Forall_empty]. Defined.

Lemma bolt_Set_MGet_Get_witness :
  @MGet MapBolt (Some ["k"]) (Set_ (Some [Some (MkItem "k" "v" "")]) (ex_driver ∅)).1
  = Ok {[ "k" := "v" ]}.
Proof.
  destruct (@bolt_Set_MGet_Get MapBolt MapBoltLaws (ex_driver ∅) (MkItem "k" "v" ""))
    as (d' & Hs & Hm & _).
  - apply ex_inv.
  - split; [by split|done].
  - reflexivity.
  - reflexivity.
  - rewrite Hs. exact Hm.
Defined.

Lemma bolt_Set_bad_timeout_commits_witness :
  @abs MapBolt (Set_ (Some [Some (MkItem "k" "v" "soon")]) (ex_driver ∅)).1 !! "k" = Some "v".
Proof.
  destruct (@bolt_Set_bad_timeout_commits MapBolt MapBoltLaws (ex_driver ∅)
    (MkItem "k" "v" "soon")) as (d' & Hs & Ha & _).
  - apply ex_inv.
  - split; [by split|done].
  - reflexivity.
  - rewrite Hs. simpl. rewrite Ha. apply lookup_insert_eq.
Defined.

(** A database whose disk is full: every [Commit] fails. *)
Definition FullDisk : Bolt := {|
  DB := buckets; Tx := buckets; db_pairs := id; tx_pairs := id;
  Begin := @Begin MapBolt; CreateBucketIfNotExists := @CreateBucketIfNotExists MapBolt;
  CreateBucket := @CreateBucket MapBolt; DeleteBucket := @DeleteBucket MapBolt;
  bucket_exists := @bucket_exists MapBolt; Bolt.Get := @Bolt.Get MapBolt;
  Put := @Put MapBolt; Del := @Del MapBolt; entries := @entries MapBolt;
  Commit tx db := (db, Some (EStr "no space left on device")); Close db := (db, None) |}.

Program Definition FullDiskLaws : @BoltLaws FullDisk := {|
  db_ok _ := False;
  CreateBucket_pairs := @CreateBucket_pairs MapBolt MapBoltLaws;
  DeleteBucket_pairs := @DeleteBucket_pairs MapBolt MapBoltLaws;
  bucket_exists_pairs := @bucket_exists_pairs MapBolt MapBoltLaws;
  Get_pairs := @Get_pairs MapBolt MapBoltLaws; Put_ok := @Put_ok MapBolt MapBoltLaws;
  Put_empty_key := @Put_empty_key MapBolt MapBoltLaws;
  Put_pairs := @Put_pairs MapBolt MapBoltLaws; Put_error := @Put_error MapBolt MapBoltLaws;
  Del_ok := @Del_ok MapBolt MapBoltLaws; entries_sorted := @entries_sorted MapBolt MapBoltLaws;
  entries_pairs := @entries_pairs MapBolt MapBoltLaws;
  CreateBucketIfNotExists_pairs := @CreateBucketIfNotExists_pairs MapBolt MapBoltLaws |}.
Solve All Obligations with (cbn; intros; by simplify_eq).

Lemma bolt_Set_hides_commit_error_witness :
  (@Set_ FullDisk (Some [Some (MkItem "k" "v" "")])
     (@MkDriver FullDisk {[ "default" := ∅ ]} "default" (MkConfig "" "" 0 0) ∅ true)).2 = Ok tt.
Proof.
  eapply (@bolt_Set_hides_commit_error FullDisk FullDiskLaws); reflexivity.
Defined.

Definition ex_old : gmap string string := {[ "k" := "2020-01-01T00:00:00Z" ]}.

Lemma ex_old_readable : @ttl_readable MapBolt (ex_driver ex_old).
Proof. apply map_Forall_singleton. by eexists. Defined.

Lemma bolt_gc_exact_witness :
  @abs MapBolt (gc_tick (1700000000 * 10 ^ 9) (map_to_list ex_old) (ex_driver ex_old)) !! "k" = None.
Proof.
  apply (proj1 (@bolt_gc_exact MapBolt MapBoltLaws (1700000000 * 10 ^ 9) (map_to_list ex_old)
    (ex_driver ex_old) (ex_inv ex_old) ex_old_readable eq_refl (Permutation_refl _) "k")).
  exists "2020-01-01T00:00:00Z", (1577836800 * 10 ^ 9)%Z. by split_and!.
Defined.

Lemma bolt_stale_ttl_kills_new_value_witness :
  ∃ d2 : @Driver MapBolt, abs d2 !! "k" = Some "v" ∧
    abs (gc_tick (1700000000 * 10 ^ 9) (map_to_list (gc d2)) d2) !! "k" = None.
Proof.
  edestruct (@bolt_stale_ttl_kills_new_value MapBolt MapBoltLaws (1700000000 * 10 ^ 9)
     (map_to_list ex_old) (ex_driver ex_old) "k" "2020-01-01T00:00:00Z" (1577836800 * 10 ^ 9) "v")
    as (d1 & d2 & Hdel & _ & Hs & Ha & Ht);
    [apply ex_inv|apply ex_old_readable|done|by split|done|done|done|done|done|].
  assert (Hg : gc d2 = ex_old).
  { replace d2 with (Set_ (Some [Some (MkItem "k" "v" "")])
      (Delete (Some ["k"]) (ex_driver ex_old)).1).1 by (rewrite Hdel; cbn [fst]; by rewrite Hs).
    vm_compute. reflexivity. }
  exists d2. rewrite Hg in *. split; [exact Ha|]. by apply Ht.
Defined.

End BoltKv.
