(* ===== verification/KvRemote.v ===== *)
(** * Key-value drivers over a network ([redis/kv], [memcached/memcachedkv])

    Both drivers forward to a client library.  The libraries are classes of
    calls with the behaviour their documentation promises; the drivers are
    functions on the state of the client, and both are instances of the storage
    contract, so that the RPC layer (file KvPlugin) is verified over them too. *)

From stdpp Require Import base gmap strings list.
From Stdlib Require Import ZArith.
From S2P Require Import Prelude GoStrings Rfc3339 KvStorage.
Local Open Scope Z_scope.

(** [time.Time.Sub], which saturates. *)
Definition Sub (t u : Z) : Z := Z.max (- 2 ^ 63) (Z.min (2 ^ 63 - 1) (t - u)).

Lemma Sub_exact t u : - 2 ^ 63 ≤ t - u < 2 ^ 63 → Sub t u = t - u.
Proof. unfold Sub. lia. Qed.

Definition parse_error (s : string) : error := EErrorf "parsing time %q as RFC3339" [s].

Definition no_config (op key : string) : error := EOp op (EErrorf "config not found by provided key: %s" [key]).

(** [time.Duration.String]: [frac] prints the digits of a fraction without its
    trailing zeros. *)
Module Duration.
Fixpoint frac (prec : nat) (v : Z) (print : bool) (acc : string) : string * Z :=
  match prec with
  | O => (if print then "." +:+ acc else acc, v)
  | S n => let d := v mod 10 in
           let print := print || negb (d =? 0) in
           frac n (v / 10) print (if print then String (digit_char d) acc else acc)
  end.

Definition small (u : Z) : string :=
  if u =? 0 then "0s"
  else if u <? 1000 then FormatUint u +:+ "ns"
  else let '(prec, unit_) := if u <? 1000000 then (3%nat, "µs") else (6%nat, "ms") in
       let '(f, v) := frac prec u false "" in FormatUint v +:+ f +:+ unit_.

Definition large (u : Z) : string :=
  let '(f, s) := frac 9 u false "" in
  let tail := FormatUint (s mod 60) +:+ f +:+ "s" in
  let m := s / 60 in
  if m =? 0 then tail else
  let tail := FormatUint (m mod 60) +:+ "m" +:+ tail in
  let h := m / 60 in
  if h =? 0 then tail else FormatUint h +:+ "h" +:+ tail.

Definition Duration_String (d : Z) : string :=
  let s := if Z.abs d <? 10 ^ 9 then small (Z.abs d) else large (Z.abs d) in
  if d <? 0 then "-" +:+ s else s.

Example print_hours : Duration_String (5 * 3600 * 10 ^ 9 + 1500 * 10 ^ 6) = "5h0m1.5s".
Proof. reflexivity. Qed.
Example print_no_expiration : Duration_String (-1) = "-1ns".
Proof. reflexivity. Qed.
Example print_small : Duration_String 1500 = "1.5µs".
Proof. reflexivity. Qed.
End Duration.

(** ** Redis *)

Module RedisKv.

Record Config := MkConfig {
  Addrs : option (list string); DB : Z; Username : string; Password : string;
  MasterName : string; SentinelPassword : string; RouteByLatency : bool; RouteRandomly : bool;
  MaxRetries : Z; DialTimeout : Z; MinRetryBackoff : Z; MaxRetryBackoff : Z; PoolSize : Z;
  MinIdleConns : Z; MaxConnAge : Z; ReadTimeout : Z; WriteTimeout : Z; PoolTimeout : Z;
  IdleTimeout : Z; IdleCheckFreq : Z; ReadOnly : bool }.

Definition InitDefaults (s : Config) : Config :=
  match Addrs s with
  | Some _ => s
  | None => MkConfig (Some ["127.0.0.1:6379"]) (DB s) (Username s) (Password s) (MasterName s)
      (SentinelPassword s) (RouteByLatency s) (RouteRandomly s) (MaxRetries s) (DialTimeout s)
      (MinRetryBackoff s) (MaxRetryBackoff s) (PoolSize s) (MinIdleConns s) (MaxConnAge s)
      (ReadTimeout s) (WriteTimeout s) (PoolTimeout s) (IdleTimeout s) (IdleCheckFreq s) (ReadOnly s)
  end.

(** The [redis.UniversalOptions] the driver sets, a record of the same fields. *)
Definition options (c : Config) : Config :=
  MkConfig (Addrs c) (DB c) (Username c) (Password c) (MasterName c) (SentinelPassword c)
    (RouteByLatency c) (RouteRandomly c) (MaxRetries c) (DialTimeout c)
    (MaxRetryBackoff c) (MaxRetryBackoff c) (PoolSize c) (MinIdleConns c) (MaxConnAge c)
    (ReadTimeout c) (WriteTimeout c) (PoolTimeout c) (IdleTimeout c) (IdleCheckFreq c) (ReadOnly c).

(** The client with the servers behind it.  [rc_Get] answers nothing for
    [redis.Nil]; [rc_Now] is [time.Now] and [rc_wait] lets time pass; a zero
    expiration is none. *)
Class Redis := {
  client : Type;
  NewUniversalClient : Config → client;
  rc_Exists : string → client → Z + error;
  rc_Get : string → client → option bytes + error;
  rc_Set : string → bytes → Z → client → client * option error;
  rc_Del : list string → client → client * option error;
  rc_Expire : string → Z → client → client * option error;
  rc_TTL : string → client → Z + error;
  rc_FlushDB : client → client * option error;
  rc_Close : client → client;
  rc_Now : client → Z;
  rc_wait : Z → client → client;
}.

(** What the commands do while the server answers: [live] are its entries with
    the time they expire, if any.  An expiration of a millisecond or more is
    kept to the millisecond. *)
Class RedisLaws `{RC : Redis} := {
  up : client → Prop;
  live : client → gmap string (bytes * option Z);
  up_Exists c k : up c → rc_Exists k c = inl (match live c !! k with Some _ => 1 | None => 0 end);
  up_Get c k : up c → rc_Get k c = inl (fst <$> live c !! k);
  up_Set c k v : up c →
    ∃ c', rc_Set k v 0 c = (c', None) ∧ up c' ∧ live c' = <[k := (v, None)]> (live c) ∧ rc_Now c' = rc_Now c;
  up_SetEx c k v e : up c → 10 ^ 6 ≤ e < 2 ^ 63 →
    ∃ c' x, rc_Set k v e c = (c', None) ∧ up c' ∧ rc_Now c + e - 10 ^ 6 < x ≤ rc_Now c + e ∧
      live c' = <[k := (v, Some x)]> (live c) ∧ rc_Now c' = rc_Now c;
  up_Del c ks : up c → ∃ c', rc_Del ks c = (c', None) ∧ up c' ∧ live c' = delete_keys ks (live c);
  up_FlushDB c : up c → ∃ c', rc_FlushDB c = (c', None) ∧ up c' ∧ live c' = ∅;
  up_wait c n : up c → 0 ≤ n → up (rc_wait n c) ∧ rc_Now (rc_wait n c) = rc_Now c + n ∧
    ∀ k, live (rc_wait n c) !! k =
      match live c !! k with
      | Some (v, Some x) => if x <=? rc_Now c + n then None else Some (v, Some x)
      | o => o
      end;
}.

Section Driver.
Context `{RC : Redis}.

Record driver := MkDriver { universalClient : client; cfg : Config }.
Definition with_client (c : client) (d : driver) : driver := MkDriver c (cfg d).

Definition NewRedisDriver (unmarshal : string → res (option Config)) (key : string) : res driver :=
  let op := "new_redis_driver" in
  match unmarshal key with
  | Err e => Err (EOp op e)
  | Panic => Panic
  | Ok None => Err (no_config op key)
  | Ok (Some c) => let c := InitDefaults c in Ok (MkDriver (NewUniversalClient (options c)) c)
  end.

Fixpoint has_loop (op : string) (ks : list string) (c : client) (m : gmap string bool)
    : res (gmap string bool) :=
  match ks with
  | [] => Ok m
  | k :: ks' =>
      if blank_key k then Err (EOp op (EKind EmptyKey)) else
      match rc_Exists k c with
      | inr e => Err e
      | inl n => has_loop op ks' c (if n =? 1 then <[k := true]> m else m)
      end
  end.

Definition Has (keys : slice string) (d : driver) : res (gmap string bool) :=
  let op := "redis_driver_has" in
  match keys with
  | None => Err (EOp op (EKind NoKeys))
  | Some ks => has_loop op ks (universalClient d) ∅
  end.

(** [redis.Nil] is returned for a missing key. *)
Definition Get (key : string) (d : driver) : res bytes :=
  let op := "redis_driver_get" in
  if blank_key key then Err (EOp op (EKind EmptyKey)) else
  match rc_Get key (universalClient d) with
  | inl (Some v) => Ok v
  | inl None => Err (EExt "redis: nil")
  | inr e => Err e
  end.

Fixpoint mget_loop (op : string) (ks : list string) (c : client) (m : gmap string bytes)
    : res (gmap string bytes) :=
  match ks with
  | [] => Ok m
  | k :: ks' =>
      match rc_Get k c with
      | inl None => mget_loop op ks' c m
      | inr e => Err (EOp op e)
      | inl (Some v) => mget_loop op ks' c (<[k := v]> m)
      end
  end.

Definition MGet (keys : slice string) (d : driver) : res (gmap string bytes) :=
  let op := "redis_driver_mget" in
  match keys with
  | None => Err (EOp op (EKind NoKeys))
  | Some ks =>
      match check_keys op ks with
      | Some e => Err e
      | None => mget_loop op ks (universalClient d) ∅
      end
  end.

(** [now] is read once, before the loop. *)
Fixpoint set_loop (op : string) (now : Z) (items : list (option Item)) (c : client) : client * res unit :=
  match items with
  | [] => (c, Ok tt)
  | None :: _ => (c, Err (EOp op (EKind EmptyKey)))
  | Some it :: items' =>
      if String.eqb (Timeout it) "" then
        match rc_Set (Key it) (Value it) 0 c with
        | (c, Some e) => (c, Err e)
        | (c, None) => set_loop op now items' c
        end
      else
        match Parse (Timeout it) with
        | None => (c, Err (parse_error (Timeout it)))
        | Some t =>
            match rc_Set (Key it) (Value it) (Sub t now) c with
            | (c, Some e) => (c, Err e)
            | (c, None) => set_loop op now items' c
            end
        end
  end.

Definition Set_ (items : slice (option Item)) (d : driver) : driver * res unit :=
  let op := "redis_driver_set" in
  match items with
  | None => (d, Err (EOp op (EKind NoKeys)))
  | Some its =>
      let '(c, r) := set_loop op (rc_Now (universalClient d)) its (universalClient d) in (with_client c d, r)
  end.

Definition Delete (keys : slice string) (d : driver) : driver * res unit :=
  let op := "redis_driver_delete" in
  match keys with
  | None => (d, Err (EOp op (EKind NoKeys)))
  | Some ks =>
      match check_keys op ks with
      | Some e => (d, Err e)
      | None => let '(c, e) := rc_Del ks (universalClient d) in
                (with_client c d, match e with Some e => Err e | None => Ok tt end)
      end
  end.

(** The answer of [Expire] is not looked at. *)
Fixpoint mexpire_loop (op : string) (now : Z) (items : list (option Item)) (c : client) : client * res unit :=
  match items with
  | [] => (c, Ok tt)
  | None :: items' => mexpire_loop op now items' c
  | Some it :: items' =>
      if String.eqb (Timeout it) "" || blank_key (Key it)
      then (c, Err (EOp op (EStr "should set timeout and at least one key")))
      else match Parse (Timeout it) with
           | None => (c, Err (parse_error (Timeout it)))
           | Some t => mexpire_loop op now items' (rc_Expire (Key it) (Sub t now) c).1
           end
  end.

Definition MExpire (items : slice (option Item)) (d : driver) : driver * res unit :=
  let op := "redis_driver_mexpire" in
  let '(c, r) := mexpire_loop op (rc_Now (universalClient d)) (default [] items) (universalClient d) in
  (with_client c d, r).

Fixpoint ttl_loop (ks : list string) (c : client) (m : gmap string string) : res (gmap string string) :=
  match ks with
  | [] => Ok m
  | k :: ks' =>
      match rc_TTL k c with
      | inr e => Err e
      | inl n => ttl_loop ks' c (<[k := Duration.Duration_String n]> m)
      end
  end.

Definition TTL (keys : slice string) (d : driver) : res (gmap string string) :=
  let op := "redis_driver_ttl" in
  match keys with
  | None => Err (EOp op (EKind NoKeys))
  | Some ks =>
      match check_keys op ks with
      | Some e => Err e
      | None => ttl_loop ks (universalClient d) ∅
      end
  end.

Definition Clear (d : driver) : driver * res unit :=
  let '(c, e) := rc_FlushDB (universalClient d) in
  (with_client c d, match e with Some e => Err e | None => Ok tt end).

Definition Stop (d : driver) : driver := with_client (rc_Close (universalClient d)) d.

#[global] Instance redis_storage : Storage driver := {
  st_Has := Has; st_MGet := MGet; st_Set := Set_; st_MExpire := MExpire;
  st_TTL := TTL; st_Delete := Delete; st_Clear := Clear; st_Stop d := Some (Stop d) }.

End Driver.

(** *** The storage contract *)

Section Laws.
Context `{RL : RedisLaws}.

Definition values (c : client) : gmap string bytes := fst <$> live c.

(** A time to live that the server can keep: none, or at least a millisecond
    and at most what a duration holds. *)
Definition lasting (now : Z) (it : Item) : Prop :=
  Timeout it = "" ∨ ∃ t, Parse (Timeout it) = Some t ∧ 10 ^ 6 ≤ t - now < 2 ^ 63.

(** The time an entry is kept until. *)
Definition kept_until (it : Item) (x : option Z) : Prop :=
  match Parse (Timeout it), x with
  | _, None => Timeout it = ""
  | Some t, Some x => t - 10 ^ 6 < x ≤ t
  | None, Some _ => False
  end.

Lemma set_one op now it its c :
  up c → rc_Now c = now → lasting now it →
  ∃ c' x, set_loop op now (Some it :: its) c = set_loop op now its c' ∧ up c' ∧ rc_Now c' = now ∧
    live c' = <[Key it := (Value it, x)]> (live c) ∧ kept_until it x.
Proof.
  intros Hu Hn [Ht|(t & Ht & Hb)]; cbn [set_loop].
  - rewrite Ht. destruct (up_Set c (Key it) (Value it) Hu) as (c' & E & H1 & H2 & H3). rewrite String.eqb_refl, E.
    exists c', None. split_and!; [done|done|congruence|done|]. unfold kept_until. by destruct (Parse _).
  - destruct (String.eqb_spec (Timeout it) "") as [E0|_]; [by rewrite E0 in Ht|].
    destruct (up_SetEx c (Key it) (Value it) (t - now) Hu Hb) as (c' & x & E & H1 & H2 & H3 & H4).
    rewrite Ht, Sub_exact, E by lia. exists c', (Some x). split_and!; [done|done|congruence|done|].
    unfold kept_until. rewrite Ht. lia.
Qed.

Lemma set_all op now its c :
  up c → rc_Now c = now → Forall (lasting now) its →
  ∃ c', set_loop op now (Some <$> its) c = (c', Ok tt) ∧ up c' ∧ values c' = put_items its (values c).
Proof.
  intros Hu Hn Hits. revert c Hu Hn. induction Hits as [|it its Hit _ IH]; intros c Hu Hn; [by exists c|].
  destruct (set_one op now it (Some <$> its) c Hu Hn Hit) as (c1 & x & E & Hu1 & Hn1 & Hl & _).
  destruct (IH c1 Hu1 Hn1) as (c2 & E2 & Hu2 & Hv). exists c2. split_and!; [|done|].
  - rewrite fmap_cons, E. exact E2.
  - rewrite Hv. unfold values. by rewrite Hl, fmap_insert.
Qed.

Lemma redis_has_loop op ks c m : up c → Forall (λ k, blank_key k = false) ks →
  has_loop op ks c m = Ok (collect (λ _, true) ks (values c) m).
Proof.
  intros Hu Hks. revert m. induction Hks as [|k ks Hk _ IH]; intros m; [done|].
  cbn [has_loop]. rewrite Hk, up_Exists, IH by done. unfold collect, values. cbn [foldl]. rewrite lookup_fmap.
  by destruct (live c !! k).
Qed.

Lemma redis_mget_loop op ks c m : up c → mget_loop op ks c m = Ok (collect id ks (values c) m).
Proof.
  intros Hu. revert m. induction ks as [|k ks IH]; intros m; [done|].
  cbn [mget_loop]. rewrite up_Get by done. unfold collect, values. cbn [foldl]. rewrite lookup_fmap.
  destruct (live c !! k); apply IH.
Qed.

#[global] Program Instance redis_storage_laws : StorageLaws driver := {
  st_inv d := up (universalClient d); st_abs d := values (universalClient d);
  st_key_ok k := blank_key k = false; st_item_ok d := lasting (rc_Now (universalClient d)) }.
Next Obligation.
  intros d ks Hu Hks. simpl. rewrite redis_has_loop by done. by rewrite collect_restrict.
Qed.
Next Obligation.
  intros d ks Hu Hks. simpl. apply (check_keys_None "redis_driver_mget") in Hks as ->.
  rewrite redis_mget_loop by done. by rewrite collect_restrict, map_fmap_id.
Qed.
Next Obligation.
  intros d its Hu Hits. simpl.
  destruct (set_all "redis_driver_set" _ its (universalClient d) Hu eq_refl) as (c & -> & Hc & Hv).
  { eapply Forall_impl; [exact Hits|]. by intros it []. }
  eexists. by split_and!.
Qed.
Next Obligation.
  intros d ks Hu Hks. simpl. unfold Delete. apply (check_keys_None "redis_driver_delete") in Hks as ->.
  destruct (up_Del (universalClient d) ks Hu) as (c & -> & Hc & Hl). eexists. split_and!; [done|done|].
  simpl. unfold values. rewrite Hl. apply map_eq. intros k. rewrite lookup_fmap, !lookup_delete_keys, lookup_fmap.
  by case_decide.
Qed.
Next Obligation.
  intros d Hu. simpl. unfold Clear. destruct (up_FlushDB (universalClient d) Hu) as (c & -> & Hc & Hl).
  eexists. split_and!; [done|done|]. simpl. unfold values. by rewrite Hl, fmap_empty.
Qed.

(** An entry with a time to live is answered until a millisecond before its
    instant and no longer from that instant on. *)
Theorem redis_set_expires d it n :
  up (universalClient d) → blank_key (Key it) = false → Timeout it ≠ "" →
  lasting (rc_Now (universalClient d)) it → 0 ≤ n →
  ∃ t d', Parse (Timeout it) = Some t ∧ Set_ (Some [Some it]) d = (d', Ok tt) ∧
    let now := rc_Now (universalClient d) + n in
    let later := with_client (rc_wait n (universalClient d')) d' in
    (now ≤ t - 10 ^ 6 → MGet (Some [Key it]) later = Ok {[ Key it := Value it ]}) ∧
    (t ≤ now → MGet (Some [Key it]) later = Ok ∅ ∧ Has (Some [Key it]) later = Ok ∅).
Proof.
  intros Hu Hk Hne Hl Hn. set (c := universalClient d) in *.
  destruct (set_one "redis_driver_set" (rc_Now c) it [] c Hu eq_refl Hl) as (c1 & x & E & Hu1 & Hn1 & Hl1 & Hx).
  unfold kept_until in Hx. destruct (Parse (Timeout it)) as [t|], x as [x|]; try done.
  exists t, (with_client c1 d). unfold Set_. fold c. rewrite E. split; [done|]. split; [done|]. simpl.
  destruct (up_wait c1 n Hu1 Hn) as (Hu2 & Hn2 & Hw). specialize (Hw (Key it)).
  rewrite Hl1, lookup_insert_eq, Hn1 in Hw. rewrite Hk. split.
  - intros Hlt. destruct (Z.leb_spec x (rc_Now c + n)); [lia|]. rewrite up_Get, Hw by done. simpl. done.
  - intros Hge. destruct (Z.leb_spec x (rc_Now c + n)); [|lia]. by rewrite up_Get, up_Exists, Hw.
Qed.

(** [MExpire] reports success for every request with readable timestamps,
    whatever the server answers. *)
Theorem redis_MExpire_hides_errors its d :
  Forall (λ it, Timeout it ≠ "" ∧ blank_key (Key it) = false ∧ is_Some (Parse (Timeout it))) its →
  (MExpire (Some (Some <$> its)) d).2 = Ok tt.
Proof.
  intros Hits. unfold MExpire. cbn [default].
  enough (E : ∀ now c, (mexpire_loop "redis_driver_mexpire" now (Some <$> its) c).2 = Ok tt).
  { specialize (E (rc_Now (universalClient d)) (universalClient d)). by destruct (mexpire_loop _ _ _ _). }
  intros now. induction Hits as [|it its (H1 & H2 & [t H3]) _ IH]; intros c; [done|].
  rewrite fmap_cons. cbn [mexpire_loop]. apply String.eqb_neq in H1. rewrite H1, H2, H3. apply IH.
Qed.
End Laws.
End RedisKv.

(** ** Memcached *)

Module MemcachedKv.

Record Config := MkConfig { Addr : option (list string) }.

Definition InitDefaults (s : Config) : Config :=
  match Addr s with Some _ => s | None => MkConfig (Some ["127.0.0.1:11211"]) end.

(** What the client's calls answer; [ErrCacheMiss] is told from other errors. *)
Inductive failure := CacheMiss | Failed (e : error).
Definition miss_error : error := EExt "memcache: cache miss".
Definition failure_error (f : failure) : error := match f with CacheMiss => miss_error | Failed e => e end.

(** [mc_Get] answers an item, or a nil item without an error; expirations are
    32 bit integers. *)
Class Memcached := {
  mclient : Type;
  New : list string → mclient;
  mc_Get : string → mclient → option bytes + failure;
  mc_Set : string → bytes → Z → mclient → mclient * option error;
  mc_Touch : string → Z → mclient → mclient * option failure;
  mc_Delete : string → mclient → mclient * option failure;
  mc_DeleteAll : mclient → mclient * option error;
}.

(** How the server reads an expiration at the time [now], in seconds: none,
    at once, relative up to thirty days, or absolute. *)
Inductive expiry := Never | Gone | At (s : Z).
Definition expiry_of (now e : Z) : expiry :=
  if e =? 0 then Never
  else if e <? 0 then Gone
  else if e <=? 60 * 60 * 24 * 30 then At (now + e)
  else if e <=? now then Gone else At e.

Definition enter (k : string) (v : bytes) (x : expiry) (m : gmap string (bytes * option Z))
    : gmap string (bytes * option Z) :=
  match x with
  | Never => <[k := (v, None)]> m
  | Gone => delete k m
  | At s => <[k := (v, Some s)]> m
  end.

(** [legal] keys have at most 250 bytes, none of them a space or a control
    character; [fits] values are below the server's limit. *)
Class MemcachedLaws `{MC : Memcached} := {
  legal : string → Prop;
  fits : bytes → Prop;
  ready : mclient → Prop;
  entries : mclient → gmap string (bytes * option Z);
  clock : mclient → Z;
  ready_Get c k : ready c → legal k →
    mc_Get k c = match entries c !! k with Some (v, _) => inl (Some v) | None => inr CacheMiss end;
  ready_Set c k v e : ready c → legal k → fits v →
    ∃ c', mc_Set k v e c = (c', None) ∧ ready c' ∧ clock c' = clock c ∧
      entries c' = enter k v (expiry_of (clock c) e) (entries c);
  ready_Touch_miss c k e : ready c → legal k → entries c !! k = None → mc_Touch k e c = (c, Some CacheMiss);
  ready_Delete c k : ready c → legal k →
    ∃ c' r, mc_Delete k c = (c', r) ∧ (r = None ∨ r = Some CacheMiss) ∧ ready c' ∧
      entries c' = delete k (entries c);
  ready_DeleteAll c : ready c → ∃ c', mc_DeleteAll c = (c', None) ∧ ready c' ∧ entries c' = ∅;
}.

Section Driver.
Context `{MC : Memcached}.

Record driver := MkDriver { client : mclient; cfg : Config }.
Definition with_client (c : mclient) (d : driver) : driver := MkDriver c (cfg d).

Definition NewMemcachedDriver (unmarshal : string → res (option Config)) (key : string) : res driver :=
  let op := "new_memcached_driver" in
  match unmarshal key with
  | Err e => Err (EOp op e)
  | Panic => Panic
  | Ok None => Err (no_config op key)
  | Ok (Some c) => let c := InitDefaults c in Ok (MkDriver (New (default [] (Addr c))) c)
  end.

Fixpoint has_loop (op : string) (ks : list string) (c : mclient) (m : gmap string bool)
    : res (gmap string bool) :=
  match ks with
  | [] => Ok m
  | k :: ks' =>
      if blank_key k then Err (EOp op (EKind EmptyKey)) else
      match mc_Get k c with
      | inr CacheMiss => has_loop op ks' c m
      | inr (Failed e) => Err (EOp op e)
      | inl (Some _) => has_loop op ks' c (<[k := true]> m)
      | inl None => has_loop op ks' c m
      end
  end.

Definition Has (keys : slice string) (d : driver) : res (gmap string bool) :=
  let op := "memcached_plugin_has" in
  match keys with
  | None => Err (EOp op (EKind NoKeys))
  | Some ks => has_loop op ks (client d) ∅
  end.

(** A missing key is answered with a nil slice. *)
Definition Get (key : string) (d : driver) : res (option bytes) :=
  let op := "memcached_plugin_get" in
  if blank_key key then Err (EOp op (EKind EmptyKey)) else
  match mc_Get key (client d) with
  | inr CacheMiss => Ok None
  | inr (Failed e) => Err (EOp op e)
  | inl o => Ok o
  end.

Fixpoint mget_loop (op : string) (ks : list string) (c : mclient) (m : gmap string bytes)
    : res (gmap string bytes) :=
  match ks with
  | [] => Ok m
  | k :: ks' =>
      match mc_Get k c with
      | inr CacheMiss => mget_loop op ks' c m
      | inr (Failed e) => Err (EOp op e)
      | inl (Some v) => mget_loop op ks' c (<[k := v]> m)
      | inl None => mget_loop op ks' c m
      end
  end.

Definition MGet (keys : slice string) (d : driver) : res (gmap string bytes) :=
  let op := "memcached_plugin_mget" in
  match keys with
  | None => Err (EOp op (EKind NoKeys))
  | Some ks =>
      match check_keys op ks with
      | Some e => Err e
      | None => mget_loop op ks (client d) ∅
      end
  end.

(** [int32(t.Unix())] *)
Definition expiration (t : Z) : Z := i32 (t / 10 ^ 9).

Fixpoint set_loop (op : string) (items : list (option Item)) (c : mclient) : mclient * res unit :=
  match items with
  | [] => (c, Ok tt)
  | None :: _ => (c, Err (EOp op (EKind EmptyItem)))
  | Some it :: items' =>
      match (if String.eqb (Timeout it) "" then inl 0
             else match Parse (Timeout it) with
                  | Some t => inl (expiration t)
                  | None => inr (parse_error (Timeout it))
                  end) with
      | inr e => (c, Err e)
      | inl e =>
          match mc_Set (Key it) (Value it) e c with
          | (c, Some e) => (c, Err e)
          | (c, None) => set_loop op items' c
          end
      end
  end.

Definition Set_ (items : slice (option Item)) (d : driver) : driver * res unit :=
  let op := "memcached_plugin_set" in
  match items with
  | None => (d, Err (EOp op (EKind NoKeys)))
  | Some its => let '(c, r) := set_loop op its (client d) in (with_client c d, r)
  end.

Fixpoint mexpire_loop (op : string) (items : list (option Item)) (c : mclient) : mclient * res unit :=
  match items with
  | [] => (c, Ok tt)
  | None :: items' => mexpire_loop op items' c
  | Some it :: items' =>
      if String.eqb (Timeout it) "" || blank_key (Key it)
      then (c, Err (EOp op (EStr "should set timeout and at least one key")))
      else match Parse (Timeout it) with
           | None => (c, Err (EOp op (parse_error (Timeout it))))
           | Some t =>
               match mc_Touch (Key it) (expiration t) c with
               | (c, Some f) => (c, Err (EOp op (failure_error f)))
               | (c, None) => mexpire_loop op items' c
               end
           end
  end.

Definition MExpire (items : slice (option Item)) (d : driver) : driver * res unit :=
  let '(c, r) := mexpire_loop "memcached_plugin_mexpire" (default [] items) (client d) in (with_client c d, r).

Definition TTL (_ : slice string) (_ : driver) : res (gmap string string) :=
  Err (EOp "memcached_plugin_ttl"
    (EStr "not valid request for memcached, see https://github.com/memcached/memcached/issues/239")).

Fixpoint delete_loop (op : string) (ks : list string) (c : mclient) : mclient * res unit :=
  match ks with
  | [] => (c, Ok tt)
  | k :: ks' =>
      match mc_Delete k c with
      | (c, Some (Failed e)) => (c, Err (EOp op e))
      | (c, _) => delete_loop op ks' c
      end
  end.

Definition Delete (keys : slice string) (d : driver) : driver * res unit :=
  let op := "memcached_plugin_has" in
  match keys with
  | None => (d, Err (EOp op (EKind NoKeys)))
  | Some ks =>
      match check_keys op ks with
      | Some e => (d, Err e)
      | None => let '(c, r) := delete_loop op ks (client d) in (with_client c d, r)
      end
  end.

Definition Clear (d : driver) : driver * res unit :=
  let '(c, e) := mc_DeleteAll (client d) in
  (with_client c d, match e with Some e => Err e | None => Ok tt end).

Definition Stop (d : driver) : driver := d.

#[global] Instance memcached_storage : Storage driver := {
  st_Has := Has; st_MGet := MGet; st_Set := Set_; st_MExpire := MExpire;
  st_TTL := TTL; st_Delete := Delete; st_Clear := Clear; st_Stop d := Some (Stop d) }.
End Driver.

(** *** The storage contract *)

Section Laws.
Context `{ML : MemcachedLaws}.

Definition values (c : mclient) : gmap string bytes := fst <$> entries c.

(** No time to live, or one in the future that is more than thirty days after
    the epoch and fits 32 bits. *)
Definition lasting (now : Z) (it : Item) : Prop :=
  Timeout it = "" ∨ ∃ t, Parse (Timeout it) = Some t ∧ now < t / 10 ^ 9 < 2 ^ 31 ∧ 60 * 60 * 24 * 30 < t / 10 ^ 9.

Definition key_ok (k : string) : Prop := blank_key k = false ∧ legal k.

Lemma mc_set_all op its c :
  ready c → Forall (λ it, legal (Key it) ∧ fits (Value it) ∧ lasting (clock c) it) its →
  ∃ c', set_loop op (Some <$> its) c = (c', Ok tt) ∧ ready c' ∧ values c' = put_items its (values c).
Proof.
  intros Hr Hits. revert c Hr Hits. induction its as [|it its IH]; intros c Hr Hits; [by exists c|].
  apply Forall_cons in Hits as [(Hk & Hf & Hl) Hits]. rewrite fmap_cons. cbn [set_loop].
  assert (He : ∃ e x, (if String.eqb (Timeout it) "" then inl 0
      else match Parse (Timeout it) with
           | Some t => inl (expiration t)
           | None => inr (parse_error (Timeout it))
           end) = inl e ∧ enter (Key it) (Value it) (expiry_of (clock c) e) (entries c)
             = <[Key it := (Value it, x)]> (entries c)).
  { destruct Hl as [-> |(t & Ht & Hb & Hm)]; [by exists 0, None|].
    destruct (String.eqb_spec (Timeout it) "") as [E0|_]; [by rewrite E0 in Ht|].
    rewrite Ht. exists (expiration t), (Some (t / 10 ^ 9)). split; [done|]. unfold expiration, expiry_of.
    rewrite i32_id by lia. destruct (Z.eqb_spec (t / 10 ^ 9) 0); [lia|].
    destruct (Z.ltb_spec (t / 10 ^ 9) 0); [lia|]. destruct (Z.leb_spec (t / 10 ^ 9) (60 * 60 * 24 * 30)); [lia|].
    by destruct (Z.leb_spec (t / 10 ^ 9) (clock c)); [lia|]. }
  destruct He as (e & x & -> & He). destruct (ready_Set c _ _ e Hr Hk Hf) as (c1 & -> & Hr1 & Hc1 & He1).
  destruct (IH c1 Hr1) as (c2 & E2 & Hr2 & Hv2); [by rewrite Hc1|]. exists c2. split_and!; [exact E2|done|].
  rewrite Hv2. unfold values. by rewrite He1, He, fmap_insert.
Qed.

Lemma mc_has_loop op ks c m : ready c → Forall key_ok ks →
  has_loop op ks c m = Ok (collect (λ _, true) ks (values c) m).
Proof.
  intros Hr Hks. revert m. induction Hks as [|k ks [Hb Hk] _ IH]; intros m; [done|].
  cbn [has_loop]. rewrite Hb, ready_Get by done. unfold collect, values. cbn [foldl]. rewrite lookup_fmap.
  destruct (entries c !! k) as [[]|]; apply IH.
Qed.

Lemma mc_mget_loop op ks c m : ready c → Forall key_ok ks →
  mget_loop op ks c m = Ok (collect id ks (values c) m).
Proof.
  intros Hr Hks. revert m. induction Hks as [|k ks [Hb Hk] _ IH]; intros m; [done|].
  cbn [mget_loop]. rewrite ready_Get by done. unfold collect, values. cbn [foldl]. rewrite lookup_fmap.
  destruct (entries c !! k) as [[]|]; apply IH.
Qed.

Lemma mc_delete_loop op ks c : ready c → Forall key_ok ks →
  ∃ c', delete_loop op ks c = (c', Ok tt) ∧ ready c' ∧ entries c' = delete_keys ks (entries c).
Proof.
  intros Hr Hks. revert c Hr. induction Hks as [|k ks [Hb Hk] _ IH]; intros c Hr; [by exists c|].
  cbn [delete_loop]. destruct (ready_Delete c k Hr Hk) as (c1 & r & -> & Hres & Hr1 & He).
  destruct (IH c1 Hr1) as (c2 & E & Hr2 & He2). exists c2. split_and!; [|done|].
  - by destruct Hres as [-> | ->].
  - unfold delete_keys in *. cbn [foldl]. by rewrite He2, He.
Qed.

Lemma key_ok_blank ks : Forall key_ok ks → Forall (λ k, blank_key k = false) ks.
Proof. intros Hks. eapply Forall_impl; [exact Hks|]. by intros k []. Qed.

#[global] Program Instance memcached_storage_laws : StorageLaws driver := {
  st_inv d := ready (client d); st_abs d := values (client d); st_key_ok := key_ok;
  st_item_ok d it := legal (Key it) ∧ fits (Value it) ∧ lasting (clock (client d)) it }.
Next Obligation.
  intros d ks Hr Hks. simpl. rewrite mc_has_loop by done. by rewrite collect_restrict.
Qed.
Next Obligation.
  intros d ks Hr Hks. simpl.
  rewrite (proj2 (check_keys_None "memcached_plugin_mget" ks) (key_ok_blank ks Hks)).
  rewrite mc_mget_loop by done. by rewrite collect_restrict, map_fmap_id.
Qed.
Next Obligation.
  intros d its Hr Hits. simpl. destruct (mc_set_all "memcached_plugin_set" its (client d) Hr) as (c & -> & Hc & Hv).
  { eapply Forall_impl; [exact Hits|]. by intros it []. }
  eexists. by split_and!.
Qed.
Next Obligation.
  intros d ks Hr Hks. simpl. unfold Delete.
  rewrite (proj2 (check_keys_None "memcached_plugin_has" ks) (key_ok_blank ks Hks)).
  destruct (mc_delete_loop "memcached_plugin_has" ks (client d) Hr Hks) as (c & -> & Hc & He).
  eexists. split_and!; [done|done|]. simpl. unfold values. rewrite He. apply map_eq. intros k.
  rewrite lookup_fmap, !lookup_delete_keys, lookup_fmap. by case_decide.
Qed.
Next Obligation.
  intros d Hr. simpl. unfold Clear. destruct (ready_DeleteAll (client d) Hr) as (c & -> & Hc & He).
  eexists. split_and!; [done|done|]. simpl. unfold values. by rewrite He, fmap_empty.
Qed.

(** A time to live from the year 2038 to 2106 is stored as a negative number:
    [Set] reports success and the value is gone at once, the earlier value of
    the key included. *)
Theorem memcached_2038 d it t :
  ready (client d) → key_ok (Key it) → fits (Value it) →
  Timeout it ≠ "" → Parse (Timeout it) = Some t → 2 ^ 31 ≤ t / 10 ^ 9 < 2 ^ 32 →
  ∃ d', Set_ (Some [Some it]) d = (d', Ok tt) ∧ Has (Some [Key it]) d' = Ok ∅ ∧ MGet (Some [Key it]) d' = Ok ∅.
Proof.
  intros Hr [Hb Hk] Hf Hne Ht Hu. apply String.eqb_neq in Hne.
  assert (He : expiration t < 0).
  { unfold expiration, i32. set (u := t / 10 ^ 9) in *.
    replace (u + 2 ^ 31) with (u - 2 ^ 31 + 1 * 2 ^ 32) by lia. rewrite Z_mod_plus_full, Z.mod_small; lia. }
  destruct (ready_Set (client d) (Key it) (Value it) (expiration t) Hr Hk Hf) as (c & Hs & Hc & _ & Hm).
  unfold expiry_of in Hm. destruct (Z.eqb_spec (expiration t) 0); [lia|].
  destruct (Z.ltb_spec (expiration t) 0); [|lia]. simpl in Hm.
  eexists. unfold Set_. cbn [set_loop]. rewrite Hne, Ht, Hs. split; [done|]. simpl.
  rewrite Hb, ready_Get, Hm, lookup_delete_eq by done. by split.
Qed.

(** [MExpire] ends at the first key that is not stored: the others keep their
    time to live, and an error is reported. *)
Theorem memcached_MExpire_missing d it its t :
  ready (client d) → key_ok (Key it) → entries (client d) !! Key it = None →
  Timeout it ≠ "" → Parse (Timeout it) = Some t →
  MExpire (Some (Some it :: its)) d = (d, Err (EOp "memcached_plugin_mexpire" miss_error)).
Proof.
  intros Hr [Hb Hk] Hm Hne Ht. apply String.eqb_neq in Hne. unfold MExpire. cbn [from_option id mexpire_loop].
  rewrite Hne, Hb, Ht, ready_Touch_miss by done. simpl. by destruct d.
Qed.
End Laws.
End MemcachedKv.

(** ** Servers that keep their entries in a map *)

Module RemoteExamples.
Record server := MkServer { sv_live : gmap string (bytes * option Z); sv_now : Z }.
Definition with_live (m : gmap string (bytes * option Z)) (s : server) : server := MkServer m (sv_now s).

Definition expired (now : Z) (o : bytes * option Z) : option (bytes * option Z) :=
  match o with (v, Some x) => if x <=? now then None else Some (v, Some x) | _ => Some o end.

Module Redis.
Import RedisKv.
Definition map_redis : Redis := {|
  client := server;
  NewUniversalClient _ := MkServer ∅ 0;
  rc_Exists k s := inl (match sv_live s !! k with Some _ => 1 | None => 0 end);
  rc_Get k s := inl (fst <$> sv_live s !! k);
  rc_Set k v e s := (with_live (<[k := (v, if e =? 0 then None else Some (sv_now s + e))]> (sv_live s)) s, None);
  rc_Del ks s := (with_live (delete_keys ks (sv_live s)) s, None);
  rc_Expire k e s := (s, Some (EExt "connection refused"));
  rc_TTL k s := inl (-1);
  rc_FlushDB s := (with_live ∅ s, None);
  rc_Close s := s;
  rc_Now s := sv_now s;
  rc_wait n s := MkServer (omap (expired (sv_now s + n)) (sv_live s)) (sv_now s + n) |}.

#[local] Existing Instance map_redis.

Definition map_redis_laws : RedisLaws.
Proof.
  refine {| up := λ _, True; live := sv_live |}; simpl; intros; try done.
  - by eexists.
  - exists (with_live (<[k := (v, Some (sv_now c + e))]> (sv_live c)) c), (sv_now c + e).
    destruct (Z.eqb_spec e 0); [lia|]. split_and!; [done|done|lia|lia|done|done].
  - by eexists.
  - by eexists.
  - split; [done|]. split; [done|]. intros k. rewrite lookup_omap. by destruct (sv_live c !! k) as [[v [x|]]|].
Defined.

Definition w_driver : driver := MkDriver (MkServer ∅ 1000 : client) (MkConfig None 0 "" "" "" "" false false 0 0 0 0 0 0 0 0 0 0 0 0 false).
Definition w_item : Item := MkItem "k" "v" "1970-01-01T00:01:00Z".

Lemma redis_set_expires_witness :
  ∃ t d', Parse (Timeout w_item) = Some t ∧ Set_ (Some [Some w_item]) w_driver = (d', Ok tt) ∧
    MGet (Some ["k"]) (with_client (rc_wait (10 ^ 10) (universalClient d')) d') = Ok {[ "k" := "v" ]}.
Proof.
  destruct (redis_set_expires (RL := map_redis_laws) w_driver w_item (10 ^ 10)) as (t & d' & H1 & H2 & H3 & _);
    [done|reflexivity|done|right; exists (60 * 10 ^ 9); split; [vm_compute; reflexivity|simpl; lia]|lia|].
  exists t, d'. split; [done|]. split; [done|]. apply H3. vm_compute in H1. injection H1 as <-. simpl. lia.
Defined.

Lemma redis_MExpire_hides_errors_witness :
  (MExpire (Some [Some w_item]) w_driver).2 = Ok tt ∧ (rc_Expire "k" 1 (universalClient w_driver)).2 ≠ None.
Proof.
  split; [|done]. apply (redis_MExpire_hides_errors [w_item]).
  constructor; [|done]. split_and!; [done|reflexivity|]. eexists. vm_compute. reflexivity.
Defined.
End Redis.

Module Memcached.
Import MemcachedKv.
Definition map_memcached : Memcached := {|
  mclient := server;
  New _ := MkServer ∅ 0;
  mc_Get k s := match sv_live s !! k with Some (v, _) => inl (Some v) | None => inr CacheMiss end;
  mc_Set k v e s := (with_live (enter k v (expiry_of (sv_now s) e) (sv_live s)) s, None);
  mc_Touch k e s := match sv_live s !! k with
                    | Some (v, _) => (with_live (enter k v (expiry_of (sv_now s) e) (sv_live s)) s, None)
                    | None => (s, Some CacheMiss)
                    end;
  mc_Delete k s := (with_live (delete k (sv_live s)) s, None);
  mc_DeleteAll s := (with_live ∅ s, None) |}.

#[local] Existing Instance map_memcached.

Definition map_memcached_laws : MemcachedLaws.
Proof.
  refine {| legal := λ _, True; fits := λ _, True; ready := λ _, True; entries := sv_live; clock := sv_now |};
    simpl; intros; try done.
  - by eexists.
  - match goal with E : sv_live c !! k = None |- _ => by rewrite E end.
  - eexists _, _. split_and!; [done|by left|done|done].
  - by eexists.
Defined.

Definition w_driver : driver := MkDriver (MkServer {[ "k" := ("old", None) ]} 1000 : mclient) (MkConfig None).
Definition w_item : Item := MkItem "k" "v" "2040-01-01T00:00:00Z".

Lemma memcached_2038_witness :
  ∃ d', Set_ (Some [Some w_item]) w_driver = (d', Ok tt) ∧ Has (Some ["k"]) d' = Ok ∅ ∧ MGet (Some ["k"]) d' = Ok ∅.
Proof.
  apply (memcached_2038 (ML := map_memcached_laws) w_driver w_item (2208988800 * 10 ^ 9));
    [done|by split|done|done|vm_compute; reflexivity|].
  rewrite Z.div_mul by done. lia.
Defined.

Lemma memcached_MExpire_missing_witness :
  MExpire (Some [Some (MkItem "x" "" "2040-01-01T00:00:00Z"); Some w_item]) w_driver
    = (w_driver, Err (EOp "memcached_plugin_mexpire" miss_error)).
Proof.
  apply (memcached_MExpire_missing (ML := map_memcached_laws) w_driver (MkItem "x" "" "2040-01-01T00:00:00Z")
    [Some w_item] (2208988800 * 10 ^ 9)); [done|by split|reflexivity|done|vm_compute; reflexivity].
Defined.
End Memcached.
End RemoteExamples.
