(* ===== verification/KvPlugin.v ===== *)
(** * The key-value plugin and its RPC service ([kv/plugin.go], [kv/rpc.go])

    The plugin builds the storages the configuration names with the registered
    constructors; the RPC service shares the plugin's map of storages and
    forwards each request to the storage it names.  Drivers appear through the
    [Storage] class; the service is verified against [StorageLaws]. *)

From stdpp Require Import base gmap strings list.
From S2P Require Import Prelude KvStorage KvMemory Bolt KvBolt.

Module Kv.

(** A value of the configuration tree, as far as the plugin looks at it. *)
Inductive field := FStr (s : string) | FOther.
Inductive cfg_value := VNil | VMap (t : gmap string field) | VOther.

Section Plugin.
Context {D : Type} `{Storage D} `{GoRange}.

(** [configurer]: [Has] and [UnmarshalKey] of the configuration plugin. *)
Record configurer := MkConfigurer {
  cfg_Has : string → bool;
  cfg_Unmarshal : string → res (gmap string cfg_value) }.

Record Plugin := MkPlugin {
  constructors : gmap string (string → D + error);
  storages : gmap string D;
  cfg_Data : gmap string cfg_value;
  cfgPlugin : configurer }.

Definition with_storages (s : gmap string D) (p : Plugin) : Plugin :=
  MkPlugin (constructors p) s (cfg_Data p) (cfgPlugin p).

Definition Init (cfg : configurer) : res Plugin :=
  if negb (cfg_Has cfg "kv") then Err (EKind Disabled) else
  match cfg_Unmarshal cfg "kv" with
  | Err e => Err (EOp "kv_plugin_init" e)
  | Panic => Panic
  | Ok data => Ok (MkPlugin ∅ ∅ data cfg)
  end.

Definition GetAllStorageDrivers (name : string) (c : string → D + error) (p : Plugin) : Plugin :=
  MkPlugin (<[name := c]> (constructors p)) (storages p) (cfg_Data p) (cfgPlugin p).

(** What the loop body of [Serve] decides for one section. *)
Inductive decision := Skip | Fail (e : error) | Store (d : D).

(** Build the storage with the constructor [drStr] from the section [key]. *)
Definition construct (p : Plugin) (drStr key : string) : decision :=
  match constructors p !! drStr with
  | None => Skip
  | Some c => match c key with
              | inr e => Fail (EOp "kv_plugin_serve" e)
              | inl st => Store st
              end
  end.

Definition config_key (k : string) : string := "kv." +:+ k +:+ ".config".

Definition serve_entry (p : Plugin) (k : string) (v : cfg_value) : decision :=
  match v with
  | VNil => Skip
  | VOther => Skip
  | VMap t =>
      match t !! "driver" with
      | None => Fail (EOp "kv_plugin_serve"
                  (EErrorf "could not find mandatory driver field in the %s storage" [k]))
      | Some FOther => Skip
      | Some (FStr drStr) =>
          if cfg_Has (cfgPlugin p) (config_key k) then construct p drStr (config_key k)
          else if cfg_Has (cfgPlugin p) k then construct p drStr k
          else Skip
      end
  end.

(** The loop over the configuration; the error that is put on the channel. *)
Fixpoint serve_loop (order : list (string * cfg_value)) (p : Plugin) : Plugin * option error :=
  match order with
  | [] => (p, None)
  | (k, v) :: order' =>
      match serve_entry p k v with
      | Skip => serve_loop order' p
      | Fail e => (p, Some e)
      | Store st => serve_loop order' (with_storages (<[k := st]> (storages p)) p)
      end
  end.

Definition Serve (p : Plugin) : Plugin * option error := serve_loop (range_map (cfg_Data p)) p.

(** Stops every storage, then empties both maps; the states of the stopped
    drivers come first.  [None]: some driver never takes the stop signal. *)
Definition Stop (p : Plugin) : option (list D * Plugin) :=
  stopped ← mapM (λ kv, st_Stop kv.2) (range_map (storages p));
  Some (stopped, MkPlugin ∅ ∅ (cfg_Data p) (cfgPlugin p)).

(** ** The RPC service, on the maps it shares with the plugin *)

Record Request := MkRequest { GetStorage : string; GetItems : slice (option Item) }.

Definition no_such_storage (op s : string) : error := EOp op (EErrorf "no such storage: %s" [s]).

(** [in.Items[i].Key] for every item: a nil item is dereferenced. *)
Definition request_keys (r : Request) : option (list string) :=
  mapM (fmap Key) (default [] (GetItems r)).

Definition reply {A} (op : string) (f : string * A → Item) (r : res (gmap string A))
    : res (list Item) :=
  match r with
  | Ok ret => Ok (f <$> range_map ret)
  | Err e => Err (EOp op e)
  | Panic => Panic
  end.

Definition update_storage (s op : string) (x : D * res unit) (p : Plugin) : Plugin * res unit :=
  (with_storages (<[s := x.1]> (storages p)) p, wrap_err op x.2).

Definition Has (r : Request) (p : Plugin) : res (list Item) :=
  let op := "rpc_has" in
  if String.eqb (GetStorage r) "" then Err (EOp op (EStr "no storage provided")) else
  match request_keys r with
  | None => Panic
  | Some keys =>
      match storages p !! GetStorage r with
      | Some st => reply op (λ kv, MkItem kv.1 "" "") (st_Has (Some keys) st)
      | None => Err (no_such_storage op (GetStorage r))
      end
  end.

Definition Set_ (r : Request) (p : Plugin) : Plugin * res unit :=
  let op := "rpc_set" in
  match storages p !! GetStorage r with
  | Some st => update_storage (GetStorage r) op (st_Set (GetItems r) st) p
  | None => (p, Err (no_such_storage op (GetStorage r)))
  end.

Definition MGet (r : Request) (p : Plugin) : res (list Item) :=
  let op := "rpc_mget" in
  match request_keys r with
  | None => Panic
  | Some keys =>
      match storages p !! GetStorage r with
      | Some st => reply op (λ kv, MkItem kv.1 kv.2 "") (st_MGet (Some keys) st)
      | None => Err (no_such_storage op (GetStorage r))
      end
  end.

Definition MExpire (r : Request) (p : Plugin) : Plugin * res unit :=
  let op := "rpc_mexpire" in
  match storages p !! GetStorage r with
  | Some st => update_storage (GetStorage r) op (st_MExpire (GetItems r) st) p
  | None => (p, Err (no_such_storage op (GetStorage r)))
  end.

Definition TTL (r : Request) (p : Plugin) : res (list Item) :=
  let op := "rpc_ttl" in
  match request_keys r with
  | None => Panic
  | Some keys =>
      match storages p !! GetStorage r with
      | Some st => reply op (λ kv, MkItem kv.1 "" kv.2) (st_TTL (Some keys) st)
      | None => Err (no_such_storage op (GetStorage r))
      end
  end.

Definition Delete (r : Request) (p : Plugin) : Plugin * res unit :=
  let op := "rcp_delete" in
  match request_keys r with
  | None => (p, Panic)
  | Some keys =>
      match storages p !! GetStorage r with
      | Some st => update_storage (GetStorage r) op (st_Delete (Some keys) st) p
      | None => (p, Err (no_such_storage op (GetStorage r)))
      end
  end.

Definition Clear (r : Request) (p : Plugin) : Plugin * res unit :=
  let op := "rcp_delete" in
  match storages p !! GetStorage r with
  | Some st => update_storage (GetStorage r) op (st_Clear st) p
  | None => (p, Err (no_such_storage op (GetStorage r)))
  end.

(** ** Which storages [Serve] registers *)

Lemma serve_entry_storages p s k v :
  serve_entry (with_storages s p) k v = serve_entry p k v.
Proof. done. Qed.

Lemma serve_loop_ok order p p' :
  NoDup order.*1 → serve_loop order p = (p', None) →
  (∀ k v e, (k, v) ∈ order → serve_entry p k v ≠ Fail e) ∧
  ∀ k, storages p' !! k =
    match (list_to_map order : gmap string cfg_value) !! k with
    | Some v => match serve_entry p k v with Store st => Some st | _ => storages p !! k end
    | None => storages p !! k
    end.
Proof.
  revert p. induction order as [|[k0 v0] order IH]; intros p Hnd Hl; simpl in Hl.
  { simplify_eq. split; [by intros k v e ?%elem_of_nil|done]. }
  apply NoDup_cons in Hnd as [Hk0 Hnd].
  assert (Hfresh : ∀ v, (k0, v) ∉ order).
  { intros v Hin. apply Hk0. apply list_elem_of_fmap. by exists (k0, v). }
  assert (Hnone : (list_to_map order : gmap string cfg_value) !! k0 = None)
    by by apply not_elem_of_list_to_map.
  destruct (serve_entry p k0 v0) as [|e0|st] eqn:E; [|done|].
  - destruct (IH p Hnd Hl) as [H1 H2]. split.
    + intros k v e [?|Hin]%elem_of_cons; [simplify_eq; by rewrite E|by eapply H1].
    + intros k. rewrite H2. simpl. destruct (decide (k0 = k)) as [<-|Hne].
      * by rewrite lookup_insert_eq, Hnone, E.
      * by rewrite lookup_insert_ne.
  - destruct (IH _ Hnd Hl) as [H1 H2]. split.
    + intros k v e [?|Hin]%elem_of_cons; [simplify_eq; by rewrite E|].
      rewrite <- (serve_entry_storages p (<[k0:=st]> (storages p))). by eapply H1.
    + intros k. rewrite H2. simpl. destruct (decide (k0 = k)) as [<-|Hne].
      * by rewrite !lookup_insert_eq, Hnone, E.
      * rewrite !lookup_insert_ne by done. done.
Qed.

Lemma serve_loop_error order p p' e :
  serve_loop order p = (p', Some e) → ∃ k v, (k, v) ∈ order ∧ serve_entry p k v = Fail e.
Proof.
  revert p. induction order as [|[k0 v0] order IH]; intros p Hl; simpl in Hl; [done|].
  destruct (serve_entry p k0 v0) as [|e0|st] eqn:E.
  - destruct (IH p Hl) as (k & v & ? & ?). exists k, v. by split; [right|].
  - simplify_eq. exists k0, v0. by split; [left|].
  - destruct (IH _ Hl) as (k & v & ? & ?). exists k, v. by split; [right|].
Qed.

Lemma list_to_map_range {A} (m : gmap string A) :
  (list_to_map (range_map m) : gmap string A) = m.
Proof.
  transitivity (list_to_map (map_to_list m) : gmap string A); [|apply list_to_map_to_list].
  apply list_to_map_proper; [apply range_map_NoDup|apply range_map_perm].
Qed.

(** When [Serve] reports no error, a storage is registered under a name
    exactly when the section of that name selects a registered constructor and a
    local or global configuration, whatever order the sections are visited in;
    when it reports an error, some section causes it. *)
Theorem kv_Serve_storages p :
  storages p = ∅ →
  match Serve p with
  | (p', None) => ∀ k, storages p' !! k =
      match cfg_Data p !! k with
      | Some v => match serve_entry p k v with Store st => Some st | _ => None end
      | None => None
      end
  | (_, Some e) => ∃ k v, cfg_Data p !! k = Some v ∧ serve_entry p k v = Fail e
  end.
Proof.
  intros He. unfold Serve.
  destruct (serve_loop (range_map (cfg_Data p)) p) as [p' [e|]] eqn:E.
  - destruct (serve_loop_error _ _ _ _ E) as (k & v & Hin & ?).
    exists k, v. split; [by apply elem_of_range_map|done].
  - destruct (serve_loop_ok _ _ _ (range_map_NoDup _) E) as [_ Hs]. intros k.
    rewrite Hs, list_to_map_range, He, lookup_empty.
    destruct (cfg_Data p !! k); [by case_match|done].
Qed.

(** A request that names no registered storage is answered with an error by
    every RPC method, and no method changes the plugin then. *)
Theorem kv_rpc_unknown_storage r p :
  storages p !! GetStorage r = None →
  (∀ keys, request_keys r = Some keys →
     is_ok (Has r p) = false ∧ is_ok (MGet r p) = false ∧ is_ok (TTL r p) = false) ∧
  (∀ m, m ∈ [Set_; MExpire; Delete; Clear] → (m r p).1 = p ∧ is_ok (m r p).2 = false).
Proof.
  intros Hs. split.
  - intros keys Hk. unfold Has, MGet, TTL. rewrite Hk, Hs. by case_match.
  - intros m Hm. unfold Set_, MExpire, Delete, Clear in Hm.
    repeat (apply elem_of_cons in Hm as [->|Hm]; [rewrite Hs; try done; by case_match|]).
    by apply elem_of_nil in Hm.
Qed.

Section Laws.
Context {SL : StorageLaws D}.

Definition request_of (s : string) (its : list Item) : Request :=
  MkRequest s (Some (Some <$> its)).

Lemma request_keys_of s its : request_keys (request_of s its) = Some (Key <$> its).
Proof.
  unfold request_keys, request_of. cbn [GetItems default].
  apply mapM_Some, Forall2_fmap_l, Forall2_fmap_r, Forall_Forall2_diag.
  apply Forall_true. done.
Qed.

Lemma rpc_set_mget s its p d :
  storages p !! s = Some d → st_inv d →
  Forall (λ it, st_key_ok (Key it) ∧ st_item_ok d it ∧
                good_timeout (Timeout it) = true) its →
  ∃ p', Set_ (request_of s its) p = (p', Ok tt) ∧
    (∀ s', s' ≠ s → storages p' !! s' = storages p !! s') ∧
    ∃ out, MGet (request_of s its) p' = Ok out ∧
      NoDup (Key <$> out) ∧
      ∀ k v, MkItem k v "" ∈ out ↔ last_value k its = Some v.
Proof.
  intros Hs Hd Hits.
  destruct (st_Set_abs d its Hd) as (d' & Hset & Hd' & Habs).
  { eapply Forall_impl; [exact Hits|]. naive_solver. }
  eexists. split; [|split].
  - unfold Set_, request_of. simpl. rewrite Hs. unfold update_storage. by rewrite Hset.
  - intros s' Hne. simpl. by rewrite lookup_insert_ne.
  - unfold MGet. rewrite request_keys_of. simpl. rewrite lookup_insert_eq.
    rewrite st_MGet_abs; [|done|].
    2:{ apply Forall_fmap. eapply Forall_impl; [exact Hits|]. naive_solver. }
    eexists. split; [done|]. split.
    + rewrite <- list_fmap_compose. apply range_map_NoDup.
    + intros k v. rewrite list_elem_of_fmap. split.
      * intros ([k' v'] & Heq & Hin%elem_of_range_map). simpl in Heq. simplify_eq.
        rewrite lookup_restrict, Habs, lookup_put_items in Hin.
        case_decide as Hk; [|done]. destruct (last_value k' its) as [w|] eqn:El; [done|].
        exfalso. clear -Hk El. induction its as [|it its IH]; simpl in *; [set_solver|].
        destruct (last_value k' its); [done|]. case_decide; set_solver.
      * intros Hl. exists (k, v). split; [done|]. apply elem_of_range_map.
        rewrite lookup_restrict, Habs, lookup_put_items, Hl. apply decide_True.
        clear -Hl. induction its as [|it its IH]; simpl in *; [done|].
        destruct (last_value k its); [right; auto|]. case_decide; [|done]. subst. left.
Qed.

(** C13: what an RPC [Set] stored is what an RPC [MGet] of the same keys answers:
    one item per key with the value of the last entry given for it; the other
    storages are left alone. *)
Theorem kv_rpc_Set_MGet s its p d :
  storages p !! s = Some d → st_inv d →
  Forall (λ it, st_key_ok (Key it) ∧ st_item_ok d it ∧
                good_timeout (Timeout it) = true) its →
  ∃ p', Set_ (request_of s its) p = (p', Ok tt) ∧
    (∀ s', s' ≠ s → storages p' !! s' = storages p !! s') ∧
    ∃ out, MGet (request_of s its) p' = Ok out ∧
      NoDup (Key <$> out) ∧
      ∀ k v, MkItem k v "" ∈ out ↔ last_value k its = Some v.
Proof. apply rpc_set_mget. Qed.

(** After an RPC [Delete] succeeded, an RPC [Has] for the same keys lists none
    of them, and after [Clear] it lists nothing. *)
Theorem kv_rpc_Delete_Has s its p d :
  s ≠ "" → storages p !! s = Some d → st_inv d →
  Forall (λ it, st_key_ok (Key it)) its →
  (∃ p', Delete (request_of s its) p = (p', Ok tt) ∧ Has (request_of s its) p' = Ok []) ∧
  (∃ p', Clear (request_of s its) p = (p', Ok tt) ∧ Has (request_of s its) p' = Ok []).
Proof.
  intros Hne Hs Hd Hits. apply String.eqb_neq in Hne.
  assert (Hks : Forall st_key_ok (Key <$> its)) by by apply Forall_fmap.
  assert (Hempty : ∀ d', st_inv d' → restrict (Key <$> its) (st_abs d') = ∅ →
    Has (request_of s its) (with_storages (<[s := d']> (storages p)) p) = Ok []).
  { intros d' Hd' Hr. unfold Has. rewrite request_keys_of. simpl. rewrite Hne, lookup_insert_eq.
    rewrite st_Has_abs, Hr, fmap_empty by done. simpl. do 2 f_equal.
    apply Permutation_nil_r. rewrite range_map_perm. by rewrite map_to_list_empty. }
  split.
  - destruct (st_Delete_abs d (Key <$> its) Hd Hks) as (d' & Hdel & Hd' & Habs).
    eexists. split; [|apply (Hempty d' Hd')].
    + unfold Delete. rewrite request_keys_of. simpl. rewrite Hs. unfold update_storage.
      by rewrite Hdel.
    + apply map_eq. intros k. rewrite lookup_restrict, Habs, lookup_delete_keys, lookup_empty.
      by repeat case_decide.
  - destruct (st_Clear_abs d Hd) as (d' & Hcl & Hd' & Habs).
    eexists. split; [|apply (Hempty d' Hd')].
    + unfold Clear. simpl. rewrite Hs. unfold update_storage. by rewrite Hcl.
    + apply map_eq. intros k. rewrite lookup_restrict, Habs, lookup_empty. by case_decide.
Qed.

End Laws.

End Plugin.

Arguments Plugin D : clear implicits.
Arguments configurer : clear implicits.

(** ** Concrete inputs: the memory and the boltdb driver behind the service *)

Definition ex_cfg : configurer :=
  MkConfigurer (λ k, String.eqb k "kv" || String.eqb k "kv.fast.config")
    (λ _, Ok {[ "fast" := VMap {[ "driver" := FStr "memory" ]}; "odd" := VNil ]}).

Definition ex_plugin : Plugin MemoryKv.Driver :=
  MkPlugin {[ "memory" := λ _, inl MemoryKv.ex_driver ]} ∅
    {[ "fast" := VMap {[ "driver" := FStr "memory" ]}; "odd" := VNil ]} ex_cfg.

Definition ex_request : Request :=
  request_of "fast" [MkItem "a" "1" ""; MkItem "b" "2" ""; MkItem "a" "3" ""].

Lemma kv_Serve_storages_witness :
  storages (Serve ex_plugin).1 !! "fast" = Some MemoryKv.ex_driver.
Proof.
  pose proof (kv_Serve_storages ex_plugin eq_refl) as H.
  assert (E : (Serve ex_plugin).2 = None) by (vm_compute; reflexivity).
  destruct (Serve ex_plugin) as [p' [e|]]; [done|].
  simpl. rewrite H. vm_compute. reflexivity.
Defined.

Definition ex_served : Plugin MemoryKv.Driver := (Serve ex_plugin).1.

Lemma kv_rpc_unknown_storage_witness :
  is_ok (Set_ (MkRequest "slow" None) ex_served).2 = false.
Proof.
  apply (kv_rpc_unknown_storage (MkRequest "slow" None) ex_served); [vm_compute; reflexivity|].
  left.
Defined.

Lemma ex_fast : storages ex_served !! "fast" = Some MemoryKv.ex_driver.
Proof. vm_compute. reflexivity. Defined.

Lemma kv_rpc_Set_MGet_witness :
  ∃ p' out, Set_ ex_request ex_served = (p', Ok tt) ∧ MGet ex_request p' = Ok out ∧
    MkItem "a" "3" "" ∈ out.
Proof.
  destruct (kv_rpc_Set_MGet "fast" [MkItem "a" "1" ""; MkItem "b" "2" ""; MkItem "a" "3" ""]
    ex_served MemoryKv.ex_driver ex_fast) as (p' & Hs & _ & out & Hm & _ & Hin).
  - apply map_Forall_empty.
  - by repeat constructor.
  - exists p', out. split_and!; [done..|]. by apply Hin.
Defined.

Definition ex_bolt : Plugin (@BoltKv.Driver MapBolt) :=
  MkPlugin ∅ {[ "disk" := BoltKv.ex_driver ∅ ]} ∅ ex_cfg.

Lemma kv_rpc_Delete_Has_witness :
  ∃ p', Clear (request_of "disk" [MkItem "a" "1" ""]) ex_bolt = (p', Ok tt) ∧
    Has (request_of "disk" [MkItem "a" "1" ""]) p' = Ok [].
Proof.
  apply (kv_rpc_Delete_Has (SL := @BoltKv.bolt_storage_laws MapBolt MapBoltLaws)
    "disk" [MkItem "a" "1" ""] ex_bolt (BoltKv.ex_driver ∅)).
  - discriminate.
  - apply lookup_singleton_eq.
  - apply BoltKv.ex_inv.
  - by repeat constructor.
Defined.

End Kv.
