(* ===== verification/KvDrivers.v ===== *)
(** * The key-value drivers behind the plugin ([memory], [boltdb], [redis] and
      [memcached], file [plugin.go] of each)

    The plugins of the drivers are constructors the kv plugin collects.  Its map
    of storages holds drivers of all four kinds; [storage] is their sum, which
    keeps the storage contract as each of them does. *)

From stdpp Require Import base gmap strings list.
From S2P Require Import Prelude KvStorage KvMemory Bolt KvBolt KvRemote KvPlugin.

Module KvDrivers.
Import Kv.

Section Drivers.
Context `{BL : BoltLaws} `{RL : RedisKv.RedisLaws} `{ML : MemcachedKv.MemcachedLaws}.

Inductive storage :=
  | SMemory (d : MemoryKv.Driver) | SBolt (d : BoltKv.Driver) | SRedis (d : RedisKv.driver) | SMemcached (d : MemcachedKv.driver).

(** A call on whichever driver it is. *)
Definition query {R} (f : ∀ D, Storage D → D → R) (s : storage) : R :=
  match s with
  | SMemory d => f _ MemoryKv.memory_storage d
  | SBolt d => f _ BoltKv.bolt_storage d
  | SRedis d => f _ RedisKv.redis_storage d
  | SMemcached d => f _ MemcachedKv.memcached_storage d
  end.
Definition update {R} (f : ∀ D, Storage D → D → D * R) (s : storage) : storage * R :=
  match s with
  | SMemory d => prod_map SMemory id (f _ MemoryKv.memory_storage d)
  | SBolt d => prod_map SBolt id (f _ BoltKv.bolt_storage d)
  | SRedis d => prod_map SRedis id (f _ RedisKv.redis_storage d)
  | SMemcached d => prod_map SMemcached id (f _ MemcachedKv.memcached_storage d)
  end.

#[global] Instance any_storage : Storage storage := {
  st_Has ks := query (λ D S, @st_Has D S ks);
  st_MGet ks := query (λ D S, @st_MGet D S ks);
  st_Set its := update (λ D S, @st_Set D S its);
  st_MExpire its := update (λ D S, @st_MExpire D S its);
  st_TTL ks := query (λ D S, @st_TTL D S ks);
  st_Delete ks := update (λ D S, @st_Delete D S ks);
  st_Clear := update (λ D S, @st_Clear D S);
  st_Stop s := match s with
    | SMemory d => SMemory <$> st_Stop d
    | SBolt d => SBolt <$> st_Stop d
    | SRedis d => SRedis <$> st_Stop d
    | SMemcached d => SMemcached <$> st_Stop d
    end }.

Definition any_inv (s : storage) : Prop :=
  match s with SMemory d => st_inv d | SBolt d => st_inv d | SRedis d => st_inv d | SMemcached d => st_inv d end.
Definition any_abs (s : storage) : gmap string bytes :=
  match s with SMemory d => st_abs d | SBolt d => st_abs d | SRedis d => st_abs d | SMemcached d => st_abs d end.
Definition any_item_ok (s : storage) (it : Item) : Prop :=
  match s with
  | SMemory d => st_item_ok d it | SBolt d => st_item_ok d it | SRedis d => st_item_ok d it | SMemcached d => st_item_ok d it
  end.

(** Keys that memcached takes are taken by all of them. *)
Lemma memcached_key_ok ks :
  Forall MemcachedKv.key_ok ks → Forall (λ k, blank_key k = false) ks.
Proof. intros Hks. eapply Forall_impl; [exact Hks|]. by intros k []. Qed.

Ltac lift f H :=
  let d := fresh "d" in let E := fresh "E" in let Hd := fresh "Hd" in let Ha := fresh "Ha" in
  destruct H as (d & E & Hd & Ha); exists (f d); split; [exact (f_equal (prod_map f id) E)|done].

#[global] Program Instance any_storage_laws : StorageLaws storage := {
  st_inv := any_inv; st_abs := any_abs; st_key_ok := MemcachedKv.key_ok; st_item_ok := any_item_ok }.
Next Obligation.
  intros [d|d|d|d] ks Hd Hks.
  - exact (st_Has_abs (D := MemoryKv.Driver) d ks Hd (memcached_key_ok ks Hks)).
  - exact (st_Has_abs (D := BoltKv.Driver) d ks Hd (memcached_key_ok ks Hks)).
  - exact (st_Has_abs (D := RedisKv.driver) d ks Hd (memcached_key_ok ks Hks)).
  - exact (st_Has_abs (D := MemcachedKv.driver) d ks Hd Hks).
Qed.
Next Obligation.
  intros [d|d|d|d] ks Hd Hks.
  - exact (st_MGet_abs (D := MemoryKv.Driver) d ks Hd (memcached_key_ok ks Hks)).
  - exact (st_MGet_abs (D := BoltKv.Driver) d ks Hd (memcached_key_ok ks Hks)).
  - exact (st_MGet_abs (D := RedisKv.driver) d ks Hd (memcached_key_ok ks Hks)).
  - exact (st_MGet_abs (D := MemcachedKv.driver) d ks Hd Hks).
Qed.
Next Obligation.
  intros [d|d|d|d] its Hd Hits.
  - lift SMemory (st_Set_abs (D := MemoryKv.Driver) d its Hd Hits).
  - lift SBolt (st_Set_abs (D := BoltKv.Driver) d its Hd Hits).
  - lift SRedis (st_Set_abs (D := RedisKv.driver) d its Hd Hits).
  - lift SMemcached (st_Set_abs (D := MemcachedKv.driver) d its Hd Hits).
Qed.
Next Obligation.
  intros [d|d|d|d] ks Hd Hks.
  - lift SMemory (st_Delete_abs (D := MemoryKv.Driver) d ks Hd (memcached_key_ok ks Hks)).
  - lift SBolt (st_Delete_abs (D := BoltKv.Driver) d ks Hd (memcached_key_ok ks Hks)).
  - lift SRedis (st_Delete_abs (D := RedisKv.driver) d ks Hd (memcached_key_ok ks Hks)).
  - lift SMemcached (st_Delete_abs (D := MemcachedKv.driver) d ks Hd Hks).
Qed.
Next Obligation.
  intros [d|d|d|d] Hd.
  - lift SMemory (st_Clear_abs (D := MemoryKv.Driver) d Hd).
  - lift SBolt (st_Clear_abs (D := BoltKv.Driver) d Hd).
  - lift SRedis (st_Clear_abs (D := RedisKv.driver) d Hd).
  - lift SMemcached (st_Clear_abs (D := MemcachedKv.driver) d Hd).
Qed.

(** ** The plugins of the drivers *)

Definition provide {D} (op : string) (f : D → storage) (r : res D) : res storage := d ← wrap_err op r; Ok (f d).

Definition memory_KvFromConfig unmarshal (key : string) : res storage :=
  provide "memory_plugin_construct" SMemory (MemoryKv.NewInMemoryDriver unmarshal key).
Definition boltdb_KvFromConfig has unmarshal open (key : string) : res storage :=
  provide "boltdb_plugin_provide" SBolt (BoltKv.NewBoltDBDriver has unmarshal open key).
Definition redis_KvFromConfig unmarshal (key : string) : res storage :=
  provide "redis_plugin_provide" SRedis (RedisKv.NewRedisDriver unmarshal key).
Definition memcached_Init (has : string → bool) : option error :=
  if has "kv" then None else Some (EKind Disabled).
Definition memcached_KvFromConfig unmarshal (key : string) : res storage :=
  provide "boltdb_plugin_provide" SMemcached (MemcachedKv.NewMemcachedDriver unmarshal key).

(** ** A section and its driver *)

Inductive kind := KMemory | KBoltdb | KRedis | KMemcached.
Definition plugin_name (kd : kind) : string :=
  match kd with KMemory => "memory" | KBoltdb => "boltdb" | KRedis => "redis" | KMemcached => "memcached" end.

(** The configuration plugin, which reads a section into the type each driver
    has, and [bolt.Open]. *)
Context (has : string → bool) (open : string → Z → DB + error).
Context (unmarshal_memory : string → res (option MemoryKv.Config)) (unmarshal_bolt : string → res (option BoltKv.Config)).
Context (unmarshal_redis : string → res (option RedisKv.Config)).
Context (unmarshal_memcached : string → res (option MemcachedKv.Config)).

Definition KvFromConfig (kd : kind) : string → res storage :=
  match kd with
  | KMemory => memory_KvFromConfig unmarshal_memory
  | KBoltdb => boltdb_KvFromConfig has unmarshal_bolt open
  | KRedis => redis_KvFromConfig unmarshal_redis
  | KMemcached => memcached_KvFromConfig unmarshal_memcached
  end.

(** The constructor the kv plugin collects from the plugin of the driver; a panic
    of it ends the server, so that [Serve] does not return without an error. *)
Definition constructor (kd : kind) (key : string) : storage + error :=
  match KvFromConfig kd key with Ok d => inl d | Err e => inr e | Panic => inr (EStr "panic") end.

(** What the driver needs from outside: a file that can be opened is a database
    whose buckets hold encoded values; a server answers. *)
Definition available (kd : kind) : Prop :=
  match kd with
  | KMemory => True
  | KBoltdb => ∀ f perm db, open f perm = inl db →
      db_ok db ∧ map_Forall (λ _, map_Forall (λ _ v, BoltKv.stored v)) (db_pairs db)
  | KRedis => ∀ o, RedisKv.up (RedisKv.NewUniversalClient o)
  | KMemcached => ∀ addrs, MemcachedKv.ready (MemcachedKv.New addrs)
  end.

Lemma new_bolt_inv key d :
  available KBoltdb → BoltKv.NewBoltDBDriver has unmarshal_bolt open key = Ok d → BoltKv.inv d.
Proof.
  intros Ha. unfold BoltKv.NewBoltDBDriver, Update. destruct (negb (has "kv")); [done|].
  destruct (unmarshal_bolt key) as [[c0|]| |]; try done.
  destruct (open _ _) as [db|] eqn:Eo; [|done]. destruct (Ha _ _ _ Eo) as [Hok Hst].
  destruct (Begin db) as [tx|] eqn:Eb; [|done].
  set (b := BoltKv.bucket _). assert (Hb : b ≠ "") by done.
  destruct (CreateBucketIfNotExists b tx) as [tx' [e|]] eqn:Ec; [done|].
  destruct (db_ok_Commit tx' db Hok) as (db' & Ed & Hok'). rewrite Ed. intros [= <-].
  split; [done|]. split; [done|]. simpl. rewrite (Commit_pairs _ _ _ Ed), (CreateBucketIfNotExists_pairs _ _ _ Ec).
  rewrite lookup_insert_eq, (Begin_pairs _ _ Eb). eexists. split; [done|].
  destruct (db_pairs db !! b) as [m|] eqn:Em; [|apply map_Forall_empty]. by apply (Hst b m).
Qed.

(** A driver that was built is ready to store. *)
Lemma constructed_inv kd key d : available kd → KvFromConfig kd key = Ok d → any_inv d.
Proof.
  intros Ha Hk. destruct kd; simpl in Hk;
    unfold memory_KvFromConfig, boltdb_KvFromConfig, redis_KvFromConfig, memcached_KvFromConfig, provide in Hk.
  - unfold MemoryKv.NewInMemoryDriver in Hk. destruct (unmarshal_memory key) as [[c|]| |]; simplify_eq/=.
    apply map_Forall_empty.
  - destruct (BoltKv.NewBoltDBDriver _ _ _ _) as [b| |] eqn:E; simplify_eq/=. by eapply new_bolt_inv.
  - unfold RedisKv.NewRedisDriver in Hk. destruct (unmarshal_redis key) as [[c|]| |]; simplify_eq/=. apply Ha.
  - unfold MemcachedKv.NewMemcachedDriver in Hk. destruct (unmarshal_memcached key) as [[c|]| |]; simplify_eq/=. apply Ha.
Qed.

(** C5: from the configuration to a stored value, for each of the four drivers:
    when [Serve] reports no error, the section [k], which has its own
    configuration and names the driver, is served by that driver, built by its
    plugin from that configuration; and provided that what the driver needs from
    outside is available, items with keys every driver takes, and values and
    times this one takes, are stored by RPC, and RPC reads back exactly the last value of every key. *)
Theorem kv_section_served `{GoRange} kd p p' k t :
  constructors p !! plugin_name kd = Some (constructor kd) → available kd → storages p = ∅ →
  cfg_Data p !! k = Some (VMap t) → t !! "driver" = Some (FStr (plugin_name kd)) →
  cfg_Has (cfgPlugin p) (config_key k) = true → Serve p = (p', None) →
  ∃ d, KvFromConfig kd (config_key k) = Ok d ∧ storages p' !! k = Some d ∧
    ∀ its, Forall (λ it, MemcachedKv.key_ok (Key it) ∧ any_item_ok d it ∧ good_timeout (Timeout it) = true) its →
    ∃ p'' out, Set_ (request_of k its) p' = (p'', Ok tt) ∧ MGet (request_of k its) p'' = Ok out ∧
      ∀ x v, MkItem x v "" ∈ out ↔ last_value x its = Some v.
Proof.
  intros Hc Ha Hs Hd Ht Hh Hserve. pose proof (kv_Serve_storages p Hs) as Hst. rewrite Hserve in Hst.
  pose proof Hserve as Hf. unfold Serve in Hf. apply serve_loop_ok in Hf as [Hf _]; [|apply range_map_NoDup].
  specialize (Hst k). rewrite Hd in Hst.
  assert (He : serve_entry p k (VMap t) =
    match constructor kd (config_key k) with inl d => Store d | inr e => Fail (EOp "kv_plugin_serve" e) end).
  { unfold serve_entry, construct. rewrite Ht, Hh, Hc. by destruct (constructor kd (config_key k)). }
  rewrite He in Hst. destruct (constructor kd (config_key k)) as [d|e] eqn:Ec.
  - assert (Hd' : KvFromConfig kd (config_key k) = Ok d).
    { unfold constructor in Ec. destruct (KvFromConfig kd (config_key k)); congruence. }
    exists d. split; [done|]. split; [done|]. intros its Hits.
    destruct (rpc_set_mget (SL := any_storage_laws) k its p' d Hst (constructed_inv _ _ _ Ha Hd') Hits)
      as (p'' & Hset & _ & out & Hm & _ & Hin).
    by exists p'', out.
  - exfalso. apply (Hf k (VMap t) (EOp "kv_plugin_serve" e)); [by apply elem_of_range_map|done].
Qed.
End Drivers.

(** ** An example: a memory and a database section *)

#[local] Existing Instance MapBolt.
#[local] Existing Instance MapBoltLaws.
#[local] Existing Instance RemoteExamples.Redis.map_redis.
#[local] Existing Instance RemoteExamples.Redis.map_redis_laws.
#[local] Existing Instance RemoteExamples.Memcached.map_memcached.
#[local] Existing Instance RemoteExamples.Memcached.map_memcached_laws.

Definition w_has (k : string) : bool :=
  String.eqb k "kv" || String.eqb k "kv.fast.config" || String.eqb k "kv.disk.config".
Definition w_open (_ : string) (_ : Z) : DB + error := inl (∅ : buckets).
Definition w_memory (_ : string) : res (option MemoryKv.Config) := Ok (Some (MemoryKv.MkConfig 0)).
Definition w_bolt (_ : string) : res (option BoltKv.Config) := Ok (Some (BoltKv.MkConfig "" "" 0 0)).
Definition w_none {A} (_ : string) : res (option A) := Ok None.
Definition w_constructor := constructor w_has w_open w_memory w_bolt w_none w_none.
Definition w_plugin : Plugin storage :=
  MkPlugin {[ "memory" := w_constructor KMemory; "boltdb" := w_constructor KBoltdb ]} ∅
    {[ "fast" := VMap {[ "driver" := FStr "memory" ]}; "disk" := VMap {[ "driver" := FStr "boltdb" ]} ]}
    (MkConfigurer w_has (λ _, Ok ∅)).

Lemma w_available : available w_open KBoltdb.
Proof. intros f perm db [= <-]. split; [exact I|]. exact (map_Forall_empty (M := gmap string) _). Defined.

Lemma kv_section_served_witness :
  ∃ p'' out, Set_ (request_of "disk" [MkItem "a" "1" ""]) (Serve w_plugin).1 = (p'', Ok tt) ∧
    MGet (request_of "disk" [MkItem "a" "1" ""]) p'' = Ok out ∧ MkItem "a" "1" "" ∈ out.
Proof.
  assert (Hs : (Serve w_plugin).2 = None) by (vm_compute; reflexivity).
  destruct (kv_section_served w_has w_open w_memory w_bolt w_none w_none KBoltdb w_plugin (Serve w_plugin).1 "disk"
    {[ "driver" := FStr "boltdb" ]}) as (d & Hd & _ & Hget).
  - unfold w_plugin. cbn [constructors]. by rewrite lookup_insert_ne, lookup_singleton_eq.
  - exact w_available.
  - reflexivity.
  - unfold w_plugin. cbn [cfg_Data]. by rewrite lookup_insert_ne, lookup_singleton_eq.
  - apply lookup_singleton_eq.
  - vm_compute. reflexivity.
  - rewrite <- Hs. apply surjective_pairing.
  - destruct (Hget [MkItem "a" "1" ""]) as (p'' & out & H1 & H2 & H3).
    + assert (Hb : ∃ b, d = SBolt b).
      { unfold KvFromConfig, boltdb_KvFromConfig, provide in Hd. destruct (wrap_err _ _); [|done..].
        injection Hd as <-. by eexists. }
      destruct Hb as [b ->]. apply Forall_singleton. simpl. unfold BoltKv.item_ok, Bolt.key_ok, MemcachedKv.key_ok.
      simpl. split_and!; [reflexivity|exact I|lia|lia|lia|reflexivity].
    + exists p'', out. split; [exact H1|]. split; [exact H2|]. by apply H3.
Defined.
End KvDrivers.
