(* ===== verification/JobsProtocol.v ===== *)
(** * The worker response protocol of the jobs plugin ([jobs/protocol])

    A worker answers a job with a JSON message; [RespHandler.Handle] decodes it
    and acknowledges, requeues or responds through the job's [Acknowledger].
    The messages are decoded into objects taken from [sync.Pool]s, which keep
    their old field values where the JSON text has no such field, so the pools
    are part of the state.  The JSON decoder (json-iterator) is a parameter. *)

From stdpp Require Import base gmap strings list.
From Stdlib Require Import ZArith.
From S2P Require Import Prelude.

Module Protocol.

Abbreviation headers := (gmap string (list string)).

(** The calls a handler can make on a job. *)
Inductive ack_call :=
  | CAck
  | CNack
  | CRequeue (h : headers) (delay : Z)
  | CRespond (payload : bytes) (queue : string).

#[global] Instance ack_call_eq_dec : EqDecision ack_call.
Proof. solve_decision. Defined.

(** [protocol], [errorResp] and [queueResp]. *)
Record protocol := MkProtocol { T : Z; Data : bytes }.
Record errorResp := MkErrorResp { Msg : string; Requeue : bool; Delay : Z; Headers : headers }.
Record queueResp := MkQueueResp { Queue : string; Payload : string }.

Definition zero_protocol := MkProtocol 0 "".
Definition zero_errorResp := MkErrorResp "" false 0 ∅.
Definition zero_queueResp := MkQueueResp "" "".

(** [json.Unmarshal] assigns the fields the text has; an error may come after
    some of them were assigned. *)
Class Json := {
  dec_protocol : bytes → (option Z * option bytes) * option error;
  dec_errorResp : bytes →
    (option string * option bool * option Z * option headers) * option error;
  dec_queueResp : bytes → (option string * option string) * option error
}.

Record RespHandler := MkRespHandler {
  qPool : list queueResp; ePool : list errorResp; pPool : list protocol }.

Definition NewResponseHandler : RespHandler := MkRespHandler [] [] [].

Definition getProtocol pick (rh : RespHandler) : protocol * RespHandler :=
  let '(p, pool) := pool_get zero_protocol pick (pPool rh) in
  (p, MkRespHandler (qPool rh) (ePool rh) pool).
Definition putProtocol (p : protocol) (rh : RespHandler) : RespHandler :=
  MkRespHandler (qPool rh) (ePool rh) (MkProtocol 0 "" :: pPool rh).

Definition getErrResp pick (rh : RespHandler) : errorResp * RespHandler :=
  let '(p, pool) := pool_get zero_errorResp pick (ePool rh) in
  (p, MkRespHandler (qPool rh) pool (pPool rh)).
Definition putErrResp (p : errorResp) (rh : RespHandler) : RespHandler :=
  MkRespHandler (qPool rh) (MkErrorResp "" false 0 ∅ :: ePool rh) (pPool rh).

Definition getQResp pick (rh : RespHandler) : queueResp * RespHandler :=
  let '(p, pool) := pool_get zero_queueResp pick (qPool rh) in
  (p, MkRespHandler pool (ePool rh) (pPool rh)).
(** Only [Queue] is reset. *)
Definition putQResp (p : queueResp) (rh : RespHandler) : RespHandler :=
  MkRespHandler (MkQueueResp "" (Payload p) :: qPool rh) (ePool rh) (pPool rh).

Section Handler.
Context `{J : Json} {W : Type} (call : ack_call → W → W * option error).

(** Which pooled objects the three pools hand out. *)
Record picks := MkPicks { pick_p : option nat; pick_e : option nat; pick_q : option nat }.

Definition handleErrResp (pk : picks) (data : bytes) (rh : RespHandler) (w : W)
    : RespHandler * W * option error :=
  let '(er, rh) := getErrResp (pick_e pk) rh in
  let '((m, r, d, h), err) := dec_errorResp data in
  let er := MkErrorResp (default (Msg er) m) (default (Requeue er) r)
              (default (Delay er) d) (default (Headers er) h) in
  match err with
  | Some e => (putErrResp er rh, w, Some e)
  | None =>
      if Requeue er then
        let '(w, e) := call (CRequeue (Headers er) (Delay er)) w in (putErrResp er rh, w, e)
      else
        let '(w, _) := call CAck w in (putErrResp er rh, w, None)
  end.

Definition handleQueueResp (pk : picks) (data : bytes) (rh : RespHandler) (w : W)
    : RespHandler * W * option error :=
  let '(qs, rh) := getQResp (pick_q pk) rh in
  let '((q, pl), err) := dec_queueResp data in
  let qs := MkQueueResp (default (Queue qs) q) (default (Payload qs) pl) in
  match err with
  | Some e => (putQResp qs rh, w, Some e)
  | None => let '(w, e) := call (CRespond (Payload qs) (Queue qs)) w in (putQResp qs rh, w, e)
  end.

Definition Handle (pk : picks) (body : bytes) (rh : RespHandler) (w : W)
    : RespHandler * W * option error :=
  let op := "jobs_handle_response" in
  let '(p, rh) := getProtocol (pick_p pk) rh in
  let '((t, dt), err) := dec_protocol body in
  let p := MkProtocol (default (T p) t) (default (Data p) dt) in
  match err with
  | Some e => (putProtocol p rh, w, Some (EOp op e))
  | None =>
      if (T p =? 0)%Z then
        let '(w, e) := call CAck w in (putProtocol p rh, w, EOp op <$> e)
      else if (T p =? 1)%Z then
        let '(rh, w, e) := handleErrResp pk (Data p) rh w in (putProtocol p rh, w, EOp op <$> e)
      else if (T p =? 2)%Z then
        let '(rh, w, e) := handleQueueResp pk (Data p) rh w in (putProtocol p rh, w, e)
      else
        let '(w, e) := call CAck w in (putProtocol p rh, w, EOp op <$> e)
  end.

(** ** The reference: decoding without pools *)

(** The call the message asks for with what the caller is told when the call
    answers, or the error of a malformed message.  [left] is what the decoder
    leaves in the payload of a queue response that has none. *)
Definition response_call (left : string) (body : bytes) : ack_call * (option error → option error) + error :=
  let op := EOp "jobs_handle_response" in
  let '((t, dt), err) := dec_protocol body in
  match err with
  | Some e => inr (op e)
  | None =>
      let data := default "" dt in
      if (default 0 t =? 1)%Z then
        let '((m, r, d, h), err) := dec_errorResp data in
        match err with
        | Some e => inr (op e)
        | None => inl (if default false r then (CRequeue (default ∅ h) (default 0%Z d), fmap op)
                       else (CAck, λ _, None))
        end
      else if (default 0 t =? 2)%Z then
        let '((q, pl), err) := dec_queueResp data in
        match err with
        | Some e => inr e
        | None => inl (CRespond (default left pl) (default "" q), id)
        end
      else inl (CAck, fmap op)
  end.

(** The pooled objects are as good as new, up to the payloads of queue
    responses. *)
Definition clean (rh : RespHandler) : Prop :=
  Forall (eq zero_protocol) (pPool rh) ∧ Forall (eq zero_errorResp) (ePool rh) ∧
  Forall (λ q, Queue q = "") (qPool rh).

(** What a queue response without a payload may be sent with. *)
Definition leftover (rh : RespHandler) (left : string) : Prop := left = "" ∨ left ∈ Payload <$> qPool rh.

Lemma pool_get_clean {A} (z : A) pick pool :
  Forall (eq z) pool → (pool_get z pick pool).1 = z ∧ Forall (eq z) (pool_get z pick pool).2.
Proof.
  intros Hp. unfold pool_get. destruct pick as [i|]; [|done].
  destruct (pool !! i) as [a|] eqn:E; [|done]. simpl. split.
  - symmetry. by eapply Forall_lookup_1 in E.
  - by apply Forall_delete.
Qed.

Lemma getProtocol_clean pick rh : clean rh →
  ∃ rh', getProtocol pick rh = (zero_protocol, rh') ∧ clean rh' ∧ qPool rh' = qPool rh.
Proof.
  intros (Hp & He & Hq). unfold getProtocol.
  destruct (pool_get_clean zero_protocol pick (pPool rh) Hp) as [H1 H2].
  destruct (pool_get zero_protocol pick (pPool rh)) as [p pool]. simpl in *. subst p.
  eexists. by split_and!.
Qed.

Lemma getErrResp_clean pick rh : clean rh →
  ∃ rh', getErrResp pick rh = (zero_errorResp, rh') ∧ clean rh'.
Proof.
  intros (Hp & He & Hq). unfold getErrResp.
  destruct (pool_get_clean zero_errorResp pick (ePool rh) He) as [H1 H2].
  destruct (pool_get zero_errorResp pick (ePool rh)) as [p pool]. simpl in *. subst p.
  eexists. by split_and!.
Qed.

(** A queue response out of the pool has no queue name and a payload of the pool. *)
Lemma getQResp_clean pick rh : clean rh →
  ∃ left rh', getQResp pick rh = (MkQueueResp "" left, rh') ∧ clean rh' ∧ leftover rh left.
Proof.
  intros (Hp & He & Hq). unfold getQResp, pool_get, leftover. destruct pick as [i|].
  - destruct (qPool rh !! i) as [[q pl]|] eqn:E.
    + pose proof (Forall_lookup_1 _ _ _ _ Hq E) as Hn. simpl in Hn. subst q.
      eexists _, _. split; [done|]. split; [split_and!; [done..|by apply Forall_delete]|]. right.
      apply list_elem_of_fmap. eexists. split; [|by eapply list_elem_of_lookup_2]. done.
    + eexists _, _. split; [done|]. split; [done|by left].
  - eexists _, _. split; [done|]. split; [done|by left].
Qed.

Lemma putProtocol_clean p rh : clean rh → clean (putProtocol p rh).
Proof. intros (Hp & He & Hq). split_and!; [by constructor|done..]. Qed.
Lemma putErrResp_clean p rh : clean rh → clean (putErrResp p rh).
Proof. intros (Hp & He & Hq). split_and!; [done|by constructor|done]. Qed.
Lemma putQResp_clean p rh : clean rh → clean (putQResp p rh).
Proof. intros (Hp & He & Hq). split_and!; [done..|by constructor]. Qed.

Create HintDb protocol.
#[local] Hint Resolve putProtocol_clean putErrResp_clean putQResp_clean : protocol.

Lemma new_clean : clean NewResponseHandler.
Proof. by split_and!. Qed.

(** What both sides of the refinement agree on. *)
Definition answers (body : bytes) (rh : RespHandler) (w : W) (x : RespHandler * W * option error) : Prop :=
  clean x.1.1 ∧ ∃ left, leftover rh left ∧
  match response_call left body with
  | inr e => x.1.2 = w ∧ x.2 = Some e
  | inl (c, told) => x.1.2 = (call c w).1 ∧ x.2 = told (call c w).2
  end.

Lemma Handle_answers pk body rh w : clean rh → answers body rh w (Handle pk body rh w).
Proof.
  intros Hc. unfold answers, Handle, response_call.
  destruct (getProtocol_clean (pick_p pk) rh Hc) as (rh' & -> & Hc' & Hq).
  destruct (dec_protocol body) as [[t dt] [e|]]; simpl.
  { split; [auto with protocol|]. exists "". by split; [left|]. }
  destruct (Z.eqb_spec (default 0%Z t) 0) as [E0|N0].
  { rewrite E0. simpl. destruct (call CAck w) as [w' e]; simpl. split; [auto with protocol|]. exists "". by split; [left|]. }
  destruct (Z.eqb_spec (default 0%Z t) 1) as [E1|N1].
  { unfold handleErrResp. destruct (getErrResp_clean (pick_e pk) rh' Hc') as (rh2 & -> & Hc2).
    destruct (dec_errorResp (default "" dt)) as [[[[m r] d] h] [e|]]; simpl.
    { split; [auto with protocol|]. exists "". by split; [left|]. }
    destruct (default false r); simpl; destruct (call _ w) as [w' e]; simpl;
      (split; [auto with protocol|]; exists ""; by split; [left|]). }
  destruct (Z.eqb_spec (default 0%Z t) 2) as [E2|N2].
  { unfold handleQueueResp. destruct (getQResp_clean (pick_q pk) rh' Hc') as (left & rh2 & -> & Hc2 & Hl).
    assert (Hl' : leftover rh left) by (unfold leftover in *; by rewrite <- Hq).
    destruct (dec_queueResp (default "" dt)) as [[q pl] [e|]]; simpl.
    { split; [auto with protocol|]. by exists left. }
    destruct (call _ w) as [w' e] eqn:Ec; simpl. split; [auto with protocol|]. exists left. split; [done|].
    simpl. by rewrite Ec. }
  destruct (call CAck w) as [w' e]; simpl. split; [auto with protocol|]. exists "". by split; [left|].
Qed.

(** C2: every message of a worker makes exactly the acknowledger call that decoding
    it into new objects asks for, once, and reports exactly what that call
    answers, whatever objects the pools hand out, from a new handler on and
    after any messages; a malformed message makes no call and is reported.  The
    one thing the pools add: a queue response without a payload field is sent
    with a payload that is in the pool. *)
Theorem Handle_refines :
  clean NewResponseHandler ∧ ∀ pk body rh w, clean rh → answers body rh w (Handle pk body rh w).
Proof. split; [apply new_clean|exact Handle_answers]. Qed.

(** A queue response that has no payload is sent with the payload of an
    earlier response when the pool hands out the object used for that one,
    because putting it back resets its queue name only. *)
Theorem Handle_leaks_payload pk body1 body2 data1 data2 q1 secret q2 w1 w2 :
  pick_q pk = Some 0 →
  dec_protocol body1 = ((Some 2%Z, Some data1), None) →
  dec_queueResp data1 = ((Some q1, Some secret), None) →
  dec_protocol body2 = ((Some 2%Z, Some data2), None) →
  dec_queueResp data2 = ((Some q2, None), None) →
  let rh1 := (Handle pk body1 NewResponseHandler w1).1.1 in
  (Handle pk body2 rh1 w2).1.2 = (call (CRespond secret q2) w2).1.
Proof.
  intros Hq Hp1 Hd1 Hp2 Hd2. cbv zeta.
  destruct pk as [pp pe pq]. simpl in Hq. subst pq.
  assert (Hrh : ∃ pool, (Handle (MkPicks pp pe (Some 0)) body1 NewResponseHandler w1).1.1
    = MkRespHandler [MkQueueResp "" secret] [] pool).
  { unfold Handle, getProtocol, pool_get. rewrite Hp1.
    unfold handleQueueResp, getQResp, pool_get. simpl. rewrite Hd1.
    destruct pp; simpl; destruct (call _ w1); simpl; eauto. }
  destruct Hrh as [pool ->]. unfold Handle, getProtocol, handleQueueResp, getQResp.
  cbn [pick_p pick_q pPool qPool ePool]. destruct (pool_get zero_protocol pp pool).
  rewrite Hp2. simpl. rewrite Hd2. simpl. by destruct (call _ w2).
Qed.

End Handler.

(** ** Concrete inputs: a decoder for three fixed messages, a job that logs calls *)

#[local] Instance ex_json : Json := {|
  dec_protocol b :=
    if String.eqb b "ok" then ((Some 0%Z, None), None)
    else if String.eqb b "retry" then ((Some 1%Z, Some "retry"), None)
    else if String.eqb b "resp1" then ((Some 2%Z, Some "full"), None)
    else if String.eqb b "resp2" then ((Some 2%Z, Some "bare"), None)
    else ((None, None), Some (EExt "json"));
  dec_errorResp b := ((Some "oops", Some true, Some 5%Z, None), None);
  dec_queueResp b := if String.eqb b "full" then ((Some "q1", Some "secret"), None)
                     else ((Some "q2", None), None) |}.

Definition log_call (c : ack_call) (w : list ack_call) : list ack_call * option error :=
  (w ++ [c], None).

Lemma Handle_refines_witness :
  answers log_call "retry" NewResponseHandler []
    (Handle log_call (MkPicks (Some 0) (Some 3) None) "retry" NewResponseHandler []).
Proof. apply (proj2 (Handle_refines log_call)). apply (Handle_refines log_call). Defined.

Lemma Handle_leaks_payload_witness :
  let rh1 := (Handle log_call (MkPicks None None (Some 0)) "resp1" NewResponseHandler []).1.1 in
  (Handle log_call (MkPicks None None (Some 0)) "resp2" rh1 []).1.2 = [CRespond "secret" "q2"].
Proof.
  apply (Handle_leaks_payload log_call (MkPicks None None (Some 0)) "resp1" "resp2"
    "full" "bare" "q1" "secret" "q2" [] []); reflexivity.
Defined.

End Protocol.
