(* ===== verification/JobsPlugin.v ===== *)
(** * The jobs plugin ([jobs/plugin.go], [jobs/listener.go], [jobs/rpc.go], [jobs/config.go])

    The plugin owns the pipelines, the consumers (one driver instance per
    pipeline), the push and processing metrics, and the pollers that take jobs
    from the priority queue and hand them to the worker pool.  Drivers are seen
    through the [Consumer] class: operations on a handle that act on the state
    [W] of the drivers; pipelines (a type of the plugin API) through
    [PipelineOps]. *)

From stdpp Require Import base gmap strings list.
From Stdlib Require Import ZArith.
From S2P Require Import Prelude JobsProtocol.

Module Jobs.
Import Protocol.

(** [jobs.Job] with its [Options]. *)
Record Job := MkJob {
  jb_Job : string; jb_Ident : string; jb_Payload : bytes; jb_Headers : headers;
  jb_Priority : Z; jb_Pipeline : string; jb_Delay : Z }.

Definition with_priority (z : Z) (j : Job) : Job :=
  MkJob (jb_Job j) (jb_Ident j) (jb_Payload j) (jb_Headers j) z (jb_Pipeline j) (jb_Delay j).

(** [jobs.State]. *)
Record State := MkState {
  st_Pipeline : string; st_Driver : string; st_Queue : string;
  st_Active : Z; st_Delayed : Z; st_Reserved : Z; st_Ready : bool }.

Class PipelineOps (P : Type) := {
  Driver : P → string; Name : P → string; Priority : P → Z;
  With : string → string → P → P }.

(** [With("name", k)] sets the name and leaves the rest. *)
Class PipelineLaws (P : Type) `{PipelineOps P} := {
  With_Name k (p : P) : Name (With "name" k p) = k;
  With_Driver k (p : P) : Driver (With "name" k p) = Driver p;
  With_Priority k (p : P) : Priority (With "name" k p) = Priority p }.

Class Consumer (P W H : Type) := {
  c_Push : H → Job → W → W * option error;
  c_Register : H → P → W → W * option error;
  c_Run : H → P → W → W * option error;
  c_Stop : H → W → W * option error;
  c_Pause : H → string → W → W;
  c_Resume : H → string → W → W;
  c_State : H → W → State + error }.

(** [jobs.Constructor]: a driver from a configuration key or from a pipeline. *)
Record Constructor (P W H : Type) := MkConstructor {
  ConsumerFromConfig : string → W → W * (H + error);
  ConsumerFromPipeline : P → W → W * (H + error) }.
Arguments ConsumerFromConfig {P W H}.
Arguments ConsumerFromPipeline {P W H}.
Arguments MkConstructor {P W H}.

(** The four counters; [uint64] each. *)
Record metrics := MkMetrics { jobsOk : Z; pushOk : Z; jobsErr : Z; pushErr : Z }.
Definition inc_jobsOk m := MkMetrics (u64_inc (jobsOk m)) (pushOk m) (jobsErr m) (pushErr m).
Definition inc_pushOk m := MkMetrics (jobsOk m) (u64_inc (pushOk m)) (jobsErr m) (pushErr m).
Definition inc_jobsErr m := MkMetrics (jobsOk m) (pushOk m) (u64_inc (jobsErr m)) (pushErr m).
Definition inc_pushErr m := MkMetrics (jobsOk m) (pushOk m) (jobsErr m) (u64_inc (pushErr m)).

Section Plugin.
Context {P W H : Type} `{PO : PipelineOps P} `{CO : Consumer P W H} `{GR : GoRange}.

Record Config := MkConfig {
  NumPollers : Z; PipelineSize : Z; cfg_Timeout : Z;
  Pipelines : gmap string P; Consume : list string }.

(** [numCPU]: [runtime.NumCPU()]; the pool configuration is not looked at. *)
Definition InitDefaults (numCPU : Z) (c : Config) : Config :=
  MkConfig (if (NumPollers c =? 0)%Z then u8 numCPU else NumPollers c)
           (if (PipelineSize c =? 0)%Z then 1000000 else PipelineSize c)
           (if (cfg_Timeout c =? 0)%Z then 60 else cfg_Timeout c)
           (map_imap (λ k p, Some (With "name" k p)) (Pipelines c))
           (Consume c).

(** [pollers]: goroutines started by the listener. *)
Record Plugin := MkPlugin {
  cfg : Config;
  jobConstructors : gmap string (Constructor P W H);
  consumers : gmap string H;
  pipelines : gmap string P;
  consume : gset string;
  mtr : metrics;
  pollers : Z }.

Definition with_consumers c (p : Plugin) : Plugin :=
  MkPlugin (cfg p) (jobConstructors p) c (pipelines p) (consume p) (mtr p) (pollers p).
Definition with_pipelines l (p : Plugin) : Plugin :=
  MkPlugin (cfg p) (jobConstructors p) (consumers p) l (consume p) (mtr p) (pollers p).
Definition with_metrics m (p : Plugin) : Plugin :=
  MkPlugin (cfg p) (jobConstructors p) (consumers p) (pipelines p) (consume p) m (pollers p).
Definition with_pollers n (p : Plugin) : Plugin :=
  MkPlugin (cfg p) (jobConstructors p) (consumers p) (pipelines p) (consume p) (mtr p) n.

(** [has], [unmarshal]: the configuration plugin; a section that unmarshals to
    nil makes [InitDefaults] write through a nil pointer. *)
Definition Init (has : string → bool) (unmarshal : string → res (option Config)) (numCPU : Z)
    : res Plugin :=
  let op := "jobs_plugin_init" in
  if negb (has "jobs") then Err (EOp op (EKind Disabled)) else
  match unmarshal "jobs" with
  | Err e => Err (EOp op e)
  | Panic | Ok None => Panic
  | Ok (Some c0) =>
      let c := InitDefaults numCPU c0 in
      Ok (MkPlugin c ∅ ∅ (Pipelines c) (list_to_set (Consume c)) (MkMetrics 0 0 0 0) 0)
  end.

Definition CollectMQBrokers (name : string) (c : Constructor P W H) (p : Plugin) : Plugin :=
  MkPlugin (cfg p) (<[name := c]> (jobConstructors p)) (consumers p) (pipelines p) (consume p)
    (mtr p) (pollers p).

Definition config_key (name : string) : string := "jobs.pipelines." +:+ name +:+ ".config".

Definition register_failed (pipe : P) : error :=
  EErrorf "pipe register failed for the driver: %s with pipe name: %s" [Driver pipe; Name pipe].

(** The callback of [Serve] for one pipeline: continue, or stop with an error. *)
Definition serve_pipeline (name : string) (pipe : P) (p : Plugin) (w : W)
    : Plugin * W * option error :=
  let op := "jobs_plugin_serve" in
  if String.eqb (Driver pipe) "" then (p, w, None) else
  match jobConstructors p !! Driver pipe with
  | None => (p, w, None)
  | Some ctor =>
      match ConsumerFromConfig ctor (config_key name) w with
      | (w, inr e) => (p, w, Some (EOp op e))
      | (w, inl h) =>
          let p := with_consumers (<[name := h]> (consumers p)) p in
          match c_Register h pipe w with
          | (w, Some _) => (p, w, Some (EOp op (register_failed pipe)))
          | (w, None) =>
              if bool_decide (name ∈ consume p) then
                let '(w, e) := c_Run h pipe w in (p, w, EOp op <$> e)
              else (p, w, None)
          end
      end
  end.

Fixpoint serve_loop (order : list (string * P)) (p : Plugin) (w : W) : Plugin * W * option error :=
  match order with
  | [] => (p, w, None)
  | (name, pipe) :: order' =>
      match serve_pipeline name pipe p w with
      | (p, w, Some e) => (p, w, Some e)
      | (p, w, None) => serve_loop order' p w
      end
  end.

(** [new_pool]: the error of [NewWorkerPool], if any; without one the listener
    starts its pollers. *)
Definition Serve (new_pool : option error) (p : Plugin) (w : W) : Plugin * W * option error :=
  match serve_loop (range_map (pipelines p)) p w with
  | (p, w, Some e) => (p, w, Some e)
  | (p, w, None) =>
      match new_pool with
      | Some e => (p, w, Some e)
      | None => (with_pollers (NumPollers (cfg p)) p, w, None)
      end
  end.

(** Every consumer is stopped, an error is only logged; the pipelines are
    forgotten, the consumers are not. *)
Definition stop_consumers (hs : list (string * H)) (w : W) : W :=
  foldl (λ w kh, (c_Stop kh.2 w).1) w hs.
Definition Stop (p : Plugin) (w : W) : Plugin * W :=
  (with_pipelines ∅ p, stop_consumers (range_map (consumers p)) w).

Fixpoint state_loop (hs : list (string * H)) (w : W) : list State + error :=
  match hs with
  | [] => inl []
  | (_, h) :: hs' =>
      match c_State h w with
      | inr e => inr e
      | inl s => match state_loop hs' w with inl l => inl (s :: l) | inr e => inr e end
      end
  end.

Definition JobsState (p : Plugin) (w : W) : res (list State) :=
  match state_loop (range_map (consumers p)) w with
  | inl l => Ok l
  | inr e => Err (EOp "jobs_plugin_drivers_state" e)
  end.

Definition no_such_pipeline (op s : string) : error :=
  EOp op (EErrorf "no such pipeline, requested: %s" [s]).
Definition not_registered (op : string) (pipe : P) : error :=
  EOp op (EErrorf "consumer not registered for the requested driver: %s" [Driver pipe]).

(** The priority a job is pushed with. *)
Definition inherit_priority (j : Job) (pipe : P) : Job :=
  if (jb_Priority j =? 0)%Z then with_priority (Priority pipe) j else j.

Definition Push (j : Job) (p : Plugin) (w : W) : Plugin * W * option error :=
  let op := "jobs_plugin_push" in
  match pipelines p !! jb_Pipeline j with
  | None => (p, w, Some (no_such_pipeline op (jb_Pipeline j)))
  | Some ppl =>
      match consumers p !! Name ppl with
      | None => (p, w, Some (not_registered op ppl))
      | Some d =>
          match c_Push d (inherit_priority j ppl) w with
          | (w, Some e) => (with_metrics (inc_pushErr (mtr p)) p, w, Some (EOp op e))
          | (w, None) => (with_metrics (inc_pushOk (mtr p)) p, w, None)
          end
      end
  end.

Fixpoint PushBatch (js : list Job) (p : Plugin) (w : W) : Plugin * W * option error :=
  let op := "jobs_plugin_push" in
  match js with
  | [] => (p, w, None)
  | j :: js' =>
      match pipelines p !! jb_Pipeline j with
      | None => (p, w, Some (no_such_pipeline op (jb_Pipeline j)))
      | Some ppl =>
          match consumers p !! Name ppl with
          | None => (p, w, Some (not_registered op ppl))
          | Some d =>
              match c_Push d (inherit_priority j ppl) w with
              | (w, Some e) => (with_metrics (inc_pushErr (mtr p)) p, w, Some (EOp op e))
              | (w, None) => PushBatch js' p w
              end
          end
      end
  end.

Definition Pause (pp : string) (p : Plugin) (w : W) : W :=
  match pipelines p !! pp with
  | None => w
  | Some ppl => match consumers p !! Name ppl with
                | None => w
                | Some d => c_Pause d (Name ppl) w
                end
  end.

Definition Resume (pp : string) (p : Plugin) (w : W) : W :=
  match pipelines p !! pp with
  | None => w
  | Some ppl => match consumers p !! Name ppl with
                | None => w
                | Some d => c_Resume d (Name ppl) w
                end
  end.

Definition Declare_ (pipe : P) (p : Plugin) (w : W) : Plugin * W * option error :=
  let op := "jobs_plugin_declare" in
  if String.eqb (Driver pipe) "" then
    (p, w, Some (EOp op (EErrorf "no associated driver with the pipeline, pipeline name: %s"
                           [Name pipe])))
  else
  match jobConstructors p !! Driver pipe with
  | None => (p, w, None)
  | Some ctor =>
      match ConsumerFromPipeline ctor pipe w with
      | (w, inr e) => (p, w, Some (EOp op e))
      | (w, inl h) =>
          match c_Register h pipe w with
          | (w, Some _) => (p, w, Some (EOp op (register_failed pipe)))
          | (w, None) =>
              let '(w, e) := if bool_decide (Name pipe ∈ consume p)
                             then c_Run h pipe w else (w, None) in
              match e with
              | Some e => (p, w, Some (EOp op e))
              | None =>
                  (with_pipelines (<[Name pipe := pipe]> (pipelines p))
                     (with_consumers (<[Name pipe := h]> (consumers p)) p), w, None)
              end
          end
      end
  end.

Definition Destroy (pp : string) (p : Plugin) (w : W) : Plugin * W * option error :=
  let op := "jobs_plugin_destroy" in
  match pipelines p !! pp with
  | None => (p, w, Some (no_such_pipeline op pp))
  | Some ppl =>
      match consumers p !! Name ppl with
      | None => (p, w, Some (not_registered op ppl))
      | Some d =>
          let p := with_pipelines (delete pp (pipelines p))
                     (with_consumers (delete (Name ppl) (consumers p)) p) in
          let '(w, e) := c_Stop d w in (p, w, EOp op <$> e)
      end
  end.

Definition List_ (p : Plugin) : list string := (range_map (pipelines p)).*1.

(** ** Pipelines and consumers agree *)

(** Pipelines are filed under their own name, and every consumer belongs to a
    known pipeline. *)
Definition named (p : Plugin) : Prop := map_Forall (λ k pipe, Name pipe = k) (pipelines p).
Definition wf (p : Plugin) : Prop :=
  named p ∧ ∀ k, is_Some (consumers p !! k) → is_Some (pipelines p !! k).

(** The calls while the plugin works, and with its end. *)
Inductive call : Plugin * W → Plugin * W → Prop :=
  | call_Serve np p w : call (p, w) (Serve np p w).1
  | call_Push j p w : call (p, w) (Push j p w).1
  | call_PushBatch js p w : call (p, w) (PushBatch js p w).1
  | call_Pause pp p w : call (p, w) (p, Pause pp p w)
  | call_Resume pp p w : call (p, w) (p, Resume pp p w)
  | call_Declare pipe p w : call (p, w) (Declare_ pipe p w).1
  | call_Destroy pp p w : call (p, w) (Destroy pp p w).1
  | call_Collect name c p w : call (p, w) (CollectMQBrokers name c p, w).
Inductive step : Plugin * W → Plugin * W → Prop :=
  | step_call s s' : call s s' → step s s'
  | step_Stop p w : step (p, w) (Stop p w).

Lemma serve_pipeline_maps name pipe p w :
  let p' := (serve_pipeline name pipe p w).1.1 in
  pipelines p' = pipelines p ∧ consume p' = consume p ∧ jobConstructors p' = jobConstructors p ∧
  cfg p' = cfg p ∧ mtr p' = mtr p ∧
  (consumers p' = consumers p ∨ ∃ h, consumers p' = <[name := h]> (consumers p)).
Proof.
  unfold serve_pipeline. repeat (case_match; simplify_eq/=); eauto 10;
    (split_and!; [done..|]); eauto.
Qed.

Lemma serve_loop_wf order p w :
  (∀ name pipe, (name, pipe) ∈ order → is_Some (pipelines p !! name)) →
  wf p → wf (serve_loop order p w).1.1.
Proof.
  revert p w. induction order as [|[name pipe] order IH]; intros p w Ho Hp; simpl; [done|].
  pose proof (serve_pipeline_maps name pipe p w) as (Hpl & _ & _ & _ & _ & Hc).
  destruct (serve_pipeline name pipe p w) as [[p' w'] e]. simpl in *.
  assert (Hwf : wf p').
  { destruct Hp as [H1 H2]. split; [unfold named; by rewrite Hpl|]. rewrite Hpl. intros k Hk.
    destruct Hc as [Hc|[h Hc]]; rewrite Hc in Hk; [by apply H2|].
    destruct (decide (name = k)) as [<-|Hne].
    - apply (Ho name pipe). by left.
    - rewrite lookup_insert_ne in Hk by done. by apply H2. }
  destruct e; simpl; [done|]. apply IH; [|done]. intros n' q Hin. rewrite Hpl. apply (Ho n' q).
  by right.
Qed.

Lemma PushBatch_maps js p w :
  let p' := (PushBatch js p w).1.1 in
  pipelines p' = pipelines p ∧ consumers p' = consumers p.
Proof.
  revert w. induction js as [|j js IH]; intros w; simpl; [done|].
  repeat (case_match; simplify_eq/=); try done; apply IH.
Qed.

Lemma wf_maps p p' :
  pipelines p' = pipelines p → consumers p' = consumers p → wf p → wf p'.
Proof. unfold wf, named. by intros -> ->. Qed.

Lemma serve_loop_pipelines order p w : pipelines (serve_loop order p w).1.1 = pipelines p.
Proof.
  revert p w. induction order as [|[name pipe] order IH]; intros p w; simpl; [done|].
  pose proof (serve_pipeline_maps name pipe p w) as (Hpl & _).
  destruct (serve_pipeline name pipe p w) as [[p' w'] [e|]]; simpl in *; [done|]. by rewrite IH.
Qed.

(** Every operation, [Stop] included, files pipelines under their names. *)
Lemma jobs_step_named s s' : step s s' → named s.1 → named s'.1.
Proof.
  unfold named. intros Hs Hp. destruct Hs as [s s' Hs|p w]; [|apply map_Forall_empty].
  destruct Hs; simpl in *.
  - pose proof (serve_loop_pipelines (range_map (pipelines p)) p w) as Hl.
    unfold Serve. destruct (serve_loop _ p w) as [[p1 w1] [e|]]; simpl in *; [by rewrite Hl|].
    destruct np; simpl; by rewrite Hl.
  - unfold Push. repeat (case_match; simplify_eq/=); done.
  - by rewrite (proj1 (PushBatch_maps js p w)).
  - done.
  - done.
  - unfold Declare_. repeat (case_match; simplify_eq/=); try done; by apply map_Forall_insert_2.
  - unfold Destroy. repeat (case_match; simplify_eq/=); try done; by apply map_Forall_delete.
  - done.
Qed.

Lemma jobs_call_wf s s' : call s s' → wf s.1 → wf s'.1.
Proof.
  intros Hs Hp. inversion Hs; subst; clear Hs; simpl in *.
  - assert (Hl : wf (serve_loop (range_map (pipelines p)) p w).1.1).
    { apply serve_loop_wf; [|done]. intros name pipe Hin%elem_of_range_map. eauto. }
    unfold Serve. destruct (serve_loop _ p w) as [[p1 w1] [e|]]; simpl in *; [done|].
    destruct np; done.
  - unfold Push. repeat (case_match; simplify_eq/=); done.
  - pose proof (PushBatch_maps js p w) as [Hw1 Hw2]. by eapply wf_maps.
  - done.
  - done.
  - unfold Declare_. repeat (case_match; simplify_eq/=); try done;
    destruct Hp as [Hw1 Hw2]; (split; simpl; [by apply map_Forall_insert_2|]);
    intros k Hk; destruct (decide (Name pipe = k)) as [<-|Hne];
      rewrite ?lookup_insert_eq, ?lookup_insert_ne in * by done; eauto.
  - unfold Destroy. repeat (case_match; simplify_eq/=); try done.
    destruct Hp as [Hw1 Hw2].
    match goal with H : pipelines p !! pp = Some ?ppl |- _ => pose proof (Hw1 _ _ H) as Hn end.
    simpl in Hn. split; simpl; [by apply map_Forall_delete|].
    intros k Hk. rewrite Hn in Hk. destruct (decide (pp = k)) as [<-|Hne].
    + rewrite lookup_delete_eq in Hk. by apply is_Some_None in Hk.
    + rewrite (lookup_delete_ne (consumers p) pp k Hne) in Hk. rewrite (lookup_delete_ne (pipelines p) pp k Hne). apply Hw2. exact Hk.
  - done.
Qed.

Lemma Init_wf `{PL : !PipelineLaws P} has unmarshal n p : Init has unmarshal n = Ok p → wf p.
Proof.
  unfold Init. repeat (case_match; simplify_eq/=); try done.
  intros [= <-]. split; [unfold named|]; simpl.
  - intros k pipe Hk. rewrite map_lookup_imap in Hk.
    destruct (Pipelines _ !! k); simplify_eq/=. apply With_Name.
  - intros k Hk. rewrite lookup_empty in Hk. by apply is_Some_None in Hk.
Qed.

(** C30: after initialization, in whatever order [Serve], pushes, pauses, resumes,
    [Declare], [Destroy], driver registrations and [Stop] are called, every
    pipeline is filed under its own name; and as long as the plugin has not been
    stopped, every consumer is attached to a known pipeline ([Stop] forgets the
    pipelines and keeps the consumers). *)
Theorem jobs_reachable_wf `{PL : !PipelineLaws P} has unmarshal n p0 w0 s :
  Init has unmarshal n = Ok p0 → rtc step (p0, w0) s →
  named s.1 ∧
  ((∀ k, is_Some (consumers s.1 !! k) → is_Some (pipelines s.1 !! k)) ∨
   ∃ s1, rtc step (p0, w0) s1 ∧ rtc step (Stop s1.1 s1.2) s).
Proof.
  intros Hi Hr. apply Init_wf in Hi.
  assert (Hc : wf s.1 ∨ named s.1 ∧ ∃ s1, rtc step (p0, w0) s1 ∧ rtc step (Stop s1.1 s1.2) s).
  { revert s Hr. apply rtc_ind_r; [by left|].
    intros s s' Hr Hs [Hw|(Hn & s1 & H1 & H2)]; (pose proof (jobs_step_named _ _ Hs) as Hn').
    - destruct Hs as [s s' Hs|p w]; [left; by eapply jobs_call_wf|]. right.
      split; [apply Hn', Hw|]. by exists (p, w).
    - right. split; [by apply Hn'|]. exists s1. split; [done|]. by eapply rtc_r. }
  destruct Hc as [[H1 H2]|[H1 H2]]; auto.
Qed.

(** ** [Serve] *)

Definition has_driver (p : Plugin) (pipe : P) : bool :=
  negb (String.eqb (Driver pipe) "") && bool_decide (is_Some (jobConstructors p !! Driver pipe)).

Lemma serve_pipeline_ok name pipe p w p' w' :
  serve_pipeline name pipe p w = (p', w', None) →
  if has_driver p pipe then ∃ h, consumers p' = <[name := h]> (consumers p)
  else consumers p' = consumers p.
Proof.
  unfold serve_pipeline, has_driver. destruct (String.eqb (Driver pipe) ""); simpl; [by intros [=<-]|].
  destruct (jobConstructors p !! Driver pipe) as [c|]; simpl.
  2:{ by intros [=<-]. }
  intros Hs. repeat (case_match; simplify_eq/=); eauto.
Qed.

Lemma serve_loop_consumers order p w p' w' k :
  serve_loop order p w = (p', w', None) →
  is_Some (consumers p' !! k) ↔
  is_Some (consumers p !! k) ∨ ∃ pipe, (k, pipe) ∈ order ∧ has_driver p pipe = true.
Proof.
  revert p w. induction order as [|[name pipe] order IH]; intros p w Hl; simpl in Hl.
  { simplify_eq. split; [by left|]. intros [?|(q & ?%elem_of_nil & _)]; done. }
  destruct (serve_pipeline name pipe p w) as [[p1 w1] [e|]] eqn:Es; [done|].
  pose proof (serve_pipeline_maps name pipe p w) as (_ & _ & Hjc & _). rewrite Es in Hjc. simpl in Hjc.
  assert (Hhd : ∀ q, has_driver p1 q = has_driver p q) by (intros q; unfold has_driver; by rewrite Hjc).
  rewrite (IH _ _ Hl). setoid_rewrite Hhd. setoid_rewrite elem_of_cons.
  apply serve_pipeline_ok in Es. destruct (has_driver p pipe) eqn:Ed.
  - destruct Es as [h ->]. destruct (decide (name = k)) as [<-|Hne].
    + rewrite lookup_insert_eq. split; [intros _; right; exists pipe; by split; [left|]|by left; eauto].
    + rewrite lookup_insert_ne by done. apply or_iff_compat_l. split.
      * intros (q & Hin & Hq). eauto.
      * intros (q & [Heq|Hin] & Hq); [by simplify_eq|eauto].
  - rewrite Es. apply or_iff_compat_l. split.
    + intros (q & Hin & Hq). eauto.
    + intros (q & [Heq|Hin] & Hq); [simplify_eq; congruence|eauto].
Qed.

Lemma serve_loop_cfg order p w : cfg (serve_loop order p w).1.1 = cfg p.
Proof.
  revert p w. induction order as [|[n q] l IH]; intros p w; simpl; [done|].
  pose proof (serve_pipeline_maps n q p w) as (_ & _ & _ & Hc & _).
  destruct (serve_pipeline n q p w) as [[p2 w2] [e|]]; [done|]. simpl in Hc.
  by rewrite IH.
Qed.

(** A [Serve] without an error leaves a consumer for exactly the pipelines
    whose driver is named and registered, in whatever order they are started,
    and starts [NumPollers] pollers. *)
Theorem jobs_Serve_consumers p w p' w' :
  consumers p = ∅ → Serve None p w = (p', w', None) →
  pollers p' = NumPollers (cfg p) ∧
  ∀ k, is_Some (consumers p' !! k) ↔
       ∃ pipe, pipelines p !! k = Some pipe ∧ has_driver p pipe = true.
Proof.
  unfold Serve. intros He.
  destruct (serve_loop _ p w) as [[p1 w1] [e|]] eqn:El; [done|]. intros [= <- <-]. simpl.
  pose proof (serve_loop_cfg (range_map (pipelines p)) p w) as Hcfg.
  rewrite El in Hcfg. simpl in Hcfg.
  split; [by rewrite Hcfg|]. intros k. rewrite (serve_loop_consumers _ _ _ _ _ k El), He, lookup_empty.
  setoid_rewrite elem_of_range_map. split; [by intros [?%is_Some_None|?]|by right].
Qed.

(** ** Pushing *)

Fixpoint push_all (js : list Job) (p : Plugin) (w : W) : Plugin * W * option error :=
  match js with
  | [] => (p, w, None)
  | j :: js' => match Push j p w with
                | (p, w, Some e) => (p, w, Some e)
                | (p, w, None) => push_all js' p w
                end
  end.

(** How many jobs a batch hands over to drivers before it stops. *)
Fixpoint pushed (js : list Job) (p : Plugin) (w : W) : nat :=
  match js with
  | [] => 0
  | j :: js' => match Push j p w with
                | (_, _, Some _) => 0
                | (p, w, None) => S (pushed js' p w)
                end
  end.

Lemma PushBatch_push_all js p1 p2 w :
  pipelines p1 = pipelines p2 → consumers p1 = consumers p2 → pushErr (mtr p1) = pushErr (mtr p2) →
  let '(p1', w1, e1) := PushBatch js p1 w in
  let '(p2', w2, e2) := push_all js p2 w in
  w1 = w2 ∧ e1 = e2 ∧ pipelines p1' = pipelines p2' ∧ consumers p1' = consumers p2' ∧
  pushErr (mtr p1') = pushErr (mtr p2') ∧ pushOk (mtr p1') = pushOk (mtr p1) ∧
  pushOk (mtr p2') = Nat.iter (pushed js p2 w) u64_inc (pushOk (mtr p2)).
Proof.
  revert p1 p2 w. induction js as [|j js IH]; intros p1 p2 w Hp Hc He; simpl; [done|].
  unfold Push. rewrite Hp, Hc.
  destruct (pipelines p2 !! jb_Pipeline j) as [ppl|]; [|done].
  destruct (consumers p2 !! Name ppl) as [d|]; [|done].
  destruct (c_Push d (inherit_priority j ppl) w) as [w' [e|]]; [simpl; by rewrite He|].
  specialize (IH p1 (with_metrics (inc_pushOk (mtr p2)) p2) w' Hp Hc He).
  destruct (PushBatch js p1 w') as [[p1' w1] e1].
  destruct (push_all js _ w') as [[p2' w2] e2].
  destruct IH as (-> & -> & -> & -> & -> & -> & ->). split_and!; try done.
  simpl. symmetry. exact (Nat.iter_succ_r (pushed js (with_metrics (inc_pushOk (mtr p2)) p2) w') Z u64_inc _).
Qed.

(** A batch does what pushing its jobs one by one up to the first error does
    to the drivers, with the same result and the same count of failures; only
    the count of successful pushes, which single pushes raise by one each, is
    not raised. *)
Theorem jobs_PushBatch_as_pushes js p w :
  let '(p1, w1, e1) := PushBatch js p w in
  let '(p2, w2, e2) := push_all js p w in
  w1 = w2 ∧ e1 = e2 ∧ pushErr (mtr p1) = pushErr (mtr p2) ∧
  pushOk (mtr p1) = pushOk (mtr p) ∧
  pushOk (mtr p2) = Nat.iter (pushed js p w) u64_inc (pushOk (mtr p)).
Proof.
  pose proof (PushBatch_push_all js p p w eq_refl eq_refl eq_refl) as Hx.
  destruct (PushBatch js p w) as [[p1 w1] e1], (push_all js p w) as [[p2 w2] e2].
  by destruct Hx as (-> & -> & _ & _ & -> & -> & ->).
Qed.

(** ** Declaring and destroying *)

(** Destroying a pipeline that was just declared under a new name stops the
    driver that was built for it and restores the pipelines and consumers; an
    error of [Declare] leaves both unchanged. *)
Theorem jobs_Declare_Destroy pipe p w p1 w1 e1 :
  pipelines p !! Name pipe = None → consumers p !! Name pipe = None →
  has_driver p pipe = true → Declare_ pipe p w = (p1, w1, e1) →
  match e1 with
  | Some _ => pipelines p1 = pipelines p ∧ consumers p1 = consumers p
  | None => ∃ h, consumers p1 !! Name pipe = Some h ∧ pipelines p1 !! Name pipe = Some pipe ∧
      let '(p2, w2, e2) := Destroy (Name pipe) p1 w1 in
      pipelines p2 = pipelines p ∧ consumers p2 = consumers p ∧ w2 = (c_Stop h w1).1 ∧
      e2 = EOp "jobs_plugin_destroy" <$> (c_Stop h w1).2
  end.
Proof.
  intros Hp Hc Hd HD. unfold has_driver in Hd. apply andb_true_iff in Hd as [Hd1 Hd2].
  apply bool_decide_eq_true in Hd2 as [ctor Hctor]. apply negb_true_iff in Hd1.
  unfold Declare_ in HD. rewrite Hd1, Hctor in HD.
  destruct (ConsumerFromPipeline ctor pipe w) as [wa [h|e]]; [|by simplify_eq].
  destruct (c_Register h pipe wa) as [wb [e|]]; [by simplify_eq|].
  destruct (if bool_decide (Name pipe ∈ consume p) then c_Run h pipe wb else (wb, None))
    as [wc [e|]]; simplify_eq; [done|].
  exists h. simpl. rewrite !lookup_insert_eq. split_and!; [done..|].
  unfold Destroy. simpl. rewrite !lookup_insert_eq.
  destruct (c_Stop h w1) as [w2 e2]. simpl.
  by rewrite !delete_insert_eq, !delete_id by done.
Qed.

End Plugin.

Arguments Plugin P W H : clear implicits.
Arguments Config P : clear implicits.

(** ** A concrete driver that appends jobs to one log *)

Record ex_pipe := ExPipe { ep_name : string; ep_driver : string; ep_prio : Z }.

#[global] Instance ex_pipe_ops : PipelineOps ex_pipe := {|
  Driver := ep_driver; Name := ep_name; Priority := ep_prio;
  With f v p := if String.eqb f "name" then ExPipe v (ep_driver p) (ep_prio p) else p |}.

#[global] Program Instance ex_pipe_laws : PipelineLaws ex_pipe.
Solve All Obligations with done.

#[global] Instance ex_consumer : Consumer ex_pipe (list (string * Job)) string := {|
  c_Push h j w := if String.eqb (jb_Ident j) "bad" then (w, Some (EExt "full"))
                  else (w ++ [(h, j)], None);
  c_Register h p w := (w, None); c_Run h p w := (w, None); c_Stop h w := (w, None);
  c_Pause h n w := w; c_Resume h n w := w;
  c_State h w := inl (MkState h "ex" h (Z.of_nat (length w)) 0 0 true) |}.

Definition ex_ctor : Constructor ex_pipe (list (string * Job)) string :=
  MkConstructor (λ key w, (w, inl key)) (λ p w, (w, inl (ep_name p))).

Definition ex_config : Config ex_pipe :=
  MkConfig 0 0 0 {[ "fast" := ExPipe "" "ex" 10; "lost" := ExPipe "" "none" 1 ]} ["fast"].

Definition ex_init : Plugin ex_pipe (list (string * Job)) string :=
  let c := InitDefaults 8 ex_config in
  MkPlugin c ∅ ∅ (Pipelines c) (list_to_set (Consume c)) (MkMetrics 0 0 0 0) 0.

Definition ex_ready : Plugin ex_pipe (list (string * Job)) string :=
  CollectMQBrokers "ex" ex_ctor ex_init.

Lemma ex_ready_reachable : rtc step (ex_init, []) (ex_ready, []).
Proof. apply rtc_once. apply step_call, call_Collect. Defined.

Definition ex_served : Plugin ex_pipe (list (string * Job)) string := (Serve None ex_ready []).1.1.

(** After [Serve] the pipeline with a driver has a consumer; after [Stop] the
    consumer has no pipeline. *)
Lemma jobs_reachable_wf_witness :
  is_Some (consumers ex_served !! "fast") ∧ named ex_served ∧
  is_Some (consumers (Stop ex_served []).1 !! "fast") ∧ pipelines (Stop ex_served []).1 = ∅.
Proof.
  split; [eexists; vm_compute; reflexivity|]. split; [|split; [eexists; vm_compute; reflexivity|reflexivity]].
  apply (jobs_reachable_wf (λ _, true) (λ _, Ok (Some ex_config)) 8 ex_init [] (ex_served, [])).
  - reflexivity.
  - eapply rtc_r; [apply ex_ready_reachable|].
    replace (ex_served, []) with (Serve None ex_ready []).1; [apply step_call, call_Serve|]. vm_compute. reflexivity.
Defined.

Lemma jobs_Serve_consumers_witness :
  is_Some (consumers (Serve None ex_ready []).1.1 !! "fast").
Proof.
  apply (jobs_Serve_consumers ex_ready [] (Serve None ex_ready []).1.1 []).
  - reflexivity.
  - vm_compute. reflexivity.
  - exists (ExPipe "fast" "ex" 10). split; vm_compute; reflexivity.
Defined.

Lemma jobs_Declare_Destroy_witness :
  ∃ h, consumers (Declare_ (ExPipe "new" "ex" 3) ex_ready []).1.1 !! "new" = Some h.
Proof.
  destruct (jobs_Declare_Destroy (ExPipe "new" "ex" 3) ex_ready []
    (Declare_ (ExPipe "new" "ex" 3) ex_ready []).1.1 [] None) as (h & Hh & _).
  - vm_compute. reflexivity.
  - vm_compute. reflexivity.
  - vm_compute. reflexivity.
  - reflexivity.
  - exists h. exact Hh.
Defined.

End Jobs.
