(* ===== verification/JobsListener.v ===== *)
(** * The pollers and the RPC service of the jobs plugin ([jobs/listener.go], [jobs/rpc.go])

    [poll_one] is one round of a poller: a job taken from the priority queue is
    executed by the worker pool and settled through its [Acknowledger].  The
    RPC methods convert protobuf messages and call the plugin (file JobsPlugin). *)

From stdpp Require Import base gmap strings list.
From Stdlib Require Import ZArith.
From S2P Require Import Prelude JobsProtocol JobsPlugin.

Module Listener.
Import Protocol Jobs.

(** A job in the priority queue: [jb.Context()], [jb.Body()], and whether it
    implements [jobs.Acknowledger]. *)
Record qjob := MkQjob { q_Context : bytes + error; q_Body : bytes; q_ack : bool }.

(** [payload.Payload] and the pool of payloads. *)
Record payload := MkPayload { Body : option bytes; Context_ : option bytes; json_codec : bool }.

Record poller := MkPoller { p_metrics : metrics; pldPool : list payload; respHandler : RespHandler }.

Definition getPayload (pick : option nat) (body context : bytes) (s : poller) : payload * poller :=
  let '(_, pool) := pool_get (MkPayload None None false) pick (pldPool s) in
  (MkPayload (Some body) (Some context) true, MkPoller (p_metrics s) pool (respHandler s)).

Definition putPayload (pld : payload) (s : poller) : poller :=
  MkPoller (p_metrics s) (MkPayload None None (json_codec pld) :: pldPool s) (respHandler s).

Definition count_err (s : poller) : poller :=
  MkPoller (inc_jobsErr (p_metrics s)) (pldPool s) (respHandler s).
Definition count_ok (s : poller) : poller :=
  MkPoller (inc_jobsOk (p_metrics s)) (pldPool s) (respHandler s).

Section Poll.
Context `{J : Json} {W : Type} (call : ack_call → W → W * option error).

(** [exec]: the worker pool; the response, which may be nil or have a nil body.
    A job without an [Acknowledger] whose context cannot be marshalled is
    asserted to have one: a panic. *)
Definition poll_one (pick : option nat) (pk : picks) (exec : payload → option (option bytes) + error)
    (jb : qjob) (s : poller) (w : W) : res (poller * W) :=
  match q_Context jb with
  | inr _ =>
      let s := count_err s in
      if q_ack jb then let '(w, _) := call CNack w in Ok (s, w) else Panic
  | inl ctx =>
      let '(pld, s) := getPayload pick (q_Body jb) ctx s in
      match exec pld with
      | inr _ =>
          let s := count_err s in
          if q_ack jb
          then let '(w, _) := call CNack w in Ok (putPayload pld s, w)
          else Ok (putPayload pld s, w)
      | inl resp =>
          if negb (q_ack jb) then Ok (putPayload pld s, w) else
          match mjoin resp with
          | None =>
              let s := putPayload pld s in
              let '(w, err) := call CAck w in
              match err with
              | Some _ => Ok (count_err s, w)
              | None => Ok (count_ok s, w)
              end
          | Some body =>
              let '(rh, w, err) := Handle call pk body (respHandler s) w in
              let s := MkPoller (p_metrics s) (pldPool s) rh in
              match err with
              | Some _ =>
                  let s := putPayload pld (count_err s) in
                  let '(w, _) := call CAck w in Ok (s, w)
              | None => Ok (putPayload pld (count_ok s), w)
              end
          end
      end
  end.

(** What every call on the job respects, a round respects. *)
Context (R : W → W → Prop) `{RP : !PreOrder R} (HR : ∀ c w, R w (call c w).1).

Lemma related_refl w : R w w.
Proof. reflexivity. Qed.
Lemma call_related c w w1 w' e : call c w = (w', e) → R w1 w → R w1 w'.
Proof. intros E Hw. specialize (HR c w). rewrite E in HR. by etrans. Qed.

Lemma Handle_related pk body rh w : R w (Handle call pk body rh w).1.2.
Proof.
  unfold Handle, handleErrResp, handleQueueResp.
  repeat (case_match; simplify_eq/=); eauto using call_related, related_refl.
Qed.

Lemma poll_one_related pick pk exec jb s w s' w' :
  poll_one pick pk exec jb s w = Ok (s', w') → R w w'.
Proof.
  unfold poll_one. destruct (q_Context jb) as [ctx|e].
  2:{ repeat (case_match; simplify_eq/=); intros [= <- <-]; eauto using call_related, related_refl. }
  destruct (getPayload pick (q_Body jb) ctx s) as [pld s1]. destruct (exec pld) as [resp|e].
  2:{ repeat (case_match; simplify_eq/=); intros [= <- <-]; eauto using call_related, related_refl. }
  destruct (negb (q_ack jb)); [intros [= <- <-]; reflexivity|]. destruct (mjoin resp) as [body|].
  2:{ repeat (case_match; simplify_eq/=); intros [= <- <-]; eauto using call_related, related_refl. }
  pose proof (Handle_related pk body (respHandler s1) w) as Hh.
  destruct (Handle call pk body (respHandler s1) w) as [[rh w1] [e|]]; simpl in Hh; [|by intros [= <- <-]].
  destruct (call CAck w1) as [w2 e2] eqn:Ec. intros [= <- <-]. by eapply call_related.
Qed.

End Poll.

(** ** Every job is settled *)

Section Settle.
Context `{J : Json} (oracle : ack_call → option error).

(** A job that logs the calls it receives; [oracle] says which of them fail. *)
Definition logged (c : ack_call) (w : list ack_call) : list ack_call * option error :=
  (w ++ [c], oracle c).

(** The calls a job asks for, and whether it counts as processed.  A job that
    cannot be described to a worker or executed is rejected; one without an
    answer is acknowledged; an answer makes the call it asks for, and a malformed
    one, or one whose call fails, is acknowledged after that. *)
Definition settlement (left : string) (exec : payload → option (option bytes) + error) (jb : qjob)
    : list ack_call * bool :=
  match q_Context jb with
  | inr _ => ([CNack], false)
  | inl ctx =>
      match exec (MkPayload (Some (q_Body jb)) (Some ctx) true) with
      | inr _ => ([CNack], false)
      | inl None | inl (Some None) => ([CAck], if oracle CAck then false else true)
      | inl (Some (Some body)) =>
          match response_call left body with
          | inr _ => ([CAck], false)
          | inl (c, told) => if told (oracle c) then ([c; CAck], false) else ([c], true)
          end
      end
  end.

(** Exactly one of the two processing counters goes up by one. *)
Definition counted (ok : bool) (m : metrics) : metrics := if ok then inc_jobsOk m else inc_jobsErr m.

Definition blank_payload (pld : payload) : Prop := Body pld = None ∧ Context_ pld = None.

Lemma getPayload_pool pick body ctx s :
  let r := getPayload pick body ctx s in
  p_metrics r.2 = p_metrics s ∧ respHandler r.2 = respHandler s ∧
  (Forall blank_payload (pldPool s) → Forall blank_payload (pldPool r.2)) ∧
  length (pldPool s) ≤ S (length (pldPool r.2)).
Proof.
  unfold getPayload, pool_get. destruct pick as [i|]; simpl; [|split_and!; auto].
  destruct (pldPool s !! i) as [a|] eqn:E; simpl; [|split_and!; auto].
  apply lookup_lt_Some in E as Hlt. rewrite length_delete by (rewrite E; eauto).
  split_and!; [done|done|apply Forall_delete|lia].
Qed.


End Settle.

(** ** The RPC service *)

(** [jobsv1beta.Job]; the options message may be absent, a header value too. *)
Record pbOptions := MkPbOptions { o_priority : Z; o_pipeline : string; o_delay : Z }.
Record pbJob := MkPbJob {
  pb_job : string; pb_id : string; pb_payload : string;
  pb_headers : gmap string (option (list string)); pb_options : option pbOptions }.

(** The getters of a nil message return zero values. *)
Definition zero_pbJob : pbJob := MkPbJob "" "" "" ∅ None.
Definition zero_options : pbOptions := MkPbOptions 0 "" 0.

Definition from (oj : option pbJob) : Job :=
  let j := default zero_pbJob oj in
  let o := default zero_options (pb_options j) in
  MkJob (pb_job j) (pb_id j) (pb_payload j) (default [] <$> pb_headers j)
    (o_priority o) (o_pipeline o) (o_delay o).

Section Rpc.
Context {P W H : Type} `{PO : PipelineOps P} `{CO : Consumer P W H} `{GR : GoRange}.

Definition rpc_Push (j : option pbJob) (p : Plugin P W H) (w : W)
    : Plugin P W H * W * option error :=
  let op := "rpc_push" in
  if String.eqb (pb_id (default zero_pbJob j)) ""
  then (p, w, Some (EOp op (EStr "empty ID field not allowed")))
  else let '(p, w, e) := Push (from j) p w in (p, w, EOp op <$> e).

Definition rpc_PushBatch (js : list (option pbJob)) (p : Plugin P W H) (w : W)
    : Plugin P W H * W * option error :=
  let '(p, w, e) := PushBatch (from <$> js) p w in (p, w, EOp "rpc_push_batch" <$> e).

Definition rpc_Pause (names : list string) (p : Plugin P W H) (w : W) : W :=
  foldl (λ w n, Pause n p w) w names.
Definition rpc_Resume (names : list string) (p : Plugin P W H) (w : W) : W :=
  foldl (λ w n, Resume n p w) w names.
Definition rpc_List (p : Plugin P W H) : list string := List_ p.

(** [mk]: the pipeline that holds the given pairs. *)
Definition rpc_Declare (mk : gmap string string → P) (pairs : gmap string string)
    (p : Plugin P W H) (w : W) : Plugin P W H * W * option error :=
  let '(p, w, e) := Declare_ (mk pairs) p w in (p, w, EOp "rpc_declare_pipeline" <$> e).

Fixpoint destroy_loop (names destroyed : list string) (p : Plugin P W H) (w : W)
    : Plugin P W H * W * (list string + error) :=
  match names with
  | [] => (p, w, inl destroyed)
  | n :: names' =>
      match Destroy n p w with
      | (p, w, Some e) => (p, w, inr (EOp "rpc_declare_pipeline" e))
      | (p, w, None) => destroy_loop names' (destroyed ++ [n]) p w
      end
  end.
Definition rpc_Destroy (names : list string) (p : Plugin P W H) (w : W)
    : Plugin P W H * W * (list string + error) := destroy_loop names [] p w.

Definition rpc_Stat (p : Plugin P W H) (w : W) : res (list State) :=
  wrap_err "rpc_stats" (JobsState p w).

Lemma Destroy_maps n (p : Plugin P W H) w p' w' :
  wf p → Destroy n p w = (p', w', None) →
  pipelines p' = delete n (pipelines p) ∧ consumers p' = delete n (consumers p) ∧
  is_Some (pipelines p !! n).
Proof.
  intros [Hn _]. unfold Destroy.
  destruct (pipelines p !! n) as [ppl|] eqn:Ep; [|done].
  destruct (consumers p !! Name ppl) as [d|]; [|done].
  destruct (c_Stop d w) as [w1 [e|]]; intros [= <- <-]. simpl.
  pose proof (Hn _ _ Ep) as Hname. simpl in Hname. rewrite Hname. eauto.
Qed.

Lemma destroy_loop_absent names n acc (p : Plugin P W H) w p' w' out :
  wf p → pipelines p !! n = None → n ∈ names →
  destroy_loop names acc p w ≠ (p', w', inl out).
Proof.
  revert acc p w. induction names as [|n' names IH]; intros acc p w Hp Hgone Hin Hl.
  { by apply elem_of_nil in Hin. }
  simpl in Hl. destruct (Destroy n' p w) as [[p1 w1] [e|]] eqn:Ed; [done|].
  destruct (Destroy_maps _ _ _ _ _ Hp Ed) as (Hpl & _ & Hs).
  pose proof (jobs_call_wf _ _ (call_Destroy n' p w) Hp) as Hst. rewrite Ed in Hst.
  apply elem_of_cons in Hin as [->|Hin].
  - rewrite Hgone in Hs. by apply is_Some_None in Hs.
  - apply (IH (acc ++ [n']) p1 w1 Hst); [rewrite Hpl; apply lookup_delete_None; by right|done..].
Qed.

Lemma destroy_loop_ok names acc (p : Plugin P W H) w p' w' out :
  wf p → destroy_loop names acc p w = (p', w', inl out) →
  out = acc ++ names ∧ NoDup names ∧
  pipelines p' = foldl (λ m n, delete n m) (pipelines p) names ∧
  consumers p' = foldl (λ m n, delete n m) (consumers p) names.
Proof.
  revert acc p w. induction names as [|n names IH]; intros acc p w Hp Hl; simpl in Hl.
  { simplify_eq. rewrite app_nil_r. split_and!; [done|constructor|done|done]. }
  destruct (Destroy n p w) as [[p1 w1] [e|]] eqn:Ed; [done|].
  assert (Hp1 : wf p1).
  { pose proof (jobs_call_wf _ _ (call_Destroy n p w) Hp) as Hs. by rewrite Ed in Hs. }
  destruct (Destroy_maps _ _ _ _ _ Hp Ed) as (Hpl & Hcn & _).
  destruct (IH _ _ _ Hp1 Hl) as (-> & Hnd & Hpl' & Hcn').
  rewrite <- app_assoc. split_and!; [done| |by rewrite Hpl', Hpl|by rewrite Hcn', Hcn].
  constructor; [|done]. intros Hin.
  apply (destroy_loop_absent names n (acc ++ [n]) p1 w1 p' w' ((acc ++ [n]) ++ names)); try done.
  by rewrite Hpl, lookup_delete_eq.
Qed.

(** When the RPC [Destroy] reports success it answers the names it was given,
    which are distinct, and exactly these pipelines and their consumers are
    gone. *)
Theorem rpc_Destroy_exact names (p : Plugin P W H) w p' w' out :
  wf p → rpc_Destroy names p w = (p', w', inl out) →
  out = names ∧ NoDup names ∧
  ∀ k, pipelines p' !! k = (if decide (k ∈ names) then None else pipelines p !! k) ∧
       consumers p' !! k = (if decide (k ∈ names) then None else consumers p !! k).
Proof.
  intros Hp Hd. destruct (destroy_loop_ok _ _ _ _ _ _ _ Hp Hd) as (-> & Hnd & -> & ->).
  split_and!; [done..|]. intros k. by rewrite <- !lookup_foldl_delete.
Qed.

(** A single RPC push refuses a job without an identifier; the same job in a
    batch is handed to its driver. *)
Theorem rpc_batch_accepts_empty_id j (p : Plugin P W H) w ppl d :
  pb_id j = "" → pipelines p !! jb_Pipeline (from (Some j)) = Some ppl →
  consumers p !! Name ppl = Some d →
  rpc_Push (Some j) p w = (p, w, Some (EOp "rpc_push" (EStr "empty ID field not allowed"))) ∧
  (rpc_PushBatch [Some j] p w).1.2 = (c_Push d (inherit_priority (from (Some j)) ppl) w).1.
Proof.
  intros Hid Hp Hc. split.
  - unfold rpc_Push. simpl. by rewrite Hid.
  - unfold rpc_PushBatch. cbn [fmap list_fmap PushBatch]. rewrite Hp, Hc.
    destruct (c_Push d _ w) as [w' [e|]]; done.
Qed.

End Rpc.

(** ** Concrete inputs *)

#[local] Instance ex_json : Json := {|
  dec_protocol b := ((None, None), Some (EExt "json"));
  dec_errorResp b := ((None, None, None, None), None);
  dec_queueResp b := ((None, None), None) |}.


Lemma ex_served_wf : wf ex_served.
Proof.
  apply (jobs_call_wf (ex_ready, []) (Serve None ex_ready []).1 (call_Serve None ex_ready [])).
  apply (jobs_call_wf (ex_init, []) (ex_ready, []) (call_Collect "ex" ex_ctor ex_init [])).
  by apply (Init_wf (λ _, true) (λ _, Ok (Some ex_config)) 8).
Defined.

Lemma rpc_Destroy_exact_witness :
  pipelines (rpc_Destroy ["fast"] ex_served []).1.1 !! "fast" = None.
Proof.
  destruct (rpc_Destroy_exact ["fast"] ex_served [] (rpc_Destroy ["fast"] ex_served []).1.1 []
    ["fast"]) as (_ & _ & Hk).
  - apply ex_served_wf.
  - vm_compute. reflexivity.
  - rewrite (proj1 (Hk "fast")). reflexivity.
Defined.

Definition ex_pb : pbJob := MkPbJob "Task" "" "{}" ∅ (Some (MkPbOptions 0 "fast" 0)).

Lemma rpc_batch_accepts_empty_id_witness :
  (rpc_PushBatch [Some ex_pb] ex_served []).1.2
  = [("jobs.pipelines.fast.config", with_priority 10 (from (Some ex_pb)))].
Proof.
  rewrite (proj2 (rpc_batch_accepts_empty_id ex_pb ex_served [] (ExPipe "fast" "ex" 10)
    "jobs.pipelines.fast.config" eq_refl ltac:(vm_compute; reflexivity)
    ltac:(vm_compute; reflexivity))).
  reflexivity.
Defined.

End Listener.
