(* ===== verification/JobsMetrics.v ===== *)
(** * The metrics exporter of the jobs plugin ([jobs/metrics.go])

    The exporter reads the counters it shares with the plugin and the memory of
    the workers when the registry asks for them.  A value is the 64-bit number
    that is converted to a float64. *)

From stdpp Require Import base gmap strings list.
From Stdlib Require Import ZArith Lia.
From S2P Require Import Prelude JobsPlugin.
Local Open Scope Z_scope.

Module JobsMetrics.
Import Jobs.

Definition namespace : string := "rr_jobs".

(** [prometheus.BuildFQName] without a subsystem. *)
Definition BuildFQName (ns name : string) : string :=
  if String.eqb name "" then "" else if String.eqb ns "" then name else ns +:+ "_" +:+ name.

Inductive value_type := CounterValue | GaugeValue.
Record desc := MkDesc { fqName : string; help : string }.

Record statsExporter := MkExporter {
  worker : desc; pushOkDesc : desc; pushErrDesc : desc; jobsErrDesc : desc; jobsOkDesc : desc }.

Definition newStatsExporter : statsExporter :=
  MkExporter (MkDesc "workers_memory_bytes" "Memory usage by JOBS workers.")
    (MkDesc (BuildFQName namespace "push_ok") "Number of job push.")
    (MkDesc (BuildFQName namespace "push_err") "Number of jobs push which was failed.")
    (MkDesc (BuildFQName namespace "jobs_err") "Number of jobs error while processing in the worker.")
    (MkDesc (BuildFQName namespace "jobs_ok") "Number of successfully processed jobs.").

Definition Describe (se : statsExporter) : list desc :=
  [worker se; pushErrDesc se; pushOkDesc se; jobsErrDesc se; jobsOkDesc se].

(** The states of the workers; [None]: nil, when one of them cannot be read. *)
Definition Workers {S} (states : list (S + error)) : option (list S) :=
  mapM (λ s, match s with inl x => Some x | inr _ => None end) states.
Definition Reset (e : option error) : option error := EOp "jobs_plugin_reset" <$> e.

Definition cumulative (memory : list Z) : Z := foldl (λ cum m, u64 (cum + m)) 0 memory.

(** A state is the resident memory of the worker. *)
Definition Collect (states : list (Z + error)) (m : metrics) (se : statsExporter) : list (desc * value_type * Z) :=
  [(worker se, GaugeValue, cumulative (default [] (Workers states)));
   (jobsOkDesc se, GaugeValue, jobsOk m); (jobsErrDesc se, GaugeValue, jobsErr m);
   (pushOkDesc se, GaugeValue, pushOk m); (pushErrDesc se, GaugeValue, pushErr m)].

Lemma cumulative_sum memory : cumulative memory = foldr Z.add 0 memory mod 2 ^ 64.
Proof.
  unfold cumulative.
  assert (G : ∀ acc, 0 ≤ acc < 2 ^ 64 → foldl (λ cum m, u64 (cum + m)) acc memory = (acc + foldr Z.add 0 memory) mod 2 ^ 64).
  { induction memory as [|x l IH]; intros acc Ha; simpl.
    - rewrite Z.add_0_r. symmetry. by apply Z.mod_small.
    - rewrite IH; [|apply Z.mod_pos_bound; lia]. unfold u64. rewrite Zplus_mod_idemp_l. f_equal. lia. }
  apply G. lia.
Qed.

Lemma Workers_all {S} (l : list S) : Workers (inl <$> l) = Some l.
Proof. unfold Workers. apply mapM_Some. apply Forall2_fmap_l, Forall_Forall2_diag, Forall_true. done. Qed.
Lemma Workers_error {S} (l : list (S + error)) e : inr e ∈ l → Workers l = None.
Proof.
  intros Hin. unfold Workers. apply mapM_None_2. apply list.Exists_exists. by exists (inr e).
Qed.

(** Every metric that is collected was described and the other way round, under
    different names, with the values of the counters of the plugin.  The memory
    is that of all workers, wrapping at 2^64 bytes, and 0 when the state of one
    of them cannot be read. *)
Theorem jobs_metrics_exact m :
  let se := newStatsExporter in
  NoDup (fqName <$> Describe se) ∧
  (∀ states, (Collect states m se).*1.*1 ≡ₚ Describe se) ∧
  (∀ memory, (Collect (inl <$> memory) m se).*2 = [foldr Z.add 0 memory mod 2 ^ 64; jobsOk m; jobsErr m; pushOk m; pushErr m]) ∧
  (∀ states e, inr e ∈ states → (Collect states m se).*2 = [0; jobsOk m; jobsErr m; pushOk m; pushErr m]).
Proof.
  intros se. split; [apply (bool_decide_unpack _); vm_compute; exact I|]. split_and!.
  - intros states. unfold Collect, Describe. cbn [fmap list_fmap fst]. apply Permutation_skip.
    set (a := jobsOkDesc se). set (b := jobsErrDesc se). set (c := pushOkDesc se). set (d := pushErrDesc se).
    solve_Permutation.
  - intros memory. unfold Collect. cbn [fmap list_fmap snd]. by rewrite Workers_all, <- cumulative_sum.
  - intros states e He. unfold Collect. cbn [fmap list_fmap snd]. by rewrite (Workers_error states e He).
Qed.
End JobsMetrics.
