(* ===== verification/JobsMemory.v ===== *)
(** * The in-memory jobs driver ([memory/memoryjobs])

    A consumer holds a bounded local channel, goroutines that sleep until a
    delayed job is due, at most one goroutine that forwards jobs to the priority
    queue, and counters.  [exec] runs one atomic action of the driver, of a
    goroutine or of a job; the interleavings of the goroutines are the sequences
    of actions. *)

From stdpp Require Import base gmap strings list.
From Stdlib Require Import ZArith.
From S2P Require Import Prelude JobsProtocol JobsPlugin.

Module MemJobs.
Import Protocol Jobs.
Local Open Scope Z_scope.

Record Item := MkItem {
  it_Job : string; it_Ident : string; it_Payload : bytes; it_Headers : headers;
  it_Priority : Z; it_Pipeline : string; it_Delay : Z }.

Definition fromJob (j : Job) : Item :=
  MkItem (jb_Job j) (jb_Ident j) (jb_Payload j) (jb_Headers j)
    (jb_Priority j) (jb_Pipeline j) (jb_Delay j).

Definition item_priority (z : Z) (i : Item) : Item :=
  MkItem (it_Job i) (it_Ident i) (it_Payload i) (it_Headers i) z (it_Pipeline i) (it_Delay i).
Definition item_requeued (h : headers) (d : Z) (i : Item) : Item :=
  MkItem (it_Job i) (it_Ident i) (it_Payload i) h (it_Priority i) (it_Pipeline i) d.

Record Config := MkConfig { cfg_Priority : Z; cfg_Prefetch : Z }.

Definition goroutinesMax : Z := 1000.

(** [chan]: the local channel with its content, or nil after [Stop];
    [starting]: delay goroutines that have not run yet, [sleeping]: those that
    have counted themselves; [consuming]: forwarding goroutines;
    [held]: jobs the pollers have taken from the priority queue [pq]. *)
Record consumer := MkConsumer {
  cfg : option Config; priority : Z; capacity : Z;
  chan : option (list Item);
  goroutines : Z; delayed : Z; active : Z; listeners : Z;
  pipe : option string; driver : string;
  starting : list Item; sleeping : list Item; consuming : nat;
  pq : list Item; held : list Item }.

Definition with_chan ch c := MkConsumer (cfg c) (priority c) (capacity c) ch (goroutines c)
  (delayed c) (active c) (listeners c) (pipe c) (driver c) (starting c) (sleeping c) (consuming c) (pq c) (held c).
Definition with_counts g d a c := MkConsumer (cfg c) (priority c) (capacity c) (chan c) g d a
  (listeners c) (pipe c) (driver c) (starting c) (sleeping c) (consuming c) (pq c) (held c).
Definition with_delays st sl c := MkConsumer (cfg c) (priority c) (capacity c) (chan c) (goroutines c)
  (delayed c) (active c) (listeners c) (pipe c) (driver c) st sl (consuming c) (pq c) (held c).
Definition with_listeners l n c := MkConsumer (cfg c) (priority c) (capacity c) (chan c) (goroutines c)
  (delayed c) (active c) l (pipe c) (driver c) (starting c) (sleeping c) n (pq c) (held c).
Definition with_queue q h c := MkConsumer (cfg c) (priority c) (capacity c) (chan c) (goroutines c)
  (delayed c) (active c) (listeners c) (pipe c) (driver c) (starting c) (sleeping c) (consuming c) q h.

Definition new_consumer cf pr cap : consumer :=
  MkConsumer cf pr cap (Some []) 0 0 0 0 None "" [] [] 0 [] [].

Definition FromConfig (unmarshal : string → res (option Config)) (key : string) : res consumer :=
  let op := "new_ephemeral_pipeline" in
  match unmarshal key with
  | Err e => Err (EOp op e)
  | Panic => Panic
  | Ok None => Err (EOp op (EErrorf "config not found by provided key: %s" [key]))
  | Ok (Some c) =>
      let c := MkConfig (if cfg_Priority c =? 0 then 10 else cfg_Priority c)
                        (if cfg_Prefetch c =? 0 then 100000 else cfg_Prefetch c) in
      Ok (new_consumer (Some c) (cfg_Priority c) (cfg_Prefetch c))
  end.

(** [prefetch] and [prio]: [pipeline.Int("prefetch", 100_000)] and
    [pipeline.Priority()]; [make] panics on a negative size.  The configuration
    stays nil. *)
Definition FromPipeline (prefetch prio : Z) : res consumer :=
  if prefetch <? 0 then Panic else Ok (new_consumer None prio prefetch).

Definition Register (name dr : string) (c : consumer) : consumer :=
  MkConsumer (cfg c) (priority c) (capacity c) (chan c) (goroutines c) (delayed c) (active c)
    (listeners c) (Some name) dr (starting c) (sleeping c) (consuming c) (pq c) (held c).

Definition has_room (c : consumer) : bool :=
  match chan c with
  | Some ch => Z.of_nat (length ch) <? capacity c
  | None => false
  end.

Definition send (i : Item) (c : consumer) : consumer :=
  with_chan ((λ ch, ch ++ [i]) <$> chan c) c.

(** [done]: the deadline of the context is the branch of the select that is
    taken; it is the only one left without room.  The error message reads the
    configuration. *)
Definition handleItem (done : bool) (msg : Item) (c : consumer) : consumer * res unit :=
  let op := "ephemeral_handle_request" in
  if 0 <? it_Delay msg then
    if goroutinesMax <=? goroutines c
    then (c, Err (EOp op (EStr "max concurrency number reached")))
    else (with_delays (starting c ++ [msg]) (sleeping c) c, Ok tt)
  else
    let c := with_counts (goroutines c) (delayed c) (i64_inc (active c)) c in
    if has_room c && negb done then (send msg c, Ok tt)
    else match cfg c with
         | None => (c, Panic)
         | Some _ => (c, Err (EOp op (EStr "local pipeline is full")))
         end.

Definition Push (done : bool) (jb : Job) (c : consumer) : consumer * res unit :=
  let op := "ephemeral_push" in
  match pipe c with
  | None => (c, Err (EOp op (EErrorf "no such pipeline: %s" [jb_Pipeline jb])))
  | Some _ => let '(c, r) := handleItem done (fromJob jb) c in (c, wrap_err op r)
  end.

Definition ready (r : Z) : bool := 0 <? r.

Definition State_ (c : consumer) : res State :=
  match pipe c with
  | None => Panic
  | Some n => Ok (MkState n (driver c) n (active c) (delayed c) 0 (ready (listeners c)))
  end.

(** The delay goroutine: it counts itself, sleeps, then tries to send. *)
Definition start_delayed (n : nat) (c : consumer) : option consumer :=
  i ← starting c !! n;
  Some (with_delays (delete n (starting c)) (sleeping c ++ [i])
          (with_counts (u64_inc (goroutines c)) (i64_inc (delayed c)) (active c) c)).

Definition wake_delayed (n : nat) (c : consumer) : option consumer :=
  i ← sleeping c !! n;
  let c := with_delays (starting c) (delete n (sleeping c)) c in
  if has_room c
  then Some (send i (with_counts (u64_dec (goroutines c)) (delayed c) (active c) c))
  else Some c.

(** The forwarding goroutine moves one item to the priority queue. *)
Definition consume_one (c : consumer) : option consumer :=
  match consuming c, chan c with
  | S _, Some (i :: ch) =>
      let i := if it_Priority i =? 0 then item_priority (priority c) i else i in
      Some (with_queue (pq c ++ [i]) (held c) (with_chan (Some ch) c))
  | _, _ => None
  end.

Definition consume (c : consumer) : consumer := with_listeners (listeners c) (S (consuming c)) c.

Definition Run (c : consumer) : consumer * res unit :=
  if listeners c =? 1
  then (c, Err (EOp "memory_jobs_run" (EStr "listener already in the active state")))
  else let c := consume c in (with_listeners 1 (consuming c) c, Ok tt).

(** [None]: the call panics (no pipeline registered) or blocks for ever (no
    goroutine takes the stop signal). *)
Definition Pause (c : consumer) : option consumer :=
  _ ← pipe c;
  if listeners c =? 0 then Some c else
  match consuming c with
  | O => None
  | S n => Some (with_listeners (u32_dec (listeners c)) n c)
  end.

Definition Resume (c : consumer) : option consumer :=
  _ ← pipe c;
  if listeners c =? 1 then Some c
  else let c := consume c in Some (with_listeners 1 (consuming c) c).

(** [for i := 0; i < len(ch); i++ { <-ch }] *)
Fixpoint drain_loop (fuel i : nat) (ch : list Item) : list Item :=
  match fuel with
  | O => ch
  | S f => if (i <? length ch)%nat then drain_loop f (S i) (tail ch) else ch
  end.
Definition drain (ch : list Item) : list Item := drain_loop (length ch) 0 ch.

(** [taken]: a forwarding goroutine is waiting and takes the stop signal.  The
    second component is what was left in the channel when it was dropped. *)
Definition Stop (taken : bool) (c : consumer) : option (consumer * list Item) :=
  _ ← pipe c;
  let n := if taken then pred (consuming c) else consuming c in
  let c := with_listeners (listeners c) n c in
  Some (with_chan None c, drain (default [] (chan c))).

(** ** The job *)

Definition atomicallyReduceCount (i : Item) (c : consumer) : consumer :=
  if 0 <? it_Delay i
  then with_counts (goroutines c) (i64_dec (delayed c)) (active c) c
  else with_counts (goroutines c) (delayed c) (i64_dec (active c)) c.

Definition Ack (i : Item) (c : consumer) : consumer := atomicallyReduceCount i c.
Definition Nack (i : Item) (c : consumer) : consumer := atomicallyReduceCount i c.

(** The delay is overwritten before the counter to reduce is chosen; the
    context has no deadline, so that without room the call waits ([None]). *)
Definition Requeue_ (h : headers) (delay : Z) (i : Item) (c : consumer)
    : option (consumer * res unit) :=
  let i := item_requeued h delay i in
  let c := atomicallyReduceCount i c in
  if (0 <? delay) || has_room c then Some (handleItem false i c) else None.

(** ** Actions *)

Inductive action :=
  | APush (done : bool) (jb : Job)
  | AStart (n : nat) | AWake (n : nat) | AConsume
  | AExtract (n : nat)
  | AAck (n : nat) | ANack (n : nat) | ARequeue (h : headers) (delay : Z) (n : nat)
  | ARun | APause | AResume | AStop (taken : bool).

Definition release (n : nat) (c : consumer) : consumer := with_queue (pq c) (delete n (held c)) c.

Definition exec (a : action) (c : consumer) : option consumer :=
  match a with
  | APush done jb => match Push done jb c with (_, Panic) => None | (c, _) => Some c end
  | AStart n => start_delayed n c
  | AWake n => wake_delayed n c
  | AConsume => consume_one c
  | AExtract n => i ← pq c !! n; Some (with_queue (delete n (pq c)) (held c ++ [i]) c)
  | AAck n => i ← held c !! n; Some (Ack i (release n c))
  | ANack n => i ← held c !! n; Some (Nack i (release n c))
  | ARequeue h d n =>
      i ← held c !! n; fst <$> Requeue_ h d i (release n c)
  | ARun => Some (Run c).1
  | APause => Pause c
  | AResume => Resume c
  | AStop taken =>
      if taken && (consuming c =? 0)%nat then None else fst <$> Stop taken c
  end.

Definition step (c c' : consumer) : Prop := ∃ a, exec a c = Some c'.

Fixpoint run (l : list action) (c : consumer) : option consumer :=
  match l with
  | [] => Some c
  | a :: l' => c ← exec a c; run l' c
  end.

(** ** Bounds *)

Definition bounded (c : consumer) : Prop :=
  match chan c with Some ch => Z.of_nat (length ch) ≤ capacity c | None => True end ∧
  0 ≤ Z.of_nat (consuming c) ≤ listeners c ≤ 1.

Lemma send_bounded i c : has_room c = true → bounded c → bounded (send i c).
Proof.
  unfold has_room, bounded, send. destruct (chan c) as [ch|]; [|done]. simpl.
  rewrite length_app. simpl. lia.
Qed.

Lemma handleItem_bounded done i c : bounded c → bounded (handleItem done i c).1.
Proof.
  intros Hb. unfold handleItem.
  destruct (0 <? it_Delay i); [destruct (goroutinesMax <=? goroutines c); exact Hb|].
  cbv zeta. set (c1 := with_counts _ _ _ c). assert (Hb1 : bounded c1) by exact Hb.
  destruct (has_room c1) eqn:Er; cbn [andb]; [|destruct (cfg c1); exact Hb1].
  destruct done; cbn [negb]; [destruct (cfg c1); exact Hb1|]. by apply send_bounded.
Qed.

Lemma reduce_bounded i c : bounded c → bounded (atomicallyReduceCount i c).
Proof. intros Hb. unfold atomicallyReduceCount. destruct (0 <? it_Delay i); exact Hb. Qed.

Lemma exec_bounded a c c' : exec a c = Some c' → bounded c → bounded c'.
Proof.
  intros He Hb. destruct a; simpl in He.
  - unfold Push in He. destruct (pipe c); [|by simplify_eq].
    pose proof (handleItem_bounded done (fromJob jb) c Hb).
    destruct (handleItem done (fromJob jb) c) as [c1 []]; by simplify_eq/=.
  - unfold start_delayed in He. destruct (starting c !! n); by simplify_eq/=.
  - unfold wake_delayed in He. destruct (sleeping c !! n); [|done]. simpl in He.
    destruct (has_room _) eqn:Er; simplify_eq; [by apply send_bounded|done].
  - unfold consume_one in He. destruct (consuming c) eqn:Ec; [done|].
    destruct (chan c) as [[|i ch]|] eqn:Eh; simplify_eq. unfold bounded in *. simpl in *.
    rewrite Eh in Hb. rewrite Ec in *. simpl in Hb. lia.
  - destruct (pq c !! n); by simplify_eq/=.
  - destruct (held c !! n); simplify_eq/=. by apply reduce_bounded.
  - destruct (held c !! n); simplify_eq/=. by apply reduce_bounded.
  - destruct (held c !! n) as [i|]; simplify_eq/=. unfold Requeue_ in He.
    cbv zeta in He. destruct (_ || _); simplify_eq/=. by apply handleItem_bounded, reduce_bounded.
  - simplify_eq. unfold Run. destruct (Z.eqb_spec (listeners c) 1); [done|].
    destruct Hb as [Hb1 Hb2]. split; [exact Hb1|simpl; lia].
  - unfold Pause in He. destruct (pipe c); [|done]. simpl in He.
    destruct (Z.eqb_spec (listeners c) 0); [by simplify_eq|].
    destruct (consuming c) eqn:Ec; simplify_eq. destruct Hb as [Hb1 Hb2].
    split; [exact Hb1|]. simpl. replace (listeners c) with 1 by lia. change (u32_dec 1) with 0. lia.
  - unfold Resume in He. destruct (pipe c); [|done]. simpl in He.
    destruct (Z.eqb_spec (listeners c) 1); simplify_eq; [done|].
    destruct Hb as [Hb1 Hb2]. split; [exact Hb1|simpl; lia].
  - destruct (taken && (consuming c =? 0)%nat); [done|]. unfold Stop in He.
    destruct (pipe c); simplify_eq/=. destruct Hb as [Hb1 Hb2].
    split; [done|]. simpl. destruct taken; lia.
Qed.

Lemma rtc_bounded c c' : rtc step c c' → bounded c → bounded c'.
Proof. induction 1 as [|x y z [a Ha] _ IH]; eauto using exec_bounded. Qed.

(** Under every interleaving of pushes, goroutines, pollers and control calls
    the local channel never holds more than its capacity, the listener flag is 0
    or 1, and at most one goroutine forwards jobs, none while the flag is 0. *)
Theorem mem_reachable_bounded unmarshal key name dr c0 c :
  (∀ cf, unmarshal key = Ok (Some cf) → 0 ≤ cfg_Prefetch cf) →
  FromConfig unmarshal key = Ok c0 → rtc step (Register name dr c0) c →
  bounded c.
Proof.
  intros Hpre Hc Hr. apply (rtc_bounded _ _ Hr). unfold FromConfig in Hc.
  destruct (unmarshal key) as [[cf|]|e|] eqn:Eu; simplify_eq. specialize (Hpre cf eq_refl).
  split; simpl; [|lia]. destruct (Z.eqb_spec (cfg_Prefetch cf) 0); lia.
Qed.

(** ** Where the jobs are *)

Definition items (c : consumer) : list Item :=
  starting c ++ sleeping c ++ default [] (chan c) ++ pq c ++ held c.
Definition idents (c : consumer) : list string := it_Ident <$> items c.

(** Identifiers an action adds to the driver. *)
Definition added (a : action) (c : consumer) : list string :=
  match a with
  | APush done jb => if is_ok (Push done jb c).2 then [jb_Ident jb] else []
  | _ => []
  end.

(** Settled by a poller. *)
Definition finished (a : action) (c : consumer) : list string :=
  match a with
  | AAck n | ANack n => option_list (it_Ident <$> held c !! n)
  | _ => []
  end.

(** Lost: a delayed job that wakes up when the channel has no room, a job whose
    requeueing fails, and what the channel holds when the driver is stopped. *)
Definition dropped (a : action) (c : consumer) : list string :=
  match a with
  | AWake n => if has_room c then [] else option_list (it_Ident <$> sleeping c !! n)
  | ARequeue h d n =>
      match held c !! n ≫= λ i, Requeue_ h d i (release n c) with
      | Some (_, Ok _) | None => []
      | _ => option_list (it_Ident <$> held c !! n)
      end
  | AStop _ => it_Ident <$> default [] (chan c)
  | _ => []
  end.
Definition removed (a : action) (c : consumer) : list string := finished a c ++ dropped a c.

Lemma idents_delete (l : list Item) n i :
  l !! n = Some i → it_Ident <$> l ≡ₚ it_Ident i :: (it_Ident <$> delete n l).
Proof.
  intros H. change (it_Ident i :: (it_Ident <$> delete n l)) with (it_Ident <$> i :: delete n l).
  by apply fmap_Permutation, delete_Permutation.
Qed.

Lemma reduce_idents i c : idents (atomicallyReduceCount i c) = idents c.
Proof. unfold atomicallyReduceCount. by destruct (0 <? it_Delay i). Qed.

Lemma release_idents n i c : held c !! n = Some i → idents c ≡ₚ it_Ident i :: idents (release n c).
Proof.
  intros H. unfold idents, items. simpl. rewrite !fmap_app, (idents_delete _ _ _ H).
  solve_Permutation.
Qed.

Lemma handleItem_idents done i c :
  idents (handleItem done i c).1 ≡ₚ
  (if is_ok (handleItem done i c).2 then [it_Ident i] else []) ++ idents c.
Proof.
  unfold handleItem. destruct (0 <? it_Delay i).
  { destruct (goroutinesMax <=? goroutines c); [done|].
    unfold idents, items. simpl. rewrite !fmap_app. simpl. solve_Permutation. }
  set (c1 := with_counts _ _ _ c).
  destruct (has_room c1) eqn:Er; simpl; [|destruct (cfg c); exact (reflexivity _)].
  destruct done; simpl; [destruct (cfg c); exact (reflexivity _)|].
  unfold send, has_room in *. unfold idents, items. simpl in *.
  destruct (chan c) as [ch|]; [|done]. simpl. rewrite !fmap_app. simpl. solve_Permutation.
Qed.

Lemma exec_idents a c c' :
  exec a c = Some c' → removed a c ++ idents c' ≡ₚ added a c ++ idents c.
Proof.
  intros He. unfold removed. destruct a; simpl in *.
  - unfold Push in *. destruct (pipe c); [|by simplify_eq/=].
    pose proof (handleItem_idents done (fromJob jb) c) as Hi.
    destruct (handleItem done (fromJob jb) c) as [c1 []]; by simplify_eq/=.
  - unfold start_delayed in He. destruct (starting c !! n) as [i|] eqn:E; simplify_eq/=.
    unfold idents, items. simpl. rewrite !fmap_app, (idents_delete _ _ _ E). simpl. solve_Permutation.
  - unfold wake_delayed in He. destruct (sleeping c !! n) as [i|] eqn:E; [|done]. simpl in He.
    change (has_room (with_delays _ _ c)) with (has_room c) in He.
    unfold has_room in *. destruct (chan c) as [ch|] eqn:Ec; [destruct (_ <? _)|];
      simplify_eq; unfold idents, items; simpl; rewrite Ec; simpl;
      rewrite !fmap_app, (idents_delete _ _ _ E); simpl; solve_Permutation.
  - unfold consume_one in He. destruct (consuming c); [done|].
    destruct (chan c) as [[|i ch]|] eqn:Eh; simplify_eq. unfold idents, items. cbn [starting sleeping chan pq held with_queue with_chan]. rewrite Eh.
    cbn [default from_option id app]. rewrite ?fmap_app, ?fmap_cons, ?fmap_app.
    destruct (it_Priority i =? 0); simpl; solve_Permutation.
  - destruct (pq c !! n) as [i|] eqn:E; simplify_eq/=.
    unfold idents, items. simpl. rewrite !fmap_app, (idents_delete _ _ _ E). simpl. solve_Permutation.
  - destruct (held c !! n) as [i|] eqn:E; simplify_eq/=. unfold Ack.
    by rewrite reduce_idents, <- (release_idents _ _ _ E).
  - destruct (held c !! n) as [i|] eqn:E; simplify_eq/=. unfold Nack.
    by rewrite reduce_idents, <- (release_idents _ _ _ E).
  - destruct (held c !! n) as [i|] eqn:E; simplify_eq/=. rewrite (release_idents _ _ _ E).
    unfold Requeue_ in *. cbv zeta in *.
    destruct (_ || _); simplify_eq/=.
    set (c1 := atomicallyReduceCount _ _).
    pose proof (handleItem_idents false (item_requeued h delay i) c1) as Hi.
    assert (Hc1 : idents c1 = idents (release n c)) by apply reduce_idents.
    rewrite Hc1 in Hi. destruct (handleItem false (item_requeued h delay i) c1) as [c2 []];
      simpl in *; rewrite Hi; done.
  - simplify_eq. unfold Run. by destruct (listeners c =? 1).
  - unfold Pause in He. destruct (pipe c); [|done]. simpl in He.
    destruct (listeners c =? 0); [by simplify_eq|]. by destruct (consuming c); simplify_eq.
  - unfold Resume in He. destruct (pipe c); [|done]. simpl in He.
    by destruct (listeners c =? 1); simplify_eq.
  - destruct (taken && (consuming c =? 0)%nat); [done|]. unfold Stop in He.
    destruct (pipe c); simplify_eq/=. unfold idents, items. simpl. rewrite !fmap_app. solve_Permutation.
Qed.

(** A poller's requeueing succeeds unless it asks for a delay and too many
    goroutines sleep; without a delay it waits for room. *)
Lemma Requeue_fits h d i c c' r :
  d ≤ 0 ∨ goroutines c < goroutinesMax → Requeue_ h d i c = Some (c', r) → r = Ok tt.
Proof.
  intros Hd. unfold Requeue_, handleItem. cbv zeta. cbn [it_Delay item_requeued].
  assert (Hg : goroutines (atomicallyReduceCount (item_requeued h d i) c) = goroutines c).
  { unfold atomicallyReduceCount. by destruct (0 <? _). }
  destruct (Z.ltb_spec 0 d); simpl.
  - rewrite Hg. destruct (Z.leb_spec goroutinesMax (goroutines c)); [lia|]. by intros [= _ <-].
  - destruct (has_room (atomicallyReduceCount _ c)) eqn:Er; [|done].
    change (has_room (with_counts _ _ _ ?x)) with (has_room x). rewrite Er. by intros [= _ <-].
Qed.

Lemma dropped_when a c c' :
  exec a c = Some c' → dropped a c ≠ [] →
  (∃ n, a = AWake n ∧ has_room c = false) ∨
  (∃ h d n, a = ARequeue h d n ∧ 0 < d ∧ goroutinesMax ≤ goroutines c) ∨ (∃ t, a = AStop t).
Proof.
  intros He Hd. destruct a; simpl in *; try done; [| |by eauto].
  - left. exists n. by destruct (has_room c).
  - right; left. exists h, delay, n. split; [done|]. destruct (held c !! n) as [i|] eqn:E; [|done]. simpl in *.
    destruct (Requeue_ h delay i (release n c)) as [[c1 r]|] eqn:Er; [|done].
    destruct (decide (delay ≤ 0 ∨ goroutines c < goroutinesMax)) as [Hf|Hf]; [|lia].
    apply (Requeue_fits h delay i (release n c)) in Er; [|done]. by subst r.
Qed.


(** ** Behaviour at the limits *)

Lemma drain_loop_length fuel i ch :
  (length ch - i ≤ fuel)%nat →
  length (drain_loop fuel i ch) = (length ch - (length ch - i + 1) / 2)%nat.
Proof.
  revert i ch. induction fuel as [|f IH]; intros i ch Hf; cbn [drain_loop].
  { replace (length ch - i)%nat with 0%nat by lia. simpl. lia. }
  destruct (Nat.ltb_spec i (length ch)) as [Hlt|Hge].
  - destruct ch as [|x ch]; cbn [length tail] in *; [lia|]. rewrite IH by lia.
    replace (S (length ch) - i + 1)%nat with ((length ch - i) + 1 * 2)%nat by lia.
    rewrite Nat.div_add by lia.
    destruct (decide (i = length ch)) as [->|Hne].
    + replace (length ch - S (length ch) + 1)%nat with 1%nat by lia.
      rewrite Nat.sub_diag. simpl. lia.
    + replace (length ch - S i + 1)%nat with (length ch - i)%nat by lia. lia.
  - replace (length ch - i)%nat with 0%nat by lia. simpl. lia.
Qed.

Lemma half_split n : (n - (n + 1) / 2 = n / 2)%nat.
Proof.
  pose proof (Nat.div_mod_eq n 2). pose proof (Nat.div_mod_eq (n + 1) 2).
  pose proof (Nat.mod_upper_bound n 2 ltac:(done)).
  pose proof (Nat.mod_upper_bound (n + 1) 2 ltac:(done)). lia.
Qed.

(** [Stop] is meant to drain the local channel, but its loop compares a
    growing index with the shrinking length: half of the jobs are still in the
    channel when it is dropped. *)
Theorem mem_Stop_drains_half taken c c' rest :
  Stop taken c = Some (c', rest) →
  chan c' = None ∧ length rest = (length (default [] (chan c)) / 2)%nat.
Proof.
  unfold Stop. destruct (pipe c); intros; simplify_eq/=. split; [done|].
  unfold drain. rewrite drain_loop_length by lia. rewrite Nat.sub_0_r.
  apply half_split.
Qed.

(** A job that is pushed without a delay, forwarded, taken by a poller, requeued
    by it with a delay, and then processed and acknowledged. *)
Definition requeue_cycle (jb : Job) (h : headers) (d : Z) : list action :=
  [APush false jb; AConsume; AExtract 0; ARequeue h d 0; AStart 0; AWake 0;
   AConsume; AExtract 0; AAck 0].

(** Requeueing an immediate job with a delay reduces the counter of delayed
    jobs, which never counted it, instead of the active one: when the job is
    finished and nothing is left in the driver, it still reports one more active
    job and one less delayed job than before. *)
Theorem mem_requeue_counters_drift jb h d cf pr cap name dr :
  jb_Delay jb = 0 → 0 < d → 0 < cap →
  ∃ c, run (requeue_cycle jb h d)
         (Register name dr (with_listeners 1 1 (new_consumer cf pr cap))) = Some c ∧
    items c = [] ∧ active c = 1 ∧ delayed c = -1.
Proof.
  destruct jb as [? ? ? ? jp ? jd]; cbn [jb_Delay]. intros -> Hd Hcap.
  destruct d as [|d|d]; [lia| |lia]. destruct cap as [|cap|cap]; [lia| |lia].
  match goal with |- ∃ c, ?r = Some c ∧ _ =>
    assert (H : match r with
                | Some c => items c = [] ∧ active c = 1 ∧ delayed c = -1
                | None => False end) end.
  { destruct jp, pr; vm_compute; split_and!; reflexivity. }
  destruct (run _ _) as [c|]; [|done]. by exists c.
Qed.

Lemma run_app l1 l2 c : run (l1 ++ l2) c = run l1 c ≫= run l2.
Proof.
  revert c. induction l1 as [|a l1 IH]; intros c; simpl; [done|].
  destruct (exec a c); simpl; auto.
Qed.

Lemma handleItem_frame done i c :
  cfg (handleItem done i c).1 = cfg c ∧ pipe (handleItem done i c).1 = pipe c.
Proof.
  unfold handleItem. destruct (0 <? it_Delay i); [by destruct (_ <=? _)|]. cbv zeta.
  destruct (_ && _); [done|]. by destruct (cfg (with_counts _ _ _ c)) eqn:E.
Qed.

Lemma reduce_frame i c :
  cfg (atomicallyReduceCount i c) = cfg c ∧ pipe (atomicallyReduceCount i c) = pipe c.
Proof. unfold atomicallyReduceCount. by destruct (0 <? it_Delay i). Qed.

(** No action changes the configuration or the registered pipeline. *)
Lemma exec_frame a c c' : exec a c = Some c' → cfg c' = cfg c ∧ pipe c' = pipe c.
Proof.
  intros He. destruct a; simpl in He;
    unfold Push, start_delayed, wake_delayed, consume_one, Run, Pause, Resume, Stop, Ack, Nack in He.
  - destruct (pipe c) eqn:Ep; [|by simplify_eq].
    pose proof (handleItem_frame done (fromJob jb) c) as Hf. rewrite Ep in Hf.
    destruct (handleItem done (fromJob jb) c) as [c1 []]; by simplify_eq/=.
  - by destruct (starting c !! n); simplify_eq/=.
  - destruct (sleeping c !! n); [|done]. cbn [mbind option_bind] in He.
    by destruct (has_room _); simplify_eq.
  - destruct (consuming c); [done|]. by destruct (chan c) as [[|]|]; simplify_eq.
  - by destruct (pq c !! n); simplify_eq/=.
  - destruct (held c !! n); simplify_eq/=. apply (reduce_frame _ (release n c)).
  - destruct (held c !! n); simplify_eq/=. apply (reduce_frame _ (release n c)).
  - destruct (held c !! n) as [i|]; simplify_eq/=. unfold Requeue_ in He. cbv zeta in He.
    destruct (_ || _); simplify_eq/=. destruct (handleItem_frame false (item_requeued h delay i)
      (atomicallyReduceCount (item_requeued h delay i) (release n c))) as [-> ->].
    apply (reduce_frame _ (release n c)).
  - simplify_eq. by destruct (listeners c =? 1).
  - destruct (pipe c) eqn:Ep; [|done]. cbn [mbind option_bind] in He.
    destruct (listeners c =? 0); [by simplify_eq|]. by destruct (consuming c); simplify_eq.
  - destruct (pipe c) eqn:Ep; [|done]. cbn [mbind option_bind] in He.
    by destruct (listeners c =? 1); simplify_eq.
  - destruct (_ && _); [done|]. by destruct (pipe c) eqn:Ep; simplify_eq/=.
Qed.

(** A delayed job that wakes up when the channel has no room. *)
Definition drop_cycle (jb : Job) : list action := [APush false jb; AStart 0; AWake 0].

Lemma drop_cycle_once jb c :
  is_Some (pipe c) → 0 < jb_Delay jb → has_room c = false →
  starting c = [] → sleeping c = [] → 0 ≤ goroutines c < goroutinesMax →
  run (drop_cycle jb) c =
    Some (with_counts (goroutines c + 1) (i64_inc (delayed c)) (active c) c).
Proof.
  intros [p Hp] Hd Hr Hst Hsl Hg. unfold drop_cycle, goroutinesMax in *. cbn [run exec mbind option_bind].
  unfold Push. rewrite Hp. unfold handleItem. cbn [it_Delay fromJob].
  replace (0 <? jb_Delay jb) with true by lia. unfold goroutinesMax.
  replace (1000 <=? goroutines c) with false by lia.
  destruct c as [? ? ? ch ? ? ? ? ? ? st sl ? ? ?]; cbn in Hst, Hsl, Hg, Hp, Hr. subst st sl.
  cbn. unfold has_room in *. cbn in *. rewrite Hr. rewrite u64_inc_small by lia. reflexivity.
Qed.

Lemma drop_cycles jb n c :
  is_Some (pipe c) → 0 < jb_Delay jb → has_room c = false →
  starting c = [] → sleeping c = [] → 0 ≤ goroutines c → goroutines c + Z.of_nat n ≤ goroutinesMax →
  ∃ c', run (concat (replicate n (drop_cycle jb))) c = Some c' ∧
    starting c' = [] ∧ sleeping c' = [] ∧ goroutines c' = goroutines c + Z.of_nat n ∧ pipe c' = pipe c.
Proof.
  revert c. induction n as [|n IH]; intros c Hp Hd Hr Hst Hsl Hg Hn.
  { exists c. split_and!; try done. lia. }
  cbn [replicate concat]. rewrite run_app, drop_cycle_once by (done || lia). cbn [mbind option_bind].
  destruct (IH (with_counts (goroutines c + 1) (i64_inc (delayed c)) (active c) c))
    as (c' & Hc' & ? & ? & Hg' & Hp'); try done; cbn [goroutines with_counts] in *; try lia.
  exists c'. split_and!; [done..|lia|done].
Qed.

(** A delayed job that wakes up to a full or closed local channel is dropped
    without giving its goroutine slot back: after a thousand of them no
    goroutine is waiting, and yet every later delayed job is rejected. *)
Theorem mem_dropped_jobs_block_delays jb c :
  is_Some (pipe c) → 0 < jb_Delay jb → has_room c = false →
  starting c = [] → sleeping c = [] → goroutines c = 0 →
  ∃ c', run (concat (replicate 1000 (drop_cycle jb))) c = Some c' ∧
    starting c' = [] ∧ sleeping c' = [] ∧
    ∀ done jb', 0 < jb_Delay jb' →
      Push done jb' c' =
        (c', Err (EOp "ephemeral_push" (EOp "ephemeral_handle_request"
                    (EStr "max concurrency number reached")))).
Proof.
  intros Hp Hd Hr Hst Hsl Hg.
  destruct (drop_cycles jb 1000 c) as (c' & Hc' & Hst' & Hsl' & Hg' & Hp');
    [done..|lia|unfold goroutinesMax; lia|].
  exists c'. split_and!; [exact Hc'|done|done|]. intros done jb' Hd'.
  unfold Push, handleItem. rewrite Hp'. destruct Hp as [p ->]. cbn [it_Delay fromJob].
  replace (0 <? jb_Delay jb') with true by lia. unfold goroutinesMax.
  rewrite Hg', Hg. reflexivity.
Qed.

(** A consumer built from a declared pipeline keeps a nil configuration
    whatever happens to it, and the message for a push that finds the channel
    full until its deadline reads the configuration: such a push panics instead
    of returning its error. *)
Theorem mem_declared_full_push_panics prefetch prio name dr c0 c jb :
  FromPipeline prefetch prio = Ok c0 → rtc step (Register name dr c0) c →
  jb_Delay jb ≤ 0 → has_room c = false →
  (Push true jb c).2 = Panic.
Proof.
  intros Hf Hr Hd Hroom. unfold FromPipeline in Hf. destruct (prefetch <? 0); simplify_eq.
  assert (Hinv : cfg c = None ∧ is_Some (pipe c)).
  { assert (H0 : cfg (Register name dr (new_consumer None prio prefetch)) = None ∧
                 is_Some (pipe (Register name dr (new_consumer None prio prefetch)))) by (split; eauto).
    induction Hr as [|x y z [a Ha] _ IH]; [done|].
    apply IH; [done|]. destruct (exec_frame a x y Ha) as [-> ->]. done. }
  destruct Hinv as [Hcfg [p Hp]]. unfold Push, handleItem. rewrite Hp. cbn [it_Delay fromJob].
  replace (0 <? jb_Delay jb) with false by lia. cbv zeta.
  change (has_room (with_counts _ _ _ c)) with (has_room c). rewrite Hroom. cbn [andb].
  change (cfg (with_counts _ _ _ c)) with (cfg c). by rewrite Hcfg.
Qed.

(** ** Witnesses *)

Definition w_job (id : string) (d : Z) : Job := MkJob "app\\Ping" id "p" ∅ 0 "test" d.
Definition w_cfg : Config := MkConfig 0 2.
Definition w_new : consumer := new_consumer (Some (MkConfig 10 2)) 10 2.
Definition w_start : consumer := Register "test" "memory" w_new.
Definition w_pushed : consumer := default w_start (run [APush false (w_job "1" 0); ARun] w_start).

Lemma w_pushed_step : rtc step w_start w_pushed.
Proof.
  eapply rtc_l; [by exists (APush false (w_job "1" 0))|].
  eapply rtc_l; [by exists ARun|]. apply rtc_refl.
Defined.

Lemma mem_reachable_bounded_witness : bounded w_pushed.
Proof.
  apply (mem_reachable_bounded (λ _, Ok (Some w_cfg)) "jobs.pipelines.test.config" "test" "memory"
           w_new w_pushed).
  - intros cf H. injection H as <-. discriminate.
  - reflexivity.
  - exact w_pushed_step.
Defined.


Definition w_full : consumer := with_chan (Some (fromJob <$> [w_job "1" 0; w_job "2" 0])) w_start.

Lemma mem_Stop_drains_half_witness :
  ∃ c' rest, Stop false w_full = Some (c', rest) ∧ chan c' = None ∧ length rest = 1%nat.
Proof.
  do 2 eexists. split; [reflexivity|].
  apply (mem_Stop_drains_half false w_full _ _). reflexivity.
Defined.

Lemma mem_requeue_counters_drift_witness :
  ∃ c, run (requeue_cycle (w_job "1" 0) ∅ 5)
         (Register "test" "memory" (with_listeners 1 1 (new_consumer None 10 2))) = Some c ∧
    items c = [] ∧ active c = 1 ∧ delayed c = -1.
Proof. apply mem_requeue_counters_drift; [reflexivity|lia|lia]. Defined.

Lemma mem_dropped_jobs_block_delays_witness :
  ∃ c', run (concat (replicate 1000 (drop_cycle (w_job "3" 1)))) w_full = Some c' ∧
    starting c' = [] ∧ sleeping c' = [] ∧
    ∀ done jb', 0 < jb_Delay jb' →
      Push done jb' c' =
        (c', Err (EOp "ephemeral_push" (EOp "ephemeral_handle_request"
                    (EStr "max concurrency number reached")))).
Proof.
  apply (mem_dropped_jobs_block_delays (w_job "3" 1) w_full);
    [by exists "test"|simpl; lia|reflexivity..].
Defined.

Lemma mem_declared_full_push_panics_witness :
  (Push true (w_job "2" 0) (Register "test" "memory" (new_consumer None 10 0))).2 = Panic.
Proof.
  apply (mem_declared_full_push_panics 0 10 "test" "memory" (new_consumer None 10 0));
    [reflexivity|apply rtc_refl|simpl; lia|reflexivity].
Defined.

End MemJobs.
