(* ===== verification/JobsBolt.v ===== *)
(** * The boltdb jobs driver ([boltdb/boltjobs])

    A pipeline is a bbolt database with three buckets: [push] holds the jobs
    that wait, under their identifier; [processing] the jobs that were handed to
    the priority queue; [delayed] the delayed jobs, under the second they are
    due at.  A consumer adds counters and two goroutines, each of which runs one
    transaction per tick.  [exec] runs one transaction or control call; the
    interleavings are the sequences of actions, since bbolt admits one writable
    transaction at a time. *)

From stdpp Require Import base gmap strings list sorting countable.
From Stdlib Require Import ZArith Ascii.
From S2P Require Import Prelude Rfc3339 Bolt JobsProtocol JobsPlugin.

Module BoltJobs.
Import Protocol Jobs.
Local Open Scope Z_scope.

Definition PluginName : string := "boltdb".
Definition rrDB : string := "rr.db".
Definition PushBucket : string := "push".
Definition InQueueBucket : string := "processing".
Definition DelayBucket : string := "delayed".

Record Item := MkItem {
  it_Job : string; it_Ident : string; it_Payload : bytes; it_Headers : headers;
  it_Priority : Z; it_Pipeline : string; it_Delay : Z }.

Global Instance Item_eq_dec : EqDecision Item.
Proof. solve_decision. Defined.

Definition fromJob (j : Job) : Item :=
  MkItem (jb_Job j) (jb_Ident j) (jb_Payload j) (jb_Headers j)
    (jb_Priority j) (jb_Pipeline j) (jb_Delay j).

Definition item_priority (z : Z) (i : Item) : Item :=
  MkItem (it_Job i) (it_Ident i) (it_Payload i) (it_Headers i) z (it_Pipeline i) (it_Delay i).
Definition item_requeued (h : headers) (d : Z) (i : Item) : Item :=
  MkItem (it_Job i) (it_Ident i) (it_Payload i) h (it_Priority i) (it_Pipeline i) d.

(** [gob.NewEncoder(buf).Encode(item)] and [gob.NewDecoder(buf).Decode(item)]:
    a decoder restores the exported fields of an encoded value. *)
Class GobItem := {
  gob_enc : Item → bytes + error;
  gob_dec : bytes → Item + error;
  gob_round_trip i v : gob_enc i = inl v → gob_dec v = inl i
}.

Record config := MkConfig {
  cfg_Permissions : Z; cfg_File : string; cfg_Priority : Z; cfg_Prefetch : Z }.

Definition zero_config : config := MkConfig 0 "" 0 0.

Definition InitDefaults (c : config) : config :=
  MkConfig (if cfg_Permissions c =? 0 then 511 else cfg_Permissions c)
    (if String.eqb (cfg_File c) "" then "rr.db" else cfg_File c)
    (if cfg_Priority c =? 0 then 10 else cfg_Priority c)
    (if cfg_Prefetch c =? 0 then 1000 else cfg_Prefetch c).

Section BoltJobs.
Context `{BO : Bolt} `{GC : GobItem}.

(** [loops], [dloops]: running [listener] and [delayedJobsListener] goroutines;
    [pq]: the items the driver put into the priority queue, [held]: those a
    poller has taken from it. *)
Record consumer := MkConsumer {
  file : string; permissions : Z; priority : Z; prefetch : Z;
  db : DB; pipe : option (string * string);
  listeners : Z; active : Z; delayed : Z;
  loops : nat; dloops : nat; pq : list Item; held : list Item }.

Definition with_db d c := MkConsumer (file c) (permissions c) (priority c) (prefetch c) d (pipe c)
  (listeners c) (active c) (delayed c) (loops c) (dloops c) (pq c) (held c).
Definition with_counts a d c := MkConsumer (file c) (permissions c) (priority c) (prefetch c) (db c) (pipe c)
  (listeners c) a d (loops c) (dloops c) (pq c) (held c).
Definition with_loops n l d c := MkConsumer (file c) (permissions c) (priority c) (prefetch c) (db c) (pipe c)
  n (active c) (delayed c) l d (pq c) (held c).
Definition with_queue q h c := MkConsumer (file c) (permissions c) (priority c) (prefetch c) (db c) (pipe c)
  (listeners c) (active c) (delayed c) (loops c) (dloops c) q h.

(** ** Construction *)

(** Every pair of the [processing] bucket is put back into [push]. *)
Fixpoint recover_loop (op : string) (l : list (string * bytes)) (tx : Tx) : Tx * option error :=
  match l with
  | [] => (tx, None)
  | (k, v) :: l' => match Put PushBucket k v tx with
                    | (tx, None) => recover_loop op l' tx
                    | (tx, Some e) => (tx, Some (EOp op e))
                    end
  end.

Definition init_tx (tx : Tx) : Tx * option error :=
  let op := "init_boltdb_jobs" in
  let upOp := EOp op (EStr "boltdb_plugin_update") in
  match CreateBucketIfNotExists DelayBucket tx with
  | (tx, Some _) => (tx, Some upOp)
  | (tx, None) =>
  match CreateBucketIfNotExists PushBucket tx with
  | (tx, Some _) => (tx, Some upOp)
  | (tx, None) =>
  match CreateBucketIfNotExists InQueueBucket tx with
  | (tx, Some _) => (tx, Some upOp)
  | (tx, None) => recover_loop op (entries InQueueBucket tx) tx
  end end end.

Definition new_consumer f p pr pre d : consumer :=
  MkConsumer f p pr pre d None 0 0 0 0 0 [] [].

(** [unmarshal key cfg]: the configuration after [cfg.UnmarshalKey(key, &cfg)];
    [Open file mode]: [bolt.Open]. *)
Definition NewBoltDBJobs (has : string → bool) (unmarshal : string → config → res config)
    (Open : string → Z → DB + error) (configKey : string) : res consumer :=
  let op := "init_boltdb_jobs" in
  if negb (has configKey)
  then Err (EOp op (EErrorf "no configuration by provided key: %s" [configKey]))
  else if negb (has PluginName) then Err (EOp op (EStr "no global boltdb configuration")) else
  cfg ← wrap_err op (unmarshal PluginName zero_config);
  cfg ← wrap_err op (unmarshal configKey cfg);
  let cfg := InitDefaults cfg in
  match Open (cfg_File cfg) (cfg_Permissions cfg) with
  | inr e => Err (EOp op e)
  | inl d =>
      match Update init_tx d with
      | (_, Some e) => Err (EOp op e)
      | (d, None) => Ok (new_consumer (cfg_File cfg) (cfg_Permissions cfg)
                           (cfg_Priority cfg) (cfg_Prefetch cfg) d)
      end
  end.

(** The configuration is passed to [UnmarshalKey] by value: it is checked, and
    what was read is not stored.  [pfile], [pprio], [pprefetch]:
    [pipeline.String(file, rrDB)], [pipeline.Priority()] and
    [pipeline.Int(prefetch, 1000)]. *)
Definition FromPipeline (has : string → bool) (unmarshal : string → config → res config)
    (Open : string → Z → DB + error) (pfile : string) (pprio pprefetch : Z) : res consumer :=
  let op := "init_boltdb_jobs" in
  if negb (has PluginName) then Err (EOp op (EStr "no global boltdb configuration")) else
  _ ← wrap_err op (unmarshal PluginName zero_config);
  let conf := InitDefaults zero_config in
  match Open pfile (cfg_Permissions conf) with
  | inr e => Err (EOp op e)
  | inl d =>
      match Update init_tx d with
      | (_, Some e) => Err (EOp op e)
      | (d, None) => Ok (new_consumer pfile (cfg_Permissions conf) pprio pprefetch d)
      end
  end.

(** ** Pushing *)

(** [time.Now().UTC().Add(time.Second * time.Duration(delay)).Format(time.RFC3339)] *)
Definition delay_key (now delay : Z) : string := Format (now + i64 (delay * 10 ^ 9)).

(** The body of the transaction: what it writes, and which counter it raised
    (counters are not rolled back). *)
Inductive counted := CNone | CActive | CDelayed.

Definition is_inl {A B} (x : A + B) : bool := match x with inl _ => true | inr _ => false end.

Definition push_tx (now : Z) (item : Item) (tx : Tx) : Tx * option error * counted :=
  let op := "boltdb_jobs_push" in
  match gob_enc item with
  | inr e => (tx, Some (EOp op e), CNone)
  | inl value =>
      if 0 <? it_Delay item then
        match Put DelayBucket (delay_key now (it_Delay item)) value tx with
        | (tx, Some e) => (tx, Some (EOp op e), CNone)
        | (tx, None) => (tx, None, CDelayed)
        end
      else
        match Put PushBucket (it_Ident item) value tx with
        | (tx, Some e) => (tx, Some (EOp op e), CNone)
        | (tx, None) => (tx, None, CActive)
        end
  end.

Definition count (k : counted) (c : consumer) : consumer :=
  match k with
  | CNone => c
  | CActive => with_counts (u64_inc (active c)) (delayed c) c
  | CDelayed => with_counts (active c) (u64_inc (delayed c)) c
  end.

(** [tx.Bucket] answers nil for a bucket that is missing, and a call on it
    panics. *)
Definition no_bucket (b : string) (tx : Tx) : bool := negb (bucket_exists b tx).

Definition push_bucket (item : Item) : string := if 0 <? it_Delay item then DelayBucket else PushBucket.

Definition Push (now : Z) (jb : Job) (c : consumer) : consumer * res unit :=
  let op := "boltdb_jobs_push" in
  match Begin (db c) with
  | inr e => (c, Err (EOp op e))
  | inl tx =>
      if is_inl (gob_enc (fromJob jb)) && no_bucket (push_bucket (fromJob jb)) tx then (c, Panic) else
      match push_tx now (fromJob jb) tx with
      | (_, Some e, k) => (count k c, Err (EOp op e))
      | (tx, None, k) =>
          match Commit tx (db c) with
          | (d, None) => (with_db d (count k c), Ok tt)
          | (d, Some e) => (with_db d (count k c), Err (EOp op e))
          end
      end
  end.

(** ** Ticks of the goroutines *)

Definition listener_tick (c : consumer) : consumer * res unit :=
  if u64 (prefetch c) <? active c then (c, Ok tt) else
  match Begin (db c) with
  | inr _ => (c, Ok tt)
  | inl tx =>
      if no_bucket PushBucket tx then (c, Panic) else
      match entries PushBucket tx with
      | [] => (with_db (Commit tx (db c)).1 c, Ok tt)
      | (k, v) :: _ =>
          match gob_dec v with
          | inr _ => (c, Ok tt)
          | inl item =>
              let item := if it_Priority item =? 0 then item_priority (priority c) item else item in
              if no_bucket InQueueBucket tx then (c, Panic) else
              match Put InQueueBucket (it_Ident item) v tx with
              | (_, Some _) => (c, Ok tt)
              | (tx, None) =>
                  match Del PushBucket k tx with
                  | (_, Some _) => (c, Ok tt)
                  | (tx, None) =>
                      match Commit tx (db c) with
                      | (d, Some _) => (with_db d c, Ok tt)
                      | (d, None) =>
                          let c := with_db d c in
                          (with_queue (pq c ++ [item]) (held c) c, Ok tt)
                      end
                  end
              end
          end
      end
  end.

(** The loop over the pairs the cursor returns.  [None]: it panics, since after
    a roll back the cursor is asked for the next pair of a closed transaction,
    or since a bucket is missing; items inserted before stay in the priority
    queue. *)
Fixpoint delayed_loop (prio : Z) (endDate : string) (l : list (string * bytes)) (tx : Tx)
    (q : list Item) : option Tx * list Item :=
  match l with
  | [] => (Some tx, q)
  | (k, v) :: l' =>
      match String.compare k endDate with
      | Gt => (Some tx, q)
      | _ =>
          match gob_dec v with
          | inr _ => (None, q)
          | inl item =>
              let item := if it_Priority item =? 0 then item_priority prio item else item in
              if no_bucket InQueueBucket tx then (None, q) else
              match Put InQueueBucket (it_Ident item) v tx with
              | (_, Some _) => (None, q)
              | (tx, None) =>
                  match Del DelayBucket k tx with
                  | (_, Some _) => (None, q)
                  | (tx, None) => delayed_loop prio endDate l' tx (q ++ [item])
                  end
              end
          end
      end
  end.

Definition startDate : string := Format (date_ns 1990 1 1 0 0 0 0).

(** [visited tx]: the pairs [cursor.Seek(startDate)] and [cursor.Next()] return
    while the loop deletes them; bbolt does not promise that none is skipped. *)
Definition delayed_tick (visited : Tx → list (string * bytes)) (now : Z) (c : consumer)
    : consumer * res unit :=
  match Begin (db c) with
  | inr _ => (c, Ok tt)
  | inl tx =>
      if no_bucket DelayBucket tx then (c, Panic) else
      match delayed_loop (priority c) (Format now) (visited tx) tx (pq c) with
      | (None, q) => (with_queue q (held c) c, Panic)
      | (Some tx, q) =>
          let c := with_queue q (held c) c in
          (with_db (Commit tx (db c)).1 c, Ok tt)
      end
  end.

(** ** The job *)

Definition Ack (i : Item) (c : consumer) : consumer * res unit :=
  let op := "boltdb_item_ack" in
  match Begin (db c) with
  | inr _ => (c, Err (EOp op (EStr "can't open transaction")))
  | inl tx =>
      if no_bucket InQueueBucket tx then (c, Panic) else
      match Del InQueueBucket (it_Ident i) tx with
      | (_, Some e) => (c, Err (EOp op e))
      | (tx, None) =>
          let c := if 0 <? it_Delay i then with_counts (active c) (u64_dec (delayed c)) c
                   else with_counts (u64_dec (active c)) (delayed c) c in
          match Commit tx (db c) with
          | (d, None) => (with_db d c, Ok tt)
          | (d, Some e) => (with_db d c, Err e)
          end
      end
  end.

(** [Get] answers nil for a missing key, which [Put] stores as an empty value. *)
Definition Nack (i : Item) (c : consumer) : consumer * res unit :=
  let op := "boltdb_item_ack" in
  match Begin (db c) with
  | inr _ => (c, Err (EOp op (EStr "can't open transaction")))
  | inl tx =>
      if no_bucket InQueueBucket tx || no_bucket PushBucket tx then (c, Panic) else
      let v := default "" (Get InQueueBucket (it_Ident i) tx) in
      match Put PushBucket (it_Ident i) v tx with
      | (_, Some e) => (c, Err (EOp op e))
      | (tx, None) =>
          match Del InQueueBucket (it_Ident i) tx with
          | (_, Some e) => (c, Err (EOp op e))
          | (tx, None) =>
              match Commit tx (db c) with
              | (d, None) => (with_db d c, Ok tt)
              | (d, Some e) => (with_db d c, Err e)
              end
          end
      end
  end.

(** [i.rollback(err, tx)]; the text of the wrapped error is not kept. *)
Definition commit_error : error := EErrorf "transaction commit error: %v" [].

Definition Requeue_ (now : Z) (h : headers) (delay : Z) (i : Item) (c : consumer)
    : consumer * res unit :=
  let op := "boltdb_item_requeue" in
  let i := item_requeued h delay i in
  match Begin (db c) with
  | inr e => (c, Err (EOp op e))
  | inl tx =>
      if no_bucket InQueueBucket tx then (c, Panic) else
      match Del InQueueBucket (it_Ident i) tx with
      | (_, Some e) => (c, Err (EOp op commit_error))
      | (tx, None) =>
          match gob_enc i with
          | inr e => (c, Err (EOp op commit_error))
          | inl val =>
              let '(b, k) := if 0 <? delay then (DelayBucket, delay_key now delay)
                             else (PushBucket, it_Ident i) in
              if no_bucket b tx then (c, Panic) else
              match Put b k val tx with
              | (_, Some e) => (c, Err (EOp op commit_error))
              | (tx, None) =>
                  match Commit tx (db c) with
                  | (d, None) => (with_db d c, Ok tt)
                  | (d, Some e) => (with_db d c, Err e)
                  end
              end
          end
      end
  end.

(** ** Control *)

Definition Register (name driver : string) (c : consumer) : consumer :=
  MkConsumer (file c) (permissions c) (priority c) (prefetch c) (db c) (Some (name, driver))
    (listeners c) (active c) (delayed c) (loops c) (dloops c) (pq c) (held c).

Definition start_loops (c : consumer) : consumer :=
  with_loops (u32_inc (listeners c)) (S (loops c)) (S (dloops c)) c.

(** There is no guard: a second [Run] starts two more goroutines. *)
Definition Run (name : string) (c : consumer) : consumer * res unit :=
  match pipe c with
  | None => (c, Panic)
  | Some (n, _) =>
      if negb (String.eqb n name)
      then (c, Err (EOp "boltdb_run" (EErrorf "no such pipeline registered: %s" [n])))
      else (start_loops c, Ok tt)
  end.

(** [tl]: how many of the two stop signals were taken by [listener] goroutines.
    Without receivers the call waits for ever ([None]). *)
Definition stop_two (tl : nat) (c : consumer) : option consumer :=
  if (tl <=? 2)%nat && (tl <=? loops c)%nat && (2 - tl <=? dloops c)%nat
  then Some (with_loops (listeners c) (loops c - tl) (dloops c - (2 - tl)) c) else None.

Definition Pause (tl : nat) (c : consumer) : option consumer :=
  _ ← pipe c;
  if listeners c =? 0 then Some c else
  c ← stop_two tl c;
  Some (with_loops (u32_dec (listeners c)) (loops c) (dloops c) c).

Definition Resume (c : consumer) : option consumer :=
  _ ← pipe c;
  if listeners c =? 1 then Some c else Some (start_loops c).

Definition Stop (tl : nat) (c : consumer) : option (consumer * option error) :=
  c ← (if 0 <? listeners c then stop_two tl c else Some c);
  _ ← pipe c;
  let '(d, e) := Close (db c) in
  Some (with_db d c, e).

Definition toBool (r : Z) : bool := 0 <? r.

Definition State_ (c : consumer) : res State :=
  match pipe c with
  | None => Panic
  | Some (n, dr) =>
      Ok (MkState n dr PushBucket (i64 (active c)) (i64 (delayed c)) 0 (toBool (listeners c)))
  end.

(** ** Actions *)

Inductive action :=
  | APush (now : Z) (jb : Job)
  | ATick
  | ADelayedTick (visited : Tx → list (string * bytes)) (now : Z)
  | AExtract (n : nat)
  | AAck (n : nat) | ANack (n : nat) | ARequeue (now : Z) (h : headers) (delay : Z) (n : nat)
  | ARegister (name driver : string) | ARun (name : string) | APause (tl : nat) | AResume
  | ARestart.

Definition release (n : nat) (c : consumer) : consumer := with_queue (pq c) (delete n (held c)) c.

(** The process ends at any point and the pipeline is opened again on the same
    database; a start that fails is tried again. *)
Definition restart (c : consumer) : option consumer :=
  match Update init_tx (db c) with
  | (d, None) => Some (new_consumer (file c) (permissions c) (priority c) (prefetch c) d)
  | (_, Some _) => None
  end.

Definition exec (a : action) (c : consumer) : option consumer :=
  match a with
  | APush now jb => Some (Push now jb c).1
  | ATick => match loops c with O => None | S _ => Some (listener_tick c).1 end
  | ADelayedTick visited now =>
      match dloops c with O => None | S _ => Some (delayed_tick visited now c).1 end
  | AExtract n => i ← pq c !! n; Some (with_queue (delete n (pq c)) (held c ++ [i]) c)
  | AAck n => i ← held c !! n; Some (Ack i (release n c)).1
  | ANack n => i ← held c !! n; Some (Nack i (release n c)).1
  | ARequeue now h d n => i ← held c !! n; Some (Requeue_ now h d i (release n c)).1
  | ARegister name driver => Some (Register name driver c)
  | ARun name => Some (Run name c).1
  | APause tl => Pause tl c
  | AResume => Resume c
  | ARestart => restart c
  end.

Fixpoint run (l : list action) (c : consumer) : option consumer :=
  match l with
  | [] => Some c
  | a :: l' => c ← exec a c; run l' c
  end.

(** ** The buckets of a database and the jobs they hold *)

Record view (m : buckets) (P Q D : gmap string bytes) : Prop := MkView {
  view_push : m !! PushBucket = Some P;
  view_inq : m !! InQueueBucket = Some Q;
  view_delay : m !! DelayBucket = Some D
}.

(** A waiting or running job is stored under its own identifier, and every
    stored value is an encoded item. *)
Definition own_ids (M : gmap string bytes) : Prop :=
  ∀ k v, M !! k = Some v → ∃ i, gob_dec v = inl i ∧ it_Ident i = k.
Definition decodes (M : gmap string bytes) : Prop :=
  ∀ k v, M !! k = Some v → ∃ i, gob_dec v = inl i.

Definition wf (P Q D : gmap string bytes) : Prop := own_ids P ∧ own_ids Q ∧ decodes D.

Definition stored (id : string) (P Q D : gmap string bytes) : Prop :=
  is_Some (P !! id) ∨ is_Some (Q !! id) ∨
  ∃ k v i, D !! k = Some v ∧ gob_dec v = inl i ∧ it_Ident i = id.

(** The database is well formed and holds the job. *)
Definition keeps (id : string) (m : buckets) : Prop :=
  ∃ P Q D, view m P Q D ∧ wf P Q D ∧ stored id P Q D.

Lemma own_ids_insert M k v i :
  own_ids M → gob_dec v = inl i → it_Ident i = k → own_ids (<[k := v]> M).
Proof. intros HM Hd Hi k' v' [[<- <-]|[_ H]]%lookup_insert_Some; eauto. Qed.
Lemma own_ids_delete M k : own_ids M → own_ids (delete k M).
Proof. intros HM k' v' [_ H]%lookup_delete_Some. eauto. Qed.
Lemma decodes_insert M k v i : decodes M → gob_dec v = inl i → decodes (<[k := v]> M).
Proof. intros HM Hd k' v' [[<- <-]|[_ H]]%lookup_insert_Some; eauto. Qed.
Lemma decodes_delete M k : decodes M → decodes (delete k M).
Proof. intros HM k' v' [_ H]%lookup_delete_Some. eauto. Qed.

Lemma view_put_push m P Q D k v :
  view m P Q D → view (alter (<[k := v]>) PushBucket m) (<[k := v]> P) Q D.
Proof. intros []. by split; simplify_map_eq. Qed.
Lemma view_put_inq m P Q D k v :
  view m P Q D → view (alter (<[k := v]>) InQueueBucket m) P (<[k := v]> Q) D.
Proof. intros []. by split; simplify_map_eq. Qed.
Lemma view_put_delay m P Q D k v :
  view m P Q D → view (alter (<[k := v]>) DelayBucket m) P Q (<[k := v]> D).
Proof. intros []. by split; simplify_map_eq. Qed.
Lemma view_del_push m P Q D k :
  view m P Q D → view (alter (delete k) PushBucket m) (delete k P) Q D.
Proof. intros []. by split; simplify_map_eq. Qed.
Lemma view_del_inq m P Q D k :
  view m P Q D → view (alter (delete k) InQueueBucket m) P (delete k Q) D.
Proof. intros []. by split; simplify_map_eq. Qed.
Lemma view_del_delay m P Q D k :
  view m P Q D → view (alter (delete k) DelayBucket m) P Q (delete k D).
Proof. intros []. by split; simplify_map_eq. Qed.

Lemma view_fun m P Q D P' Q' D' :
  view m P Q D → view m P' Q' D' → P' = P ∧ Q' = Q ∧ D' = D.
Proof. intros [] []. by simplify_map_eq. Qed.

(** How [stored] follows a job through the moves of the driver. *)
Lemma stored_put_push id k v P Q D : stored id P Q D → stored id (<[k := v]> P) Q D.
Proof. intros [H|H]; [left; by apply lookup_insert_is_Some; destruct (decide (k = id)); auto|by right]. Qed.
Lemma stored_put_inq id k v P Q D : stored id P Q D → stored id P (<[k := v]> Q) D.
Proof.
  intros [H|[H|H]]; [by left| |by do 2 right].
  right; left. apply lookup_insert_is_Some. destruct (decide (k = id)); auto.
Qed.
Lemma stored_put_delay id k v P Q D :
  D !! k = None → stored id P Q D → stored id P Q (<[k := v]> D).
Proof.
  intros Hk [H|[H|(k' & v' & i & H & Hd & Hi)]]; [by left|by right; left|].
  do 2 right. exists k', v', i. split_and!; [|done..]. by rewrite lookup_insert_ne by congruence.
Qed.
Lemma stored_del_inq id k P Q D :
  (k = id → stored id P (delete k Q) D) → stored id P Q D → stored id P (delete k Q) D.
Proof.
  intros Hk. destruct (decide (k = id)) as [->|Hne]; [auto|].
  intros [H|[H|H]]; [by left| |by do 2 right]. right; left. by rewrite lookup_delete_ne.
Qed.
Lemma stored_del_push id k P Q D :
  is_Some (Q !! k) → stored id P Q D → stored id (delete k P) Q D.
Proof.
  intros Hk [H|H]; [|by right]. destruct (decide (k = id)) as [->|Hne]; [by right; left|].
  left. by rewrite lookup_delete_ne.
Qed.
Lemma stored_del_delay id k v i P Q D :
  (∀ v', D !! k = Some v' → v' = v) → gob_dec v = inl i → is_Some (Q !! it_Ident i) →
  stored id P Q D → stored id P Q (delete k D).
Proof.
  intros Hv Hd HQ [H|[H|(k' & v' & i' & H & Hd' & Hi)]]; [by left|by right; left|].
  destruct (decide (k = k')) as [->|Hne].
  - specialize (Hv v' H). subst v'. rewrite Hd in Hd'. simplify_eq. right; left. by rewrite <- ?Hi.
  - do 2 right. exists k', v', i'. split_and!; [|done..]. by rewrite lookup_delete_ne.
Qed.

Context {BL : BoltLaws}.

Lemma keeps_commit id tx d :
  keeps id (db_pairs d) → keeps id (tx_pairs tx) → keeps id (db_pairs (Commit tx d).1).
Proof.
  intros Hd Htx. destruct (Commit tx d) as [d' [e|]] eqn:E; simpl.
  - by rewrite (Commit_error _ _ _ _ E).
  - by rewrite (Commit_pairs _ _ _ E).
Qed.

(** The end of a transaction body: [H] says that what was written keeps the job,
    and every outcome of the commit is looked at. *)
Ltac commit_keeps id tx d Hk H :=
  let Hc := fresh in
  pose proof (keeps_commit id tx d Hk H) as Hc; by destruct (Commit tx d) as [? []].

Create HintDb buckets.
#[local] Hint Resolve own_ids_insert own_ids_delete decodes_insert decodes_delete
  stored_put_push stored_put_inq : buckets.

Lemma keeps_tx id c tx :
  Begin (db c) = inl tx → keeps id (db_pairs (db c)) → keeps id (tx_pairs tx).
Proof. intros Hb. by rewrite (Begin_pairs _ _ Hb). Qed.

Lemma entries_view tx P Q D k v :
  view (tx_pairs tx) P Q D → (k, v) ∈ entries PushBucket tx → P !! k = Some v.
Proof.
  intros Hv. rewrite (entries_pairs _ _ _ (view_push _ _ _ _ Hv)). by rewrite elem_of_map_to_list.
Qed.

Lemma Del_pairs b k tx tx' r m :
  tx_pairs tx !! b = Some m → Del b k tx = (tx', r) →
  r = None ∧ tx_pairs tx' = alter (delete k) b (tx_pairs tx).
Proof. intros Hm Hd. destruct (Del_ok b k tx m Hm) as (t & Ht & Hp).
  rewrite Ht in Hd. by injection Hd as <- <-. Qed.

Lemma defaulted_ident p i :
  it_Ident (if it_Priority i =? 0 then item_priority p i else i) = it_Ident i.
Proof. by destruct (it_Priority i =? 0). Qed.

Lemma listener_tick_keeps id c :
  keeps id (db_pairs (db c)) → keeps id (db_pairs (db (listener_tick c).1)).
Proof.
  intros Hk. unfold listener_tick. destruct (_ <? _); [done|].
  destruct (Begin (db c)) as [tx|e] eqn:Eb; [|done]. destruct (no_bucket _ _); [done|].
  pose proof (keeps_tx _ _ _ Eb Hk) as Ht. destruct (entries PushBucket tx) as [|[k v] l] eqn:Ee.
  { simpl. by apply keeps_commit. }
  destruct Ht as (P & Q & D & Hv & (HP & HQ & HD) & Hs).
  assert (Hkv : P !! k = Some v) by (apply (entries_view tx P Q D k v Hv); rewrite Ee; left).
  destruct (HP _ _ Hkv) as (i & Hi & Hid). rewrite Hi. cbv zeta.
  rewrite defaulted_ident, Hid. destruct (no_bucket InQueueBucket tx); [done|].
  destruct (Put InQueueBucket k v tx) as [tx1 [e|]] eqn:Ep; [done|].
  apply Put_pairs in Ep. pose proof (view_put_inq _ _ _ _ k v Hv) as Hv1. rewrite <- Ep in Hv1.
  destruct (Del PushBucket k tx1) as [tx2 r] eqn:Ed.
  apply (Del_pairs _ _ _ _ _ _ (view_push _ _ _ _ Hv1)) in Ed as [-> Ed].
  pose proof (view_del_push _ _ _ _ k Hv1) as Hv2. rewrite <- Ed in Hv2.
  assert (Hk2 : keeps id (tx_pairs tx2)).
  { do 3 eexists. split; [exact Hv2|]. split.
    - split_and!; eauto with buckets.
    - apply stored_del_push; [by rewrite lookup_insert_eq|]. by apply stored_put_inq. }
  commit_keeps id tx2 (db c) Hk Hk2.
Qed.

(** The writes of one round of the delayed loop. *)
Lemma move_view id k v tx tx1 tx2 r P Q D :
  view (tx_pairs tx) P Q D → Put InQueueBucket id v tx = (tx1, None) →
  Del DelayBucket k tx1 = (tx2, r) →
  r = None ∧ view (tx_pairs tx2) P (<[id := v]> Q) (delete k D).
Proof.
  intros Hv Ep%Put_pairs Ed. pose proof (view_put_inq _ _ _ _ id v Hv) as Hv1. rewrite <- Ep in Hv1.
  apply (Del_pairs _ _ _ _ _ _ (view_delay _ _ _ _ Hv1)) in Ed as [-> Ed].
  split; [done|]. rewrite Ed. by apply view_del_delay.
Qed.

(** The pairs a cursor returns are pairs of its bucket. *)
Definition honest (visited : Tx → list (string * bytes)) : Prop :=
  ∀ tx D k v, tx_pairs tx !! DelayBucket = Some D → (k, v) ∈ visited tx → D !! k = Some v.

Lemma delayed_loop_keeps id prio endDate l tx q tx' q' P Q D D0 :
  delayed_loop prio endDate l tx q = (Some tx', q') →
  (∀ k v, (k, v) ∈ l → D0 !! k = Some v) → D ⊆ D0 → decodes D0 →
  view (tx_pairs tx) P Q D → wf P Q D → stored id P Q D → keeps id (tx_pairs tx').
Proof.
  revert tx q Q D. induction l as [|[k v] l IH]; intros tx q Q D Hl Hin Hsub Hdec Hv Hwf Hs; simpl in Hl.
  { simplify_eq. by exists P, Q, D. }
  assert (Hdone : (Some tx, q) = (Some tx', q') → keeps id (tx_pairs tx'))
    by (intros; simplify_eq; by exists P, Q, D).
  assert (Hk0 : D0 !! k = Some v) by (apply Hin; left).
  destruct (Hdec _ _ Hk0) as (i & Hi). rewrite Hi in Hl.
  assert (Hstep : (let item := if it_Priority i =? 0 then item_priority prio i else i in
     if no_bucket InQueueBucket tx then (None, q) else
     match Put InQueueBucket (it_Ident item) v tx with
     | (_, Some _) => (None, q)
     | (tx, None) => match Del DelayBucket k tx with
                     | (_, Some _) => (None, q)
                     | (tx, None) => delayed_loop prio endDate l tx (q ++ [item])
                     end end) = (Some tx', q') → keeps id (tx_pairs tx')).
  { clear Hl. cbv zeta. intros Hl.
    rewrite defaulted_ident in Hl. destruct (no_bucket InQueueBucket tx); [done|].
    destruct Hwf as (HP & HQ & HD).
    destruct (Put InQueueBucket (it_Ident i) v tx) as [tx1 [e|]] eqn:Ep; [done|].
    destruct (Del DelayBucket k tx1) as [tx2 r] eqn:Ed.
    destruct (move_view _ _ _ _ _ _ _ _ _ _ Hv Ep Ed) as [-> Hv2].
    eapply IH; [exact Hl|intros; apply Hin; by right|etrans; [apply delete_subseteq|done]|done|exact Hv2| |].
    - split_and!; eauto with buckets.
    - eapply (stored_del_delay id k v i).
      + intros v' Hv'. pose proof (lookup_weaken _ _ _ _ Hv' Hsub). congruence.
      + done.
      + by rewrite lookup_insert_eq.
      + by apply stored_put_inq. }
  destruct (String.compare k endDate); [exact (Hstep Hl)|exact (Hstep Hl)|exact (Hdone Hl)].
Qed.

Lemma delayed_tick_keeps id visited now c :
  honest visited → keeps id (db_pairs (db c)) →
  keeps id (db_pairs (db (delayed_tick visited now c).1)).
Proof.
  intros Hh Hk. unfold delayed_tick. destruct (Begin (db c)) as [tx|e] eqn:Eb; [|done].
  destruct (no_bucket _ _); [done|]. pose proof (keeps_tx _ _ _ Eb Hk) as (P & Q & D & Hv & Hwf & Hs).
  destruct (delayed_loop _ _ _ _ _) as [[tx'|] q] eqn:El; [|done].
  apply (keeps_commit id tx' (db c) Hk).
  eapply delayed_loop_keeps; [exact El| |reflexivity| |exact Hv|done|done].
  - intros k v. by apply Hh, Hv.
  - by destruct Hwf as (_ & _ & ?).
Qed.

(** A delayed job is put under a key no other delayed job has. *)
Definition fresh_key (now delay : Z) (m : buckets) : Prop :=
  0 < delay → ∀ D, m !! DelayBucket = Some D → D !! delay_key now delay = None.

Lemma gob_inl i v : gob_enc i = inl v → gob_dec v = inl i.
Proof. apply gob_round_trip. Qed.

(** Encoding an item and storing it where [Push] and [Requeue] do. *)
Lemma put_item_keeps id now i v tx tx' P Q D :
  gob_enc i = inl v → view (tx_pairs tx) P Q D → wf P Q D →
  (it_Ident i = id ∨ stored id P Q D ∧ fresh_key now (it_Delay i) (tx_pairs tx)) →
  (let '(b, k) := if 0 <? it_Delay i then (DelayBucket, delay_key now (it_Delay i))
                  else (PushBucket, it_Ident i) in Put b k v tx) = (tx', None) →
  keeps id (tx_pairs tx').
Proof.
  intros He%gob_inl Hv (HP & HQ & HD) Hs. destruct (Z.ltb_spec 0 (it_Delay i)) as [Hd|Hd];
    intros ->%Put_pairs.
  - exists P, Q, (<[delay_key now (it_Delay i) := v]> D).
    split; [by apply view_put_delay|]. split; [split_and!; eauto with buckets|].
    destruct Hs as [<-|[Hs Hf]].
    + do 2 right. exists (delay_key now (it_Delay i)), v, i. by rewrite lookup_insert_eq.
    + apply stored_put_delay; [|done]. apply (Hf Hd), Hv.
  - exists (<[it_Ident i := v]> P), Q, D.
    split; [by apply view_put_push|]. split; [split_and!; eauto with buckets|].
    destruct Hs as [<-|[Hs _]]; [left; by rewrite lookup_insert_eq|by apply stored_put_push].
Qed.

Lemma push_tx_keeps id now i tx tx' k P Q D :
  push_tx now i tx = (tx', None, k) → view (tx_pairs tx) P Q D → wf P Q D →
  (it_Ident i = id ∨ stored id P Q D ∧ fresh_key now (it_Delay i) (tx_pairs tx)) → keeps id (tx_pairs tx').
Proof.
  intros Hp Hv Hwf Hs. unfold push_tx in Hp. destruct (gob_enc i) as [v|e] eqn:Ev; [|done].
  eapply (put_item_keeps id now i v tx tx'); [done|exact Hv|done|done|].
  destruct (0 <? it_Delay i).
  - by destruct (Put DelayBucket _ v tx) as [? []]; simplify_eq.
  - by destruct (Put PushBucket _ v tx) as [? []]; simplify_eq.
Qed.

(** An accepted job is in the database. *)
Lemma Push_stores now jb c c' P Q D :
  Push now jb c = (c', Ok tt) → view (db_pairs (db c)) P Q D → wf P Q D →
  keeps (jb_Ident jb) (db_pairs (db c')).
Proof.
  intros Hp Hv Hwf. unfold Push in Hp. destruct (Begin (db c)) as [tx|e] eqn:Eb; [|done].
  destruct (_ && _); [done|]. rewrite <- (Begin_pairs _ _ Eb) in Hv.
  destruct (push_tx now (fromJob jb) tx) as [[tx' [e|]] k] eqn:Ep; [done|].
  destruct (Commit tx' (db c)) as [d' [e|]] eqn:Ec; [done|]. injection Hp as <-. simpl.
  rewrite (Commit_pairs _ _ _ Ec). eapply push_tx_keeps; [exact Ep|exact Hv|done|by left].
Qed.

Lemma Push_keeps id now jb c :
  fresh_key now (jb_Delay jb) (db_pairs (db c)) → keeps id (db_pairs (db c)) →
  keeps id (db_pairs (db (Push now jb c).1)).
Proof.
  intros Hf Hk. unfold Push. destruct (Begin (db c)) as [tx|e] eqn:Eb; [|done].
  destruct (_ && _); [done|]. pose proof (keeps_tx _ _ _ Eb Hk) as (P & Q & D & Hv & Hwf & Hs).
  rewrite <- (Begin_pairs _ _ Eb) in Hf.
  destruct (push_tx now (fromJob jb) tx) as [[tx' [e|]] k] eqn:Ep; [by destruct k|].
  assert (Hk' : keeps id (tx_pairs tx')) by (eapply push_tx_keeps; [exact Ep|exact Hv|done|by right]).
  commit_keeps id tx' (db c) Hk Hk'.
Qed.

Lemma Ack_keeps id i c :
  it_Ident i ≠ id → keeps id (db_pairs (db c)) → keeps id (db_pairs (db (Ack i c).1)).
Proof.
  intros Hne Hk. unfold Ack. destruct (Begin (db c)) as [tx|e] eqn:Eb; [|done].
  destruct (no_bucket _ _); [done|]. pose proof (keeps_tx _ _ _ Eb Hk) as (P & Q & D & Hv & (HP & HQ & HD) & Hs).
  destruct (Del InQueueBucket (it_Ident i) tx) as [tx1 r] eqn:Ed.
  apply (Del_pairs _ _ _ _ _ _ (view_inq _ _ _ _ Hv)) in Ed as [-> Ed].
  assert (Hk1 : keeps id (tx_pairs tx1)).
  { rewrite Ed. exists P, (delete (it_Ident i) Q), D. split; [by apply view_del_inq|].
    split; [split_and!; auto with buckets|]. by apply stored_del_inq. }
  destruct (0 <? it_Delay i); simpl; commit_keeps id tx1 (db c) Hk Hk1.
Qed.

(** The job is in the [processing] bucket. *)
Definition in_processing (id : string) (m : buckets) : Prop :=
  ∀ Q, m !! InQueueBucket = Some Q → is_Some (Q !! id).

Lemma Nack_keeps id i c :
  in_processing (it_Ident i) (db_pairs (db c)) →
  keeps id (db_pairs (db c)) → keeps id (db_pairs (db (Nack i c).1)).
Proof.
  intros Hin Hk. unfold Nack. destruct (Begin (db c)) as [tx|e] eqn:Eb; [|done].
  rewrite <- (Begin_pairs _ _ Eb) in Hin.
  destruct (_ || _); [done|]. pose proof (keeps_tx _ _ _ Eb Hk) as (P & Q & D & Hv & (HP & HQ & HD) & Hs).
  destruct (Hin Q (view_inq _ _ _ _ Hv)) as [v Hq].
  rewrite (Get_pairs _ _ _ _ (view_inq _ _ _ _ Hv)), Hq. simpl.
  destruct (HQ _ _ Hq) as (i' & Hd & Hi').
  destruct (Put PushBucket (it_Ident i) v tx) as [tx1 [e|]] eqn:Ep; [done|].
  apply Put_pairs in Ep. pose proof (view_put_push _ _ _ _ (it_Ident i) v Hv) as Hv1. rewrite <- Ep in Hv1.
  destruct (Del InQueueBucket (it_Ident i) tx1) as [tx2 r] eqn:Ed.
  apply (Del_pairs _ _ _ _ _ _ (view_inq _ _ _ _ Hv1)) in Ed as [-> Ed].
  pose proof (view_del_inq _ _ _ _ (it_Ident i) Hv1) as Hv2. rewrite <- Ed in Hv2.
  assert (Hk2 : keeps id (tx_pairs tx2)).
  { do 3 eexists. split; [exact Hv2|].
    split; [split_and!; eauto with buckets|].
    apply stored_del_inq; [|by apply stored_put_push].
    intros <-. left. by rewrite lookup_insert_eq. }
  commit_keeps id tx2 (db c) Hk Hk2.
Qed.

Lemma Requeue_keeps id now h delay i c :
  fresh_key now delay (db_pairs (db c)) →
  keeps id (db_pairs (db c)) → keeps id (db_pairs (db (Requeue_ now h delay i c).1)).
Proof.
  intros Hf Hk. unfold Requeue_. cbv zeta. destruct (Begin (db c)) as [tx|e] eqn:Eb; [|done].
  rewrite <- (Begin_pairs _ _ Eb) in Hf.
  destruct (no_bucket _ _); [done|]. pose proof (keeps_tx _ _ _ Eb Hk) as (P & Q & D & Hv & (HP & HQ & HD) & Hs).
  set (i' := item_requeued h delay i).
  destruct (Del InQueueBucket (it_Ident i') tx) as [tx1 r] eqn:Ed.
  apply (Del_pairs _ _ _ _ _ _ (view_inq _ _ _ _ Hv)) in Ed as [-> Ed].
  pose proof (view_del_inq _ _ _ _ (it_Ident i') Hv) as Hv1. rewrite <- Ed in Hv1.
  destruct (gob_enc i') as [v|e] eqn:Ee; [|done].
  destruct (if 0 <? delay then _ else _) as [b k] eqn:Ebk.
  destruct (no_bucket b tx1); [done|].
  destruct (Put b k v tx1) as [tx2 [e|]] eqn:Ep; [done|].
  assert (Hk2 : keeps id (tx_pairs tx2)).
  { eapply (put_item_keeps id now i' v tx1 tx2); [done|exact Hv1| | |].
    - split_and!; auto with buckets.
    - destruct (decide (it_Ident i' = id)); [by left|right]. split; [by apply stored_del_inq|].
      intros Hd D' HD'. rewrite (view_delay _ _ _ _ Hv1) in HD'. simplify_eq. apply (Hf Hd), Hv.
    - change (it_Delay i') with delay. by rewrite Ebk. }
  commit_keeps id tx2 (db c) Hk Hk2.
Qed.

(** ** Opening the pipeline again *)

Lemma create_view b tx tx' P Q D :
  CreateBucketIfNotExists b tx = (tx', None) → b ∈ [PushBucket; InQueueBucket; DelayBucket] →
  view (tx_pairs tx) P Q D → view (tx_pairs tx') P Q D.
Proof.
  intros ->%CreateBucketIfNotExists_pairs Hb Hv.
  assert (Hm : is_Some (tx_pairs tx !! b)).
  { destruct Hv. repeat (apply elem_of_cons in Hb as [->|Hb]; [by eexists|]).
    by apply elem_of_nil in Hb. }
  destruct Hm as [m Hm]. rewrite Hm. simpl. by rewrite insert_id.
Qed.

Lemma recover_loop_view op l tx tx' P Q D :
  recover_loop op l tx = (tx', None) → view (tx_pairs tx) P Q D →
  view (tx_pairs tx') (list_to_map (rev l) ∪ P) Q D.
Proof.
  revert tx P. induction l as [|[k v] l IH]; intros tx P; simpl.
  { intros [= ->] Hv. by rewrite (left_id_L ∅ (∪)). }
  destruct (Put PushBucket k v tx) as [tx1 [e|]] eqn:Ep; [done|]. intros Hr Hv.
  apply Put_pairs in Ep. pose proof (view_put_push _ _ _ _ k v Hv) as Hv1. rewrite <- Ep in Hv1.
  specialize (IH _ _ Hr Hv1). rewrite list_to_map_app. simpl.
  by rewrite <- (assoc_L (∪)), insert_empty, <- insert_union_singleton_l.
Qed.

Lemma restart_view c c' P Q D :
  restart c = Some c' → view (db_pairs (db c)) P Q D → view (db_pairs (db c')) (Q ∪ P) Q D.
Proof.
  unfold restart. destruct (Update init_tx (db c)) as [d [e|]] eqn:Eu; [done|]. intros [= <-] Hv. simpl.
  unfold Update in Eu. destruct (Begin (db c)) as [tx|e] eqn:Eb; [|done].
  rewrite <- (Begin_pairs _ _ Eb) in Hv. destruct (init_tx tx) as [tx' [e|]] eqn:Ei; [done|].
  rewrite (Commit_pairs _ _ _ Eu). unfold init_tx in Ei. cbv zeta in Ei.
  destruct (CreateBucketIfNotExists DelayBucket tx) as [t1 []] eqn:E1; [done|].
  apply (create_view _ _ _ P Q D) in E1; [|set_solver|done].
  destruct (CreateBucketIfNotExists PushBucket t1) as [t2 []] eqn:E2; [done|].
  apply (create_view _ _ _ P Q D) in E2; [|set_solver|done].
  destruct (CreateBucketIfNotExists InQueueBucket t2) as [t3 []] eqn:E3; [done|].
  apply (create_view _ _ _ P Q D) in E3; [|set_solver|done].
  pose proof (recover_loop_view _ _ _ _ _ _ _ Ei E3) as Hv'.
  assert (Hp : rev (entries InQueueBucket t3) ≡ₚ map_to_list Q).
  { rewrite Permutation_rev. rewrite rev_involutive. apply entries_pairs, E3. }
  rewrite (list_to_map_proper _ (map_to_list Q)), list_to_map_to_list in Hv'; [done| |done].
  rewrite Hp. apply NoDup_fst_map_to_list.
Qed.

Lemma restart_keeps id c c' :
  restart c = Some c' → keeps id (db_pairs (db c)) → keeps id (db_pairs (db c')).
Proof.
  intros Hr (P & Q & D & Hv & (HP & HQ & HD) & Hs).
  exists (Q ∪ P), Q, D. split; [by eapply restart_view|]. split.
  - split_and!; try done. intros k v [H|[_ H]]%lookup_union_Some_raw; eauto.
  - destruct Hs as [H|[H|H]]; [left; apply lookup_union_is_Some; auto|by right; left|by do 2 right].
Qed.

(** ** Histories *)

(** What a history has to respect for the job [id] to survive: the job is not
    acknowledged, only running jobs are rejected, and no two delayed jobs are
    due in the same second. *)
Definition respects (id : string) (a : action) (c : consumer) : Prop :=
  match a with
  | APush now jb => fresh_key now (jb_Delay jb) (db_pairs (db c))
  | ADelayedTick visited _ => honest visited
  | AAck n => ∀ i, held c !! n = Some i → it_Ident i ≠ id
  | ANack n => ∀ i, held c !! n = Some i → in_processing (it_Ident i) (db_pairs (db c))
  | ARequeue now _ delay _ => fresh_key now delay (db_pairs (db c))
  | _ => True
  end.

Definition step (id : string) (c c' : consumer) : Prop :=
  ∃ a, respects id a c ∧ exec a c = Some c'.

Lemma exec_keeps id a c c' :
  respects id a c → exec a c = Some c' →
  keeps id (db_pairs (db c)) → keeps id (db_pairs (db c')).
Proof.
  intros Hr He Hk. destruct a; simpl in *.
  - simplify_eq. by apply Push_keeps.
  - destruct (loops c); simplify_eq. by apply listener_tick_keeps.
  - destruct (dloops c); simplify_eq. by apply delayed_tick_keeps.
  - destruct (pq c !! n); by simplify_eq/=.
  - destruct (held c !! n) as [i|]; simplify_eq/=. apply (Ack_keeps id i (release n c)); [by apply Hr|done].
  - destruct (held c !! n) as [i|]; simplify_eq/=. apply (Nack_keeps id i (release n c)); [by apply Hr|done].
  - destruct (held c !! n) as [i|]; simplify_eq/=.
    by apply (Requeue_keeps id now h delay i (release n c)).
  - by simplify_eq.
  - simplify_eq. unfold Run. destruct (pipe c) as [[]|]; [|done]. by destruct (negb _).
  - unfold Pause, stop_two in He. destruct (pipe c); [|done]. simpl in He.
    destruct (listeners c =? 0); [by simplify_eq|]. by destruct (_ && _ && _); simplify_eq/=.
  - unfold Resume in He. destruct (pipe c); [|done]. simpl in He.
    by destruct (listeners c =? 1); simplify_eq.
  - by eapply restart_keeps.
Qed.

(** C1: a stored job stays in one of the three buckets until it is acknowledged,
    through any sequence of pushes, ticks, requeues, rejections, pauses and
    restarts, with every database error the operations can meet; provided that
    delayed jobs are put under keys no other delayed job has -- one that is due
    in the same second as another replaces it --, that only jobs in the
    processing bucket are rejected, and that cursors return pairs of their
    bucket. *)
Theorem bolt_job_never_lost id c c' :
  rtc (step id) c c' → keeps id (db_pairs (db c)) → keeps id (db_pairs (db c')).
Proof. induction 1 as [|x y z (a & Hr & He) _ IH]; [done|]. eauto using exec_keeps. Qed.

(** ** Counters after a restart *)

Definition silent (a : action) : bool :=
  match a with APush _ _ | AAck _ | ARestart => false | _ => true end.

Lemma silent_counts a c c' :
  silent a = true → exec a c = Some c' → active c' = active c ∧ prefetch c' = prefetch c.
Proof.
  intros Hs He. destruct a; try done; simpl in He.
  - destruct (loops c); simplify_eq. unfold listener_tick.
    repeat (case_match; simpl; try done).
  - destruct (dloops c); simplify_eq. unfold delayed_tick.
    repeat (case_match; simpl; try done).
  - destruct (pq c !! n); by simplify_eq/=.
  - destruct (held c !! n) as [i|]; simplify_eq/=. unfold Nack.
    repeat (case_match; simpl; try done).
  - destruct (held c !! n) as [i|]; simplify_eq/=. unfold Requeue_.
    repeat (case_match; simpl; try done).
  - by simplify_eq.
  - simplify_eq. unfold Run. destruct (pipe c) as [[]|]; [|done]. by destruct (negb _).
  - unfold Pause, stop_two in He. destruct (pipe c); [|done]. simpl in He.
    destruct (listeners c =? 0); [by simplify_eq|]. by destruct (_ && _ && _); simplify_eq/=.
  - unfold Resume in He. destruct (pipe c); [|done]. simpl in He.
    by destruct (listeners c =? 1); simplify_eq.
Qed.

Lemma silent_run l c c' :
  forallb silent l = true → run l c = Some c' → active c' = active c ∧ prefetch c' = prefetch c.
Proof.
  revert c. induction l as [|a l IH]; intros c Hs Hr; simpl in *; [by simplify_eq|].
  apply andb_prop in Hs as [Ha Hl]. destruct (exec a c) as [c1|] eqn:Ea; [|done].
  destruct (silent_counts a c c1 Ha Ea) as [<- <-]. by apply IH.
Qed.

(** A restart puts every job that was being processed back into the push
    bucket, next to the waiting and the delayed ones, but starts counting at
    zero: acknowledging one recovered immediate job wraps the counter to
    2^64 - 1, above every prefetch, and from then on the listener takes no job,
    however many wait. *)
Theorem bolt_restart_ack_stalls c c1 c2 c3 i l P Q D :
  restart c = Some c1 → view (db_pairs (db c)) P Q D → 0 ≤ prefetch c < 2 ^ 63 →
  forallb silent l = true → run l c1 = Some c2 →
  Ack i c2 = (c3, Ok tt) → it_Delay i ≤ 0 →
  view (db_pairs (db c1)) (Q ∪ P) Q D ∧ active c3 = 2 ^ 64 - 1 ∧ listener_tick c3 = (c3, Ok tt).
Proof.
  intros Hr Hv Hp Hl Hrun Hack Hd. split; [by eapply restart_view|].
  assert (H1 : active c1 = 0 ∧ prefetch c1 = prefetch c).
  { unfold restart in Hr. destruct (Update init_tx (db c)) as [d []]; by simplify_eq. }
  destruct (silent_run _ _ _ Hl Hrun) as [Ha Hpre]. destruct H1 as [H1a H1p].
  assert (H3 : active c3 = 2 ^ 64 - 1 ∧ prefetch c3 = prefetch c2).
  { unfold Ack in Hack. destruct (Begin (db c2)) as [tx|]; [|done]. destruct (no_bucket _ _); [done|].
    destruct (Del _ _ _) as [tx1 []]; [done|].
    replace (0 <? it_Delay i) with false in Hack by lia. cbv zeta in Hack.
    rewrite Ha, H1a in Hack.
    destruct (Commit _ _) as [d []]; by simplify_eq. }
  destruct H3 as [H3a H3p]. split; [done|]. unfold listener_tick.
  rewrite H3a, H3p, Hpre, H1p, u64_id by lia.
  by replace (prefetch c <? 2 ^ 64 - 1) with true by lia.
Qed.

(** ** Delayed jobs *)

(** What a successful push of a delayed job leaves in the database. *)
Lemma Push_delayed_view now jb c c' P Q D :
  Push now jb c = (c', Ok tt) → 0 < jb_Delay jb → view (db_pairs (db c)) P Q D →
  ∃ v, gob_dec v = inl (fromJob jb) ∧
    view (db_pairs (db c')) P Q (<[delay_key now (jb_Delay jb) := v]> D) ∧
    priority c' = priority c ∧ dloops c' = dloops c ∧ delayed c' = u64_inc (delayed c).
Proof.
  intros Hp Hd Hv. unfold Push in Hp. destruct (Begin (db c)) as [tx|e] eqn:Eb; [|done].
  rewrite <- (Begin_pairs _ _ Eb) in Hv. destruct (_ && _); [done|].
  unfold push_tx in Hp. cbv zeta in Hp. destruct (gob_enc (fromJob jb)) as [v|e] eqn:Ev; [|done].
  change (it_Delay (fromJob jb)) with (jb_Delay jb) in Hp.
  replace (0 <? jb_Delay jb) with true in Hp by lia.
  destruct (Put DelayBucket _ v tx) as [tx1 [e|]] eqn:Ep; [done|].
  destruct (Commit tx1 (db c)) as [d [e|]] eqn:Ec; simplify_eq. simpl.
  exists v. split; [by apply gob_inl|]. rewrite (Commit_pairs _ _ _ Ec), (Put_pairs _ _ _ _ _ Ep).
  split_and!; [by apply view_put_delay|done..].
Qed.

Lemma Format_eq t1 t2 :
  four_digit_year t1 → four_digit_year t2 → t1 / 10 ^ 9 = t2 / 10 ^ 9 → Format t1 = Format t2.
Proof.
  intros H1 H2 He. apply String.compare_eq_iff. rewrite Format_order by done.
  rewrite He. apply Z.compare_refl.
Qed.

(** The moment a job delayed by [delay] seconds at [now] is due. *)
Definition due (now delay : Z) : Z := now + i64 (delay * 10 ^ 9).

(** The delayed bucket has one key per second: of two delayed jobs that are
    due in the same second only the second one is kept.  Both pushes succeed and
    both are counted, and the first job is stored nowhere. *)
Theorem bolt_delayed_collision now1 now2 j1 j2 c c1 c2 P Q D :
  view (db_pairs (db c)) P Q D → ~ stored (jb_Ident j1) P Q D →
  0 < jb_Delay j1 → 0 < jb_Delay j2 → jb_Ident j1 ≠ jb_Ident j2 →
  four_digit_year (due now1 (jb_Delay j1)) → four_digit_year (due now2 (jb_Delay j2)) →
  due now1 (jb_Delay j1) / 10 ^ 9 = due now2 (jb_Delay j2) / 10 ^ 9 →
  Push now1 j1 c = (c1, Ok tt) → Push now2 j2 c1 = (c2, Ok tt) →
  ∃ D2, view (db_pairs (db c2)) P Q D2 ∧ ~ stored (jb_Ident j1) P Q D2 ∧
    delayed c2 = u64_inc (u64_inc (delayed c)).
Proof.
  intros Hv Hns Hd1 Hd2 Hne Hy1 Hy2 Hdue H1 H2.
  destruct (Push_delayed_view _ _ _ _ _ _ _ H1 Hd1 Hv) as (v1 & Hv1 & Hview1 & _ & _ & Hc1).
  destruct (Push_delayed_view _ _ _ _ _ _ _ H2 Hd2 Hview1) as (v2 & Hv2 & Hview2 & _ & _ & Hc2).
  assert (Hk : delay_key now1 (jb_Delay j1) = delay_key now2 (jb_Delay j2)) by (by apply Format_eq).
  rewrite Hk, insert_insert_eq in Hview2. eexists. split; [exact Hview2|].
  split; [|by rewrite Hc2, Hc1].
  intros [H|[H|(k & v & i & H & Hd & Hi)]]; [by apply Hns; left|by apply Hns; right; left|].
  apply lookup_insert_Some in H as [[<- <-]|[_ H]].
  - rewrite Hv2 in Hd. by simplify_eq.
  - apply Hns. do 2 right. by exists k, v, i.
Qed.

Lemma delayed_loop_early prio endDate l tx q tx' q' k P Q D v :
  delayed_loop prio endDate l tx q = (Some tx', q') →
  String.compare k endDate = Gt → view (tx_pairs tx) P Q D → D !! k = Some v →
  ∃ Q' D', view (tx_pairs tx') P Q' D' ∧ D' !! k = Some v.
Proof.
  intros Hl Hgt. revert tx q Q D Hl. induction l as [|[k' v'] l IH]; intros tx q Q D Hl Hv Hk; simpl in Hl.
  { simplify_eq. by exists Q, D. }
  assert (Hdone : (Some tx, q) = (Some tx', q') → ∃ Q' D', view (tx_pairs tx') P Q' D' ∧ D' !! k = Some v)
    by (intros; simplify_eq; by exists Q, D).
  destruct (decide (k' = k)) as [->|Hne]; [rewrite Hgt in Hl; exact (Hdone Hl)|].
  destruct (String.compare k' endDate); [| |exact (Hdone Hl)];
    (destruct (gob_dec v') as [i|]; [|done];
     destruct (no_bucket InQueueBucket tx); [done|];
     destruct (Put _ _ _ _) as [tx1 []] eqn:Ep; [done|];
     destruct (Del _ _ _) as [tx2 r] eqn:Ed;
     destruct (move_view _ _ _ _ _ _ _ _ _ _ Hv Ep Ed) as [-> Hv2];
     eapply IH; [exact Hl|exact Hv2|by rewrite lookup_delete_ne]).
Qed.

(** A tick that succeeds moves the visited due pairs to [processing] and to the
    priority queue. *)
Lemma delayed_loop_due prio endDate l tx q tx' q' k v i P Q D :
  delayed_loop prio endDate l tx q = (Some tx', q') →
  StronglySorted key_le l → (k, v) ∈ l → String.compare k endDate ≠ Gt → gob_dec v = inl i →
  view (tx_pairs tx) P Q D →
  (if it_Priority i =? 0 then item_priority prio i else i) ∈ q'.
Proof.
  intros Hl Hs Hin Hk Hi. revert tx q Q D Hl. induction Hs as [|[k' v'] l Hs IH Hf];
    intros tx q Q D Hl Hv; [by apply elem_of_nil in Hin|]. simpl in Hl.
  assert (Hmono : ∀ l tx q tx' q', delayed_loop prio endDate l tx q = (Some tx', q') → ∀ x, x ∈ q → x ∈ q').
  { clear. induction l as [|[k v] l IH]; intros tx q tx' q' H x Hx; simpl in H; [by simplify_eq|].
    repeat case_match; simplify_eq; try done; (eapply IH; [exact H|set_solver]). }
  assert (Hk' : String.compare k' endDate ≠ Gt).
  { apply elem_of_cons in Hin as [[= -> ->]|Hin]; [done|].
    rewrite list.Forall_forall in Hf. specialize (Hf _ Hin).
    intros Hgt. apply (key_le_trans (k', v') (k, v) (endDate, v) Hf Hk). done. }
  destruct (String.compare k' endDate) eqn:Ec; [| |done];
    (destruct (gob_dec v') as [i'|] eqn:Ei'; [|done];
     destruct (no_bucket InQueueBucket tx); [done|];
     destruct (Put _ _ _ _) as [tx1 []] eqn:Ep; [done|];
     destruct (Del _ _ _) as [tx2 r] eqn:Ed;
     destruct (move_view _ _ _ _ _ _ _ _ _ _ Hv Ep Ed) as [-> Hv2];
     apply elem_of_cons in Hin as [[= -> ->]|Hin];
       [rewrite Hi in Ei'; simplify_eq; eapply Hmono; [exact Hl|set_solver]
       |eapply IH; [done|exact Hl|exact Hv2]]).
Qed.

(** What a tick puts into the queue: items of visited pairs whose key is not
    after its time. *)
Definition delivers (prio : Z) (endDate : string) (l : list (string * bytes)) (i : Item) : Prop :=
  ∃ k v item, (k, v) ∈ l ∧ String.compare k endDate ≠ Gt ∧ gob_dec v = inl item ∧
    i = if it_Priority item =? 0 then item_priority prio item else item.

Lemma delayed_loop_only prio endDate l tx q r q' :
  delayed_loop prio endDate l tx q = (r, q') →
  ∃ new, q' = q ++ new ∧ Forall (delivers prio endDate l) new.
Proof.
  revert tx q. induction l as [|[k v] l IH]; intros tx q Hl; simpl in Hl.
  { simplify_eq. exists []. by rewrite app_nil_r. }
  assert (Hstop : ∀ (x : option Tx), (x, q) = (r, q') →
    ∃ new, q' = q ++ new ∧ Forall (delivers prio endDate ((k, v) :: l)) new).
  { intros x [= _ <-]. exists []. by rewrite app_nil_r. }
  assert (Hgo : ∀ tx item, gob_dec v = inl item → String.compare k endDate ≠ Gt →
    delayed_loop prio endDate l tx (q ++ [if it_Priority item =? 0 then item_priority prio item else item])
      = (r, q') →
    ∃ new, q' = q ++ new ∧ Forall (delivers prio endDate ((k, v) :: l)) new).
  { intros tx2 item Hi Hk H. apply IH in H as (new & -> & Hf). rewrite <- app_assoc. eexists. split; [done|].
    constructor; [exists k, v, item; split_and!; [by left|done..]|].
    apply list.Forall_forall. intros i Hi'. rewrite list.Forall_forall in Hf.
    destruct (Hf i Hi') as (k' & v' & it & Hin & H). exists k', v', it. by split; [right|]. }
  destruct (String.compare k endDate) eqn:Ec; [| |by eapply Hstop];
    (destruct (gob_dec v) as [item|] eqn:Ei; [|by eapply Hstop];
     destruct (no_bucket InQueueBucket tx); [by eapply Hstop|];
     destruct (Put _ _ _ _) as [tx1 []]; [by eapply Hstop|];
     destruct (Del _ _ _) as [tx2 []]; [by eapply Hstop|]; by eapply Hgo).
Qed.

(** C33: a completed tick of the delayed listener delivers delayed jobs when they
    are due and not before.  It puts into the priority queue nothing but the
    items of pairs the cursor visits whose key is not after the current time;
    in a second before the job's, the job stays in the delayed bucket; in its
    second or later, if the cursor visits it, in key order, it is put into the
    priority queue. *)
Theorem bolt_delayed_due t0 jb now visited c c1 c' P Q D :
  view (db_pairs (db c)) P Q D → 0 < jb_Delay jb → Push t0 jb c = (c1, Ok tt) →
  four_digit_year (due t0 (jb_Delay jb)) → four_digit_year now →
  delayed_tick visited now c1 = (c', Ok tt) →
  (∃ new, pq c' = pq c1 ++ new ∧
     ∀ i, i ∈ new → ∃ tx, Begin (db c1) = inl tx ∧ delivers (priority c1) (Format now) (visited tx) i) ∧
  (now / 10 ^ 9 < due t0 (jb_Delay jb) / 10 ^ 9 →
     String.compare (delay_key t0 (jb_Delay jb)) (Format now) = Gt ∧
     ∃ P' Q' D' v, view (db_pairs (db c')) P' Q' D' ∧
       D' !! delay_key t0 (jb_Delay jb) = Some v ∧ gob_dec v = inl (fromJob jb)) ∧
  (due t0 (jb_Delay jb) / 10 ^ 9 ≤ now / 10 ^ 9 →
     ∀ tx v, Begin (db c1) = inl tx → StronglySorted key_le (visited tx) → honest visited →
       (delay_key t0 (jb_Delay jb), v) ∈ visited tx →
       ∃ i, i ∈ pq c' ∧ it_Ident i = jb_Ident jb).
Proof.
  intros Hv Hd Hp Hy Hyn Ht.
  destruct (Push_delayed_view _ _ _ _ _ _ _ Hp Hd Hv) as (v & Hdec & Hv1 & _).
  pose proof (Format_order _ _ Hy Hyn) as Hord. fold (delay_key t0 (jb_Delay jb)) in Hord.
  assert (Hlate : now / 10 ^ 9 < due t0 (jb_Delay jb) / 10 ^ 9 →
    String.compare (delay_key t0 (jb_Delay jb)) (Format now) = Gt).
  { intros Hlt. unfold delay_key, due in *. rewrite Hord. by apply Z.compare_gt_iff. }
  unfold delayed_tick in Ht. destruct (Begin (db c1)) as [tx|e] eqn:Eb.
  2:{ simplify_eq. split; [exists []; rewrite app_nil_r; split; [done|]; by intros i ?%elem_of_nil|].
      split; [|done]. intros Hlt. split; [by apply Hlate|]. do 4 eexists. split; [exact Hv1|].
      by rewrite lookup_insert_eq. }
  destruct (no_bucket _ _); [done|]. pose proof Hv1 as Hvt. rewrite <- (Begin_pairs _ _ Eb) in Hvt.
  destruct (delayed_loop _ _ _ _ _) as [[tx'|] q] eqn:El; [|done]. injection Ht as <-. split_and!.
  - destruct (delayed_loop_only _ _ _ _ _ _ _ El) as (new & -> & Hf). exists new. split; [done|].
    intros i Hi. exists tx. split; [done|]. rewrite list.Forall_forall in Hf. by apply Hf.
  - intros Hlt. split; [by apply Hlate|].
    destruct (delayed_loop_early _ _ _ _ _ _ _ (delay_key t0 (jb_Delay jb))
        P Q (<[delay_key t0 (jb_Delay jb) := v]> D) v El)
      as (Q' & D' & Hv' & Hk'); [by apply Hlate|exact Hvt
       |by rewrite lookup_insert_eq|].
    simpl. destruct (Commit tx' (db c1)) as [d [e|]] eqn:Ec; simpl.
    + rewrite (Commit_error _ _ _ _ Ec). do 4 eexists. split; [exact Hv1|]. by rewrite lookup_insert_eq.
    + rewrite (Commit_pairs _ _ _ Ec). by do 4 eexists.
  - intros Hle tx0 v0 [= <-] Hs Hh Hin.
    assert (v0 = v) as ->.
    { pose proof (Hh _ _ _ _ (view_delay _ _ _ _ Hvt) Hin) as H. rewrite lookup_insert_eq in H. congruence. }
    eexists. split; [simpl; eapply (delayed_loop_due _ _ _ _ _ _ _ _ v (fromJob jb) P Q _ El Hs Hin)|].
    + unfold delay_key, due in *. rewrite Hord. by apply Z.compare_le_iff.
    + exact Hdec.
    + exact Hvt.
    + by rewrite defaulted_ident.
Qed.

(** A delayed job with an empty identifier is accepted, since its key is the
    time it is due at; once it is the first due job, every tick of the delayed
    listener panics on it: it cannot be put into the processing bucket, the
    transaction is rolled back, and the job stays in the database. *)
Theorem bolt_empty_id_crashes t0 jb c c1 P Q D visited now tx v rest :
  view (db_pairs (db c)) P Q D → 0 < jb_Delay jb → jb_Ident jb = "" →
  Push t0 jb c = (c1, Ok tt) →
  four_digit_year (due t0 (jb_Delay jb)) → four_digit_year now →
  due t0 (jb_Delay jb) / 10 ^ 9 ≤ now / 10 ^ 9 →
  Begin (db c1) = inl tx → honest visited →
  visited tx = (delay_key t0 (jb_Delay jb), v) :: rest →
  (delayed_tick visited now c1).2 = Panic ∧ db (delayed_tick visited now c1).1 = db c1.
Proof.
  intros Hv Hd Hid Hp Hy Hyn Hle Eb Hh Hvis.
  destruct (Push_delayed_view _ _ _ _ _ _ _ Hp Hd Hv) as (v' & Hdec & Hv1 & _).
  rewrite <- (Begin_pairs _ _ Eb) in Hv1.
  assert (v = v') as ->.
  { assert (Hin : (delay_key t0 (jb_Delay jb), v) ∈ visited tx) by (rewrite Hvis; left).
    pose proof (Hh _ _ _ _ (view_delay _ _ _ _ Hv1) Hin) as H. rewrite lookup_insert_eq in H. congruence. }
  unfold delayed_tick. rewrite Eb. destruct (no_bucket _ _); [done|].
  rewrite Hvis. cbn [delayed_loop]. rewrite Hdec. cbv zeta. rewrite defaulted_ident. cbn [it_Ident fromJob].
  rewrite Hid. destruct (Put_empty_key InQueueBucket v' tx) as (tx1 & e & ->).
  pose proof (Format_order _ _ Hy Hyn) as Hord. unfold delay_key, due in *.
  assert (Hng : String.compare (Format (t0 + i64 (jb_Delay jb * 10 ^ 9))) (Format now) ≠ Gt)
    by (rewrite Hord; by apply Z.compare_le_iff).
  by destruct (no_bucket InQueueBucket tx), (String.compare _ _).
Qed.

End BoltJobs.

(** ** Witnesses

    A codec that writes the bits of a number that stands for the item. *)

Fixpoint pos_bits (p : positive) : string :=
  match p with
  | xH => ""
  | xO p => String "0"%char (pos_bits p)
  | xI p => String "1"%char (pos_bits p)
  end.
Fixpoint bits_pos (s : string) : option positive :=
  match s with
  | EmptyString => Some xH
  | String a s' =>
      p ← bits_pos s';
      if Ascii.eqb a "0"%char then Some (xO p) else if Ascii.eqb a "1"%char then Some (xI p) else None
  end.
Lemma bits_pos_bits p : bits_pos (pos_bits p) = Some p.
Proof. induction p as [p IH|p IH|]; simpl; [by rewrite IH..|done]. Qed.

Global Instance Item_countable : Countable Item.
Proof.
  refine (inj_countable'
    (λ i, (it_Job i, it_Ident i, it_Payload i, it_Headers i, it_Priority i, it_Pipeline i, it_Delay i))
    (λ '(a, b, c, d, e, f, g), MkItem a b c d e f g) _).
  by intros [].
Defined.

Definition bit_codec_enc (i : Item) : bytes + error := inl (pos_bits (encode i)).
Definition bit_codec_dec (s : bytes) : Item + error :=
  match bits_pos s ≫= decode with Some i => inl i | None => inr (EExt "EOF") end.
Definition bit_codec : GobItem.
Proof.
  refine {| gob_enc := bit_codec_enc; gob_dec := bit_codec_dec |}.
  unfold bit_codec_enc, bit_codec_dec. intros i v [= <-].
  rewrite bits_pos_bits. simpl. by rewrite decode_encode.
Defined.

#[local] Existing Instance MapBolt.
#[local] Existing Instance bit_codec.

Definition w_job (id : string) (d : Z) : Job := MkJob "app" id "p" ∅ 0 "test" d.
Definition w_buckets : buckets := <[PushBucket := ∅]> (<[InQueueBucket := ∅]> {[DelayBucket := ∅]}).
Definition w_new : consumer := new_consumer "rr.db" 511 10 1000 (w_buckets : DB).
Definition w_now : Z := 1614830767 * 10 ^ 9.
Definition w_after (now : Z) (jb : Job) (c : consumer) : consumer := (Push now jb c).1.

Lemma w_view : view (db_pairs (db w_new)) ∅ ∅ ∅.
Proof. split; reflexivity. Defined.

(** A call that succeeds is the pair of its state and [Ok tt]. *)
Lemma ok_pair (p : consumer * res unit) : p.2 = Ok tt → p = (p.1, Ok tt).
Proof. destruct p as [c r]. intros H. simpl in H. by rewrite H. Qed.

(** A job is pushed, and the process restarts. *)
Definition w_pushed : consumer := w_after w_now (w_job "1" 0) w_new.
Definition w_restarted : consumer := default w_new (restart w_pushed).

Definition w_value (jb : Job) : bytes := pos_bits (encode (fromJob jb)).

Lemma w_keeps : keeps "1" (db_pairs (db w_pushed)).
Proof.
  exists {["1" := w_value (w_job "1" 0)]}, ∅, ∅. split; [split; reflexivity|].
  assert (Hd : gob_dec (w_value (w_job "1" 0)) = inl (fromJob (w_job "1" 0)))
    by (apply gob_round_trip; reflexivity).
  split; [split_and!|left; by rewrite lookup_singleton_eq].
  - intros k v [<- <-]%lookup_singleton_Some. by exists (fromJob (w_job "1" 0)).
  - intros k v H. by rewrite lookup_empty in H.
  - intros k v H. by rewrite lookup_empty in H.
Qed.

Lemma bolt_job_never_lost_witness : keeps "1" (db_pairs (db w_restarted)).
Proof. 
  apply (bolt_job_never_lost "1" w_pushed w_restarted); [|exact w_keeps].
  apply rtc_once. exists ARestart. split; [exact I|reflexivity].
 Defined.

Lemma bolt_restart_ack_stalls_witness :
  let c3 := (Ack (fromJob (w_job "1" 0)) w_restarted).1 in
  active c3 = 2 ^ 64 - 1 ∧ listener_tick c3 = (c3, Ok tt).
Proof.
  intros c3.
  apply (bolt_restart_ack_stalls w_pushed w_restarted w_restarted c3 (fromJob (w_job "1" 0)) []
           {["1" := w_value (w_job "1" 0)]} ∅ ∅);
    [reflexivity|split; reflexivity|split; [discriminate|reflexivity]|reflexivity|reflexivity
    |apply ok_pair; reflexivity|discriminate].
Defined.

Lemma w_year_due : four_digit_year (due w_now 5).
Proof. split; vm_compute; [discriminate|reflexivity]. Qed.
Lemma w_year_later : four_digit_year (w_now + 6 * 10 ^ 9).
Proof. split; vm_compute; [discriminate|reflexivity]. Qed.
Lemma w_later : due w_now 5 / 10 ^ 9 ≤ (w_now + 6 * 10 ^ 9) / 10 ^ 9.
Proof. vm_compute. discriminate. Qed.

Lemma bolt_delayed_collision_witness :
  let c1 := w_after w_now (w_job "1" 5) w_new in
  let c2 := w_after w_now (w_job "2" 5) c1 in
  ∃ D2, view (db_pairs (db c2)) ∅ ∅ D2 ∧ ~ stored "1" ∅ ∅ D2 ∧ delayed c2 = 2.
Proof.
  intros c1 c2.
  apply (bolt_delayed_collision w_now w_now (w_job "1" 5) (w_job "2" 5) w_new c1 c2 ∅ ∅ ∅);
    [exact w_view| |reflexivity|reflexivity|discriminate|exact w_year_due..
    |reflexivity|apply ok_pair; reflexivity|apply ok_pair; reflexivity].
  intros [[v H]|[[v H]|(k & v & i & H & _)]]; by rewrite lookup_empty in H.
Defined.

(** A cursor that visits the whole delayed bucket. *)
Definition w_visited (tx : Tx) : list (string * bytes) := entries DelayBucket tx.
Lemma w_honest : honest w_visited.
Proof.
  intros tx D k v HD Hin. unfold w_visited in Hin. rewrite (entries_pairs _ _ _ HD) in Hin.
  by apply elem_of_map_to_list in Hin.
Qed.

Lemma w_visited_one (c1 : consumer) k v P Q :
  view (db_pairs (db c1)) P Q (<[k := v]> ∅) → w_visited (db c1) = [(k, v)].
Proof.
  intros Hv. assert (He : entries DelayBucket (db c1 : Tx) ≡ₚ map_to_list (<[k := v]> (∅ : gmap string bytes))).
  { apply entries_pairs. exact (view_delay _ _ _ _ Hv). }
  rewrite insert_empty, map_to_list_singleton in He. by apply Permutation_singleton_r in He.
Qed.

Lemma bolt_delayed_due_witness :
  let c1 := w_after w_now (w_job "1" 5) w_new in
  let now := w_now + 6 * 10 ^ 9 in
  let c' := (delayed_tick w_visited now c1).1 in
  ∃ i, i ∈ pq c' ∧ it_Ident i = "1".
Proof.
  intros c1 now c'.
  assert (Hp : Push w_now (w_job "1" 5) w_new = (c1, Ok tt)) by (apply ok_pair; reflexivity).
  destruct (Push_delayed_view _ _ _ _ _ _ _ Hp eq_refl w_view) as (v & _ & Hv & _).
  refine (proj2 (proj2 (bolt_delayed_due w_now (w_job "1" 5) now w_visited w_new c1 c' ∅ ∅ ∅
    w_view eq_refl Hp w_year_due w_year_later _)) w_later _ v eq_refl (entries_sorted _ _) w_honest _).
  - apply ok_pair. reflexivity.
  - rewrite (w_visited_one c1 _ _ _ _ Hv). left.
Defined.

Lemma bolt_empty_id_crashes_witness :
  let c1 := w_after w_now (w_job "" 5) w_new in
  (delayed_tick w_visited (w_now + 6 * 10 ^ 9) c1).2 = Panic.
Proof.
  intros c1.
  assert (Hp : Push w_now (w_job "" 5) w_new = (c1, Ok tt)) by (apply ok_pair; reflexivity).
  destruct (Push_delayed_view _ _ _ _ _ _ _ Hp eq_refl w_view) as (v & _ & Hv & _).
  exact (proj1 (bolt_empty_id_crashes w_now (w_job "" 5) w_new c1 ∅ ∅ ∅ w_visited
    (w_now + 6 * 10 ^ 9) (db c1) v [] w_view eq_refl eq_refl Hp w_year_due w_year_later w_later
    eq_refl w_honest (w_visited_one c1 _ _ _ _ Hv))).
Defined.

End BoltJobs.
