(* ===== verification/JobsDrivers.v ===== *)
(** * Job drivers behind the jobs plugin ([memory/plugin.go], [boltdb/plugin.go])

    The plugins of the drivers are constructors the jobs plugin collects; its
    consumers are driver instances of several kinds.  Here they are those of the
    memory and the boltdb driver (files JobsMemory and JobsBolt), numbered by
    their creation.  A system state is the jobs plugin with its drivers: calls
    of the plugin, the goroutines of the drivers and the rounds of the pollers
    interleave. *)

From stdpp Require Import base gmap strings list.
From Stdlib Require Import ZArith.
From S2P Require Import Prelude Bolt JobsProtocol JobsPlugin JobsListener JobsMemory JobsBolt.

Module JobsDrivers.
Import Protocol Jobs Listener.

Section Drivers.
Context `{BO : Bolt} `{GC : !BoltJobs.GobItem} `{GR : GoRange} `{J : Json}.
Context {P : Type} `{PO : PipelineOps P}.

Inductive driver := DMemory (c : MemJobs.consumer) | DBolt (c : BoltJobs.consumer).
Inductive item := IMemory (i : MemJobs.Item) | IBolt (i : BoltJobs.Item).

(** What a call finds: the time, whether the deadline of its context is the
    branch of a select that is taken, whether a goroutine takes the stop signal
    and how many are taken by listeners, and what opening a file gives. *)
Record env := MkEnv {
  e_now : Z; e_done : bool; e_taken : bool; e_tl : nat; e_open : string → Z → DB + error }.

(** ** Actions on a driver *)

(** [Settle n c]: the poller that holds the [n]-th taken job makes the call [c]
    on it and forgets it; [Again i c]: it makes another call on that job. *)
Inductive act :=
  | Push_ (j : Job) | Register_ (name drv : string) | Run_ (name : string)
  | Stop_ | Pause_ | Resume_
  | Take (n : nat) | Settle (n : nat) (c : ack_call) | Again (i : item) (c : ack_call)
  | MemStart (n : nat) | MemWake (n : nat) | MemConsume
  | BoltTick | BoltDelayed (visited : Tx → list (string * bytes)).

Definition reply (r : res unit) : option (option error) :=
  match r with Ok _ => Some None | Err e => Some (Some e) | Panic => None end.

Definition answer (d : driver) (r : res unit) : option (driver * option error) := pair d <$> reply r.
Definition done_ (d : driver) : driver * option error := (d, None).

(** [Respond] does nothing in both drivers. *)
Definition mem_settle (c : ack_call) (i : MemJobs.Item) (m : MemJobs.consumer) : option (driver * option error) :=
  match c with
  | CAck => Some (done_ (DMemory (MemJobs.Ack i m)))
  | CNack => Some (done_ (DMemory (MemJobs.Nack i m)))
  | CRequeue h d => '(m, r) ← MemJobs.Requeue_ h d i m; answer (DMemory m) r
  | CRespond _ _ => Some (done_ (DMemory m))
  end.

Definition bolt_settle (now : Z) (c : ack_call) (i : BoltJobs.Item) (b : BoltJobs.consumer)
    : option (driver * option error) :=
  match c with
  | CAck => let '(b, r) := BoltJobs.Ack i b in answer (DBolt b) r
  | CNack => let '(b, r) := BoltJobs.Nack i b in answer (DBolt b) r
  | CRequeue h d => let '(b, r) := BoltJobs.Requeue_ now h d i b in answer (DBolt b) r
  | CRespond _ _ => Some (done_ (DBolt b))
  end.

(** [None]: the action is not possible, panics or waits for ever. *)
Definition mem_exec (e : env) (a : act) (m : MemJobs.consumer) : option (driver * option error) :=
  match a with
  | Push_ j => let '(m, r) := MemJobs.Push (e_done e) j m in answer (DMemory m) r
  | Register_ n dr => Some (done_ (DMemory (MemJobs.Register n dr m)))
  | Run_ _ => let '(m, r) := MemJobs.Run m in answer (DMemory m) r
  | Stop_ => done_ ∘ DMemory <$> MemJobs.exec (MemJobs.AStop (e_taken e)) m
  | Pause_ => done_ ∘ DMemory <$> MemJobs.Pause m
  | Resume_ => done_ ∘ DMemory <$> MemJobs.Resume m
  | Take n => done_ ∘ DMemory <$> MemJobs.exec (MemJobs.AExtract n) m
  | Settle n c => i ← MemJobs.held m !! n; mem_settle c i (MemJobs.release n m)
  | Again (IMemory i) c => mem_settle c i m
  | MemStart n => done_ ∘ DMemory <$> MemJobs.start_delayed n m
  | MemWake n => done_ ∘ DMemory <$> MemJobs.wake_delayed n m
  | MemConsume => done_ ∘ DMemory <$> MemJobs.consume_one m
  | Again (IBolt _) _ | BoltTick | BoltDelayed _ => None
  end.

Definition bolt_exec (e : env) (a : act) (b : BoltJobs.consumer) : option (driver * option error) :=
  match a with
  | Push_ j => let '(b, r) := BoltJobs.Push (e_now e) j b in answer (DBolt b) r
  | Register_ n dr => Some (done_ (DBolt (BoltJobs.Register n dr b)))
  | Run_ n => let '(b, r) := BoltJobs.Run n b in answer (DBolt b) r
  | Stop_ => prod_map DBolt id <$> BoltJobs.Stop (e_tl e) b
  | Pause_ => done_ ∘ DBolt <$> BoltJobs.Pause (e_tl e) b
  | Resume_ => done_ ∘ DBolt <$> BoltJobs.Resume b
  | Take n => done_ ∘ DBolt <$> BoltJobs.exec (BoltJobs.AExtract n) b
  | Settle n c => i ← BoltJobs.held b !! n; bolt_settle (e_now e) c i (BoltJobs.release n b)
  | Again (IBolt i) c => bolt_settle (e_now e) c i b
  | BoltTick => match BoltJobs.loops b with
                | O => None
                | S _ => let '(b, r) := BoltJobs.listener_tick b in answer (DBolt b) r
                end
  | BoltDelayed v => match BoltJobs.dloops b with
                     | O => None
                     | S _ => let '(b, r) := BoltJobs.delayed_tick v (e_now e) b in answer (DBolt b) r
                     end
  | Again (IMemory _) _ | MemStart _ | MemWake _ | MemConsume => None
  end.

Definition dexec (e : env) (a : act) (d : driver) : option (driver * option error) :=
  match d with DMemory m => mem_exec e a m | DBolt b => bolt_exec e a b end.

(** ** The drivers of a process *)

(** An action that was made, with the state it found. *)
Record event := MkEvent { ev_handle : nat; ev_env : env; ev_act : act; ev_before : driver }.

(** [clock] numbers the calls. *)
Record world := MkWorld { drivers : list driver; clock : nat; trace : list event }.

Context (choice : nat → env).

(** [None]: the process has panicked, or the call waits for ever with the lock
    of the plugin. *)
Definition do_ (h : nat) (a : act) (w : option world) : option world * option error :=
  match (w ← w; d ← drivers w !! h; r ← dexec (choice (clock w)) a d; Some (w, d, r)) with
  | None => (None, None)
  | Some (w, d, (d', e)) =>
      (Some (MkWorld (<[h := d']> (drivers w)) (S (clock w))
               (trace w ++ [MkEvent h (choice (clock w)) a d])), e)
  end.

Definition State_ (d : driver) : res State :=
  match d with DMemory m => MemJobs.State_ m | DBolt b => BoltJobs.State_ b end.

(** A state is asked of registered consumers only, for which it does not panic
    (lemma [state_answers]). *)
Definition state_of (h : nat) (w : option world) : State + error :=
  match State_ <$> (w ≫= λ w, drivers w !! h) with
  | Some (Ok s) => inl s
  | Some (Err e) => inr e
  | _ => inr (EStr "panic")
  end.

#[export] Instance driver_consumer : Consumer P (option world) nat := {
  c_Push h j := do_ h (Push_ j);
  c_Register h p := do_ h (Register_ (Name p) (Driver p));
  c_Run h p := do_ h (Run_ (Name p));
  c_Stop h := do_ h Stop_;
  c_Pause h _ w := (do_ h Pause_ w).1;
  c_Resume h _ w := (do_ h Resume_ w).1;
  c_State := state_of }.

(** ** Constructors *)

(** [has], [unmarshal_bolt], [unmarshal_memory]: the configuration plugin;
    [p_string], [p_int]: options of a pipeline with their defaults. *)
Context (has : string → bool) (unmarshal_bolt : string → BoltJobs.config → res BoltJobs.config).
Context (unmarshal_memory : string → res (option MemJobs.Config)).
Context (p_string : P → string → string → string) (p_int : P → string → Z → Z).

Definition create (f : env → res driver) (w : option world) : option world * (nat + error) :=
  match w with
  | None => (None, inr (EStr "panic"))
  | Some w =>
      match f (choice (clock w)) with
      | Panic => (None, inr (EStr "panic"))
      | Err e => (Some (MkWorld (drivers w) (S (clock w)) (trace w)), inr e)
      | Ok d => (Some (MkWorld (drivers w ++ [d]) (S (clock w)) (trace w)), inl (length (drivers w)))
      end
  end.

Definition memory_from_config (key : string) (e : env) : res driver :=
  c ← MemJobs.FromConfig unmarshal_memory key; Ok (DMemory c).
Definition memory_from_pipeline (p : P) (e : env) : res driver :=
  c ← MemJobs.FromPipeline (p_int p "prefetch" 100000) (Priority p); Ok (DMemory c).
Definition boltdb_from_config (key : string) (e : env) : res driver :=
  c ← BoltJobs.NewBoltDBJobs has unmarshal_bolt (e_open e) key; Ok (DBolt c).
Definition boltdb_from_pipeline (p : P) (e : env) : res driver :=
  c ← BoltJobs.FromPipeline has unmarshal_bolt (e_open e) (p_string p "file" BoltJobs.rrDB)
        (Priority p) (p_int p "prefetch" 1000);
  Ok (DBolt c).

Definition memory_plugin : Constructor P (option world) nat :=
  MkConstructor (λ key, create (memory_from_config key)) (λ p, create (memory_from_pipeline p)).
Definition boltdb_plugin : Constructor P (option world) nat :=
  MkConstructor (λ key, create (boltdb_from_config key)) (λ p, create (boltdb_from_pipeline p)).

(** ** Rounds of the pollers *)

(** [json.Marshal] of the identifier, the job, its headers and its pipeline. *)
Context (marshal_context : string → string → headers → string → bytes + error).

Definition memory_Context (i : MemJobs.Item) : bytes + error :=
  marshal_context (MemJobs.it_Ident i) (MemJobs.it_Job i) (MemJobs.it_Headers i) (MemJobs.it_Pipeline i).
Definition boltdb_Context (i : BoltJobs.Item) : bytes + error :=
  marshal_context (BoltJobs.it_Ident i) (BoltJobs.it_Job i) (BoltJobs.it_Headers i) (BoltJobs.it_Pipeline i).

(** The job as the poller sees it; the items of both drivers can be settled. *)
Definition queued (i : item) : qjob :=
  match i with
  | IMemory i => MkQjob (memory_Context i) (MemJobs.it_Payload i) true
  | IBolt i => MkQjob (boltdb_Context i) (BoltJobs.it_Payload i) true
  end.

Definition held_item (n : nat) (d : driver) : option item :=
  match d with
  | DMemory m => IMemory <$> MemJobs.held m !! n
  | DBolt b => IBolt <$> BoltJobs.held b !! n
  end.

(** [Requeue] writes the headers and the delay into the item. *)
Definition settled (c : ack_call) (i : item) : item :=
  match c, i with
  | CRequeue h d, IMemory i => IMemory (MemJobs.item_requeued h d i)
  | CRequeue h d, IBolt i => IBolt (BoltJobs.item_requeued h d i)
  | _, _ => i
  end.

(** A call on the job a poller works on: with its place, until the first one. *)
Definition settle_call (h : nat) (c : ack_call) (wi : option world * (option nat * item))
    : (option world * (option nat * item)) * option error :=
  let '(w, (n, i)) := wi in
  let '(w, e) := do_ h (match n with Some n => Settle n c | None => Again i c end) w in
  ((w, (None, settled c i)), e).

(** A round for the [n]-th job that pollers have taken from the driver [h].
    Other goroutines run between the taking and the settlement; the calls of a
    settlement, at most two, are one step. *)
Definition poll (h n : nat) (pick : option nat) (pk : picks) (exec : payload → option (option bytes) + error)
    (s : poller) (w : option world) : option (poller * option world) :=
  i ← (w0 ← w; d ← drivers w0 !! h; held_item n d);
  match poll_one (settle_call h) pick pk exec (queued i) s
          (w, (Some n, i)) with
  | Ok (s, (w, _)) => Some (s, w)
  | _ => None
  end.

(** ** What a driver holds *)

Context `{BL : !BoltLaws}.

(** The job is with the driver, its queue or a poller. *)
Definition holds (id : string) (d : driver) : Prop :=
  match d with
  | DMemory m => id ∈ MemJobs.idents m
  | DBolt b => BoltJobs.keeps id (db_pairs (BoltJobs.db b))
  end.

(** The database of the driver has its buckets, with encoded items in them. *)
Definition sound (d : driver) : Prop :=
  match d with
  | DMemory _ => True
  | DBolt b => ∃ P Q D, BoltJobs.view (db_pairs (BoltJobs.db b)) P Q D ∧ BoltJobs.wf P Q D
  end.

(** The call [c] on the item [i] of a database leaves the job [id] there: it is
    not the [Ack] of it; besides, only running jobs are rejected, and no two
    delayed jobs are due in the same second. *)
Definition bolt_spares (id : string) (now : Z) (c : ack_call) (i : BoltJobs.Item) (b : BoltJobs.consumer) : Prop :=
  match c with
  | CAck => BoltJobs.it_Ident i ≠ id
  | CNack => BoltJobs.in_processing (BoltJobs.it_Ident i) (db_pairs (BoltJobs.db b))
  | CRequeue _ d => BoltJobs.fresh_key now d (db_pairs (BoltJobs.db b))
  | CRespond _ _ => True
  end.

(** The event does not end the job [id].  Its pipeline is not stopped.  In
    memory: it does not wake up while the channel is full, and a poller makes no
    call on it but a requeueing, with a delay only if fewer than a thousand
    goroutines sleep.  In a database: no poller acknowledges it; only running
    jobs are rejected, and no two delayed jobs are due in the same second. *)
Definition spares (id : string) (ev : event) : Prop :=
  let e := ev_env ev in
  match ev_before ev, ev_act ev with
  | _, Stop_ => False
  | DMemory m, MemWake n =>
      MemJobs.has_room m = true ∨ ∀ i, MemJobs.sleeping m !! n = Some i → MemJobs.it_Ident i ≠ id
  | DMemory m, Settle n c =>
      (∃ h d, c = CRequeue h d ∧ (d ≤ 0 ∨ MemJobs.goroutines m < MemJobs.goroutinesMax)%Z) ∨
      ∀ i, MemJobs.held m !! n = Some i → MemJobs.it_Ident i ≠ id
  | DBolt b, Push_ j => BoltJobs.fresh_key (e_now e) (jb_Delay j) (db_pairs (BoltJobs.db b))
  | DBolt b, BoltDelayed v => BoltJobs.honest v
  | DBolt b, Settle n c => ∀ i, BoltJobs.held b !! n = Some i → bolt_spares id (e_now e) c i b
  | DBolt b, Again (IBolt i) c => bolt_spares id (e_now e) c i b
  | _, _ => True
  end.

Lemma answer_Some d r d' o : answer d r = Some (d', o) → d' = d ∧ r ≠ Panic ∧ (o = None → r = Ok tt).
Proof. destruct r as [[]|e|]; intros [= <- <-]; naive_solver. Qed.

Lemma mem_exec_holds a m m' id :
  MemJobs.exec a m = Some m' → id ∉ MemJobs.removed a m → id ∈ MemJobs.idents m → id ∈ MemJobs.idents m'.
Proof.
  intros He Hr Hin. apply MemJobs.exec_idents in He.
  assert (H : id ∈ MemJobs.removed a m ++ MemJobs.idents m').
  { rewrite He. apply elem_of_app. by right. }
  apply elem_of_app in H as [?|?]; done.
Qed.

Lemma mem_run_holds a m d' r id :
  done_ ∘ DMemory <$> MemJobs.exec a m = Some (d', r) → id ∉ MemJobs.removed a m →
  id ∈ MemJobs.idents m → holds id d'.
Proof.
  destruct (MemJobs.exec a m) as [m1|] eqn:E; [|done]. intros [= <- <-]. by apply (mem_exec_holds a).
Qed.

Lemma mem_handleItem_holds dn i m id :
  id ∈ MemJobs.idents m → id ∈ MemJobs.idents (MemJobs.handleItem dn i m).1.
Proof. intros H. rewrite MemJobs.handleItem_idents. apply elem_of_app. by right. Qed.

Lemma mem_settle_holds c i m d' r id :
  mem_settle c i m = Some (d', r) → id ∈ MemJobs.idents m → holds id d'.
Proof.
  destruct c as [| |h d|]; simpl.
  - intros [= <- <-] H. simpl. unfold MemJobs.Ack. by rewrite MemJobs.reduce_idents.
  - intros [= <- <-] H. simpl. unfold MemJobs.Nack. by rewrite MemJobs.reduce_idents.
  - unfold MemJobs.Requeue_. cbv zeta. destruct (_ || _); [|done]. simpl. intros Ha H.
    destruct (MemJobs.handleItem _ _ _) as [m1 r1] eqn:E. apply answer_Some in Ha as (-> & _). simpl.
    change m1 with (m1, r1).1. rewrite <- E. apply mem_handleItem_holds. by rewrite MemJobs.reduce_idents.
  - by intros [= <- <-].
Qed.

(** A poller that puts its job back leaves it in the driver. *)
Lemma mem_requeue_holds h d i m d' r :
  (d ≤ 0 ∨ MemJobs.goroutines m < MemJobs.goroutinesMax)%Z →
  mem_settle (CRequeue h d) i m = Some (d', r) → holds (MemJobs.it_Ident i) d'.
Proof.
  intros Hd. simpl. destruct (MemJobs.Requeue_ h d i m) as [[m1 r1]|] eqn:E; [|done]. simpl.
  pose proof (MemJobs.Requeue_fits _ _ _ _ _ _ Hd E) as ->. intros (-> & _)%answer_Some. simpl.
  unfold MemJobs.Requeue_ in E. cbv zeta in E. destruct (_ || _); [|done]. injection E as E.
  change m1 with (m1, Ok tt).1. rewrite <- E, MemJobs.handleItem_idents, E. by left.
Qed.

Lemma mem_dexec_holds ev m d' r id :
  ev_before ev = DMemory m → spares id ev → mem_exec (ev_env ev) (ev_act ev) m = Some (d', r) →
  id ∈ MemJobs.idents m → holds id d'.
Proof.
  destruct ev as [h e a d0]. unfold spares. simpl. intros -> Hs He Hin. destruct a; simpl in He; try done.
  - unfold MemJobs.Push in He. destruct (MemJobs.pipe m); [|by apply answer_Some in He as (-> & _)].
    destruct (MemJobs.handleItem _ _ _) as [m1 r1] eqn:E. apply answer_Some in He as (-> & _). simpl.
    change m1 with (m1, r1).1. rewrite <- E. by apply mem_handleItem_holds.
  - by injection He as <- <-.
  - destruct (MemJobs.Run m) as [m1 r1] eqn:E. apply answer_Some in He as (-> & _). simpl.
    apply (mem_exec_holds MemJobs.ARun m); [simpl; by rewrite E|apply not_elem_of_nil|done].
  - apply (mem_run_holds MemJobs.APause _ _ _ _ He); [apply not_elem_of_nil|done].
  - apply (mem_run_holds MemJobs.AResume _ _ _ _ He); [apply not_elem_of_nil|done].
  - apply (mem_run_holds (MemJobs.AExtract n) _ _ _ _ He); [apply not_elem_of_nil|done].
  - destruct (MemJobs.held m !! n) as [i|] eqn:E; [|done]. simpl in He.
    apply (MemJobs.release_idents n i m) in E as Hp. rewrite Hp in Hin.
    apply elem_of_cons in Hin as [->|Hin]; [|by eapply mem_settle_holds].
    destruct Hs as [(hd & dl & -> & Hd)|Hs]; [|by destruct (Hs i)].
    exact (mem_requeue_holds hd dl i (MemJobs.release n m) d' r Hd He).
  - destruct i; [|done]. by eapply mem_settle_holds.
  - apply (mem_run_holds (MemJobs.AStart n) _ _ _ _ He); [apply not_elem_of_nil|done].
  - apply (mem_run_holds (MemJobs.AWake n) _ _ _ _ He); [|done]. unfold MemJobs.removed. simpl.
    destruct (MemJobs.has_room m); [apply not_elem_of_nil|]. destruct Hs as [?|Hs]; [done|].
    destruct (MemJobs.sleeping m !! n) as [i|]; [|apply not_elem_of_nil].
    intros Hi%list_elem_of_singleton. by destruct (Hs i).
  - apply (mem_run_holds MemJobs.AConsume _ _ _ _ He); [apply not_elem_of_nil|done].
Qed.

Lemma bolt_settle_holds now c i b d' r id :
  bolt_spares id now c i b → bolt_settle now c i b = Some (d', r) → holds id (DBolt b) → holds id d'.
Proof.
  intros Hs He Hk. destruct c as [| |h d|]; simpl in *.
  - pose proof (BoltJobs.Ack_keeps id i b Hs Hk) as H. destruct (BoltJobs.Ack i b).
    by apply answer_Some in He as (-> & _).
  - pose proof (BoltJobs.Nack_keeps id i b Hs Hk) as H. destruct (BoltJobs.Nack i b).
    by apply answer_Some in He as (-> & _).
  - pose proof (BoltJobs.Requeue_keeps id now h d i b Hs Hk) as H. destruct (BoltJobs.Requeue_ now h d i b).
    by apply answer_Some in He as (-> & _).
  - by injection He as <- <-.
Qed.

Lemma bolt_run_holds a b d' r id :
  done_ ∘ DBolt <$> BoltJobs.exec a b = Some (d', r) → BoltJobs.respects id a b →
  holds id (DBolt b) → holds id d'.
Proof.
  destruct (BoltJobs.exec a b) as [b1|] eqn:E; [|done]. intros [= <- <-] Hr. by apply (BoltJobs.exec_keeps id a).
Qed.

Lemma bolt_dexec_holds ev b d' r id :
  ev_before ev = DBolt b → spares id ev → bolt_exec (ev_env ev) (ev_act ev) b = Some (d', r) →
  holds id (DBolt b) → holds id d'.
Proof.
  destruct ev as [h e a d0]. unfold spares. simpl. intros -> Hs He Hk. destruct a; simpl in He; try done.
  - pose proof (BoltJobs.Push_keeps id (e_now e) j b Hs Hk) as H. destruct (BoltJobs.Push _ _ _).
    by apply answer_Some in He as (-> & _).
  - by injection He as <- <-.
  - pose proof (BoltJobs.exec_keeps id (BoltJobs.ARun name) b _ I eq_refl Hk) as H. simpl in H.
    destruct (BoltJobs.Run name b). by apply answer_Some in He as (-> & _).
  - by apply (bolt_run_holds (BoltJobs.APause (e_tl e)) _ _ _ _ He).
  - by apply (bolt_run_holds BoltJobs.AResume _ _ _ _ He).
  - by apply (bolt_run_holds (BoltJobs.AExtract n) _ _ _ _ He).
  - destruct (BoltJobs.held b !! n) as [i|] eqn:E; [|done].
    by apply (bolt_settle_holds _ _ _ (BoltJobs.release n b) _ _ id (Hs i eq_refl) He).
  - destruct i; [done|]. by apply (bolt_settle_holds _ _ _ _ _ _ id Hs He).
  - destruct (BoltJobs.loops b); [done|]. pose proof (BoltJobs.listener_tick_keeps id b Hk) as H.
    destruct (BoltJobs.listener_tick b). by apply answer_Some in He as (-> & _).
  - destruct (BoltJobs.dloops b); [done|]. pose proof (BoltJobs.delayed_tick_keeps id visited (e_now e) b Hs Hk) as H.
    destruct (BoltJobs.delayed_tick _ _ _). by apply answer_Some in He as (-> & _).
Qed.

Lemma dexec_holds ev d' r id :
  spares id ev → dexec (ev_env ev) (ev_act ev) (ev_before ev) = Some (d', r) →
  holds id (ev_before ev) → holds id d'.
Proof.
  destruct (ev_before ev) as [m|b] eqn:E; simpl; intros.
  - by eapply mem_dexec_holds.
  - by eapply bolt_dexec_holds.
Qed.

(** An accepted push puts the job there. *)
Lemma driver_push_holds e j d d' :
  sound d → dexec e (Push_ j) d = Some (d', None) → holds (jb_Ident j) d'.
Proof.
  destruct d as [m|b]; simpl.
  - intros _. unfold MemJobs.Push. destruct (MemJobs.pipe m).
    2:{ intros (_ & _ & H)%answer_Some. by discriminate H. }
    destruct (MemJobs.handleItem _ _ _) as [m1 r] eqn:E. intros (-> & _ & H)%answer_Some. specialize (H eq_refl).
    destruct r; try done. simpl. change m1 with (m1, Ok a).1. rewrite <- E, MemJobs.handleItem_idents, E. by left.
  - intros (Pm & Q & D & Hv & Hw). destruct (BoltJobs.Push (e_now e) j b) as [b1 r] eqn:E.
    intros (-> & _ & H)%answer_Some. specialize (H eq_refl). subst r. simpl. by eapply BoltJobs.Push_stores.
Qed.

(** ** Steps of the drivers *)

Definition made (d : driver) : Prop :=
  ∃ e, (∃ key, memory_from_config key e = Ok d ∨ boltdb_from_config key e = Ok d) ∨
       (∃ p, memory_from_pipeline p e = Ok d ∨ boltdb_from_pipeline p e = Ok d).

Inductive wstep (w : world) : world → Prop :=
  | ws_act h a d d' e :
      drivers w !! h = Some d → dexec (choice (clock w)) a d = Some (d', e) →
      wstep w (MkWorld (<[h := d']> (drivers w)) (S (clock w))
                 (trace w ++ [MkEvent h (choice (clock w)) a d]))
  | ws_made d : made d → wstep w (MkWorld (drivers w ++ [d]) (S (clock w)) (trace w))
  | ws_refused : wstep w (MkWorld (drivers w) (S (clock w)) (trace w)).

(** From the one to the other, as long as the process lives. *)
Definition reach (w w' : option world) : Prop :=
  match w' with None => True | Some w' => ∃ w0, w = Some w0 ∧ rtc wstep w0 w' end.

#[local] Instance reach_preorder : PreOrder reach.
Proof.
  split.
  - intros [w|]; [|done]. by exists w.
  - intros w1 w2 [w3|] H1 H2; [|done]. destruct H2 as (w2' & -> & H2). destruct H1 as (w1' & -> & H1).
    exists w1'. split; [done|]. by etrans.
Qed.

Lemma do_spec h a w w' e :
  do_ h a w = (Some w', e) → ∃ w0 d d', w = Some w0 ∧ drivers w0 !! h = Some d ∧
    dexec (choice (clock w0)) a d = Some (d', e) ∧
    w' = MkWorld (<[h := d']> (drivers w0)) (S (clock w0)) (trace w0 ++ [MkEvent h (choice (clock w0)) a d]).
Proof.
  unfold do_. destruct w as [w|]; [|done]. simpl. destruct (drivers w !! h) as [d|] eqn:Ed; [|done]. simpl.
  destruct (dexec _ a d) as [[d' e']|] eqn:Ee; [|done]. simpl. intros [= <- <-]. by exists w, d, d'.
Qed.

Lemma do_reach h a w : reach w (do_ h a w).1.
Proof.
  destruct (do_ h a w) as [[w'|] e] eqn:E; [|done]. apply do_spec in E as (w0 & d & d' & -> & Hd & He & ->).
  exists w0. split; [done|]. apply rtc_once. by eapply ws_act.
Qed.

Lemma create_reach f w : (∀ e d, f e = Ok d → made d) → reach w (create f w).1.
Proof.
  intros Hf. unfold create. destruct w as [w|]; [|done]. destruct (f _) as [d|e|] eqn:E; [| |done]; simpl;
    exists w; (split; [done|]); apply rtc_once; [|apply ws_refused]. by eapply ws_made, Hf.
Qed.

Abbreviation plugin := (Plugin P (option world) nat).

Definition known (c : Constructor P (option world) nat) : Prop := c = memory_plugin ∨ c = boltdb_plugin.
Definition constructors_known (p : plugin) : Prop := ∀ n c, jobConstructors p !! n = Some c → known c.

Lemma from_config_reach c key w : known c → reach w (ConsumerFromConfig c key w).1.
Proof. intros [-> | ->]; apply create_reach; intros e d Hd; exists e; left; exists key; auto. Qed.
Lemma from_pipeline_reach c p w : known c → reach w (ConsumerFromPipeline c p w).1.
Proof. intros [-> | ->]; apply create_reach; intros e d Hd; exists e; right; exists p; auto. Qed.

(** An operation of the plugin is a sequence of such steps. *)
Lemma serve_pipeline_reach name pipe (p : plugin) w :
  constructors_known p → reach w (serve_pipeline name pipe p w).1.2.
Proof.
  intros Hk. unfold serve_pipeline. destruct (String.eqb _ _); [done|].
  destruct (jobConstructors p !! Driver pipe) as [c|] eqn:Ec; [|done].
  pose proof (from_config_reach c (config_key name) w (Hk _ _ Ec)) as H1.
  destruct (ConsumerFromConfig c _ w) as [w1 [h|e]]; simpl in H1; [|done].
  pose proof (do_reach h (Register_ (Name pipe) (Driver pipe)) w1) as H2. simpl.
  destruct (do_ h _ w1) as [w2 [e|]]; simpl in *; [by etrans|].
  destruct (bool_decide _); [|by etrans].
  pose proof (do_reach h (Run_ (Name pipe)) w2) as H3. destruct (do_ h _ w2) as [w3 e]. simpl in *. by repeat (etrans; [done|]).
Qed.

Lemma serve_loop_reach order (p : plugin) w : constructors_known p → reach w (serve_loop order p w).1.2.
Proof.
  revert p w. induction order as [|[name pipe] order IH]; intros p w Hk; simpl; [done|].
  pose proof (serve_pipeline_reach name pipe p w Hk) as H1.
  pose proof (serve_pipeline_maps name pipe p w) as (_ & _ & Hc & _).
  destruct (serve_pipeline name pipe p w) as [[p1 w1] [e|]]; simpl in *; [done|].
  etrans; [exact H1|]. apply IH. intros n c. rewrite Hc. apply Hk.
Qed.

Lemma push_reach j (p : plugin) w : reach w (Push j p w).1.2.
Proof.
  unfold Push. destruct (pipelines p !! _) as [ppl|]; [|done]. destruct (consumers p !! _) as [h|]; [|done]. simpl.
  pose proof (do_reach h (Push_ (inherit_priority j ppl)) w) as H. by destruct (do_ h _ w) as [w1 [e|]].
Qed.

Lemma push_batch_reach js (p : plugin) w : reach w (PushBatch js p w).1.2.
Proof.
  revert w. induction js as [|j js IH]; intros w; simpl; [done|].
  destruct (pipelines p !! _) as [ppl|]; [|done]. destruct (consumers p !! _) as [h|]; [|done].
  pose proof (do_reach h (Push_ (inherit_priority j ppl)) w) as H. destruct (do_ h _ w) as [w1 [e|]]; [done|].
  simpl in *. by etrans.
Qed.

Lemma declare_reach pipe (p : plugin) w : constructors_known p → reach w (Declare_ pipe p w).1.2.
Proof.
  intros Hk. unfold Declare_. destruct (String.eqb _ _); [done|].
  destruct (jobConstructors p !! Driver pipe) as [c|] eqn:Ec; [|done].
  pose proof (from_pipeline_reach c pipe w (Hk _ _ Ec)) as H1.
  destruct (ConsumerFromPipeline c _ w) as [w1 [h|e]]; simpl in H1; [|done].
  pose proof (do_reach h (Register_ (Name pipe) (Driver pipe)) w1) as H2. simpl.
  destruct (do_ h _ w1) as [w2 [e|]]; simpl in *; [by etrans|].
  pose proof (do_reach h (Run_ (Name pipe)) w2) as H3.
  destruct (bool_decide _); [|by etrans].
  destruct (do_ h _ w2) as [w3 [e|]]; simpl in *; by repeat (etrans; [done|]).
Qed.

Lemma destroy_reach pp (p : plugin) w : reach w (Destroy pp p w).1.2.
Proof.
  unfold Destroy. destruct (pipelines p !! _) as [ppl|]; [|done]. destruct (consumers p !! _) as [h|]; [|done]. simpl.
  pose proof (do_reach h Stop_ w) as H. by destruct (do_ h _ w) as [w1 e].
Qed.

Lemma stop_reach (p : plugin) w : reach w (Jobs.Stop p w).2.
Proof.
  unfold Jobs.Stop, stop_consumers. simpl. generalize (range_map (consumers p)) as l. intros l. revert w.
  induction l as [|[k h] l IH]; intros w; simpl; [done|]. etrans; [apply (do_reach h Stop_ w)|apply IH].
Qed.

Lemma call_reach (s s' : plugin * option world) :
  Jobs.step s s' → constructors_known s.1 → reach s.2 s'.2.
Proof.
  intros Hs Hk. destruct Hs as [s s' Hs|p w]; [destruct Hs; simpl in *|apply stop_reach].
  - unfold Serve. pose proof (serve_loop_reach (range_map (pipelines p)) p w Hk) as H.
    destruct (serve_loop _ p w) as [[p1 w1] [e|]]; [done|]. by destruct np.
  - apply push_reach.
  - apply push_batch_reach.
  - unfold Pause. destruct (pipelines p !! pp) as [ppl|]; [|done].
    destruct (consumers p !! _) as [h|]; [|done]. apply do_reach.
  - unfold Resume. destruct (pipelines p !! pp) as [ppl|]; [|done].
    destruct (consumers p !! _) as [h|]; [|done]. apply do_reach.
  - by apply declare_reach.
  - apply destroy_reach.
  - done.
Qed.

(** ** The system *)

Definition goroutine (a : act) : bool :=
  match a with
  | Take _ | MemStart _ | MemWake _ | MemConsume | BoltTick | BoltDelayed _ => true
  | _ => false
  end.

(** A call of the plugin, a turn of a goroutine, or a round of a poller. *)
Inductive sys_step : plugin * option world → plugin * option world → Prop :=
  | sys_call s s' : Jobs.step s s' → constructors_known s'.1 → sys_step s s'
  | sys_turn h a p w : goroutine a = true → sys_step (p, w) (p, (do_ h a w).1)
  | sys_poll h n pick pk exec s s' p w w' :
      poll h n pick pk exec s w = Some (s', w') → sys_step (p, w) (p, w').

(** A relation that every action on a driver respects is respected by a round. *)
Lemma poll_related (R : option world → option world → Prop) `{RP : !PreOrder R} h n pick pk exec s w s' w' :
  (∀ n c w, R w (do_ h (Settle n c) w).1) → (∀ i c w, R w (do_ h (Again i c) w).1) →
  poll h n pick pk exec s w = Some (s', w') → R w w'.
Proof.
  intros HR Ha. unfold poll. destruct (w0 ← w; _) as [i|]; [|done]. simpl.
  destruct (poll_one _ _ _ _ _ _ _) as [[s1 [w1 [n1 i1]]]|e|] eqn:E; [|done..]. intros [= <- <-].
  assert (RP1 : PreOrder (λ x y : option world * (option nat * item), R x.1 y.1)).
  { split; [intros x; reflexivity|intros x y z; apply transitivity]. }
  apply (poll_one_related (settle_call h) (λ x y, R x.1 y.1)) in E; [exact E|].
  intros c [w2 [[n2|] i2]]; unfold settle_call; simpl.
  - specialize (HR n2 c w2). by destruct (do_ h _ w2).
  - specialize (Ha i2 c w2). by destruct (do_ h _ w2).
Qed.

Lemma sys_step_reach s s' : sys_step s s' → constructors_known s.1 → reach s.2 s'.2 ∧ constructors_known s'.1.
Proof.
  intros Hs Hk. destruct Hs as [s s' Hs Hk'|h a p w Ha|h n pick pk exec s s' p w w' Hp]; simpl in *.
  - split; [by apply call_reach|done].
  - split; [apply do_reach|done].
  - split; [|done]. eapply (poll_related reach); [intros; apply do_reach..|exact Hp].
Qed.

Lemma sys_reach s s' : rtc sys_step s s' → constructors_known s.1 → reach s.2 s'.2.
Proof.
  induction 1 as [s|s1 s2 s3 H12 _ IH]; intros Hk; [done|].
  destruct (sys_step_reach _ _ H12 Hk) as [Hr Hk2]. etrans; [exact Hr|by apply IH].
Qed.

(** *** Consumers and their pipelines *)

(** The name a driver was registered with. *)
Definition registered (d : driver) : option string :=
  match d with DMemory m => MemJobs.pipe m | DBolt b => fst <$> BoltJobs.pipe b end.
Definition names (w : world) : list (option string) := registered <$> drivers w.

Lemma mem_settle_registered c i m d' r : mem_settle c i m = Some (d', r) → registered d' = MemJobs.pipe m.
Proof.
  destruct c as [| |h d|]; simpl.
  - intros [= <- <-]. simpl. apply MemJobs.reduce_frame.
  - intros [= <- <-]. simpl. apply MemJobs.reduce_frame.
  - unfold MemJobs.Requeue_. cbv zeta. destruct (_ || _); [|done]. simpl.
    set (i1 := MemJobs.item_requeued h d i). pose proof (MemJobs.handleItem_frame false i1 (MemJobs.atomicallyReduceCount i1 m)) as Hf.
    destruct (MemJobs.handleItem _ _ _) as [m1 r1] eqn:E. intros (-> & _)%answer_Some. simpl.
    destruct Hf as [_ Hf]. simpl in Hf. rewrite Hf. apply MemJobs.reduce_frame.
  - by intros [= <- <-].
Qed.

Lemma mem_run_registered a m d' r :
  done_ ∘ DMemory <$> MemJobs.exec a m = Some (d', r) → registered d' = MemJobs.pipe m.
Proof.
  destruct (MemJobs.exec a m) as [m1|] eqn:E; [|done]. intros [= <- <-]. by apply (MemJobs.exec_frame a).
Qed.

Lemma mem_registered e a m d' r :
  mem_exec e a m = Some (d', r) →
  registered d' = match a with Register_ n _ => Some n | _ => MemJobs.pipe m end.
Proof.
  destruct a; simpl; intros He; try done.
  - destruct (MemJobs.Push (e_done e) j m) as [m1 r1] eqn:E. apply answer_Some in He as (-> & Hr & _).
    apply (mem_run_registered (MemJobs.APush (e_done e) j) m _ None). simpl. rewrite E. by destruct r1.
  - by injection He as <- <-.
  - destruct (MemJobs.Run m) as [m1 r1] eqn:E. apply answer_Some in He as (-> & Hr & _).
    apply (mem_run_registered MemJobs.ARun m _ None). simpl. by rewrite E.
  - by apply (mem_run_registered (MemJobs.AStop (e_taken e)) _ _ _ He).
  - by apply (mem_run_registered MemJobs.APause _ _ _ He).
  - by apply (mem_run_registered MemJobs.AResume _ _ _ He).
  - by apply (mem_run_registered (MemJobs.AExtract n) _ _ _ He).
  - destruct (MemJobs.held m !! n); [|done]. by apply mem_settle_registered in He.
  - destruct i; [|done]. by eapply mem_settle_registered.
  - by apply (mem_run_registered (MemJobs.AStart n) _ _ _ He).
  - by apply (mem_run_registered (MemJobs.AWake n) _ _ _ He).
  - by apply (mem_run_registered MemJobs.AConsume _ _ _ He).
Qed.

Lemma bolt_registered e a b d' r :
  bolt_exec e a b = Some (d', r) →
  registered d' = match a with Register_ n _ => Some n | _ => registered (DBolt b) end.
Proof.
  destruct a; simpl; unfold bolt_settle, BoltJobs.Push, BoltJobs.Run, BoltJobs.Stop, BoltJobs.Pause, BoltJobs.Resume,
    BoltJobs.stop_two, BoltJobs.Ack, BoltJobs.Nack, BoltJobs.Requeue_, BoltJobs.listener_tick,
    BoltJobs.delayed_tick, BoltJobs.count, answer, reply, mbind, option_bind, fmap, option_fmap, option_map;
    repeat (case_match; simplify_eq/=); try done;
    intros [= <- <-]; simpl; simplify_option_eq; done.
Qed.

Lemma dexec_registered e a d d' r :
  dexec e a d = Some (d', r) →
  registered d' = match a with Register_ n _ => Some n | _ => registered d end.
Proof. destruct d; [apply mem_registered|apply bolt_registered]. Qed.

Lemma do_names h a w w' e :
  do_ h a w = (Some w', e) → ∃ w0, w = Some w0 ∧
    names w' = match a with Register_ n _ => <[h := Some n]> (names w0) | _ => names w0 end.
Proof.
  intros (w0 & d & d' & -> & Hd & He & ->)%do_spec. exists w0. split; [done|]. apply dexec_registered in He.
  unfold names. simpl. rewrite list_fmap_insert, He. destruct a; try done;
    apply list_insert_id; by rewrite list_lookup_fmap, Hd.
Qed.

(** The drivers keep their names. *)
Definition same (w w' : option world) : Prop :=
  match w' with None => True | Some w' => ∃ w0, w = Some w0 ∧ names w' = names w0 end.

#[local] Instance same_preorder : PreOrder same.
Proof.
  split.
  - intros [w|]; [|done]. by exists w.
  - intros w1 w2 [w3|] H1 H2; [|done]. destruct H2 as (w2' & -> & H2). destruct H1 as (w1' & -> & H1).
    exists w1'. split; [done|]. congruence.
Qed.

Definition names_nobody (a : act) : bool := match a with Register_ _ _ => false | _ => true end.

Lemma do_same h a w : names_nobody a = true → same w (do_ h a w).1.
Proof.
  intros Ha. destruct (do_ h a w) as [[w'|] e] eqn:E; [|done]. apply do_names in E as (w0 & -> & Hn).
  exists w0. split; [done|]. by destruct a.
Qed.

(** The consumer of a pipeline is registered under its name; so different
    pipelines have different drivers. *)
Definition linked (p : plugin) (w : option world) : Prop :=
  match w with None => True | Some w => ∀ n h, consumers p !! n = Some h → names w !! h = Some (Some n) end.

Lemma linked_same p p' w w' : same w w' → consumers p' ⊆ consumers p → linked p w → linked p' w'.
Proof.
  destruct w' as [w'|]; [|done]. intros (w0 & -> & Hn) Hc Hl n h Hh. simpl. rewrite Hn. apply Hl.
  by eapply lookup_weaken.
Qed.

Lemma create_names f w w' h :
  create f w = (Some w', inl h) → ∃ w0 d, w = Some w0 ∧ names w' = names w0 ++ [registered d] ∧ h = length (names w0).
Proof.
  unfold create. destruct w as [w|]; [|done]. destruct (f _) as [d|e|]; [|done..]. intros [= <- <-].
  exists w, d. unfold names. simpl. by rewrite fmap_app, length_fmap.
Qed.

Lemma create_refused f w w' e : create f w = (w', inr e) → same w w'.
Proof.
  unfold create. destruct w as [w|]; [|by intros [= <- <-]]. destruct (f _) as [d|e'|]; [done|..].
  - intros [= <- <-]. by exists w.
  - by intros [= <- <-].
Qed.

(** A new driver that is registered takes a new place. *)
Lemma attach f w w1 h n dr w2 e :
  create f w = (w1, inl h) → do_ h (Register_ n dr) w1 = (Some w2, e) →
  ∃ w0, w = Some w0 ∧ names w2 = names w0 ++ [Some n] ∧ h = length (names w0).
Proof.
  intros Hc Hd. apply do_names in Hd as (w1' & -> & Hn). apply create_names in Hc as (w0 & d & -> & Hn1 & ->).
  exists w0. split_and!; [done| |done]. rewrite Hn, Hn1.
  rewrite insert_app_r_alt, Nat.sub_diag by done. done.
Qed.

Lemma linked_attach (p : plugin) w0 w n c :
  linked p (Some w0) → names w = names w0 ++ [Some n] → consumers c = <[n := length (names w0)]> (consumers p) →
  linked c (Some w).
Proof.
  intros Hl Hn Hc k h. rewrite Hc, Hn. destruct (decide (n = k)) as [<-|Hne].
  - rewrite lookup_insert_eq. intros [= <-]. by rewrite lookup_app_r, Nat.sub_diag by done.
  - rewrite lookup_insert_ne by done. intros Hk. rewrite lookup_app_l; [by apply Hl|].
    by eapply lookup_lt_Some, Hl.
Qed.

Lemma known_create c : known c →
  (∀ key, ∃ f, ConsumerFromConfig c key = create f) ∧ (∀ p, ∃ f, ConsumerFromPipeline c p = create f).
Proof. intros [-> | ->]; split; intros; by eexists. Qed.

Lemma serve_pipeline_linked name pipe (p : plugin) w :
  constructors_known p → Name pipe = name → linked p w →
  linked (serve_pipeline name pipe p w).1.1 (serve_pipeline name pipe p w).1.2.
Proof.
  intros Hk Hn Hl. unfold serve_pipeline. destruct (String.eqb _ _); [done|].
  destruct (jobConstructors p !! Driver pipe) as [c|] eqn:Ec; [|done].
  destruct (known_create c (Hk _ _ Ec)) as [Hf _]. destruct (Hf (config_key name)) as [f ->].
  destruct (create f w) as [w1 [h|e]] eqn:E1; [|by eapply linked_same; [eapply create_refused|..]]. simpl. rewrite Hn.
  destruct (do_ h (Register_ _ _) w1) as [[w2|] e] eqn:E2.
  2:{ destruct e; [done|]. destruct (bool_decide _); [|done]. by destruct (do_ h _ None) as [[]] eqn:E. }
  destruct (attach _ _ _ _ _ _ _ _ E1 E2) as (w0 & -> & Hn2 & ->).
  assert (H2 : linked (with_consumers (<[name := length (names w0)]> (consumers p)) p) (Some w2))
    by (by eapply linked_attach).
  destruct e; [done|]. destruct (bool_decide _); [|done].
  pose proof (do_same (length (names w0)) (Run_ name) (Some w2) eq_refl) as Hs.
  destruct (do_ _ (Run_ _) _) as [w3 e]. by eapply linked_same.
Qed.

Lemma serve_loop_linked order (p : plugin) w :
  constructors_known p → (∀ name pipe, (name, pipe) ∈ order → Name pipe = name) → linked p w →
  linked (serve_loop order p w).1.1 (serve_loop order p w).1.2.
Proof.
  revert p w. induction order as [|[name pipe] order IH]; intros p w Hk Ho Hl; simpl; [done|].
  assert (H1 := serve_pipeline_linked name pipe p w Hk (Ho _ _ (list_elem_of_here _ _)) Hl).
  pose proof (serve_pipeline_maps name pipe p w) as (_ & _ & Hc & _).
  destruct (serve_pipeline name pipe p w) as [[p1 w1] [e|]]; simpl in *; [done|].
  apply IH; [intros n c; rewrite Hc; apply Hk| |done]. intros n q Hq. apply Ho. by right.
Qed.

Lemma declare_linked pipe (p : plugin) w :
  constructors_known p → linked p w → linked (Declare_ pipe p w).1.1 (Declare_ pipe p w).1.2.
Proof.
  intros Hk Hl. unfold Declare_. destruct (String.eqb _ _); [done|].
  destruct (jobConstructors p !! Driver pipe) as [c|] eqn:Ec; [|done].
  destruct (known_create c (Hk _ _ Ec)) as [_ Hf]. destruct (Hf pipe) as [f ->].
  destruct (create f w) as [w1 [h|e]] eqn:E1; [|by eapply linked_same; [eapply create_refused|..]]. simpl.
  destruct (do_ h (Register_ _ _) w1) as [[w2|] e] eqn:E2.
  2:{ destruct e; [done|]. destruct (bool_decide _); [|done]. by destruct (do_ h _ None) as [[] []] eqn:E. }
  destruct (attach _ _ _ _ _ _ _ _ E1 E2) as (w0 & -> & Hn2 & ->).
  assert (H2 : linked (with_consumers (<[Name pipe := length (names w0)]> (consumers p)) p) (Some w2))
    by (by eapply linked_attach).
  assert (H0 : linked p (Some w2)).
  { intros n h Hh. rewrite Hn2, lookup_app_l; [by apply Hl|]. by eapply lookup_lt_Some, Hl. }
  destruct e; [done|]. destruct (bool_decide _); [|done].
  pose proof (do_same (length (names w0)) (Run_ (Name pipe)) (Some w2) eq_refl) as Hs.
  destruct (do_ _ (Run_ _) _) as [w3 [e|]]; by eapply linked_same.
Qed.

Lemma push_same j (p : plugin) w : same w (Push j p w).1.2 ∧ consumers (Push j p w).1.1 = consumers p.
Proof.
  unfold Push. destruct (pipelines p !! _) as [ppl|]; [|done]. destruct (consumers p !! _) as [h|]; [|done]. simpl.
  pose proof (do_same h (Push_ (inherit_priority j ppl)) w eq_refl) as H. by destruct (do_ h _ w) as [w1 [e|]].
Qed.

Lemma push_batch_same js (p : plugin) w : same w (PushBatch js p w).1.2.
Proof.
  revert w. induction js as [|j js IH]; intros w; simpl; [done|].
  destruct (pipelines p !! _) as [ppl|]; [|done]. destruct (consumers p !! _) as [h|]; [|done].
  pose proof (do_same h (Push_ (inherit_priority j ppl)) w eq_refl) as H. destruct (do_ h _ w) as [w1 [e|]]; [done|].
  simpl in *. by etrans.
Qed.

Lemma stop_same (p : plugin) w : same w (Jobs.Stop p w).2.
Proof.
  unfold Jobs.Stop, stop_consumers. simpl. generalize (range_map (consumers p)) as l. intros l. revert w.
  induction l as [|[k h] l IH]; intros w; simpl; [done|]. etrans; [by apply (do_same h Stop_ w)|apply IH].
Qed.

Lemma call_linked (s s' : plugin * option world) :
  Jobs.step s s' → constructors_known s.1 → Jobs.named s.1 → linked s.1 s.2 → linked s'.1 s'.2.
Proof.
  intros Hs Hk Hw Hl. destruct Hs as [s s' Hs|p w].
  2:{ eapply linked_same; [apply stop_same|done|done]. }
  destruct Hs; simpl in *.
  - assert (H : linked (serve_loop (range_map (pipelines p)) p w).1.1 (serve_loop (range_map (pipelines p)) p w).1.2).
    { apply serve_loop_linked; [done| |done]. intros name pipe Hin%elem_of_range_map. by apply (Hw name pipe). }
    unfold Serve. destruct (serve_loop _ p w) as [[p1 w1] [e|]]; [done|]. by destruct np.
  - destruct (push_same j p w) as [H1 H2]. eapply linked_same; [exact H1|by rewrite H2|done].
  - eapply linked_same; [apply push_batch_same|by rewrite (proj2 (PushBatch_maps js p w))|done].
  - unfold Pause. destruct (pipelines p !! pp) as [ppl|]; [|done].
    destruct (consumers p !! _) as [h|]; [|done]. eapply linked_same; [by apply do_same|done|done].
  - unfold Resume. destruct (pipelines p !! pp) as [ppl|]; [|done].
    destruct (consumers p !! _) as [h|]; [|done]. eapply linked_same; [by apply do_same|done|done].
  - by apply declare_linked.
  - unfold Destroy. destruct (pipelines p !! pp) as [ppl|]; [|done].
    destruct (consumers p !! Name ppl) as [h|] eqn:Eh; [|done]. simpl.
    pose proof (do_same h Stop_ w eq_refl) as H. destruct (do_ h _ w) as [w1 e]. simpl in *.
    eapply linked_same; [exact H|simpl; apply delete_subseteq|done].
  - done.
Qed.

Definition sys_ok (s : plugin * option world) : Prop :=
  constructors_known s.1 ∧ Jobs.named s.1 ∧ linked s.1 s.2.

Lemma sys_step_ok s s' : sys_step s s' → sys_ok s → sys_ok s'.
Proof.
  intros Hs (Hk & Hw & Hl). pose proof (proj2 (sys_step_reach _ _ Hs Hk)) as Hk'. split; [done|].
  destruct Hs as [s s' Hs _|h a p w Ha|h n pick pk exec s s' p w w' Hp]; simpl in *.
  - split; [by eapply jobs_step_named|by eapply call_linked].
  - split; [done|]. eapply linked_same; [apply do_same; by destruct a|done|done].
  - split; [done|]. eapply linked_same; [|done|done].
    eapply (poll_related same); [intros; by apply do_same..|exact Hp].
Qed.

Lemma sys_steps_ok s s' : rtc sys_step s s' → sys_ok s → sys_ok s'.
Proof. induction 1; eauto using sys_step_ok. Qed.

Lemma jobs_Init_ok `{PL : !PipelineLaws P} hs unmarshal n (p : plugin) w : Init hs unmarshal n = Ok p → sys_ok (p, w).
Proof.
  intros Hi. pose proof (Init_wf _ _ _ _ Hi) as [Hw _]. unfold Init in Hi.
  destruct (negb _); [done|]. destruct (unmarshal "jobs") as [[c|]|e|]; try done. injection Hi as <-.
  split_and!; [|done|].
  - intros k c'. simpl. by rewrite lookup_empty.
  - destruct w as [w|]; [|done]. intros k h. simpl. by rewrite lookup_empty.
Qed.

(** The state of a consumer of the plugin does not panic. *)
Lemma state_answers (p : plugin) w n h :
  linked p (Some w) → consumers p !! n = Some h → ∃ s, state_of h (Some w) = inl s ∧ st_Pipeline s = n.
Proof.
  intros Hl Hc. apply Hl in Hc. unfold names in Hc. rewrite list_lookup_fmap in Hc.
  unfold state_of. simpl. destruct (drivers w !! h) as [[m|b]|]; [| |done]; simpl in *; injection Hc as Hc.
  - unfold MemJobs.State_. rewrite Hc. by eexists.
  - unfold BoltJobs.State_. destruct (BoltJobs.pipe b) as [[n' dr]|]; [|done]. simpl in Hc. injection Hc as ->. by eexists.
Qed.

(** C31: in every state the plugin reaches with its drivers, whatever the order of
    its calls, the turns of goroutines and the rounds of pollers, the consumer
    of a pipeline is a driver registered under the name of the pipeline, and no
    two pipelines share a driver. *)
Theorem jobs_consumers_separate `{PL : !PipelineLaws P} hs unmarshal n (p0 p : plugin) w0 w :
  Init hs unmarshal n = Ok p0 → rtc sys_step (p0, Some w0) (p, Some w) →
  (∀ k h, consumers p !! k = Some h → ∃ d, drivers w !! h = Some d ∧ registered d = Some k) ∧
  (∀ k k' h, consumers p !! k = Some h → consumers p !! k' = Some h → k = k').
Proof.
  intros Hi Hr. destruct (sys_steps_ok _ _ Hr (jobs_Init_ok _ _ _ _ _ Hi)) as (_ & _ & Hl). simpl in Hl. split.
  - intros k h Hc%Hl. unfold names in Hc. rewrite list_lookup_fmap in Hc.
    destruct (drivers w !! h) as [d|]; [|done]. injection Hc as Hc. by exists d.
  - intros k k' h H1%Hl H2%Hl. congruence.
Qed.

(** *** Jobs *)

Lemma wstep_trace w w' : wstep w w' → ∃ l, trace w' = trace w ++ l.
Proof. intros []; simpl; [by eexists|exists []; by rewrite app_nil_r..]. Qed.

Lemma wsteps_trace w w' : rtc wstep w w' → ∃ l, trace w' = trace w ++ l.
Proof.
  induction 1 as [w|w1 w2 w3 [l1 H1]%wstep_trace _ [l2 H2]]; [exists []; by rewrite app_nil_r|].
  exists (l1 ++ l2). by rewrite H2, H1, app_assoc.
Qed.

Definition spared (id : string) (h : nat) (l : list event) : Prop :=
  Forall (λ ev, ev_handle ev = h → spares id ev) l.

Lemma wstep_holds w w' l h d id :
  wstep w w' → trace w' = trace w ++ l → spared id h l → drivers w !! h = Some d → holds id d →
  ∃ d', drivers w' !! h = Some d' ∧ holds id d'.
Proof.
  intros Hw Ht Hl Hd Hh. destruct Hw as [h1 a d1 d1' e Hd1 He|dn Hm|]; simpl in *.
  2:{ exists d. split; [by apply lookup_app_l_Some|done]. }
  2:{ by exists d. }
  apply app_inv_head in Ht as <-. unfold spared in Hl. rewrite Forall_singleton in Hl.
  destruct (decide (h1 = h)) as [->|Hne]; [|exists d; by rewrite list_lookup_insert_ne].
  rewrite Hd in Hd1. injection Hd1 as <-. exists d1'.
  split; [apply list_lookup_insert_eq; by eapply lookup_lt_Some|].
  eapply (dexec_holds (MkEvent h (choice (clock w)) a d)); [by apply Hl|exact He|done].
Qed.

Lemma wsteps_holds w w' l h d id :
  rtc wstep w w' → trace w' = trace w ++ l → spared id h l → drivers w !! h = Some d → holds id d →
  ∃ d', drivers w' !! h = Some d' ∧ holds id d'.
Proof.
  intros Hr. revert l d. induction Hr as [w|w1 w2 w3 H12 H23 IH]; intros l d Ht Hl Hd Hh; [by exists d|].
  destruct (wstep_trace _ _ H12) as [l1 H1]. destruct (wsteps_trace _ _ H23) as [l2 H2].
  rewrite H2, H1, <- app_assoc in Ht. apply app_inv_head in Ht as <-. apply Forall_app in Hl as [Hl1 Hl2].
  destruct (wstep_holds _ _ _ _ _ _ H12 H1 Hl1 Hd Hh) as (d2 & Hd2 & Hh2). by eapply IH.
Qed.

(** A push the plugin accepts changes the driver of the pipeline and no other
    one. *)
Lemma push_routes j (p p' : plugin) w w' :
  Push j p (Some w) = (p', Some w', None) →
  ∃ ppl h d d', pipelines p !! jb_Pipeline j = Some ppl ∧ consumers p !! Name ppl = Some h ∧
    drivers w !! h = Some d ∧ drivers w' = <[h := d']> (drivers w) ∧
    jobConstructors p' = jobConstructors p ∧
    dexec (choice (clock w)) (Push_ (inherit_priority j ppl)) d = Some (d', None).
Proof.
  unfold Push. destruct (pipelines p !! _) as [ppl|]; [|done]. destruct (consumers p !! _) as [h|] eqn:Eh; [|done]. simpl.
  destruct (do_ h _ (Some w)) as [w1 [e|]] eqn:Ed; [done|]. intros [= <- ->].
  apply do_spec in Ed as (w0 & d & d' & [= <-] & Hd & He & ->). by exists ppl, h, d, d'.
Qed.


(** *** Bounds *)

Definition bounded (d : driver) : Prop := match d with DMemory m => MemJobs.bounded m | DBolt _ => True end.

Lemma mem_settle_bounded c i m d' r : mem_settle c i m = Some (d', r) → MemJobs.bounded m → bounded d'.
Proof.
  destruct c as [| |h d|]; simpl.
  - intros [= <- <-]. apply MemJobs.reduce_bounded.
  - intros [= <- <-]. apply MemJobs.reduce_bounded.
  - unfold MemJobs.Requeue_. cbv zeta. destruct (_ || _); [|done]. simpl. intros Ha Hb.
    destruct (MemJobs.handleItem _ _ _) as [m1 r1] eqn:E. apply answer_Some in Ha as (-> & _).
    change (MemJobs.bounded (m1, r1).1). rewrite <- E. by apply MemJobs.handleItem_bounded, MemJobs.reduce_bounded.
  - by intros [= <- <-].
Qed.

Lemma mem_run_bounded a m d' r :
  done_ ∘ DMemory <$> MemJobs.exec a m = Some (d', r) → MemJobs.bounded m → bounded d'.
Proof.
  destruct (MemJobs.exec a m) as [m1|] eqn:E; [|done]. intros [= <- <-]. by apply (MemJobs.exec_bounded a).
Qed.

Lemma mem_dexec_bounded e a m d' r : mem_exec e a m = Some (d', r) → MemJobs.bounded m → bounded d'.
Proof.
  destruct a; simpl; intros He; try done.
  - destruct (MemJobs.Push (e_done e) j m) as [m1 r1] eqn:E. apply answer_Some in He as (-> & Hr & _).
    apply (mem_run_bounded (MemJobs.APush (e_done e) j) m _ None). simpl. rewrite E. by destruct r1.
  - by injection He as <- <-.
  - destruct (MemJobs.Run m) as [m1 r1] eqn:E. apply answer_Some in He as (-> & Hr & _).
    apply (mem_run_bounded MemJobs.ARun m _ None). simpl. by rewrite E.
  - by apply (mem_run_bounded (MemJobs.AStop (e_taken e)) _ _ _ He).
  - by apply (mem_run_bounded MemJobs.APause _ _ _ He).
  - by apply (mem_run_bounded MemJobs.AResume _ _ _ He).
  - by apply (mem_run_bounded (MemJobs.AExtract n) _ _ _ He).
  - destruct (MemJobs.held m !! n); [|done]. intros Hb.
    exact (mem_settle_bounded _ _ (MemJobs.release n m) _ _ He Hb).
  - destruct i; [|done]. by eapply mem_settle_bounded.
  - by apply (mem_run_bounded (MemJobs.AStart n) _ _ _ He).
  - by apply (mem_run_bounded (MemJobs.AWake n) _ _ _ He).
  - by apply (mem_run_bounded MemJobs.AConsume _ _ _ He).
Qed.

Lemma bolt_dexec_kind e a b d' r : bolt_exec e a b = Some (d', r) → bounded d'.
Proof.
  destruct a; simpl; unfold bolt_settle, answer, reply, mbind, option_bind, fmap, option_fmap, option_map;
    repeat (case_match; simplify_eq/=); try done; by intros [= <- <-].
Qed.

Context (Hprefetch : ∀ key cf, unmarshal_memory key = Ok (Some cf) → (0 ≤ MemJobs.cfg_Prefetch cf)%Z).

Lemma new_consumer_bounded cf pr cap : (0 ≤ cap)%Z → MemJobs.bounded (MemJobs.new_consumer cf pr cap).
Proof. intros. unfold MemJobs.bounded. simpl. lia. Qed.

Lemma made_bounded d : made d → bounded d.
Proof.
  intros (e & [(key & [H|H])|(q & [H|H])]).
  - unfold memory_from_config, MemJobs.FromConfig in H.
    destruct (unmarshal_memory key) as [[cf|]|e'|] eqn:E; try done. injection H as <-.
    apply new_consumer_bounded. specialize (Hprefetch _ _ E). simpl.
    destruct (Z.eqb_spec (MemJobs.cfg_Prefetch cf) 0); lia.
  - unfold boltdb_from_config in H. destruct (BoltJobs.NewBoltDBJobs _ _ _ _); try done. by injection H as <-.
  - unfold memory_from_pipeline, MemJobs.FromPipeline in H.
    destruct (Z.ltb_spec (p_int q "prefetch" 100000) 0); [done|]. injection H as <-. by apply new_consumer_bounded.
  - unfold boltdb_from_pipeline in H. destruct (BoltJobs.FromPipeline _ _ _ _ _ _); try done. by injection H as <-.
Qed.

Lemma wstep_bounded w w' : wstep w w' → Forall bounded (drivers w) → Forall bounded (drivers w').
Proof.
  intros [h a d d' e Hd He|d Hm|] Hb; simpl; [| |done].
  - apply Forall_insert; [done|]. pose proof (Forall_lookup_1 _ _ _ _ Hb Hd) as Hbd.
    destruct d; [by eapply mem_dexec_bounded|by eapply bolt_dexec_kind].
  - apply Forall_app_2; [done|]. apply Forall_singleton. by apply made_bounded.
Qed.

Lemma wsteps_bounded w w' : rtc wstep w w' → Forall bounded (drivers w) → Forall bounded (drivers w').
Proof. induction 1; eauto using wstep_bounded. Qed.

(** Every memory driver of a system that started without drivers keeps its
    channel within its capacity and at most one forwarding goroutine. *)
Theorem jobs_memory_bounded `{PL : !PipelineLaws P} hs unmarshal n (p0 p : plugin) w h m :
  Init hs unmarshal n = Ok p0 → rtc sys_step (p0, Some (MkWorld [] 0 [])) (p, Some w) →
  drivers w !! h = Some (DMemory m) → MemJobs.bounded m.
Proof.
  intros Hi Hr Hd. destruct (jobs_Init_ok _ _ _ _ (Some (MkWorld [] 0 [])) Hi) as (Hk & _ & _).
  destruct (sys_reach _ _ Hr Hk) as (w0 & [= <-] & Hw).
  assert (Hb : Forall bounded (drivers w)) by (apply (wsteps_bounded _ _ Hw), Forall_nil_2).
  by apply (Forall_lookup_1 _ _ _ _ Hb Hd).
Qed.

End Drivers.

(** ** A concrete system *)

#[local] Existing Instance MapBolt.
#[local] Existing Instance BoltJobs.bit_codec.

#[local] Instance w_json : Json := {|
  dec_protocol b := ((None, None), Some (EExt "json"));
  dec_errorResp b := ((None, None, None, None), None);
  dec_queueResp b := ((None, None), None) |}.

(** The pipeline [fast] is kept in memory, [slow] in a database. *)
Definition w_choice (_ : nat) : env := MkEnv 0 false false 1 (λ _ _, inl (∅ : buckets)).
Definition w_has (_ : string) : bool := true.
Definition w_bolt (_ : string) (c : BoltJobs.config) : res BoltJobs.config := Ok c.
Definition w_memory (_ : string) : res (option MemJobs.Config) := Ok (Some (MemJobs.MkConfig 0 2)).
Definition w_string (_ : ex_pipe) (_ d : string) : string := d.
Definition w_int (_ : ex_pipe) (_ : string) (d : Z) : Z := d.
Definition w_marshal (_ _ : string) (_ : headers) (_ : string) : bytes + error := inl "".
Definition w_job : Job := MkJob "app" "1" "payload" ∅ 0 "fast" 0.

#[local] Instance w_consumer : Consumer ex_pipe (option world) nat := driver_consumer w_choice.
Abbreviation w_plugin := (Plugin ex_pipe (option world) nat).
Abbreviation w_step := (sys_step w_choice w_has w_bolt w_memory w_string w_int w_marshal).

Definition w_config : Config ex_pipe :=
  MkConfig 0 0 0 {[ "fast" := ExPipe "" "memory" 10; "slow" := ExPipe "" "boltdb" 1 ]} ["fast"; "slow"].
Definition w_empty : world := MkWorld [] 0 [].
Definition w_p0 : w_plugin :=
  let c := InitDefaults 8 w_config in
  MkPlugin c ∅ ∅ (Pipelines c) (list_to_set (Consume c)) (MkMetrics 0 0 0 0) 0.
Definition w_ready : w_plugin :=
  CollectMQBrokers "boltdb" (boltdb_plugin w_choice w_has w_bolt w_string w_int)
    (CollectMQBrokers "memory" (memory_plugin w_choice w_memory w_int) w_p0).
Definition w_served := Serve None w_ready (Some w_empty).
Definition w_p : w_plugin := w_served.1.1.
Definition w_w : world := default w_empty w_served.1.2.
Definition w_pushed := Push w_job w_p (Some w_w).
Definition w_w1 : world := default w_empty w_pushed.1.2.
Definition w_w2 : world := default w_empty (do_ w_choice 1 MemConsume (Some w_w1)).1.

Lemma w_collected name c (p : w_plugin) :
  known w_choice w_has w_bolt w_memory w_string w_int c →
  constructors_known w_choice w_has w_bolt w_memory w_string w_int p →
  constructors_known w_choice w_has w_bolt w_memory w_string w_int (CollectMQBrokers name c p).
Proof. intros Hc Hp n c'. simpl. intros [[_ <-]|[_ H]]%lookup_insert_Some; [done|by eapply Hp]. Qed.

Lemma w_reached : rtc w_step (w_p0, Some w_empty) (w_p, Some w_w).
Proof.
  assert (H0 : constructors_known w_choice w_has w_bolt w_memory w_string w_int w_p0).
  { intros n c. simpl. by rewrite lookup_empty. }
  assert (H1 := w_collected "memory" _ _ (or_introl eq_refl) H0).
  assert (H2 := w_collected "boltdb" _ _ (or_intror eq_refl) H1).
  eapply rtc_l; [apply sys_call; [apply step_call, (call_Collect "memory")|exact H1]|].
  eapply rtc_l; [apply sys_call; [apply step_call, (call_Collect "boltdb")|exact H2]|].
  eapply rtc_l; [apply sys_call; [apply step_call, (call_Serve None)|exact H2]|].
  change (rtc w_step w_served.1 (w_p, Some w_w)).
  replace w_served.1 with (w_p, Some w_w); [apply rtc_refl|]. reflexivity.
Defined.

Lemma w_jobs_init : Init (λ _, true) (λ _, Ok (Some w_config)) 8 = Ok w_p0.
Proof. reflexivity. Defined.

Lemma w_sound : Forall sound (drivers w_w).
Proof.
  assert (Hd : ∃ m b, drivers w_w = [DBolt b; DMemory m] ∧
    BoltJobs.view (db_pairs (BoltJobs.db b)) ∅ ∅ ∅).
  { eexists _, _. split; [reflexivity|]. split; reflexivity. }
  destruct Hd as (m & b & -> & Hv). apply Forall_cons. split; [|by apply Forall_singleton].
  exists ∅, ∅, ∅. split; [exact Hv|]. split_and!; intros k v H; by rewrite lookup_empty in H.
Qed.

Lemma jobs_consumers_separate_witness :
  ∃ d, drivers w_w !! 1%nat = Some d ∧ registered d = Some "fast".
Proof.
  apply (jobs_consumers_separate w_choice w_has w_bolt w_memory w_string w_int w_marshal
    (λ _, true) (λ _, Ok (Some w_config)) 8 w_p0 w_p w_empty w_w w_jobs_init w_reached).
  reflexivity.
Defined.

Lemma w_turn : (do_ w_choice 1 MemConsume (Some w_w1)).1 = Some w_w2.
Proof.
  unfold w_w2. assert (H : (if (do_ w_choice 1 MemConsume (Some w_w1)).1 then true else false) = true) by (vm_compute; reflexivity).
  by destruct (do_ w_choice 1 MemConsume (Some w_w1)).1.
Qed.


Lemma jobs_memory_bounded_witness :
  ∃ m, drivers w_w !! 1%nat = Some (DMemory m) ∧ MemJobs.bounded m.
Proof.
  eexists. split; [reflexivity|].
  eapply (jobs_memory_bounded w_choice w_has w_bolt w_memory w_string w_int w_marshal) with (h := 1%nat).
  - intros key cf H. injection H as <-. discriminate.
  - exact ex_pipe_laws.
  - exact w_jobs_init.
  - exact w_reached.
  - reflexivity.
Defined.

End JobsDrivers.
