(* ===== verification/JobsBroker.v ===== *)
(** * The services behind the broker drivers

    The drivers of SQS, beanstalk and NATS keep their jobs in a service that is
    not part of the repository.  [MessageStore] lists the calls they make,
    [MessageStoreLaws] what the services document: a message that was accepted
    stays until it is deleted, numbers are not used twice, a delivery shows a
    stored message.  An error says nothing about whether the request was carried
    out.  The lemmas follow a job through a put, a delete and a delivery; the
    drivers use them to show that no job is lost. *)

From stdpp Require Import base gmap strings list.
From Stdlib Require Import ZArith.
From S2P Require Import Prelude JobsProtocol.

Module Broker.
Import Protocol.
Local Open Scope Z_scope.

(** [json.Marshal] and [json.Unmarshal] on a map of headers. *)
Class HeadersJson := {
  marshal_headers : headers → bytes + error;
  unmarshal_headers : bytes → headers + error;
  headers_round_trip h b : marshal_headers h = inl b → unmarshal_headers b = inl h
}.

(** The names under which [jobs] stores the fields of a job in a message. *)
Class JobKeys := {
  RRID : string; RRJob : string; RRDelay : string; RRPriority : string; RRHeaders : string;
  RRPipeline : string;
  job_keys_NoDup : NoDup [RRID; RRJob; RRDelay; RRPriority; RRHeaders; RRPipeline]
}.

Lemma job_keys_ne `{JobKeys} :
  (RRID ≠ RRJob ∧ RRID ≠ RRDelay ∧ RRID ≠ RRPriority ∧ RRID ≠ RRHeaders ∧ RRID ≠ RRPipeline) ∧
  (RRJob ≠ RRDelay ∧ RRJob ≠ RRPriority ∧ RRJob ≠ RRHeaders ∧ RRJob ≠ RRPipeline) ∧
  (RRDelay ≠ RRPriority ∧ RRDelay ≠ RRHeaders ∧ RRDelay ≠ RRPipeline) ∧
  (RRPriority ≠ RRHeaders ∧ RRPriority ≠ RRPipeline) ∧ RRHeaders ≠ RRPipeline.
Proof. pose proof job_keys_NoDup as Hk. rewrite !NoDup_cons in Hk. set_solver. Qed.

(** Looks up one of the names in a literal map. *)
Ltac lookup_key := 
  let K := fresh "K" in
  pose proof job_keys_ne as K; destruct_and! K;
  repeat (rewrite lookup_insert_eq || rewrite lookup_insert_ne by done); try done.

(** Items of the priority queue and of the pollers, as they move. *)
Section Items.
Context {A : Type} (P : A → Prop).
Lemma Forall_extract q h n i :
  q !! n = Some i → Forall P (q ++ h) → Forall P (delete n q ++ (h ++ [i])).
Proof.
  intros Hn [Hq Hh]%Forall_app. apply Forall_app. split; [by apply Forall_delete|].
  apply Forall_app. split; [done|]. apply Forall_singleton. by apply (Forall_lookup_1 P q n).
Qed.
Lemma Forall_forget q h n : Forall P (q ++ h) → Forall P (q ++ delete n h).
Proof. intros [Hq Hh]%Forall_app. apply Forall_app. split; [done|]. by apply Forall_delete. Qed.
Lemma Forall_held q h n i : Forall P (q ++ h) → h !! n = Some i → P i.
Proof. intros [_ Hh]%Forall_app Hn. by eapply Forall_lookup_1. Qed.
Lemma Forall_update q h n i : Forall P (q ++ h) → P i → Forall P (q ++ <[n := i]> h).
Proof. intros [Hq Hh]%Forall_app Hi. apply Forall_app. split; [done|]. by apply Forall_insert. Qed.
End Items.

(** 64 bit integers. *)
Definition int64 (z : Z) : Prop := - 2 ^ 63 ≤ z < 2 ^ 63.

(** [M]: what is sent, [R]: what is received, [F]: a request for messages, [D]: a
    request to delete one; [ref f r]: how a message received for [f] is named in
    a delete; [delivers m r]: [r] shows the message [m]. *)
Class MessageStore (M R D F : Type) := {
  svc : Type;
  stored : svc → gmap Z M;
  next : svc → Z;
  target : D → Z;
  send : M → svc → svc * (Z + error);
  remove : D → svc → svc * option error;
  receive : F → svc → svc * (list R + error)
}.

Class MessageStoreLaws {M R D F : Type} (ref : F → R → D) (delivers : M → R → Prop)
    `{!MessageStore M R D F} := {
  stored_old s id m : stored s !! id = Some m → id < next s;
  send_next m s : next s ≤ next (send m s).1;
  send_keeps m s : stored s ⊆ stored (send m s).1;
  send_adds m s id m' : stored (send m s).1 !! id = Some m' →
    stored s !! id = Some m' ∨ (next s ≤ id ∧ m' = m);
  send_ok m s s' id : send m s = (s', inl id) → stored s' !! id = Some m ∧ next s ≤ id;
  remove_next d s : next (remove d s).1 = next s;
  remove_stored d s : stored (remove d s).1 = stored s ∨
    stored (remove d s).1 = delete (target d) (stored s);
  remove_ok d s s' : remove d s = (s', None) → stored s' = delete (target d) (stored s);
  receive_next f s : next (receive f s).1 = next s;
  receive_stored f s : stored (receive f s).1 = stored s;
  receive_ok f s s' rs : receive f s = (s', inl rs) →
    Forall (λ r, ∃ m, stored s !! target (ref f r) = Some m ∧ delivers m r) rs
}.

(** ** Jobs in the store

    [carries m k]: the message holds the job [k].  A driver's items have a key
    and a name for the message they came from. *)

Section Store.
Context {M R D F : Type} {ref : F → R → D} {delivers : M → R → Prop}
  `{ML : MessageStoreLaws M R D F ref delivers}.
Context {K I : Type} (carries : M → K → Prop) (key : I → K) (tgt : I → D).

(** Some stored message holds the job. *)
Definition keeps (k : K) (s : svc) : Prop := ∃ id m, stored s !! id = Some m ∧ carries m k.

(** The message the item came from is gone or holds the job of the item. *)
Definition tracked (s : svc) (i : I) : Prop :=
  target (tgt i) < next s ∧
  ∀ m k, stored s !! target (tgt i) = Some m → carries m k → k = key i.

Lemma keeps_send k m s : keeps k s → keeps k (send m s).1.
Proof. intros (id & m' & H & Hc). exists id, m'. split; [|done]. by eapply lookup_weaken, send_keeps. Qed.

Lemma keeps_send_new k m s s' id : send m s = (s', inl id) → carries m k → keeps k s'.
Proof. intros [H _]%send_ok Hc. by exists id, m. Qed.

Lemma tracked_send m s i : tracked s i → tracked (send m s).1 i.
Proof.
  intros [Hn Hm]. split; [pose proof (send_next m s); lia|].
  intros m' k [H|[H _]]%send_adds Hc; [eauto|lia].
Qed.

(** A message that does not hold the job can be deleted. *)
Lemma keeps_drop k d s :
  (∀ m, stored s !! target d = Some m → ~ carries m k) → keeps k s → keeps k (remove d s).1.
Proof.
  intros Hn (id & m & H & Hc). exists id, m. split; [|done].
  destruct (remove_stored d s) as [E|E]; rewrite E; [done|].
  destruct (decide (id = target d)) as [-> |]; [by destruct (Hn m)|by rewrite lookup_delete_ne].
Qed.

Lemma keeps_remove k s i : tracked s i → key i ≠ k → keeps k s → keeps k (remove (tgt i) s).1.
Proof. intros [_ Hm] Hk. apply keeps_drop. intros m H Hc. by rewrite (Hm m k) in Hk. Qed.

Lemma tracked_remove d s i : tracked s i → tracked (remove d s).1 i.
Proof.
  intros [Hn Hm]. split; [by rewrite remove_next|]. intros m k H. apply Hm.
  destruct (remove_stored d s) as [E|E]; rewrite E in H; [done|]. by apply lookup_delete_Some in H as [_ ?].
Qed.

(** A copy is sent and then the original deleted. *)
Lemma keeps_move k m s s' id i :
  tracked s i → send m s = (s', inl id) → carries m (key i) → keeps k s →
  keeps k (remove (tgt i) s').1.
Proof.
  intros [Hn Hm] Hs Hc (id0 & m0 & H0 & Hc0). pose proof (send_ok _ _ _ _ Hs) as [Hid Hfresh].
  assert (Hk0 : stored s' !! id0 = Some m0).
  { eapply lookup_weaken; [exact H0|]. pose proof (send_keeps m s) as Hsub. by rewrite Hs in Hsub. }
  destruct (decide (id0 = target (tgt i))) as [-> |Hne].
  - rewrite (Hm m0 k) by done. exists id, m. split; [|done].
    destruct (remove_stored (tgt i) s') as [E|E]; rewrite E; [done|]. rewrite lookup_delete_ne by lia. done.
  - exists id0, m0. split; [|done].
    destruct (remove_stored (tgt i) s') as [E|E]; rewrite E; [done|]. by rewrite lookup_delete_ne by done.
Qed.

Lemma keeps_receive k f s : keeps k s → keeps k (receive f s).1.
Proof. unfold keeps. by rewrite receive_stored. Qed.

Lemma tracked_receive f s i : tracked s i → tracked (receive f s).1 i.
Proof. unfold tracked. by rewrite receive_stored, receive_next. Qed.

(** What a message that was received says of the store from then on: it was
    stored, and what is still stored under its name is what it shows. *)
Definition shown (f : F) (s : svc) (r : R) : Prop :=
  target (ref f r) < next s ∧ ∀ m, stored s !! target (ref f r) = Some m → delivers m r.

Lemma receive_shown f s s' rs : receive f s = (s', inl rs) → Forall (shown f s') rs.
Proof.
  intros E. pose proof (receive_ok _ _ _ _ E) as Hf. pose proof (receive_stored f s) as Hs.
  pose proof (receive_next f s) as Hn. rewrite E in Hs, Hn. simpl in Hs, Hn.
  eapply Forall_impl; [exact Hf|]. intros r (m & Hm & Hd). unfold shown. rewrite Hs, Hn.
  split; [by eapply stored_old|]. intros m' ?. by simplify_eq.
Qed.

Lemma shown_remove f d s r : shown f s r → shown f (remove d s).1 r.
Proof.
  intros [Hn Hm]. split; [by rewrite remove_next|]. intros m H. apply Hm.
  destruct (remove_stored d s) as [E|E]; rewrite E in H; [done|]. by apply lookup_delete_Some in H as [_ ?].
Qed.
End Store.

Create HintDb broker.
#[export] Hint Resolve keeps_send keeps_send_new tracked_send keeps_remove tracked_remove keeps_move
  keeps_receive tracked_receive shown_remove : broker.

(** ** An instance: a map of messages

    Sends fail as [fails] says, deletes delete, and a receive chooses with [sel] among
    what [show] makes of the messages; [num] reads the number in a request to
    delete.  A state is a map with a number above all its keys. *)
Section MapStore.
Context {M R D F : Type} (show : Z → M → R) (num : D → Z) (sel : list R → list R + error)
  (fails : M → option error).

Definition bounded (p : gmap Z M * Z) : Prop := 0 ≤ p.2 ∧ map_Forall (λ id _, 0 ≤ id < p.2) p.1.
Definition mstate : Type := { p : gmap Z M * Z | bounded p }.

Lemma bounded_send p m : bounded p → bounded (<[p.2 := m]> p.1, p.2 + 1).
Proof.
  destruct p as [g n]. intros [Hn Hg]. split; simpl in *; [lia|].
  intros id m' [[<- _]|[_ E]]%lookup_insert_Some; [lia|]. apply Hg in E. simpl in E. lia.
Qed.

Lemma bounded_remove p d : bounded p → bounded (delete d p.1, p.2).
Proof. intros [Hn Hg]. split; [done|]. simpl. intros id m' [_ E]%lookup_delete_Some. by eapply Hg. Qed.

Lemma bounded_empty : bounded (∅, 0).
Proof. split; [done|]. apply map_Forall_empty. Qed.

Definition map_empty : mstate := exist bounded (∅, 0) bounded_empty.

Definition map_store : MessageStore M R D F := {|
  svc := mstate;
  stored s := (`s).1;
  next s := (`s).2;
  target := num;
  send m s :=
    match fails m with
    | Some e => (s, inr e)
    | None => (exist bounded (<[(`s).2 := m]> (`s).1, (`s).2 + 1) (bounded_send _ m (proj2_sig s)), inl (`s).2)
    end;
  remove d s := (exist bounded (delete (num d) (`s).1, (`s).2) (bounded_remove _ (num d) (proj2_sig s)), None);
  receive f s := (s, sel ((λ p, show p.1 p.2) <$> map_to_list (`s).1))
|}.

Lemma map_store_laws (ref : F → R → D) (delivers : M → R → Prop) :
  (∀ f id m, 0 ≤ id → num (ref f (show id m)) = id) → (∀ id m, delivers m (show id m)) →
  (∀ l l', sel l = inl l' → l' ⊆ l) →
  MessageStoreLaws (MessageStore0 := map_store) ref delivers.
Proof.
  intros Hn Hd Hsel. split; simpl.
  - intros [[g n] Hb] id m E. pose proof (proj2 Hb) as Hg. apply Hg in E. simpl in *. lia.
  - intros m s. destruct (fails m); simpl; lia.
  - intros m [[g n] Hb]. pose proof (proj2 Hb) as Hg. destruct (fails m); [done|]. apply insert_subseteq.
    simpl in *. apply eq_None_not_Some. intros [m' E]. apply Hg in E. simpl in E. lia.
  - intros m [[g n] Hb] id m'. destruct (fails m); simpl; [by left|].
    intros [[<- <-]|[_ E]]%lookup_insert_Some; [right; split; lia || done|by left].
  - intros m [[g n] Hb] s' id. destruct (fails m); [done|]. intros [= <- <-]. simpl.
    by rewrite lookup_insert_eq.
  - done.
  - intros d [[g n] Hg]. by right.
  - by intros d [[g n] Hg] s' [= <-].
  - done.
  - done.
  - intros f [[g n] Hb] s' rs [= <- Hrs]. pose proof (proj2 Hb) as Hg. apply Forall_forall.
    intros r Hr%(Hsel _ _ Hrs). apply list_elem_of_fmap in Hr as ([id m] & -> & E).
    apply elem_of_map_to_list in E. simpl in *. exists m. rewrite Hn; [done|].
    apply Hg in E. simpl in E. lia.
Qed.
End MapStore.

(** Headers without entries are the only ones this codec accepts. *)
Definition empty_json : HeadersJson.
Proof.
  refine {| marshal_headers h := if decide (h = ∅) then inl "null" else inr (EExt "json");
            unmarshal_headers b := inl ∅ |}.
  intros h b. by destruct (decide (h = ∅)) as [-> |].
Defined.

Definition example_keys : JobKeys.
Proof.
  refine {| RRID := "rr_id"; RRJob := "rr_job"; RRDelay := "rr_delay"; RRPriority := "rr_priority";
            RRHeaders := "rr_headers"; RRPipeline := "rr_pipeline" |}.
  by apply (bool_decide_unpack _).
Defined.

End Broker.
