(* ===== verification/JobsSqs.v ===== *)
(** * The SQS jobs driver ([sqs/sqsjobs])

    A pipeline is a queue of Amazon SQS.  A job is a message whose attributes
    hold its fields; a listener asks for messages, turns them into items and
    puts them into the priority queue; settling an item deletes its message,
    after a copy was sent when the job is to run again. *)

From stdpp Require Import base gmap strings list.
From Stdlib Require Import ZArith.
From S2P Require Import Prelude GoStrings JobsProtocol JobsPlugin JobsBroker.

Module SqsJobs.
Import Protocol Jobs Broker.
Local Open Scope Z_scope.

Definition pluginName : string := "sqs".
Definition ApproximateReceiveCount : string := "ApproximateReceiveCount".
Definition NonExistentQueue : string := "AWS.SimpleQueueService.NonExistentQueue".

(** ** Configuration *)

Record Config := MkConfig {
  cfg_Key : string; cfg_Secret : string; cfg_Region : string; cfg_SessionToken : string;
  cfg_Endpoint : string; cfg_VisibilityTimeout : Z; cfg_WaitTimeSeconds : Z; cfg_Prefetch : Z;
  cfg_Queue : option string; cfg_Attributes : option (gmap string string);
  cfg_Tags : option (gmap string string) }.

Definition zero_Config : Config := MkConfig "" "" "" "" "" 0 0 0 None None None.

Definition InitDefault (c : Config) : Config :=
  MkConfig (cfg_Key c) (cfg_Secret c) (cfg_Region c) (cfg_SessionToken c)
    (if String.eqb (cfg_Endpoint c) "" then "http://127.0.0.1:9324" else cfg_Endpoint c)
    (cfg_VisibilityTimeout c)
    (if cfg_WaitTimeSeconds c =? 0 then 5 else cfg_WaitTimeSeconds c)
    (if (cfg_Prefetch c =? 0) || (10 <? cfg_Prefetch c) then 10 else cfg_Prefetch c)
    (Some (default "default" (cfg_Queue c)))
    (Some (default ∅ (cfg_Attributes c))) (Some (default ∅ (cfg_Tags c))).

(** ** Messages *)

Record attr := MkAttr { DataType : string; StringValue : option string; BinaryValue : option bytes }.

Definition string_attr (s : string) : attr := MkAttr "String" (Some s) None.
Definition number_attr (s : string) : attr := MkAttr "Number" (Some s) None.
Definition binary_attr (b : bytes) : attr := MkAttr "Binary" None (Some b).

Record SendMessageInput := MkSend {
  MessageBody : string; sm_QueueUrl : option string; DelaySeconds : Z;
  sm_Attributes : gmap string attr }.

Record Message := MkMessage {
  Attributes : gmap string string; MessageAttributes : gmap string attr;
  Body : option string; ReceiptHandle : option string }.

Record DeleteMessageInput := MkDelete { dm_QueueUrl : option string; dm_Receipt : option string }.

Record ReceiveMessageInput := MkReceive {
  rm_QueueUrl : option string; MaxNumberOfMessages : Z; VisibilityTimeout : Z; WaitTimeSeconds : Z }.

Definition ref (f : ReceiveMessageInput) (r : Message) : DeleteMessageInput :=
  MkDelete (rm_QueueUrl f) (ReceiptHandle r).

(** A delivery shows the body and the attributes that were sent, and, since it is
    asked for, how often the message was received. *)
Definition delivers (m : SendMessageInput) (r : Message) : Prop :=
  Body r = Some (MessageBody m) ∧ MessageAttributes r = sm_Attributes m ∧
  ∃ n, int64 n ∧ Attributes r !! ApproximateReceiveCount = Some (Itoa n).

(** The calls of the AWS client; [api_code]: the code of an API error. *)
Class Sqs := {
  #[global] sqs_store :: MessageStore SendMessageInput Message DeleteMessageInput ReceiveMessageInput;
  CreateQueue : option string → gmap string string → gmap string string → svc →
    svc * (option string + error);
  GetQueueAttributes : option string → svc → gmap string string + error;
  api_code : error → option string
}.

Class SqsLaws `{SQ : Sqs} := {
  #[global] sqs_store_laws :: MessageStoreLaws ref delivers;
  CreateQueue_stored q a t s : stored (CreateQueue q a t s).1 = stored s;
  CreateQueue_next q a t s : next (CreateQueue q a t s).1 = next s
}.

(** ** Items *)

Record Item := MkItem {
  it_Job : string; it_Ident : string; it_Payload : bytes; it_Headers : headers;
  it_Priority : Z; it_Pipeline : string; it_Delay : Z;
  approxReceiveCount : Z; it_queue : option string; receiptHandler : option string }.

Definition fromJob (j : Job) : Item :=
  MkItem (jb_Job j) (jb_Ident j) (jb_Payload j) (jb_Headers j)
    (jb_Priority j) (jb_Pipeline j) (jb_Delay j) 0 None None.

Definition item_requeued (h : headers) (d : Z) (i : Item) : Item :=
  MkItem (it_Job i) (it_Ident i) (it_Payload i) h (it_Priority i) (it_Pipeline i) d
    (approxReceiveCount i) (it_queue i) (receiptHandler i).

Section SqsJobs.
Context `{JK : JobKeys, HJ : HeadersJson}.

(** Delay and priority are [int64], [int] has 64 bits. *)
Definition pack (queue : option string) (i : Item) : SendMessageInput + error :=
  match marshal_headers (it_Headers i) with
  | inr e => inr e
  | inl data =>
      inl (MkSend (it_Payload i) queue (i32 (it_Delay i)) (list_to_map
        [(RRID, string_attr (it_Ident i));
         (RRJob, string_attr (it_Job i));
         (RRDelay, string_attr (Itoa (it_Delay i)));
         (RRHeaders, binary_attr data);
         (RRPriority, number_attr (Itoa (it_Priority i)))]))
  end.

Definition itemAttributes : list string := [RRID; RRJob; RRDelay; RRPriority; RRHeaders].

Fixpoint missing_attr (names : list string) (m : gmap string attr) : option string :=
  match names with
  | [] => None
  | n :: l => match m !! n with None => Some n | Some _ => missing_attr l m end
  end.

(** [*msg.MessageAttributes[name].StringValue]: a nil pointer panics. *)
Definition string_value (name : string) (m : gmap string attr) : res string :=
  match m !! name with
  | Some (MkAttr _ (Some v) _) => Ok v
  | _ => Panic
  end.

Definition Atoi (op s : string) : res Z :=
  match ParseInt s with
  | Some z => Ok z
  | None => Err (EOp op (EExt "strconv.Atoi"))
  end.

Definition unpack (queueURL : option string) (msg : Message) : res Item :=
  let op := "sqs_unpack" in
  match Attributes msg !! ApproximateReceiveCount with
  | None => Err (EOp op (EStr "failed to unpack the ApproximateReceiveCount attribute"))
  | Some count =>
  match missing_attr itemAttributes (MessageAttributes msg) with
  | Some n => Err (EOp op (EErrorf "missing queue attribute: %s" [n]))
  | None =>
      let a := MessageAttributes msg in
      match unmarshal_headers (default "" (a !! RRHeaders ≫= BinaryValue)) with
      | inr e => Err e
      | inl h =>
          delay ← string_value RRDelay a ≫= Atoi op;
          priority ← string_value RRPriority a ≫= Atoi op;
          recCount ← Atoi op count;
          job ← string_value RRJob a;
          ident ← string_value RRID a;
          match Body msg with
          | None => Panic
          | Some payload =>
              Ok (MkItem job ident payload h priority "" delay recCount queueURL (ReceiptHandle msg))
          end
      end
  end end.

(** ** The round trip *)

Definition wf_item (i : Item) : Prop := int64 (it_Delay i) ∧ int64 (it_Priority i).

Lemma Atoi_Itoa op z : int64 z → Atoi op (Itoa z) = Ok z.
Proof. intros Hz. unfold Atoi. by rewrite ParseInt_Itoa. Qed.

Lemma packed_lookup q i d :
  pack q i = inl d → MessageBody d = it_Payload i ∧
  sm_Attributes d !! RRID = Some (string_attr (it_Ident i)) ∧
  sm_Attributes d !! RRJob = Some (string_attr (it_Job i)) ∧
  sm_Attributes d !! RRDelay = Some (string_attr (Itoa (it_Delay i))) ∧
  sm_Attributes d !! RRPriority = Some (number_attr (Itoa (it_Priority i))) ∧
  ∃ b, marshal_headers (it_Headers i) = inl b ∧ sm_Attributes d !! RRHeaders = Some (binary_attr b).
Proof.
  unfold pack. destruct (marshal_headers (it_Headers i)) as [b|]; [|done]. intros [= <-].
  cbn [MessageBody sm_Attributes].
  split; [done|]. repeat split; try (exists b; split; [done|]); lookup_key.
Qed.

Lemma missing_attr_None names m : missing_attr names m = None ↔ Forall (λ n, is_Some (m !! n)) names.
Proof.
  induction names as [|n l IH]; simpl; [done|]. rewrite Forall_cons. destruct (m !! n).
  - rewrite IH. split; [by eauto|by intros [_ ?]].
  - split; [done|]. by intros [[? ?] _].
Qed.

(** The item that the listener makes of a message sent for [i]: everything but
    the name of the pipeline comes back. *)
Definition received (queueURL : option string) (msg : Message) (n : Z) (i : Item) : Item :=
  MkItem (it_Job i) (it_Ident i) (it_Payload i) (it_Headers i) (it_Priority i) "" (it_Delay i) n
    queueURL (ReceiptHandle msg).

Lemma unpack_delivered q url i m r :
  wf_item i → pack q i = inl m → delivers m r → ∃ n, int64 n ∧ unpack url r = Ok (received url r n i).
Proof.
  intros [Hd Hp] Hm (Hb & Ha & n & Hn & Hc).
  destruct (packed_lookup _ _ _ Hm) as (Eb & E1 & E2 & E3 & E4 & b & Hj & E5).
  exists n. split; [done|]. unfold unpack. rewrite Hc, Ha.
  assert (Hmiss : missing_attr itemAttributes (sm_Attributes m) = None).
  { apply missing_attr_None. unfold itemAttributes. rewrite !Forall_cons. by eauto 10. }
  rewrite Hmiss, E5. change (default "" (Some (binary_attr b) ≫= BinaryValue)) with b.
  rewrite (headers_round_trip _ _ Hj). unfold string_value. rewrite E1, E2, E3, E4.
  cbn [mbind res_bind string_attr number_attr].
  rewrite !Atoi_Itoa by done. cbn [mbind res_bind]. by rewrite Hb, Eb.
Qed.

(** ** The consumer

    [tokens]: what is in [pauseCh], whose capacity is one; [loops]: the running
    [listen] goroutines; [held]: the items pollers have taken from the priority
    queue. *)

Inductive client := InAWS | Static (region key secret token endpoint : string).

Record consumer := MkConsumer {
  pipe : option (string * string); queue : option string; waitTime : Z; prefetch : Z;
  visibilityTimeout : Z; listeners : Z; attributes : gmap string string; tags : gmap string string;
  cl : client; queueURL : option string; tokens : nat; loops : nat; pq : list Item; held : list Item }.

Definition with_loops n t l c := MkConsumer (pipe c) (queue c) (waitTime c) (prefetch c)
  (visibilityTimeout c) n (attributes c) (tags c) (cl c) (queueURL c) t l (pq c) (held c).
Definition with_queue q h c := MkConsumer (pipe c) (queue c) (waitTime c) (prefetch c)
  (visibilityTimeout c) (listeners c) (attributes c) (tags c) (cl c) (queueURL c) (tokens c) (loops c) q h.

Context `{SQ : Sqs}.

(** [insideAWS]: what [isInAWS] answers; [load cl]: the error of
    [config.LoadDefaultConfig] for the options of that client. *)
Definition connect (op : string) (load : client → option error) (k : client) (c : consumer) (s : svc)
    : svc * res consumer :=
  match load k with
  | Some e => (s, Err (EOp op e))
  | None =>
      match CreateQueue (queue c) (attributes c) (tags c) s with
      | (s, inr e) => (s, Err (EOp op e))
      | (s, inl url) =>
          (s, Ok (MkConsumer (pipe c) (queue c) (waitTime c) (prefetch c) (visibilityTimeout c)
                    (listeners c) (attributes c) (tags c) k url (tokens c) (loops c) (pq c) (held c)))
      end
  end.

Definition client_of (insideAWS : bool) (conf : Config) : client :=
  if insideAWS then InAWS
  else Static (cfg_Region conf) (cfg_Key conf) (cfg_Secret conf) (cfg_SessionToken conf) (cfg_Endpoint conf).

Definition no_global : error :=
  EStr "no global sqs configuration, global configuration should contain sqs section".

Definition NewSQSConsumer (has : string → bool) (unmarshal : string → Config → res Config)
    (insideAWS : bool) (load : client → option error) (configKey : string) (s : svc) : svc * res consumer :=
  let op := "new_sqs_consumer" in
  if negb (has configKey) then (s, Err (EOp op (EErrorf "no configuration by provided key: %s" [configKey])))
  else if negb (has pluginName) && negb insideAWS then (s, Err (EOp op no_global)) else
  match wrap_err op (unmarshal configKey zero_Config) ≫= (λ conf,
          if insideAWS then Ok conf else wrap_err op (unmarshal pluginName conf)) with
  | Err e => (s, Err e)
  | Panic => (s, Panic)
  | Ok conf =>
      let conf := InitDefault conf in
      connect op load (client_of insideAWS conf)
        (MkConsumer None (cfg_Queue conf) (cfg_WaitTimeSeconds conf) (cfg_Prefetch conf)
           (cfg_VisibilityTimeout conf) 0 (default ∅ (cfg_Attributes conf)) (default ∅ (cfg_Tags conf))
           InAWS None 0 0 [] []) s
  end.

(** [pmap name], [pstring name def], [pint name def]: [pipe.Map], [pipe.String]
    and [pipe.Int]. *)
Definition FromPipeline (has : string → bool) (unmarshal : string → Config → res Config)
    (insideAWS : bool) (load : client → option error) (pmap : string → gmap string string + error)
    (pstring : string → string → string) (pint : string → Z → Z) (s : svc) : svc * res consumer :=
  let op := "new_sqs_consumer" in
  if negb (has pluginName) && negb insideAWS then (s, Err (EOp op no_global)) else
  match (if insideAWS then Ok zero_Config else wrap_err op (unmarshal pluginName zero_Config)) with
  | Err e => (s, Err e)
  | Panic => (s, Panic)
  | Ok conf =>
      let conf := InitDefault conf in
      match pmap "attributes" with
      | inr e => (s, Err (EOp op e))
      | inl attr =>
      match pmap "tags" with
      | inr e => (s, Err (EOp op e))
      | inl tg =>
          connect op load (client_of insideAWS conf)
            (MkConsumer None (Some (pstring "queue" "default")) (i32 (pint "wait_time" 0))
               (i32 (pint "prefetch" 10)) (i32 (pint "visibility_timeout" 0)) 0 attr tg
               InAWS None 0 0 [] []) s
      end end
  end.

(** ** Pushing and settling *)

Definition handleItem (i : Item) (c : consumer) (s : svc) : svc * option error :=
  match pack (queueURL c) i with
  | inr e => (s, Some e)
  | inl d => match send d s with
             | (s, inl _) => (s, None)
             | (s, inr e) => (s, Some e)
             end
  end.

Definition Push (jb : Job) (c : consumer) (s : svc) : svc * res unit :=
  let op := "sqs_push" in
  match pipe c with
  | None => (s, Panic)
  | Some (name, _) =>
      if negb (String.eqb name (jb_Pipeline jb))
      then (s, Err (EOp op (EErrorf "no such pipeline: %s, actual: %s" [jb_Pipeline jb; name])))
      else if 900 <? jb_Delay jb
      then (s, Err (EOp op (EErrorf
             "unable to push, maximum possible delay is 900 seconds (15 minutes), provided: %d"
             [Itoa (jb_Delay jb)])))
      else match handleItem (fromJob jb) c s with
           | (s, Some e) => (s, Err (EOp op e))
           | (s, None) => (s, Ok tt)
           end
  end.

Definition tgt (i : Item) : DeleteMessageInput := MkDelete (it_queue i) (receiptHandler i).

Definition Ack (i : Item) (s : svc) : svc * option error := remove (tgt i) s.

Definition Nack (i : Item) (c : consumer) (s : svc) : svc * option error :=
  match handleItem i c s with
  | (s, Some e) => (s, Some e)
  | (s, None) => remove (tgt i) s
  end.

(** The item is changed in place, also when the call fails. *)
Definition Requeue_ (h : headers) (delay : Z) (i : Item) (c : consumer) (s : svc)
    : Item * svc * option error :=
  let i := item_requeued h delay i in
  match handleItem i c s with
  | (s, Some e) => (i, s, Some e)
  | (s, None) => let '(s, e) := remove (tgt i) s in (i, s, e)
  end.

Definition Respond (data : bytes) (queue : string) (s : svc) : svc * option error :=
  match send (MkSend data (Some queue) 0 ∅) s with
  | (s, inl _) => (s, None)
  | (s, inr e) => (s, Some (EOp "sqs_respond" e))
  end.

(** ** The listener *)

(** Items are put into the priority queue as they are read; a panic ends the
    process. *)
Fixpoint handle_messages (url : option string) (l : list Message) (q : list Item) (s : svc)
    : svc * res (list Item) :=
  match l with
  | [] => (s, Ok q)
  | m :: l' =>
      match unpack url m with
      | Panic => (s, Panic)
      | Err _ => handle_messages url l' q (remove (MkDelete url (ReceiptHandle m)) s).1
      | Ok item => handle_messages url l' (q ++ [item]) s
      end
  end.

Definition receive_input (c : consumer) : ReceiveMessageInput :=
  MkReceive (queueURL c) (prefetch c) (visibilityTimeout c) (waitTime c).

(** One round of [listen]: a token in [pauseCh] ends the goroutine. *)
Definition listen (c : consumer) (s : svc) : svc * res consumer :=
  match tokens c with
  | S t => (s, Ok (with_loops (listeners c) t (pred (loops c)) c))
  | O =>
      match receive (receive_input c) s with
      | (s, inr e) =>
          if bool_decide (api_code e = Some NonExistentQueue)
          then ((CreateQueue (queue c) (attributes c) (tags c) s).1, Ok c)
          else (s, Ok c)
      | (s, inl ms) =>
          match handle_messages (queueURL c) ms (pq c) s with
          | (s, Ok q) => (s, Ok (with_queue q (held c) c))
          | (s, Err e) => (s, Err e)
          | (s, Panic) => (s, Panic)
          end
      end
  end.

(** ** Control *)

Definition Register (name driver : string) (c : consumer) : consumer :=
  MkConsumer (Some (name, driver)) (queue c) (waitTime c) (prefetch c) (visibilityTimeout c)
    (listeners c) (attributes c) (tags c) (cl c) (queueURL c) (tokens c) (loops c) (pq c) (held c).

Definition Run (name : string) (c : consumer) : consumer * res unit :=
  match pipe c with
  | None => (c, Panic)
  | Some (n, _) =>
      if negb (String.eqb n name)
      then (c, Err (EOp "sqs_run" (EErrorf "no such pipeline registered: %s" [n])))
      else (with_loops (u32_inc (listeners c)) (tokens c) (S (loops c)) c, Ok tt)
  end.

(** [c.pauseCh <- struct{}{}]: waits ([None]) while the channel is full. *)
Definition send_token (c : consumer) : option consumer :=
  match tokens c with
  | O => Some (with_loops (listeners c) 1 (loops c) c)
  | S _ => None
  end.

Definition Stop (c : consumer) : option (res consumer) :=
  c ← (if 0 <? listeners c then send_token c else Some c);
  Some (match pipe c with None => Panic | Some _ => Ok c end).

Definition Pause (p : string) (c : consumer) : option (res consumer) :=
  match pipe c with
  | None => Some Panic
  | Some (n, _) =>
      if negb (String.eqb n p) then Some (Ok c)
      else if listeners c =? 0 then Some (Ok c)
      else Ok <$> send_token (with_loops (u32_dec (listeners c)) (tokens c) (loops c) c)
  end.

Definition Resume (p : string) (c : consumer) : res consumer :=
  match pipe c with
  | None => Panic
  | Some (n, _) =>
      if negb (String.eqb n p) then Ok c
      else if listeners c =? 1 then Ok c
      else Ok (with_loops (u32_inc (listeners c)) (tokens c) (S (loops c)) c)
  end.

Definition ready (r : Z) : bool := 0 <? r.

(** A number that cannot be read leaves zero. *)
Definition number_of (m : gmap string string) (name : string) : Z :=
  default 0 (ParseInt (default "" (m !! name))).

Definition State_ (c : consumer) (s : svc) : res State :=
  match GetQueueAttributes (queueURL c) s with
  | inr e => Err (EOp "sqs_state" e)
  | inl a =>
      match pipe c, queueURL c with
      | Some (n, d), Some url =>
          Ok (MkState n d url (number_of a "ApproximateNumberOfMessages")
                (number_of a "ApproximateNumberOfMessagesDelayed")
                (number_of a "ApproximateNumberOfMessagesNotVisible") (ready (listeners c)))
      | _, _ => Panic
      end
  end.

(** ** Actions

    A poller may settle an item more than once; [AForget] is the end of its
    work.  A panic of the listener and a restart leave a consumer without
    goroutines and items, and the queue as it is. *)

Inductive action :=
  | APush (jb : Job)
  | AListen
  | AExtract (n : nat) | AForget (n : nat)
  | AAck (n : nat) | ANack (n : nat) | ARequeue (h : headers) (delay : Z) (n : nat)
  | ARespond (data : bytes) (q : string)
  | ARegister (name driver : string) | ARun (name : string)
  | APause (p : string) | AResume (p : string) | AStop
  | ARestart.

Definition dead (c : consumer) : consumer :=
  MkConsumer None (queue c) (waitTime c) (prefetch c) (visibilityTimeout c) 0 (attributes c) (tags c)
    (cl c) (queueURL c) 0 0 [] [].

Definition alive (c : consumer) (r : res consumer) : consumer :=
  match r with Ok c => c | Err _ | Panic => dead c end.

Definition exec (a : action) (c : consumer) (s : svc) : option (consumer * svc) :=
  match a with
  | APush jb => Some (c, (Push jb c s).1)
  | AListen => match loops c with
               | O => None
               | S _ => let '(s, r) := listen c s in Some (alive c r, s)
               end
  | AExtract n => i ← pq c !! n; Some (with_queue (delete n (pq c)) (held c ++ [i]) c, s)
  | AForget n => Some (with_queue (pq c) (delete n (held c)) c, s)
  | AAck n => i ← held c !! n; Some (c, (Ack i s).1)
  | ANack n => i ← held c !! n; Some (c, (Nack i c s).1)
  | ARequeue h d n =>
      i ← held c !! n;
      let '(i, s, _) := Requeue_ h d i c s in Some (with_queue (pq c) (<[n := i]> (held c)) c, s)
  | ARespond data q => Some (c, (Respond data q s).1)
  | ARegister name driver => Some (Register name driver c, s)
  | ARun name => Some ((Run name c).1, s)
  | APause p => (λ r, (alive c r, s)) <$> Pause p c
  | AResume p => Some (alive c (Resume p c), s)
  | AStop => (λ r, (alive c r, s)) <$> Stop c
  | ARestart => Some (dead c, (CreateQueue (queue c) (attributes c) (tags c) s).1)
  end.

(** ** No job is lost *)

Definition key (i : Item) : string * string * bytes := (it_Ident i, it_Job i, it_Payload i).

Lemma pack_queue u i m : pack u i = inl m → sm_QueueUrl m = u.
Proof. unfold pack. destruct (marshal_headers _); [|done]. by intros [= <-]. Qed.

(** The message is in the queue [u] and holds the job. *)
Definition carries (u : option string) (m : SendMessageInput) (k : string * string * bytes) : Prop :=
  ∃ i, wf_item i ∧ pack u i = inl m ∧ key i = k.

(** The arguments have the types of the source. *)
Definition typed (a : action) : Prop :=
  match a with
  | APush jb => int64 (jb_Delay jb) ∧ int64 (jb_Priority jb)
  | ARequeue _ d _ => int64 d
  | _ => True
  end.

(** [a] does not acknowledge the job. *)
Definition spares (k : string * string * bytes) (a : action) (c : consumer) : Prop :=
  match a with
  | AAck n => ∀ i, held c !! n = Some i → key i ≠ k
  | _ => True
  end.

Definition step (cs cs' : consumer * svc) : Prop :=
  ∃ a, typed a ∧ exec a cs.1 cs.2 = Some cs'.
Definition step_sparing (k : string * string * bytes) (cs cs' : consumer * svc) : Prop :=
  ∃ a, typed a ∧ spares k a cs.1 ∧ exec a cs.1 cs.2 = Some cs'.

Context `{SL : !SqsLaws}.

(** The queue of the consumer does not change. *)
Lemma exec_queueURL a c s c' s' : exec a c s = Some (c', s') → queueURL c' = queueURL c.
Proof.
  intros He. destruct a; simpl in He; unfold listen, Run, Pause, Resume, Stop, send_token in He;
    repeat (case_match; simplify_eq/=); simplify_option_eq; repeat (case_match; simplify_eq/=); done.
Qed.

Section Queue.
Context (u : option string).

Definition item_ok (s : svc) (i : Item) : Prop := wf_item i ∧ tracked (carries u) key tgt s i.
Definition Inv (cs : consumer * svc) : Prop := Forall (item_ok cs.2) (pq cs.1 ++ held cs.1).

Lemma carries_key m r k url :
  carries u m k → delivers m r → ∃ i, unpack url r = Ok i ∧ key i = k ∧ wf_item i ∧
    it_queue i = url ∧ receiptHandler i = ReceiptHandle r.
Proof.
  intros (i & Hw & Hp & <-) Hd. destruct (unpack_delivered _ url _ _ _ Hw Hp Hd) as (n & _ & E).
  by exists (received url r n i).
Qed.

Lemma Atoi_int64 op t z : Atoi op t = Ok z → int64 z.
Proof. unfold Atoi. destruct (ParseInt t) eqn:E; [|done]. intros [= <-]. by eapply ParseInt_range. Qed.

(** What [unpack] returns has 64 bit fields and names its message. *)
Lemma unpack_wf url r i :
  unpack url r = Ok i → wf_item i ∧ it_queue i = url ∧ receiptHandler i = ReceiptHandle r.
Proof.
  unfold unpack. destruct (Attributes r !! _) as [count|]; [|done]. destruct (missing_attr _ _); [done|].
  destruct (unmarshal_headers _) as [h|]; [|done].
  destruct (string_value RRDelay _) as [d| |]; try done. simpl.
  destruct (Atoi _ d) as [zd| |] eqn:Ed; try done. simpl.
  destruct (string_value RRPriority _) as [p| |]; try done. simpl.
  destruct (Atoi _ p) as [zp| |] eqn:Ep; try done. simpl.
  destruct (Atoi _ count) as [zc| |]; try done. simpl.
  destruct (string_value RRJob _); try done. simpl. destruct (string_value RRID _); try done. simpl.
  destruct (Body r); [|done]. intros [= <-]. split_and!; [split|..]; eauto using Atoi_int64.
Qed.

Lemma item_ok_remove d s i : item_ok s i → item_ok (remove d s).1 i.
Proof. intros [? ?]. split; [done|]. by apply tracked_remove. Qed.

Lemma item_ok_handleItem j c s i : item_ok s i → item_ok (handleItem j c s).1 i.
Proof.
  intros [? ?]. split; [done|]. unfold handleItem. destruct (pack _ _) as [d|]; [|done].
  pose proof (tracked_send (carries u) key tgt d s i) as Ht. destruct (send d s) as [s' []]; by apply Ht.
Qed.

Lemma keeps_handleItem k j c s : keeps (carries u) k s → keeps (carries u) k (handleItem j c s).1.
Proof.
  intros Hk. unfold handleItem. destruct (pack _ _) as [d|]; [|done].
  pose proof (keeps_send (carries u) k d s Hk) as Ht. by destruct (send d s) as [s' []].
Qed.

(** An item that was accepted is in the store. *)
Lemma handleItem_ok j c s s' :
  queueURL c = u → wf_item j → handleItem j c s = (s', None) →
  ∃ m id, send m s = (s', inl id) ∧ carries u m (key j).
Proof.
  intros Hu Hw. unfold handleItem. rewrite Hu. destruct (pack _ _) as [d|] eqn:Ep; [|done].
  destruct (send d s) as [s1 [id|]] eqn:Es; [|done]. intros [= <-].
  exists d, id. split; [done|]. by exists j.
Qed.

(** Sending a copy and deleting the original. *)
Lemma keeps_resend k i j c s s' :
  queueURL c = u → item_ok s i → wf_item j → key j = key i → handleItem j c s = (s', None) → keeps (carries u) k s →
  keeps (carries u) k (remove (tgt i) s').1.
Proof.
  intros Hu [_ Ht] Hw Hj Hh Hk. destruct (handleItem_ok _ _ _ _ Hu Hw Hh) as (m & id & Hs & Hc).
  rewrite Hj in Hc. by eapply (keeps_move (carries u) key tgt).
Qed.

Lemma handle_messages_ok f l q s s' r :
  Forall (shown (ref := ref) (delivers := delivers) f s) l → Forall (item_ok s) q →
  handle_messages (rm_QueueUrl f) l q s = (s', r) →
  (∀ i, item_ok s i → item_ok s' i) ∧ (∀ k, keeps (carries u) k s → keeps (carries u) k s') ∧
  (∀ q', r = Ok q' → Forall (item_ok s') q').
Proof.
  revert q s. induction l as [|m l IH]; intros q s Hl Hq; simpl.
  { intros [= <- <-]. split_and!; [done..|]. by intros q' [= <-]. }
  apply Forall_cons in Hl as [[Hn Hm] Hl].
  destruct (unpack _ m) as [item| |] eqn:Eu; intros E.
  - eapply IH; [done| |exact E]. apply Forall_app. split; [done|]. apply Forall_singleton.
    destruct (unpack_wf _ _ _ Eu) as (Hw & Hiq & Hir).
    assert (Ht : tgt item = ref f m) by (unfold tgt, ref; by rewrite Hiq, Hir).
    split; [done|]. unfold tracked. rewrite Ht. split; [done|]. intros m' k H Hc.
    destruct (carries_key _ _ _ (rm_QueueUrl f) Hc (Hm m' H)) as (i' & E' & <- & _). congruence.
  - destruct (IH q (remove (ref f m) s).1) as (H1 & H2 & H3).
    + eapply Forall_impl; [exact Hl|]. intros. by apply shown_remove.
    + eapply Forall_impl; [exact Hq|]. intros. by apply item_ok_remove.
    + exact E.
    + split_and!; [by eauto using item_ok_remove| |done]. intros k Hk. apply H2, keeps_drop; [|done].
      intros m' H Hc. destruct (carries_key _ _ _ (rm_QueueUrl f) Hc (Hm m' H)) as (i' & E' & _).
      congruence.
  - simplify_eq. by split_and!.
Qed.

Lemma item_ok_CreateQueue q a t s i : item_ok s i → item_ok (CreateQueue q a t s).1 i.
Proof. unfold item_ok, tracked. by rewrite CreateQueue_stored, CreateQueue_next. Qed.
Lemma keeps_CreateQueue k q a t s : keeps (carries u) k s → keeps (carries u) k (CreateQueue q a t s).1.
Proof. unfold keeps. by rewrite CreateQueue_stored. Qed.

Lemma listen_ok c s s' r :
  Inv (c, s) → listen c s = (s', r) →
  Inv (alive c r, s') ∧ ∀ k, keeps (carries u) k s → keeps (carries u) k s'.
Proof.
  intros Hi. unfold listen. destruct (tokens c); [|by intros [= <- <-]].
  pose proof (λ i, tracked_receive (carries u) key tgt (receive_input c) s i) as Hr.
  pose proof (λ k, keeps_receive (carries u) k (receive_input c) s) as Hk.
  assert (Hi1 : Forall (item_ok (receive (receive_input c) s).1) (pq c ++ held c)).
  { eapply Forall_impl; [exact Hi|]. intros i [? ?]. split; [done|]. by apply Hr. }
  destruct (receive (receive_input c) s) as [s1 [ms|e]] eqn:Er; simpl in *.
  - apply Forall_app in Hi1 as [Hq Hh].
    destruct (handle_messages (queueURL c) ms (pq c) s1) as [s2 r2] eqn:Eh.
    destruct (handle_messages_ok (receive_input c) ms (pq c) s1 s2 r2 (receive_shown _ _ _ _ Er) Hq Eh)
      as (H1 & H2 & H3).
    destruct r2 as [q| |]; intros [= <- <-]; (split; [|by eauto]); [|by apply Forall_nil_2..].
    apply Forall_app. split; [by apply H3|]. eapply Forall_impl; [exact Hh|]. done.
  - case_bool_decide; intros [= <- <-]; (split; [|by eauto using keeps_CreateQueue]); [|done].
    eapply Forall_impl; [exact Hi1|]. intros. by apply item_ok_CreateQueue.
Qed.

Lemma Requeue_ok h d i c s i' s' e :
  queueURL c = u → item_ok s i → int64 d → Requeue_ h d i c s = (i', s', e) →
  item_ok s' i' ∧ (∀ j, item_ok s j → item_ok s' j) ∧ ∀ k, keeps (carries u) k s → keeps (carries u) k s'.
Proof.
  intros Hu Hi Hd. unfold Requeue_.
  assert (Hi' : item_ok s (item_requeued h d i)) by (destruct Hi as [[? ?] ?]; by split).
  pose proof (λ j, item_ok_handleItem (item_requeued h d i) c s j) as Ho.
  pose proof (λ k, keeps_handleItem k (item_requeued h d i) c s) as Hk.
  destruct (handleItem _ c s) as [s1 [e1|]] eqn:Eh; simpl in *.
  - intros [= <- <- <-]. split_and!; by eauto.
  - pose proof (λ j, item_ok_remove (tgt (item_requeued h d i)) s1 j) as Hrm.
    pose proof (λ k, keeps_resend k i (item_requeued h d i) c s s1 Hu Hi (proj1 Hi') eq_refl Eh) as Hmv.
    change (tgt i) with (tgt (item_requeued h d i)) in Hmv.
    destruct (remove _ s1) as [s2 e2]; simpl in *. intros [= <- <- <-]. split_and!; by eauto.
Qed.

Lemma Nack_ok i c s :
  queueURL c = u → item_ok s i → (∀ j, item_ok s j → item_ok (Nack i c s).1 j) ∧
  ∀ k, keeps (carries u) k s → keeps (carries u) k (Nack i c s).1.
Proof.
  intros Hu Hi. unfold Nack. pose proof (λ j, item_ok_handleItem i c s j) as Ho.
  pose proof (λ k, keeps_handleItem k i c s) as Hk.
  destruct (handleItem i c s) as [s1 [e1|]] eqn:Eh; simpl in *; [by eauto|]. split.
  - eauto using item_ok_remove.
  - intros k. by apply (keeps_resend k i i c s s1 Hu Hi (proj1 Hi) eq_refl Eh).
Qed.

Lemma Push_ok jb c s :
  (∀ j, item_ok s j → item_ok (Push jb c s).1 j) ∧ ∀ k, keeps (carries u) k s → keeps (carries u) k (Push jb c s).1.
Proof.
  unfold Push. pose proof (λ j, item_ok_handleItem (fromJob jb) c s j) as Ho.
  pose proof (λ k, keeps_handleItem k (fromJob jb) c s) as Hk.
  destruct (pipe c) as [[n d]|]; [|done]. destruct (negb _); [done|]. destruct (900 <? _); [done|].
  by destruct (handleItem _ c s) as [s1 []].
Qed.

Lemma Respond_ok data q s :
  (∀ j, item_ok s j → item_ok (Respond data q s).1 j) ∧ ∀ k, keeps (carries u) k s → keeps (carries u) k (Respond data q s).1.
Proof.
  unfold Respond. pose proof (λ k, keeps_send (carries u) k (MkSend data (Some q) 0 ∅) s) as Hk.
  pose proof (λ j, tracked_send (carries u) key tgt (MkSend data (Some q) 0 ∅) s j) as Ht.
  destruct (send _ s) as [s1 []]; simpl in *; (split; [|done]); intros j [? ?]; split; auto.
Qed.

(** Control calls leave the items alone, or end the process. *)
Lemma alive_items c r : (∀ c', r = Ok c' → pq c' = pq c ∧ held c' = held c) →
  ∀ s, Inv (c, s) → Inv (alive c r, s).
Proof.
  intros Hr s Hi. destruct r as [c'| |]; [|by apply Forall_nil_2..].
  destruct (Hr c' eq_refl) as [E1 E2]. unfold Inv. simpl. by rewrite E1, E2.
Qed.

Lemma Inv_mono c s s' : (∀ j, item_ok s j → item_ok s' j) → Inv (c, s) → Inv (c, s').
Proof. intros Hj Hi. by eapply Forall_impl. Qed.

Lemma exec_ok a c s c' s' :
  queueURL c = u → typed a → exec a c s = Some (c', s') → Inv (c, s) →
  Inv (c', s') ∧ ∀ k, spares k a c → keeps (carries u) k s → keeps (carries u) k s'.
Proof.
  intros Hu Ht He Hi. destruct a; simpl in *.
  - injection He as <- <-. destruct (Push_ok jb c s). by eauto using Inv_mono.
  - destruct (loops c); [done|]. destruct (listen c s) as [s1 r] eqn:El. injection He as <- <-.
    destruct (listen_ok _ _ _ _ Hi El). by eauto.
  - destruct (pq c !! n) as [i|] eqn:En; simpl in He; [|done]. injection He as <- <-.
    split; [|done]. by apply Forall_extract.
  - injection He as <- <-. split; [|done]. by apply Forall_forget.
  - destruct (held c !! n) as [i|] eqn:En; simpl in He; [|done]. injection He as <- <-.
    pose proof (Forall_held _ _ _ _ _ Hi En) as Hok.
    split; [by eapply Inv_mono; [|exact Hi]; intros; apply item_ok_remove|].
    intros k Hs. apply (keeps_remove (carries u) key tgt); [apply Hok|by apply Hs].
  - destruct (held c !! n) as [i|] eqn:En; simpl in He; [|done]. injection He as <- <-.
    destruct (Nack_ok i c s Hu (Forall_held _ _ _ _ _ Hi En)). by eauto using Inv_mono.
  - destruct (held c !! n) as [i|] eqn:En; simpl in He; [|done].
    destruct (Requeue_ h delay i c s) as [[i' s1] e] eqn:Er. injection He as <- <-.
    destruct (Requeue_ok _ _ _ _ _ _ _ _ Hu (Forall_held _ _ _ _ _ Hi En) Ht Er) as (H1 & H2 & H3).
    split; [|by eauto]. apply Forall_update; [|done]. by eapply Forall_impl.
  - injection He as <- <-. destruct (Respond_ok data q s). by eauto using Inv_mono.
  - by simplify_eq.
  - injection He as <- <-. split; [|done]. unfold Run. destruct (pipe c) as [[]|]; [|done]. by destruct (negb _).
  - apply fmap_Some in He as (r & Hr & [= -> ->]). split; [|done]. apply alive_items; [|done].
    intros c1 ->. unfold Pause, send_token in Hr. repeat case_match; by simplify_eq/=.
  - injection He as <- <-. split; [|done]. apply alive_items; [|done]. intros c1 Hr. unfold Resume in Hr.
    repeat case_match; by simplify_eq/=.
  - apply fmap_Some in He as (r & Hr & [= -> ->]). split; [|done]. apply alive_items; [|done].
    intros c1 ->. unfold Stop, send_token in Hr. repeat (case_match; simplify_eq/=); by simplify_eq/=.
  - injection He as <- <-. split; [by apply Forall_nil_2|]. intros. by apply keeps_CreateQueue.
Qed.

Lemma steps_Inv cs cs' :
  rtc step cs cs' → queueURL cs.1 = u → Inv cs → queueURL cs'.1 = u ∧ Inv cs'.
Proof.
  induction 1 as [|[c s] [c1 s1] cs2 (a & Ht & He) _ IH]; [done|]. intros Hu Hi.
  apply IH; [by rewrite <- Hu; eapply exec_queueURL|by eapply exec_ok].
Qed.

Lemma steps_keep k cs cs' :
  rtc (step_sparing k) cs cs' → queueURL cs.1 = u → Inv cs → keeps (carries u) k cs.2 →
  queueURL cs'.1 = u ∧ keeps (carries u) k cs'.2.
Proof.
  induction 1 as [|[c s] [c1 s1] cs2 (a & Ht & Hs & He) _ IH]; [done|]. intros Hu Hi Hk.
  destruct (exec_ok _ _ _ _ _ Hu Ht He Hi) as [Hi1 Hk1].
  apply IH; [by rewrite <- Hu; eapply exec_queueURL|done|by apply Hk1].
Qed.

End Queue.

Fixpoint run (l : list action) (cs : consumer * svc) : option (consumer * svc) :=
  match l with
  | [] => Some cs
  | a :: l' => cs ← exec a cs.1 cs.2; run l' cs
  end.

Lemma run_steps k l cs cs' :
  Forall (λ a, typed a ∧ ∀ c, spares k a c) l → run l cs = Some cs' → rtc (step_sparing k) cs cs'.
Proof.
  revert cs. induction l as [|a l IH]; intros cs Hl; simpl.
  - intros [= <-]. apply rtc_refl.
  - apply Forall_cons in Hl as [[Ht Hs] Hl]. destruct (exec a cs.1 cs.2) as [cs1|] eqn:E; simpl; [|done].
    intros Hr. eapply rtc_l; [|by apply IH]. by exists a.
Qed.

(** C7: a job that [Push] accepted is never lost.  Whatever the driver does
    afterwards -- failed requests, messages of others, rejections, requeues with
    other headers and delays, pauses, crashes and restarts -- a message is
    stored that was sent to the queue of the consumer, which is still the one the
    consumer receives from, and from whose every delivery the listener reads the
    job, until the job is acknowledged. *)
Theorem sqs_job_never_lost jb c0 s0 c s s1 c' s' :
  pq c0 = [] → held c0 = [] → rtc step (c0, s0) (c, s) →
  int64 (jb_Delay jb) → int64 (jb_Priority jb) → Push jb c s = (s1, Ok tt) →
  rtc (step_sparing (key (fromJob jb))) (c, s1) (c', s') →
  ∃ id m, stored s' !! id = Some m ∧
    sm_QueueUrl m = queueURL c0 ∧ rm_QueueUrl (receive_input c') = queueURL c0 ∧
    ∀ r, delivers m r → ∃ i, unpack (queueURL c0) r = Ok i ∧ key i = key (fromJob jb).
Proof.
  intros Hq Hh H1 Hd Hp Hpush H2.
  destruct (steps_Inv (queueURL c0) _ _ H1) as [Hu Hi]; [done|..].
  { unfold Inv. simpl. rewrite Hq, Hh. by apply Forall_nil_2. }
  assert (Hi1 : Inv (queueURL c0) (c, s1)).
  { destruct (Push_ok (queueURL c0) jb c s) as [Ho _]. rewrite Hpush in Ho. by eapply Inv_mono. }
  assert (Hk : keeps (carries (queueURL c0)) (key (fromJob jb)) s1).
  { unfold Push in Hpush. destruct (pipe c) as [[n d]|]; [|done]. destruct (negb _); [done|].
    destruct (900 <? _); [done|]. destruct (handleItem _ c s) as [s2 [e|]] eqn:Eh; [done|].
    injection Hpush as <-.
    destruct (handleItem_ok (queueURL c0) (fromJob jb) c s s2) as (m & id & Hs & Hc); [done|by split|done|].
    by eapply keeps_send_new. }
  destruct (steps_keep _ _ _ _ H2 Hu Hi1 Hk) as (Hu' & id & m & Hm & Hc). exists id, m. split; [done|].
  split; [destruct Hc as (i & _ & Hpk & _); by apply pack_queue in Hpk|]. split; [done|].
  intros r Hr. destruct (carries_key _ _ _ _ (queueURL c0) Hc Hr) as (i & Hu2 & Hki & _). by exists i.
Qed.

(** An acknowledgement that succeeds takes the message of the item away. *)
Lemma sqs_ack_removes i s s' : Ack i s = (s', None) → stored s' !! target (tgt i) = None.
Proof. intros E%remove_ok. by rewrite E, lookup_delete_eq. Qed.

(** ** Listeners *)

(** Apart from [Stop], every pause signal belongs to one goroutine. *)
Definition counted (c : consumer) : Prop :=
  (tokens c ≤ 1)%nat ∧ (tokens c ≤ loops c)%nat ∧
  listeners c = u32 (Z.of_nat (loops c) - Z.of_nat (tokens c)).

Definition step_running (cs cs' : consumer * svc) : Prop :=
  ∃ a, a ≠ AStop ∧ exec a cs.1 cs.2 = Some cs'.

Lemma u32_inc_u32 z : u32_inc (u32 z) = u32 (z + 1).
Proof. unfold u32_inc, u32. by rewrite Zplus_mod_idemp_l. Qed.
Lemma u32_dec_u32 z : u32_dec (u32 z) = u32 (z - 1).
Proof.
  unfold u32_dec, u32. rewrite Zplus_mod_idemp_l.
  replace (z + (2 ^ 32 - 1)) with (z - 1 + 1 * 2 ^ 32) by lia. by rewrite Z_mod_plus_full.
Qed.

Lemma counted_start c :
  counted c → counted (with_loops (u32_inc (listeners c)) (tokens c) (S (loops c)) c).
Proof.
  intros (H1 & H2 & H3). split_and!; simpl; [done|lia|]. rewrite H3, u32_inc_u32. f_equal. lia.
Qed.

Lemma counted_dead c : counted (dead c).
Proof. by split_and!; simpl; try lia. Qed.

Lemma exec_counted a c s c' s' : a ≠ AStop → exec a c s = Some (c', s') → counted c → counted c'.
Proof.
  intros Ha He Hc. destruct a; simpl in He; try done; try (by injection He as <- <-).
  - destruct (loops c) eqn:El; [done|]. unfold listen in He. destruct (tokens c) eqn:Et.
    + repeat (case_match; simplify_eq/=); try done; by apply counted_dead.
    + injection He as <- <-. destruct Hc as (H1 & H2 & H3). rewrite El, Et in *.
      split_and!; simpl; rewrite ?El; simpl; [lia|lia|]. rewrite H3. f_equal. lia.
  - destruct (pq c !! n); by simplify_eq/=.
  - destruct (held c !! n); by simplify_eq/=.
  - destruct (held c !! n); by simplify_eq/=.
  - destruct (held c !! n); simplify_eq/=. by repeat case_match; simplify_eq/=.
  - injection He as <- <-. unfold Run. destruct (pipe c) as [[]|]; [|done].
    destruct (negb _); [done|]. by apply counted_start.
  - apply fmap_Some in He as (r & Hr & [= -> ->]). unfold Pause in Hr.
    destruct (pipe c) as [[n d]|]; [|simplify_eq; apply counted_dead].
    destruct (negb _); [by simplify_eq|]. destruct (Z.eqb_spec (listeners c) 0) as [|Hl]; [by simplify_eq|].
    apply fmap_Some in Hr as (c1 & Hs & ->). unfold send_token in Hs. simpl in Hs.
    destruct Hc as (H1 & H2 & H3). destruct (tokens c) eqn:Et; [|done]. injection Hs as <-.
    split_and!; simpl; [lia| |].
    + destruct (loops c); [|lia]. by rewrite H3 in Hl.
    + rewrite H3, u32_dec_u32. f_equal. lia.
  - injection He as <- <-. unfold Resume. destruct (pipe c) as [[]|]; [|apply counted_dead].
    destruct (negb _); [done|]. destruct (listeners c =? 1); [done|]. by apply counted_start.
  - injection He as <- <-. apply counted_dead.
Qed.

(** A pause takes effect.  When the consumer reports that it is not ready,
    no listener is running or the one that is ends in its next round, without
    asking for messages. *)
Theorem sqs_pause_stops c0 s0 c s :
  tokens c0 = 0%nat → loops c0 = 0%nat → listeners c0 = 0 → rtc step_running (c0, s0) (c, s) →
  Z.of_nat (loops c) < 2 ^ 32 → ready (listeners c) = false →
  loops c = 0%nat ∨ (loops c = 1%nat ∧ ∀ s, ∃ c', listen c s = (s, Ok c') ∧ loops c' = 0%nat ∧ pq c' = pq c).
Proof.
  intros Ht0 Hl0 Hn0 Hr Hb Hrd.
  assert (Hc : counted c).
  { assert (Hc0 : counted c0) by (unfold counted; rewrite Ht0, Hl0, Hn0; split_and!; [lia|lia|done]).
    clear Hb Hrd. change c with (c, s).1. change c0 with (c0, s0).1 in Hc0.
    induction Hr as [|[c1 s1] [c2 s2] cs3 (a & Ha & He) _ IH]; [done|]. apply IH. by eapply exec_counted. }
  destruct Hc as (H1 & H2 & H3). unfold ready in Hrd. apply Z.ltb_ge in Hrd.
  unfold u32 in H3. rewrite Z.mod_small in H3 by lia.
  destruct (tokens c) as [|[|?]] eqn:Et; [left; lia| |lia]. right. split; [lia|]. intros s2.
  unfold listen. rewrite Et. eexists. split; [done|]. simpl. split; [lia|done].
Qed.

(** ** Messages of others *)

(** A delay that is not a string makes the listener, and with it the server,
    panic. *)
Theorem sqs_foreign_panics c s s1 m ms n h :
  tokens c = 0%nat → receive (receive_input c) s = (s1, inl (m :: ms)) →
  Attributes m !! ApproximateReceiveCount = Some n →
  Forall (λ k, is_Some (MessageAttributes m !! k)) itemAttributes →
  unmarshal_headers (default "" (MessageAttributes m !! RRHeaders ≫= BinaryValue)) = inl h →
  MessageAttributes m !! RRDelay ≫= StringValue = None →
  listen c s = (s1, Panic).
Proof.
  intros Ht Hr Hn Ha Hh Hd.
  assert (Hp : string_value RRDelay (MessageAttributes m) = Panic).
  { unfold string_value. destruct (MessageAttributes m !! RRDelay) as [[t v b]|]; [|done].
    simpl in Hd. by rewrite Hd. }
  unfold listen. rewrite Ht, Hr. cbn [handle_messages]. unfold unpack.
  by rewrite Hn, (proj2 (missing_attr_None _ _) Ha), Hh, Hp.
Qed.
End SqsJobs.

(** ** A queue in memory *)

Section examples.
Local Existing Instance example_keys.
Local Existing Instance empty_json.

Definition show (id : Z) (m : SendMessageInput) : Message :=
  MkMessage {[ApproximateReceiveCount := "1"]} (sm_Attributes m) (Some (MessageBody m)) (Some (FormatUint id)).
Definition num (d : DeleteMessageInput) : Z :=
  default (-1) (parse_digits 0 (chars (default "" (dm_Receipt d)))).

Local Instance example_sqs : Sqs := {|
  sqs_store := map_store show num inl (λ _, None);
  CreateQueue q a t s := (s, inl (Some "url"));
  GetQueueAttributes q s := inl ∅;
  api_code e := None |}.

Local Instance example_sqs_laws : SqsLaws.
Proof.
  split; [|done..]. apply map_store_laws.
  - intros f id m Hid. unfold num. simpl. by rewrite parse_FormatUint.
  - intros id m. split; [done|]. split; [done|]. exists 1. split; [unfold int64; lia|reflexivity].
  - by intros l l' [= <-].
Defined.

Definition w_empty : svc := map_empty.
Definition w_job : Job := MkJob "mail" "1" "hello" ∅ 10 "p" 3.
Definition w_new : consumer :=
  MkConsumer None (Some "q") 5 10 0 0 ∅ ∅ InAWS (Some "url") 0 0 [] [].
Definition w_run : consumer := (Run "p" (Register "p" "sqs" w_new)).1.

(** Pushed, received, requeued by a poller, and the server restarted. *)
Definition w_actions : list action :=
  [AListen; AExtract 0; ARequeue ∅ 7 0; AForget 0; ARestart].

Lemma w_registered : rtc step (w_new, w_empty) (w_run, w_empty).
Proof.
  eapply (rtc_l step _ (Register "p" "sqs" w_new, w_empty)).
  - by exists (ARegister "p" "sqs").
  - apply rtc_once. by exists (ARun "p").
Qed.

Lemma sqs_job_never_lost_witness :
  let s1 := (Push w_job w_run w_empty).1 in
  let cs := default (w_run, s1) (run w_actions (w_run, s1)) in
  ∃ id m, stored cs.2 !! id = Some m ∧
    sm_QueueUrl m = Some "url" ∧ rm_QueueUrl (receive_input cs.1) = Some "url" ∧
    ∀ r, delivers m r → ∃ i, unpack (Some "url") r = Ok i ∧ key i = ("1", "mail", "hello").
Proof.
  intros s1 cs.
  apply (sqs_job_never_lost w_job w_new w_empty w_run w_empty s1 cs.1 cs.2);
    [reflexivity|reflexivity|exact w_registered|unfold int64; simpl; lia|unfold int64; simpl; lia|reflexivity|].
  apply (run_steps _ w_actions).
  - repeat constructor; simpl; try unfold int64; try lia; done.
  - vm_compute. reflexivity.
Defined.

Lemma sqs_pause_stops_witness :
  let c := default w_run (Pause "p" w_run ≫= (λ r, match r with Ok c => Some c | _ => None end)) in
  ∃ c', listen c w_empty = (w_empty, Ok c') ∧ loops c' = 0%nat ∧ pq c' = pq c.
Proof.
  intros c.
  destruct (sqs_pause_stops w_new w_empty c w_empty) as [Hx|[_ Hx]];
    [reflexivity|reflexivity|reflexivity| |reflexivity|reflexivity|discriminate Hx|exact (Hx w_empty)].
  eapply (rtc_l _ _ (Register "p" "sqs" w_new, w_empty)); [by exists (ARegister "p" "sqs")|].
  eapply (rtc_l _ _ (w_run, w_empty)); [by exists (ARun "p")|].
  apply rtc_once. by exists (APause "p").
Defined.
End examples.
End SqsJobs.
