(* ===== verification/JobsBeanstalk.v ===== *)
(** * The beanstalk jobs driver ([beanstalk/beanstalkjobs])

    A pipeline is a tube of a beanstalkd server.  [ConnPool] holds two
    connections and dials again when one breaks; the consumer encodes jobs with
    gob, a listener reserves them one by one, and settling deletes them. *)

From stdpp Require Import base gmap strings list.
From Stdlib Require Import ZArith.
From S2P Require Import Prelude GoStrings JobsProtocol JobsPlugin JobsBroker.

Module BeanstalkJobs.
Import Protocol Jobs Broker.
Local Open Scope Z_scope.

Definition pluginName : string := "beanstalk".
Definition second : Z := 10 ^ 9.

(** ** Configuration *)

Record config := MkConfig {
  cfg_Addr : string; cfg_Timeout : Z; cfg_PipePriority : Z; cfg_TubePriority : option Z;
  cfg_Tube : string; cfg_ReserveTimeout : Z }.

Definition zero_config : config := MkConfig "" 0 0 None "" 0.

Definition InitDefault (c : config) : config :=
  MkConfig (if String.eqb (cfg_Addr c) "" then "tcp://127.0.0.1:11300" else cfg_Addr c)
    (if cfg_Timeout c =? 0 then second * 30 else cfg_Timeout c)
    (if cfg_PipePriority c =? 0 then 10 else cfg_PipePriority c)
    (Some (default 0 (cfg_TubePriority c)))
    (if String.eqb (cfg_Tube c) "" then "default" else cfg_Tube c)
    (if cfg_ReserveTimeout c =? 0 then second else cfg_ReserveTimeout c).

(** ** The client library ([github.com/beanstalkd/go-beanstalk])

    Connections are numbers.  [conn_error]: what a [ConnError] was caused by. *)

Record PutRequest := MkPut {
  p_conn : nat; p_tube : string; p_body : bytes; p_pri : Z; p_delay : Z; p_ttr : Z }.
Record DeleteRequest := MkDelete { d_conn : nat; d_id : Z }.
Record ReserveRequest := MkReserve { r_conn : nat; r_tube : string; r_timeout : Z }.

Inductive cause := NetOp | CEOF | CTimeout | COther.

(** A reserved job shows its number and the body that was put. *)
Definition ref (f : ReserveRequest) (r : Z * bytes) : DeleteRequest := MkDelete (r_conn f) r.1.
Definition delivers (m : PutRequest) (r : Z * bytes) : Prop := r.2 = p_body m.

Class Beanstalk := {
  #[global] bs_store :: MessageStore PutRequest (Z * bytes) DeleteRequest ReserveRequest;
  Stats_ : nat → svc → gmap string string + error;
  Close_ : nat → svc → svc * option error;
  conn_error : error → option cause
}.

(** Job numbers start at one; errors that the driver formats are not connection
    errors; a call of [Reserve] returns one job. *)
Class BeanstalkLaws `{BS : Beanstalk} := {
  #[global] bs_store_laws :: MessageStoreLaws ref delivers;
  no_job_zero c s : stored s !! target (MkDelete c 0) = None;
  target_conn c c' id : target (MkDelete c id) = target (MkDelete c' id);
  Close_stored c s : stored (Close_ c s).1 = stored s;
  Close_next c s : next (Close_ c s).1 = next s;
  conn_error_formatted f a : conn_error (EErrorf f a) = None;
  reserve_one f s s' l : receive f s = (s', inl l) → ∃ r, l = [r]
}.

(** ** Items

    gob keeps the exported fields; [Options] is a pointer, which a foreign body
    may leave out. *)

Record Item := MkItem {
  it_Job : string; it_Ident : string; it_Payload : bytes; it_Headers : headers;
  it_Priority : Z; it_Pipeline : string; it_Delay : Z; it_id : Z; it_conn : nat }.

Record gob_options := MkGobOptions { go_Priority : Z; go_Pipeline : string; go_Delay : Z }.
Record gob_item := MkGobItem {
  g_Job : string; g_Ident : string; g_Payload : bytes; g_Headers : headers; g_Options : option gob_options }.

Global Instance gob_options_eq_dec : EqDecision gob_options.
Proof. solve_decision. Defined.
Global Instance gob_item_eq_dec : EqDecision gob_item.
Proof. solve_decision. Defined.

Definition exported (i : Item) : gob_item :=
  MkGobItem (it_Job i) (it_Ident i) (it_Payload i) (it_Headers i)
    (Some (MkGobOptions (it_Priority i) (it_Pipeline i) (it_Delay i))).

Class Gob := {
  gob_encode : gob_item → bytes + error;
  gob_decode : bytes → gob_item + error;
  gob_decode_encode i b : gob_encode i = inl b → gob_decode b = inl i
}.

Definition fromJob (j : Job) : Item :=
  MkItem (jb_Job j) (jb_Ident j) (jb_Payload j) (jb_Headers j)
    (jb_Priority j) (jb_Pipeline j) (jb_Delay j) 0 0.

Definition item_requeued (h : headers) (d : Z) (i : Item) : Item :=
  MkItem (it_Job i) (it_Ident i) (it_Payload i) h (it_Priority i) (it_Pipeline i) d (it_id i) (it_conn i).

(** [time.Second * time.Duration(o.Delay)] *)
Definition DelayDuration (i : Item) : Z := i64 (second * it_Delay i).

(** ** The connection pool *)

Record ConnPool := MkPool {
  conn : nat; connT : nat; network : string; address : string; tName : string; tout : Z }.

(** What a call of [DialTimeout] answers; the driver also checks for nil. *)
Abbreviation dial := (option nat + error)%type.
Record attempt := MkAttempt { dialT : dial; dialTS : dial }.

Definition redial_op : string := "connection_pool_redial".

Definition redial_once (a : attempt) (cp : ConnPool) : ConnPool * option error :=
  match dialT a with
  | inr e => (cp, Some e)
  | inl None => (cp, Some (EOp redial_op (EStr "connectionT is nil")))
  | inl (Some t) =>
      match dialTS a with
      | inr e => (cp, Some e)
      | inl None => (cp, Some (EOp redial_op (EStr "connectionTS is nil")))
      | inl (Some ts) => (MkPool ts t (network cp) (address cp) (tName cp) (tout cp), None)
      end
  end.

(** [backoff.Retry] calls the operation until it succeeds or the time is over;
    [l]: the attempts after the first that it has time for. *)
Fixpoint redial (a : attempt) (l : list attempt) (cp : ConnPool) : ConnPool * option error :=
  match redial_once a cp, l with
  | (cp, None), _ => (cp, None)
  | (cp, Some e), [] => (cp, Some e)
  | (cp, Some _), a :: l => redial a l cp
  end.

Section Beanstalk.
Context `{GB : Gob} `{BS : Beanstalk}.

Definition checkAndRedial (a : attempt) (l : list attempt) (err : error) (cp : ConnPool)
    : ConnPool * option error :=
  match conn_error err with
  | Some NetOp | Some CEOF =>
      match redial a l cp with
      | (cp, Some _) => (cp, Some (EOp "connection_pool_check_redial" (EErrorf "%v:%v" [])))
      | (cp, None) => (cp, None)
      end
  | _ => (cp, Some err)
  end.

(** The dial attempts a call finds, should it need them. *)
Record dials := MkDials { first : attempt; more : list attempt }.

Definition redial_failed : error := EErrorf "err: %s
err redial: %s" [].

Definition Put (dl : dials) (body : bytes) (pri delay ttr : Z) (cp : ConnPool) (s : svc)
    : ConnPool * svc * (Z + error) :=
  match send (MkPut (connT cp) (tName cp) body pri delay ttr) s with
  | (s, inl id) => (cp, s, inl id)
  | (s, inr e) =>
      match checkAndRedial (first dl) (more dl) e cp with
      | (cp, Some _) => (cp, s, inr redial_failed)
      | (cp, None) => let '(s, r) := send (MkPut (connT cp) (tName cp) body pri delay ttr) s in (cp, s, r)
      end
  end.

Definition Reserve (dl : dials) (timeout : Z) (cp : ConnPool) (s : svc)
    : ConnPool * svc * (list (Z * bytes) + error) :=
  match receive (MkReserve (conn cp) (tName cp) timeout) s with
  | (s, inl l) => (cp, s, inl l)
  | (s, inr e) =>
      match checkAndRedial (first dl) (more dl) e cp with
      | (cp, Some _) => (cp, s, inr redial_failed)
      | (cp, None) => let '(s, r) := receive (MkReserve (conn cp) (tName cp) timeout) s in (cp, s, r)
      end
  end.

Definition Delete (dl : dials) (id : Z) (cp : ConnPool) (s : svc) : ConnPool * svc * option error :=
  match remove (MkDelete (conn cp) id) s with
  | (s, None) => (cp, s, None)
  | (s, Some e) =>
      match checkAndRedial (first dl) (more dl) e cp with
      | (cp, Some _) => (cp, s, Some redial_failed)
      | (cp, None) => let '(s, r) := remove (MkDelete (conn cp) id) s in (cp, s, r)
      end
  end.

Definition Stats (dl : dials) (cp : ConnPool) (s : svc) : ConnPool * (gmap string string + error) :=
  match Stats_ (conn cp) s with
  | inl m => (cp, inl m)
  | inr e =>
      match checkAndRedial (first dl) (more dl) e cp with
      | (cp, Some _) => (cp, inr redial_failed)
      | (cp, None) => (cp, Stats_ (conn cp) s)
      end
  end.

Definition pool_Stop (cp : ConnPool) (s : svc) : svc := (Close_ (connT cp) (Close_ (conn cp) s).1).1.

(** ** The consumer

    [tokens]: what is in [stopCh], whose capacity is two; [loops]: the running
    [listen] goroutines; [held]: the items pollers have taken from the priority
    queue. *)

Record consumer := MkConsumer {
  pipe : option (string * string); listeners : Z; pool : ConnPool; addr : string; net : string;
  reserveTimeout : Z; timeout : Z; tube : string; tubePriority : Z; priority : Z;
  tokens : nat; loops : nat; pq : list Item; held : list Item }.

Definition with_loops n t l c := MkConsumer (pipe c) n (pool c) (addr c) (net c) (reserveTimeout c)
  (timeout c) (tube c) (tubePriority c) (priority c) t l (pq c) (held c).
Definition with_queue q h c := MkConsumer (pipe c) (listeners c) (pool c) (addr c) (net c) (reserveTimeout c)
  (timeout c) (tube c) (tubePriority c) (priority c) (tokens c) (loops c) q h.
Definition with_pool cp c := MkConsumer (pipe c) (listeners c) cp (addr c) (net c) (reserveTimeout c)
  (timeout c) (tube c) (tubePriority c) (priority c) (tokens c) (loops c) (pq c) (held c).

(** [dials]: what the two calls of [beanstalk.DialTimeout] answer. *)
Definition NewConnPool (network address tName : string) (tout : Z) (d1 d2 : nat + error) : ConnPool + error :=
  match d1 with
  | inr e => inr e
  | inl t => match d2 with
             | inr e => inr e
             | inl ts => inl (MkPool ts t network address tName tout)
             end
  end.

Definition invalid_dsn (a : string) : error :=
  EErrorf "invalid socket DSN (tcp://127.0.0.1:11300, unix://beanstalk.sock), provided: %s" [a].

Definition construct (op : string) (conf : config) (tname : string) (rtimeout tprio prio : Z)
    (d1 d2 : nat + error) : res consumer :=
  match SplitStr (cfg_Addr conf) "://" with
  | [nw; ad] =>
      match NewConnPool nw ad tname (cfg_Timeout conf) d1 d2 with
      | inr e => Err (EOp op e)
      | inl cp => Ok (MkConsumer None 0 cp ad nw rtimeout (cfg_Timeout conf) tname tprio prio 0 0 [] [])
      end
  | _ => Err (EOp op (invalid_dsn (cfg_Addr conf)))
  end.

Definition NewBeanstalkConsumer (has : string → bool) (unmarshal : string → config → res config)
    (d1 d2 : nat + error) (configKey : string) : res consumer :=
  let op := "new_beanstalk_consumer" in
  if negb (has configKey) then Err (EOp op (EErrorf "no configuration by provided key: %s" [configKey]))
  else if negb (has pluginName)
  then Err (EOp op (EStr "no global beanstalk configuration, global configuration should contain beanstalk addrs and timeout"))
  else
    conf ← wrap_err op (unmarshal configKey zero_config);
    conf ← wrap_err op (unmarshal pluginName conf);
    let conf := InitDefault conf in
    construct op conf (cfg_Tube conf) (cfg_ReserveTimeout conf) (default 0 (cfg_TubePriority conf))
      (cfg_PipePriority conf) d1 d2.

(** [pstring], [pint], [pprio]: [pipe.String], [pipe.Int] and [pipe.Priority]. *)
Definition FromPipeline (has : string → bool) (unmarshal : string → config → res config)
    (pstring : string → string → string) (pint : string → Z → Z) (pprio : Z)
    (d1 d2 : nat + error) : res consumer :=
  let op := "new_beanstalk_consumer" in
  if negb (has pluginName)
  then Err (EOp op (EStr "no global beanstalk configuration, global configuration should contain beanstalk 'addrs' and timeout"))
  else
    conf ← wrap_err op (unmarshal pluginName zero_config);
    let conf := InitDefault conf in
    construct op conf (pstring "tube" "default") (i64 (second * pint "reserve_timeout" 5))
      (u32 (pint "tube_priority" 1)) pprio d1 d2.

(** ** Pushing and settling *)

(** A put that failed is followed by a delete of the job number it returned,
    which is zero. *)
Definition handleItem (dl dl2 : dials) (i : Item) (c : consumer) (s : svc) : consumer * svc * option error :=
  let op := "beanstalk_handle_item" in
  match gob_encode (exported i) with
  | inr e => (c, s, Some (EOp op e))
  | inl body =>
      match Put dl body (tubePriority c) (DelayDuration i) (timeout c) (pool c) s with
      | (cp, s, inl _) => (with_pool cp c, s, None)
      | (cp, s, inr e) =>
          match Delete dl2 0 cp s with
          | (cp, s, Some _) => (with_pool cp c, s, Some (EOp op (EErrorf "%s:%s" [])))
          | (cp, s, None) => (with_pool cp c, s, Some (EOp op e))
          end
      end
  end.

Definition Push (dl dl2 : dials) (jb : Job) (c : consumer) (s : svc) : consumer * svc * res unit :=
  let op := "beanstalk_push" in
  match pipe c with
  | None => (c, s, Panic)
  | Some (name, _) =>
      if negb (String.eqb name (jb_Pipeline jb))
      then (c, s, Err (EOp op (EErrorf "no such pipeline: %s, actual: %s" [jb_Pipeline jb; name])))
      else match handleItem dl dl2 (fromJob jb) c s with
           | (c, s, Some e) => (c, s, Err (EOp op e))
           | (c, s, None) => (c, s, Ok tt)
           end
  end.

(** The connection is the one of the pool when the item was read. *)
Definition tgt (i : Item) : DeleteRequest := MkDelete (it_conn i) (it_id i).

Definition Ack (i : Item) (s : svc) : svc * option error := remove (tgt i) s.
Definition Nack (i : Item) (s : svc) : svc * option error := remove (tgt i) s.

Definition Requeue_ (dl dl2 : dials) (h : headers) (delay : Z) (i : Item) (c : consumer) (s : svc)
    : Item * consumer * svc * option error :=
  let i := item_requeued h delay i in
  match handleItem dl dl2 i c s with
  | (c, s, Some e) => (i, c, s, Some e)
  | (c, s, None) => let '(s, e) := remove (tgt i) s in (i, c, s, e)
  end.

(** [d]: the connection [DialTimeout] answers. *)
Definition handleTPush (d : nat + error) (data : bytes) (tube : string) (c : consumer) (s : svc)
    : svc * option error :=
  match d with
  | inr e => (s, Some e)
  | inl k => match send (MkPut k tube data 0 0 (timeout c)) s with
             | (s, inr e) => (s, Some e)
             | (s, inl _) => Close_ k s
             end
  end.

Definition Respond (d : nat + error) (data : bytes) (queue : string) (c : consumer) (s : svc)
    : svc * option error :=
  match handleTPush d data queue c s with
  | (s, Some e) => (s, Some (EOp "beanstalk_respond" e))
  | (s, None) => (s, None)
  end.

(** ** The listener *)

Definition unpack (id : Z) (data : bytes) (c : consumer) : res Item :=
  match gob_decode data with
  | inr e => Err e
  | inl g =>
      match g_Options g with
      | None => Panic
      | Some o =>
          Ok (MkItem (g_Job g) (g_Ident g) (g_Payload g) (g_Headers g)
                (if go_Priority o =? 0 then priority c else go_Priority o)
                (go_Pipeline o) (go_Delay o) id (conn (pool c)))
      end
  end.

(** One round of [listen]: a token in [stopCh] ends the goroutine; after an
    error of [Reserve] the loop goes on. *)
Definition listen (dl dl2 : dials) (c : consumer) (s : svc) : consumer * svc * res unit :=
  match tokens c with
  | S t => (with_loops (listeners c) t (pred (loops c)) c, s, Ok tt)
  | O =>
      match Reserve dl (reserveTimeout c) (pool c) s with
      | (cp, s, inr _) | (cp, s, inl []) => (with_pool cp c, s, Ok tt)
      | (cp, s, inl ((id, body) :: _)) =>
          let c := with_pool cp c in
          match unpack id body c with
          | Panic => (c, s, Panic)
          | Err _ => let '(cp, s, _) := Delete dl2 id (pool c) s in (with_pool cp c, s, Ok tt)
          | Ok item => (with_queue (pq c ++ [item]) (held c) c, s, Ok tt)
          end
      end
  end.

(** ** Control *)

Definition Register (name driver : string) (c : consumer) : consumer :=
  MkConsumer (Some (name, driver)) (listeners c) (pool c) (addr c) (net c) (reserveTimeout c)
    (timeout c) (tube c) (tubePriority c) (priority c) (tokens c) (loops c) (pq c) (held c).

Definition Run (name : string) (c : consumer) : consumer * res unit :=
  match pipe c with
  | None => (c, Panic)
  | Some (n, _) =>
      if negb (String.eqb n name)
      then (c, Err (EOp "beanstalk_run" (EErrorf "no such pipeline: %s, actual: %s" [name; n])))
      else (with_loops (u32_inc (listeners c)) (tokens c) (S (loops c)) c, Ok tt)
  end.

(** [c.stopCh <- struct{}{}]: waits ([None]) while the channel is full. *)
Definition send_token (c : consumer) : option consumer :=
  if (tokens c <? 2)%nat then Some (with_loops (listeners c) (S (tokens c)) (loops c) c) else None.

Definition Stop (c : consumer) (s : svc) : option (res consumer * svc) :=
  match pipe c with
  | None => Some (Panic, s)
  | Some _ =>
      c ← (if listeners c =? 1 then send_token c else Some c);
      Some (Ok c, pool_Stop (pool c) s)
  end.

Definition Pause (p : string) (c : consumer) : option (res consumer) :=
  match pipe c with
  | None => Some Panic
  | Some (n, _) =>
      if negb (String.eqb n p) then Some (Ok c)
      else if listeners c =? 0 then Some (Ok c)
      else Ok <$> send_token (with_loops (u32_dec (listeners c)) (tokens c) (loops c) c)
  end.

Definition Resume (p : string) (c : consumer) : res consumer :=
  match pipe c with
  | None => Panic
  | Some (n, _) =>
      if negb (String.eqb n p) then Ok c
      else if listeners c =? 1 then Ok c
      else Ok (with_loops (u32_inc (listeners c)) (tokens c) (S (loops c)) c)
  end.

Definition ready (r : Z) : bool := 0 <? r.

Definition number_of (m : gmap string string) (name : string) : Z :=
  default 0 (ParseInt (default "" (m !! name))).

Definition State_ (dl : dials) (c : consumer) (s : svc) : consumer * res State :=
  match Stats dl (pool c) s with
  | (cp, inr e) => (with_pool cp c, Err (EOp "beanstalk_state" e))
  | (cp, inl m) =>
      let c := with_pool cp c in
      match pipe c with
      | None => (c, Panic)
      | Some (n, d) =>
          (c, Ok (MkState n d (tube c) (number_of m "current-jobs-ready") (number_of m "current-jobs-delayed")
                    (number_of m "current-jobs-reserved") (ready (listeners c))))
      end
  end.

(** ** Actions

    As for the other drivers: pollers take items and settle them, a panic of the
    listener or a restart leaves a consumer without goroutines and items. *)

Inductive action :=
  | APush (dl dl2 : dials) (jb : Job)
  | AListen (dl dl2 : dials)
  | AExtract (n : nat) | AForget (n : nat)
  | AAck (n : nat) | ANack (n : nat) | ARequeue (dl dl2 : dials) (h : headers) (delay : Z) (n : nat)
  | ARespond (d : nat + error) (data : bytes) (q : string)
  | AState (dl : dials)
  | ARegister (name driver : string) | ARun (name : string)
  | APause (p : string) | AResume (p : string) | AStop
  | ARestart (cp : ConnPool).

Definition dead (cp : ConnPool) (c : consumer) : consumer :=
  MkConsumer None 0 cp (addr c) (net c) (reserveTimeout c) (timeout c) (tube c) (tubePriority c)
    (priority c) 0 0 [] [].

Definition alive (c : consumer) (r : res consumer) : consumer :=
  match r with Ok c => c | Err _ | Panic => dead (pool c) c end.

Definition exec (a : action) (c : consumer) (s : svc) : option (consumer * svc) :=
  match a with
  | APush dl dl2 jb => let '(c, s, _) := Push dl dl2 jb c s in Some (c, s)
  | AListen dl dl2 =>
      match loops c with
      | O => None
      | S _ => match listen dl dl2 c s with
               | (c, s, Panic) => Some (dead (pool c) c, s)
               | (c, s, _) => Some (c, s)
               end
      end
  | AExtract n => i ← pq c !! n; Some (with_queue (delete n (pq c)) (held c ++ [i]) c, s)
  | AForget n => Some (with_queue (pq c) (delete n (held c)) c, s)
  | AAck n => i ← held c !! n; Some (c, (Ack i s).1)
  | ANack n => i ← held c !! n; Some (c, (Nack i s).1)
  | ARequeue dl dl2 h d n =>
      i ← held c !! n;
      let '(i, c, s, _) := Requeue_ dl dl2 h d i c s in Some (with_queue (pq c) (<[n := i]> (held c)) c, s)
  | ARespond d data q => Some (c, (Respond d data q c s).1)
  | AState dl => Some ((State_ dl c s).1, s)
  | ARegister name driver => Some (Register name driver c, s)
  | ARun name => Some ((Run name c).1, s)
  | APause p => (λ r, (alive c r, s)) <$> Pause p c
  | AResume p => Some (alive c (Resume p c), s)
  | AStop => (λ '(r, s), (alive c r, s)) <$> Stop c s
  | ARestart cp => Some (dead cp c, s)
  end.

(** ** No job is lost *)

Definition key (i : Item) : string * string * bytes := (it_Ident i, it_Job i, it_Payload i).

Definition carries (m : PutRequest) (k : string * string * bytes) : Prop :=
  ∃ i, gob_encode (exported i) = inl (p_body m) ∧ key i = k.

(** [a] neither acknowledges nor rejects the job. *)
Definition spares (k : string * string * bytes) (a : action) (c : consumer) : Prop :=
  match a with
  | AAck n | ANack n => ∀ i, held c !! n = Some i → key i ≠ k
  | _ => True
  end.

Definition step (cs cs' : consumer * svc) : Prop := ∃ a, exec a cs.1 cs.2 = Some cs'.
Definition step_sparing (k : string * string * bytes) (cs cs' : consumer * svc) : Prop :=
  ∃ a, spares k a cs.1 ∧ exec a cs.1 cs.2 = Some cs'.

Context `{BL : !BeanstalkLaws}.

Abbreviation item_ok := (tracked carries key tgt).
Abbreviation keep := (keeps carries).
Definition Inv (cs : consumer * svc) : Prop := Forall (item_ok cs.2) (pq cs.1 ++ held cs.1).

(** [s'] is [s] after calls that delete no job. *)
Definition later (s s' : svc) : Prop :=
  (∀ i, item_ok s i → item_ok s' i) ∧ (∀ k, keep k s → keep k s') ∧ next s ≤ next s'.

Lemma later_trans s1 s2 s3 : later s1 s2 → later s2 s3 → later s1 s3.
Proof. intros (? & ? & ?) (? & ? & ?). split_and!; [by eauto..|lia]. Qed.
Lemma later_send m s : later s (send m s).1.
Proof. split_and!; intros; [by apply tracked_send|by apply keeps_send|apply send_next]. Qed.
Lemma later_receive f s : later s (receive f s).1.
Proof. split_and!; intros; [by apply tracked_receive|by apply keeps_receive|by rewrite receive_next]. Qed.
Lemma later_remove d s :
  (∀ m k, stored s !! target d = Some m → ~ carries m k) → later s (remove d s).1.
Proof.
  intros Hd. split_and!; intros; [by apply tracked_remove| |by rewrite remove_next].
  apply keeps_drop; [|done]. intros m Hm. by apply Hd.
Qed.
Lemma later_Close c s : later s (Close_ c s).1.
Proof. unfold later, tracked, keeps. rewrite Close_stored, Close_next. by split_and!. Qed.

Lemma bs_carries_key m r k c :
  carries m k → delivers m r → ∃ i, unpack r.1 r.2 c = Ok i ∧ key i = k.
Proof.
  intros (i & He & <-) Hd. unfold delivers in Hd. unfold unpack. rewrite Hd, (gob_decode_encode _ _ He).
  simpl. by eexists.
Qed.

Lemma unpack_tgt id data c i : unpack id data c = Ok i → tgt i = MkDelete (conn (pool c)) id.
Proof.
  unfold unpack. destruct (gob_decode data) as [g|]; [|done]. destruct (g_Options g); [|done].
  by intros [= <-].
Qed.

Lemma redial_frame a l cp cp' r :
  redial a l cp = (cp', r) →
  tName cp' = tName cp ∧ network cp' = network cp ∧ address cp' = address cp ∧ tout cp' = tout cp.
Proof.
  revert a cp. induction l as [|b l IH]; intros a cp; cbn [redial]; unfold redial_once;
    (repeat case_match); intros; simplify_eq/=; try done; by eapply IH.
Qed.

(** [Put]: nothing is deleted, and a success means that the job is stored. *)
Lemma Put_spec dl body pri delay ttr cp s cp' s' r :
  Put dl body pri delay ttr cp s = (cp', s', r) →
  later s s' ∧ (∀ id, r = inl id → next s ≤ id ∧ ∃ m, stored s' !! id = Some m ∧ p_body m = body).
Proof.
  unfold Put. pose proof (later_send (MkPut (connT cp) (tName cp) body pri delay ttr) s) as H1.
  destruct (send _ s) as [s1 [id|e]] eqn:E1; simpl in H1.
  - intros [= <- <- <-]. split; [done|]. intros ? [= <-]. eapply send_ok in E1 as [E1 ?]. eauto.
  - destruct (checkAndRedial _ _ _ _) as [cp1 [e1|]]; [by intros [= <- <- <-]|].
    pose proof (later_send (MkPut (connT cp1) (tName cp1) body pri delay ttr) s1) as H2.
    destruct (send _ s1) as [s2 r2] eqn:E2. simpl in H2. intros [= <- <- <-].
    split; [by eapply later_trans|]. intros id ->. eapply send_ok in E2 as [E2 Hn].
    destruct H1 as (_ & _ & Hle). split; [lia|]. eauto.
Qed.

Lemma Delete_later dl id cp s cp' s' r :
  (∀ m k, stored s !! target (MkDelete (conn cp) id) = Some m → ~ carries m k) →
  Delete dl id cp s = (cp', s', r) → later s s'.
Proof.
  intros Hd. unfold Delete. pose proof (later_remove _ _ Hd) as H1.
  assert (Hd1 : ∀ c m k, stored (remove (MkDelete (conn cp) id) s).1 !! target (MkDelete c id) = Some m →
    ~ carries m k).
  { intros c m k Hm. rewrite (target_conn c (conn cp)) in Hm. apply (Hd m k).
    destruct (remove_stored (MkDelete (conn cp) id) s) as [E|E]; rewrite E in Hm; [done|].
    by apply lookup_delete_Some in Hm as [_ ?]. }
  destruct (remove _ s) as [s1 [e|]]; simpl in *; [|by intros [= <- <- <-]].
  destruct (checkAndRedial _ _ _ _) as [cp1 [e1|]]; [by intros [= <- <- <-]|].
  pose proof (later_remove (MkDelete (conn cp1) id) s1 (Hd1 _)) as H2.
  destruct (remove _ s1). intros [= <- <- <-]. by eapply later_trans.
Qed.

Lemma Reserve_spec dl t cp s cp' s' r :
  Reserve dl t cp s = (cp', s', r) →
  later s s' ∧ ∀ l, r = inl l → ∃ x, l = [x] ∧
    shown (ref := ref) (delivers := delivers) (MkReserve (conn cp') (tName cp') t) s' x.
Proof.
  unfold Reserve. pose proof (later_receive (MkReserve (conn cp) (tName cp) t) s) as H1.
  destruct (receive _ s) as [s1 [l|e]] eqn:E1; simpl in H1.
  - intros [= <- <- <-]. split; [done|]. intros ? [= <-]. destruct (reserve_one _ _ _ _ E1) as [x ->].
    apply receive_shown, Forall_cons in E1 as [E1 _]. by exists x.
  - destruct (checkAndRedial _ _ _ _) as [cp1 [e1|]]; [by intros [= <- <- <-]|].
    pose proof (later_receive (MkReserve (conn cp1) (tName cp1) t) s1) as H2.
    destruct (receive _ s1) as [s2 r2] eqn:E2. simpl in H2. intros [= <- <- <-].
    split; [by eapply later_trans|]. intros l ->. destruct (reserve_one _ _ _ _ E2) as [x ->].
    apply receive_shown, Forall_cons in E2 as [E2 _]. by exists x.
Qed.

Lemma no_job_zero_carries c s m k : stored s !! target (MkDelete c 0) = Some m → ~ carries m k.
Proof. by rewrite no_job_zero. Qed.

Lemma handleItem_spec dl dl2 i c s c' s' r :
  handleItem dl dl2 i c s = (c', s', r) →
  later s s' ∧ pq c' = pq c ∧ held c' = held c ∧
  (r = None → ∃ id m, next s ≤ id ∧ stored s' !! id = Some m ∧ carries m (key i)).
Proof.
  unfold handleItem. destruct (gob_encode (exported i)) as [body|e] eqn:Eg;
    [|intros [= <- <- <-]; by split_and!].
  destruct (Put _ _ _ _ _ _ _) as [[cp s1] [id|e]] eqn:Ep; apply Put_spec in Ep as [H1 Hr].
  - intros [= <- <- <-]. split_and!; [done..|]. intros _. destruct (Hr id eq_refl) as (Hn & m & Hm & Hb).
    exists id, m. split_and!; [done..|]. exists i. by rewrite Hb.
  - destruct (Delete _ _ _ _) as [[cp2 s2] [e2|]] eqn:Ed;
      (apply Delete_later in Ed; [|intros; by eapply no_job_zero_carries]);
      intros [= <- <- <-]; by split_and!; [eapply later_trans|..].
Qed.

(** A copy is stored before the original is deleted. *)
Lemma handleItem_moves dl dl2 i j c s c' s' k :
  item_ok s i → key j = key i → handleItem dl dl2 j c s = (c', s', None) → keep k s →
  keep k (remove (tgt i) s').1.
Proof.
  intros Ht Hj Hh Hk. pose proof (handleItem_spec _ _ _ _ _ _ _ _ Hh) as ((Hi & Hkp & _) & _ & _ & Hst).
  destruct (decide (key i = k)) as [<- |Hne]; [|by apply (keeps_remove carries key tgt); auto].
  destruct (Hst eq_refl) as (id & m & Hn & Hm & Hc). rewrite Hj in Hc. exists id, m. split; [|done].
  destruct (remove_stored (tgt i) s') as [E|E]; rewrite E; [done|].
  rewrite lookup_delete_ne; [done|]. destruct Ht. lia.
Qed.

Lemma Inv_later c s s' : later s s' → Inv (c, s) → Inv (c, s').
Proof. intros (Hj & _) Hi. by eapply Forall_impl. Qed.

Lemma Push_spec dl dl2 jb c s c' s' r :
  Push dl dl2 jb c s = (c', s', r) → later s s' ∧ pq c' = pq c ∧ held c' = held c ∧
  (r = Ok tt → keep (key (fromJob jb)) s').
Proof.
  unfold Push. destruct (pipe c) as [[n d]|]; [|by intros [= <- <- <-]; split_and!].
  destruct (negb _); [by intros [= <- <- <-]; split_and!|].
  destruct (handleItem _ _ _ c s) as [[c1 s1] r1] eqn:Eh.
  apply handleItem_spec in Eh as (H1 & H2 & H3 & H4).
  destruct r1 as [e|]; intros [= <- <- <-]; split_and!; try done. intros _.
  destruct (H4 eq_refl) as (id & m & _ & ?). by exists id, m.
Qed.

Lemma listen_spec dl dl2 c s c' s' r :
  Inv (c, s) → listen dl dl2 c s = (c', s', r) → Inv (c', s') ∧ ∀ k, keep k s → keep k s'.
Proof.
  intros Hi. unfold listen. destruct (tokens c); [|by intros [= <- <- <-]].
  destruct (Reserve _ _ _ _) as [[cp s1] [l|e]] eqn:Er; apply Reserve_spec in Er as [H1 Hl];
    pose proof (Inv_later c _ _ H1 Hi) as Hi1; pose proof H1 as (_ & Hk1 & _); [|by intros [= <- <- <-]].
  destruct (Hl l eq_refl) as ([id body] & -> & Hn & Hm). simpl.
  destruct (unpack id body (with_pool cp c)) as [item| |] eqn:Eu.
  - intros [= <- <- <-]. split; [|done]. apply Forall_app in Hi1 as [Hq Hh].
    apply Forall_app. split; [|done]. apply Forall_app. split; [done|]. apply Forall_singleton.
    pose proof (unpack_tgt _ _ _ _ Eu) as Ht. unfold tracked. rewrite Ht. split; [exact Hn|].
    intros m k H Hc. destruct (bs_carries_key m (id, body) k (with_pool cp c) Hc (Hm m H)) as (i' & E' & <-).
    simpl in E'. congruence.
  - destruct (Delete _ _ _ _) as [[cp2 s2] r2] eqn:Ed. apply Delete_later in Ed.
    + intros [= <- <- <-]. split; [by apply (Inv_later c s1)|]. destruct Ed as (_ & ? & _). eauto.
    + intros m k H Hc. destruct (bs_carries_key m (id, body) k (with_pool cp c) Hc (Hm m H)) as (i' & E' & _).
      simpl in E'. congruence.
  - intros [= <- <- <-]. by split.
Qed.

Lemma Requeue_spec dl dl2 h d i c s i' c' s' e :
  item_ok s i → Requeue_ dl dl2 h d i c s = (i', c', s', e) →
  pq c' = pq c ∧ held c' = held c ∧ item_ok s' i' ∧ (∀ j, item_ok s j → item_ok s' j) ∧
  ∀ k, keep k s → keep k s'.
Proof.
  intros Hi. unfold Requeue_.
  destruct (handleItem _ _ _ c s) as [[c1 s1] [e1|]] eqn:Eh;
    pose proof (handleItem_spec _ _ _ _ _ _ _ _ Eh) as ((Ho & Hk & _) & Hq & Hh & _).
  - intros [= <- <- <- <-]. split_and!; try done. by apply Ho.
  - pose proof (λ j, tracked_remove carries key tgt (tgt i) s1 j) as Hrm.
    pose proof (λ k, handleItem_moves dl dl2 i (item_requeued h d i) c s c1 s1 k Hi eq_refl Eh) as Hmv.
    change (tgt (item_requeued h d i)) with (tgt i).
    destruct (remove (tgt i) s1) as [s2 e2]; simpl in *. intros [= <- <- <- <-].
    split_and!; try done; [by apply Hrm, Ho|by eauto].
Qed.

Lemma Respond_spec d data q c s : later s (Respond d data q c s).1.
Proof.
  unfold Respond, handleTPush. destruct d as [k|]; [|done].
  pose proof (later_send (MkPut k q data 0 0 (timeout c)) s) as H1.
  destruct (send _ s) as [s1 []]; simpl in *; [|done]. pose proof (later_Close k s1) as H2.
  destruct (Close_ k s1) as [s2 []]; simpl in *; by eapply later_trans.
Qed.

Lemma bs_alive_items c r : (∀ c', r = Ok c' → pq c' = pq c ∧ held c' = held c) →
  ∀ s, Inv (c, s) → Inv (alive c r, s).
Proof.
  intros Hr s Hi. destruct r as [c'| |]; [|by apply Forall_nil_2..].
  destruct (Hr c' eq_refl) as [E1 E2]. unfold Inv. simpl. by rewrite E1, E2.
Qed.

Lemma Inv_items c c' s : pq c' = pq c → held c' = held c → Inv (c, s) → Inv (c', s).
Proof. intros E1 E2. unfold Inv. simpl. by rewrite E1, E2. Qed.

Lemma bs_exec_ok a c s c' s' :
  exec a c s = Some (c', s') → Inv (c, s) →
  Inv (c', s') ∧ ∀ k, spares k a c → keep k s → keep k s'.
Proof.
  intros He Hi. destruct a; simpl in *.
  - destruct (Push _ _ jb c s) as [[c1 s1] r] eqn:Ep. injection He as <- <-.
    apply Push_spec in Ep as (Hl & Hq & Hh & _). split; [|by destruct Hl as (_ & ? & _); eauto].
    eapply Inv_items; [done..|]. by eapply Inv_later.
  - destruct (loops c); [done|]. destruct (listen _ _ c s) as [[c1 s1] r] eqn:El.
    destruct (listen_spec _ _ _ _ _ _ _ Hi El) as [Hi1 Hk].
    destruct r; injection He as <- <-; (split; [|by eauto]); try done. by apply Forall_nil_2.
  - destruct (pq c !! n) as [i|] eqn:En; simpl in He; [|done]. injection He as <- <-.
    split; [|done]. by apply Forall_extract.
  - injection He as <- <-. split; [|done]. by apply Forall_forget.
  - destruct (held c !! n) as [i|] eqn:En; simpl in He; [|done]. injection He as <- <-.
    pose proof (Forall_held _ _ _ _ _ Hi En) as Hok.
    split; [by eapply Forall_impl; [exact Hi|]; intros; apply tracked_remove|].
    intros k Hs. apply (keeps_remove carries key tgt); [apply Hok|by apply Hs].
  - destruct (held c !! n) as [i|] eqn:En; simpl in He; [|done]. injection He as <- <-.
    pose proof (Forall_held _ _ _ _ _ Hi En) as Hok.
    split; [by eapply Forall_impl; [exact Hi|]; intros; apply tracked_remove|].
    intros k Hs. apply (keeps_remove carries key tgt); [apply Hok|by apply Hs].
  - destruct (held c !! n) as [i|] eqn:En; simpl in He; [|done].
    destruct (Requeue_ _ _ h delay i c s) as [[[i' c1] s1] e] eqn:Er. injection He as <- <-.
    destruct (Requeue_spec _ _ _ _ _ _ _ _ _ _ _ (Forall_held _ _ _ _ _ Hi En) Er) as (Hq & Hh & H1 & H2 & H3).
    split; [|by eauto]. unfold Inv. simpl. rewrite Hq, Hh. apply Forall_update; [|done]. by eapply Forall_impl.
  - injection He as <- <-. pose proof (Respond_spec d data q c s) as Hl.
    split; [by eapply Inv_later|]. destruct Hl as (_ & ? & _). eauto.
  - injection He as <- <-. split; [|done]. unfold State_. destruct (Stats _ _ _) as [cp []]; [|done].
    by destruct (pipe _) as [[]|].
  - by injection He as <- <-.
  - injection He as <- <-. split; [|done]. unfold Run. destruct (pipe c) as [[]|]; [|done]. by destruct (negb _).
  - apply fmap_Some in He as (r & Hr & [= -> ->]). split; [|done]. apply bs_alive_items; [|done].
    intros c1 ->. unfold Pause, send_token in Hr. repeat case_match; by simplify_eq/=.
  - injection He as <- <-. split; [|done]. apply bs_alive_items; [|done]. intros c1 Hr. unfold Resume in Hr.
    repeat case_match; by simplify_eq/=.
  - apply fmap_Some in He as ([r s1] & Hr & [= -> ->]). unfold Stop in Hr.
    destruct (pipe c); [|simplify_eq; split; [by apply Forall_nil_2|done]].
    destruct (if listeners c =? 1 then send_token c else Some c) as [c1|] eqn:Es; simpl in Hr; [|done].
    injection Hr as <- <-.
    assert (Hl : later s (pool_Stop (pool c1) s)) by (eapply later_trans; apply later_Close).
    assert (Hit : pq c1 = pq c ∧ held c1 = held c)
      by (unfold send_token in Es; repeat case_match; by simplify_eq/=).
    split; [|by destruct Hl as (_ & ? & _); eauto]. destruct Hit. eapply Inv_items; [done..|]. by eapply Inv_later.
  - injection He as <- <-. split; [by apply Forall_nil_2|done].
Qed.

Lemma bs_steps_Inv cs cs' : rtc step cs cs' → Inv cs → Inv cs'.
Proof.
  induction 1 as [|[c s] [c1 s1] cs2 (a & He) _ IH]; [done|]. intros Hi. apply IH. by eapply bs_exec_ok.
Qed.

Lemma bs_steps_keep k cs cs' : rtc (step_sparing k) cs cs' → Inv cs → keep k cs.2 → keep k cs'.2.
Proof.
  induction 1 as [|[c s] [c1 s1] cs2 (a & Hs & He) _ IH]; [done|]. intros Hi Hk.
  destruct (bs_exec_ok _ _ _ _ _ He Hi) as [Hi1 Hk1]. by apply IH; [|apply Hk1].
Qed.

Fixpoint run (l : list action) (cs : consumer * svc) : option (consumer * svc) :=
  match l with
  | [] => Some cs
  | a :: l' => cs ← exec a cs.1 cs.2; run l' cs
  end.

Lemma bs_run_steps k l cs cs' :
  Forall (λ a, ∀ c, spares k a c) l → run l cs = Some cs' → rtc (step_sparing k) cs cs'.
Proof.
  revert cs. induction l as [|a l IH]; intros cs Hl; simpl.
  - intros [= <-]. apply rtc_refl.
  - apply Forall_cons in Hl as [Hs Hl]. destruct (exec a cs.1 cs.2) as [cs1|] eqn:E; simpl; [|done].
    intros Hr. eapply rtc_l; [|by apply IH]. by exists a.
Qed.

(** C8: a job that [Push] accepted is never lost: through broken connections and
    redials, requests whose answer was lost, bodies that cannot be decoded,
    requeues, pauses, crashes and restarts the server holds a body from which the
    listener reads the job, until it is acknowledged or rejected. *)
Theorem beanstalk_job_never_lost dl dl2 jb c0 s0 c s c1 s1 c' s' :
  pq c0 = [] → held c0 = [] → rtc step (c0, s0) (c, s) →
  Push dl dl2 jb c s = (c1, s1, Ok tt) →
  rtc (step_sparing (key (fromJob jb))) (c1, s1) (c', s') →
  ∃ id m, stored s' !! id = Some m ∧
    ∀ c2 n, ∃ i, unpack n (p_body m) c2 = Ok i ∧ key i = key (fromJob jb).
Proof.
  intros Hq Hh H1 Hpush H2.
  assert (Hi : Inv (c, s)).
  { eapply bs_steps_Inv; [exact H1|]. unfold Inv. simpl. rewrite Hq, Hh. by apply Forall_nil_2. }
  apply Push_spec in Hpush as (Hl & Hq1 & Hh1 & Hk).
  assert (Hi1 : Inv (c1, s1)) by (eapply Inv_items; [done..|]; by eapply Inv_later).
  destruct (bs_steps_keep _ _ _ H2 Hi1 (Hk eq_refl)) as (id & m & Hm & Hc). exists id, m. split; [done|].
  intros c2 n. destruct (bs_carries_key m (n, p_body m) _ c2 Hc eq_refl) as (i & Hu & Hki). by exists i.
Qed.

(** A rejection deletes the job like an acknowledgement. *)
Lemma beanstalk_nack_deletes i s s' : Nack i s = (s', None) → stored s' !! target (tgt i) = None.
Proof. intros E%remove_ok. by rewrite E, lookup_delete_eq. Qed.

(** ** Connections *)

Definition broken (e : error) : bool :=
  match conn_error e with Some NetOp | Some CEOF => true | _ => false end.

(** The pool dials again exactly when the connection broke, and then repeats
    the request once, on the new connection; the first error is reported in
    every other case. *)
Theorem pool_put_retries dl body pri delay ttr cp s s1 e :
  send (MkPut (connT cp) (tName cp) body pri delay ttr) s = (s1, inr e) →
  let '(cp', r) := redial (first dl) (more dl) cp in
  Put dl body pri delay ttr cp s =
    if negb (broken e) then (cp, s1, inr redial_failed)
    else match r with
         | Some _ => (cp', s1, inr redial_failed)
         | None => let '(s2, r2) := send (MkPut (connT cp') (tName cp) body pri delay ttr) s1 in (cp', s2, r2)
         end.
Proof.
  intros Es. destruct (redial (first dl) (more dl) cp) as [cp' r] eqn:Er.
  destruct (redial_frame _ _ _ _ _ Er) as (Ht & _). unfold Put, checkAndRedial, broken. rewrite Es.
  destruct (conn_error e) as [[]|]; simpl; try done; rewrite Er; destruct r; try done; by rewrite Ht.
Qed.

(** A timeout of [Reserve] reaches the listener as a formatted error, so that its
    branch for timeouts is reached only right after a redial. *)
Lemma reserve_timeout_formatted dl t cp s s1 e :
  receive (MkReserve (conn cp) (tName cp) t) s = (s1, inr e) → conn_error e = Some CTimeout →
  Reserve dl t cp s = (cp, s1, inr redial_failed) ∧ conn_error redial_failed = None.
Proof.
  intros Es He. unfold Reserve, checkAndRedial. rewrite Es, He. split; [done|]. apply conn_error_formatted.
Qed.
End Beanstalk.

(** ** A tube in memory *)

Section examples.

(** A codec for one job. *)
Definition w_gob : gob_item := MkGobItem "mail" "1" "hello" ∅ (Some (MkGobOptions 10 "p" 0)).
Definition example_gob : Gob.
Proof.
  refine {| gob_encode g := if decide (g = w_gob) then inl "job" else inr (EExt "gob");
            gob_decode b := if String.eqb b "job" then inl w_gob else inr (EExt "gob") |}.
  intros i b. destruct (decide _) as [-> |]; [|done]. by intros [= <-].
Defined.
Local Existing Instance example_gob.

Definition reserve_first (l : list (Z * bytes)) : list (Z * bytes) + error :=
  match l with [] => inr (EExt "timeout") | x :: _ => inl [x] end.

Local Instance example_beanstalk : Beanstalk := {|
  bs_store := map_store (λ id m, (id + 1, p_body m)) (λ d, d_id d - 1) reserve_first
    (λ m, if Nat.eqb (p_conn m) 9 then Some (EExt "EOF") else None);
  Stats_ c s := inl ∅;
  Close_ c s := (s, None);
  conn_error e := match e with EExt "timeout" => Some CTimeout | EExt "EOF" => Some CEOF | _ => None end |}.

Local Instance example_beanstalk_laws : BeanstalkLaws.
Proof.
  split.
  - apply map_store_laws; [intros; simpl; lia|done|].
    intros [|x l] l'; simpl; [done|]. intros [= <-]. set_solver.
  - intros c [[g n] Hb]. simpl. apply eq_None_not_Some. intros [m Hm]. apply (proj2 Hb) in Hm. simpl in Hm. lia.
  - done.
  - done.
  - done.
  - done.
  - intros f s s' l. simpl. intros [= _ E]. destruct (map_to_list _); simpl in E; [done|].
    injection E as <-. eauto.
Defined.

Definition w_empty : svc := map_empty.
Definition w_job : Job := MkJob "mail" "1" "hello" ∅ 10 "p" 0.
Definition w_dials : dials := MkDials (MkAttempt (inl (Some 3%nat)) (inl (Some 4%nat))) [].
Definition w_new : consumer :=
  MkConsumer None 0 (MkPool 1 2 "tcp" "127.0.0.1:11300" "default" (30 * second)) "127.0.0.1:11300" "tcp"
    second (30 * second) "default" 1 10 0 0 [] [].
Definition w_run : consumer := (Run "p" (Register "p" "beanstalk" w_new)).1.

Lemma w_bs_registered : rtc step (w_new, w_empty) (w_run, w_empty).
Proof.
  eapply (rtc_l step _ (Register "p" "beanstalk" w_new, w_empty)).
  - by exists (ARegister "p" "beanstalk").
  - apply rtc_once. by exists (ARun "p").
Qed.

(** Pushed, reserved, requeued by a poller, and the server restarted. *)
Definition w_actions : list action :=
  [AListen w_dials w_dials; AExtract 0; ARequeue w_dials w_dials ∅ 0 0; AForget 0; ARestart (pool w_new)].

Lemma beanstalk_job_never_lost_witness :
  let '(c1, s1, _) := Push w_dials w_dials w_job w_run w_empty in
  let cs := default (c1, s1) (run w_actions (c1, s1)) in
  ∃ id m, stored cs.2 !! id = Some m ∧
    ∀ c2 n, ∃ i, unpack n (p_body m) c2 = Ok i ∧ key i = ("1", "mail", "hello").
Proof.
  destruct (Push w_dials w_dials w_job w_run w_empty) as [[c1 s1] r] eqn:E.
  intros cs.
  assert (Hc : c1 = (Push w_dials w_dials w_job w_run w_empty).1.1) by (by rewrite E).
  assert (Hs : s1 = (Push w_dials w_dials w_job w_run w_empty).1.2) by (by rewrite E).
  assert (Hr : r = (Push w_dials w_dials w_job w_run w_empty).2) by (by rewrite E).
  change (Push w_dials w_dials w_job w_run w_empty).2 with (Ok tt) in Hr. rewrite Hr in E.
  apply (beanstalk_job_never_lost w_dials w_dials w_job w_new w_empty w_run w_empty c1 s1 cs.1 cs.2);
    [reflexivity|reflexivity|exact w_bs_registered|exact E|].
  apply (bs_run_steps _ w_actions); [repeat constructor; done|]. subst cs c1 s1. vm_compute. reflexivity.
Defined.

(** Connection 9 is broken; the pool dials and puts the job over connection 3. *)
Lemma pool_put_retries_witness :
  let cp := MkPool 1 9 "tcp" "127.0.0.1:11300" "default" second in
  ∃ s, Put w_dials "job" 1 0 second cp w_empty
    = (MkPool 4 3 "tcp" "127.0.0.1:11300" "default" second, s, inl 0).
Proof.
  intros cp. eexists. etransitivity.
  - exact (pool_put_retries w_dials "job" 1 0 second cp w_empty w_empty (EExt "EOF") eq_refl).
  - reflexivity.
Defined.
End examples.
End BeanstalkJobs.
