(* ===== verification/JobsNats.v ===== *)
(** * The NATS jobs driver ([nats/natsjobs])

    A pipeline is a subject of a JetStream stream.  Jobs are published as JSON;
    a subscription puts messages into the channel of the listener, which turns
    them into items.  A message stays in the stream until it is deleted;
    acknowledging it ends its delivery to the current subscription only. *)

From stdpp Require Import base gmap strings list.
From Stdlib Require Import ZArith.
From S2P Require Import Prelude JobsProtocol JobsPlugin JobsBroker.

Module NatsJobs.
Import Protocol Jobs Broker.
Local Open Scope Z_scope.

Definition pluginName : string := "nats".

(** ** Configuration *)

Record config := MkConfig {
  cfg_Addr : string; cfg_Priority : Z; cfg_Subject : string; cfg_Stream : string; cfg_Prefetch : Z;
  cfg_RateLimit : Z; cfg_DeleteAfterAck : bool; cfg_DeliverNew : bool; cfg_DeleteStreamOnStop : bool }.

Definition zero_config : config := MkConfig "" 0 "" "" 0 0 false false false.

(** [DefaultURL]: a constant of the client library. *)
Definition InitDefaults (DefaultURL : string) (c : config) : config :=
  MkConfig (if String.eqb (cfg_Addr c) "" then DefaultURL else cfg_Addr c)
    (if cfg_Priority c =? 0 then 10 else cfg_Priority c)
    (if String.eqb (cfg_Subject c) "" then "default" else cfg_Subject c)
    (if String.eqb (cfg_Stream c) "" then "default-stream" else cfg_Stream c)
    (if cfg_Prefetch c =? 0 then 10 else cfg_Prefetch c)
    (if cfg_RateLimit c =? 0 then 1000 else cfg_RateLimit c)
    (cfg_DeleteAfterAck c) (cfg_DeliverNew c) (cfg_DeleteStreamOnStop c).

(** ** The client library ([github.com/nats-io/nats.go])

    [m_meta]: the sequence number in the stream, or the error of [Metadata]. *)

Record Publication := MkPublication { p_subject : string; p_data : bytes }.
Record Msg := MkMsg { m_Data : bytes; m_meta : Z + error }.
Record DeleteRequest := MkDelete { d_stream : string; d_seq : Z }.
Record Subscription := MkSubscription { s_subject : string; s_stream : string }.

Definition seq_of (r : Msg) : Z := match m_meta r with inl n => n | inr _ => 0 end.

Definition ref (f : Subscription) (r : Msg) : DeleteRequest := MkDelete (s_stream f) (seq_of r).
Definition delivers (m : Publication) (r : Msg) : Prop := m_Data r = p_data m.

(** [Ack_], [Nak_] and [InProgress_] act on the delivery with a sequence number;
    [StreamInfo]: whether the stream exists. *)
Class Nats := {
  #[global] nats_store :: MessageStore Publication Msg DeleteRequest Subscription;
  Ack_ : Z → svc → svc * option error;
  Nak_ : Z → svc → svc * option error;
  InProgress_ : Z → svc → svc * option error;
  StreamInfo : string → svc → bool + error;
  AddStream : string → string → svc → svc * option error;
  DeleteStream : string → svc → svc * option error
}.

(** Acknowledgements and new streams leave the messages alone, and a message that
    is not there cannot be deleted. *)
Class NatsLaws `{NA : Nats} := {
  #[global] nats_store_laws :: MessageStoreLaws ref delivers;
  Ack_stored n s : stored (Ack_ n s).1 = stored s;
  Ack_next n s : next (Ack_ n s).1 = next s;
  Nak_stored n s : stored (Nak_ n s).1 = stored s;
  Nak_next n s : next (Nak_ n s).1 = next s;
  InProgress_stored n s : stored (InProgress_ n s).1 = stored s;
  InProgress_next n s : next (InProgress_ n s).1 = next s;
  AddStream_stored a b s : stored (AddStream a b s).1 = stored s;
  AddStream_next a b s : next (AddStream a b s).1 = next s;
  DeleteStream_next a s : next (DeleteStream a s).1 = next s;
  DeleteStream_stored a s : stored (DeleteStream a s).1 ⊆ stored s;
  remove_missing d s : stored s !! target d = None → is_Some (remove d s).2
}.

(** ** Items *)

Record Item := MkItem {
  it_Job : string; it_Ident : string; it_Payload : bytes; it_Headers : headers;
  it_Priority : Z; it_Pipeline : string; it_Delay : Z;
  it_deleteAfterAck : bool; it_stream : string; it_seq : Z }.

(** What [json.Unmarshal] fills in; the options are a pointer. *)
Record json_options := MkJsonOptions { jo_Priority : Z; jo_Pipeline : string; jo_Delay : Z }.
Record json_item := MkJsonItem {
  j_Job : string; j_Ident : string; j_Payload : bytes; j_Headers : headers; j_Options : option json_options }.

Global Instance json_options_eq_dec : EqDecision json_options.
Proof. solve_decision. Defined.
Global Instance json_item_eq_dec : EqDecision json_item.
Proof. solve_decision. Defined.

(** [json.Marshal] writes a [jobs.Job] and an [Item] in the same way. *)
Class ItemJson := {
  marshal_item : json_item → bytes + error;
  unmarshal_item : bytes → json_item + error;
  item_round_trip i b : marshal_item i = inl b → unmarshal_item b = inl i
}.

Definition job_json (j : Job) : json_item :=
  MkJsonItem (jb_Job j) (jb_Ident j) (jb_Payload j) (jb_Headers j)
    (Some (MkJsonOptions (jb_Priority j) (jb_Pipeline j) (jb_Delay j))).
Definition item_json (i : Item) : json_item :=
  MkJsonItem (it_Job i) (it_Ident i) (it_Payload i) (it_Headers i)
    (Some (MkJsonOptions (it_Priority i) (it_Pipeline i) (it_Delay i))).

Definition with_headers (h : headers) (i : Item) : Item :=
  MkItem (it_Job i) (it_Ident i) (it_Payload i) h (it_Priority i) (it_Pipeline i) (it_Delay i)
    (it_deleteAfterAck i) (it_stream i) (it_seq i).

(** ** The consumer

    [sub]: whether there is a subscription; [loops]: the running listeners;
    [held]: the items pollers have taken from the priority queue.  [stopCh] has
    no buffer: a signal needs a listener that takes it. *)

Record consumer := MkConsumer {
  pipe : option (string * string); listeners : Z; sub : bool; priority : Z; subject : string;
  stream : string; prefetch : Z; rateLimit : Z; deleteAfterAck : bool; deliverNew : bool;
  deleteStreamOnStop : bool; loops : nat; pq : list Item; held : list Item }.

Definition with_loops n b l c := MkConsumer (pipe c) n b (priority c) (subject c) (stream c) (prefetch c)
  (rateLimit c) (deleteAfterAck c) (deliverNew c) (deleteStreamOnStop c) l (pq c) (held c).
Definition with_queue q h c := MkConsumer (pipe c) (listeners c) (sub c) (priority c) (subject c) (stream c)
  (prefetch c) (rateLimit c) (deleteAfterAck c) (deliverNew c) (deleteStreamOnStop c) (loops c) q h.

Section NatsJobs.
Context `{IJ : ItemJson} `{NA : Nats}.

(** [connect], [js]: the errors of [nats.Connect] and of [conn.JetStream]; the
    stream is added when [StreamInfo] does not find it, and making a channel of
    negative capacity panics. *)
Definition open_stream (op : string) (connect js : option error) (strm subj : string) (c : consumer) (s : svc)
    : svc * res consumer :=
  match connect, js with
  | Some e, _ | None, Some e => (s, Err (EOp op e))
  | None, None =>
      match StreamInfo strm s with
      | inr e => (s, Err (EOp op e))
      | inl true => (s, if prefetch c <? 0 then Panic else Ok c)
      | inl false => match AddStream strm subj s with
                     | (s, Some e) => (s, Err (EOp op e))
                     | (s, None) => (s, if prefetch c <? 0 then Panic else Ok c)
                     end
      end
  end.

Definition no_global : error := EStr "no global nats configuration, global configuration should contain NATS URL".

Definition FromConfig (url : string) (has : string → bool) (unmarshal : string → config → res config)
    (connect : string → option error) (js : option error) (configKey : string) (s : svc) : svc * res consumer :=
  let op := "new_nats_consumer" in
  if negb (has configKey) then (s, Err (EOp op (EErrorf "no configuration by provided key: %s" [configKey])))
  else if negb (has pluginName) then (s, Err (EOp op no_global)) else
  match wrap_err op (unmarshal configKey zero_config) ≫= (λ conf, wrap_err op (unmarshal pluginName conf)) with
  | Err e => (s, Err e)
  | Panic => (s, Panic)
  | Ok conf =>
      let conf := InitDefaults url conf in
      open_stream op (connect (cfg_Addr conf)) js (cfg_Stream conf) (cfg_Subject conf)
        (MkConsumer None 0 false (cfg_Priority conf) (cfg_Subject conf) (cfg_Stream conf) (cfg_Prefetch conf)
           (cfg_RateLimit conf) (cfg_DeleteAfterAck conf) (cfg_DeliverNew conf) (cfg_DeleteStreamOnStop conf)
           0 [] []) s
  end.

(** [pstring], [pint], [pbool], [pprio]: the accessors of the pipeline. *)
Definition FromPipeline (url : string) (has : string → bool) (unmarshal : string → config → res config)
    (connect : string → option error) (js : option error) (pstring : string → string → string)
    (pint : string → Z → Z) (pbool : string → bool → bool) (pprio : Z) (s : svc) : svc * res consumer :=
  let op := "new_nats_consumer" in
  if negb (has pluginName) then (s, Err (EOp op no_global)) else
  match wrap_err op (unmarshal pluginName zero_config) with
  | Err e => (s, Err e)
  | Panic => (s, Panic)
  | Ok conf =>
      let conf := InitDefaults url conf in
      let strm := pstring "stream" "default-stream" in
      let subj := pstring "subject" "default" in
      open_stream op (connect (cfg_Addr conf)) js strm subj
        (MkConsumer None 0 false pprio subj strm (pint "prefetch" 100) (u64 (pint "rate_limit" 1000))
           (pbool "delete_after_ack" false) (pbool "deliver_new" false)
           (pbool "delete_stream_on_stop" false) 0 [] []) s
  end.

(** ** Pushing and settling *)

Definition delay_unsupported : error :=
  EStr "nats doesn't support delayed messages, see: https://github.com/nats-io/nats-streaming-server/issues/324".

Definition publish (op : string) (j : json_item) (c : consumer) (s : svc) : svc * option error :=
  match marshal_item j with
  | inr e => (s, Some (EOp op e))
  | inl data => match send (MkPublication (subject c) data) s with
                | (s, inr e) => (s, Some (EOp op e))
                | (s, inl _) => (s, None)
                end
  end.

Definition Push (jb : Job) (c : consumer) (s : svc) : svc * option error :=
  let op := "nats_consumer_push" in
  if 0 <? jb_Delay jb then (s, Some (EOp op delay_unsupported))
  else publish op (job_json jb) c s.

(** The error of the delete is ignored. *)
Definition requeue (i : Item) (c : consumer) (s : svc) : svc * option error :=
  let op := "nats_requeue" in
  if 0 <? it_Delay i then (s, Some (EOp op delay_unsupported))
  else match publish op (item_json i) c s with
       | (s, Some e) => (s, Some e)
       | (s, None) => ((remove (MkDelete (stream c) (it_seq i)) s).1, None)
       end.

Definition delete_acked (i : Item) (s : svc) : svc * option error :=
  if it_deleteAfterAck i then remove (MkDelete (it_stream i) (it_seq i)) s else (s, None).

Definition Ack (i : Item) (s : svc) : svc * option error :=
  match Ack_ (it_seq i) s with
  | (s, Some e) => (s, Some e)
  | (s, None) => delete_acked i s
  end.

Definition Nack (i : Item) (s : svc) : svc * option error := Nak_ (it_seq i) s.

(** The delay is not used. *)
Definition Requeue_ (h : headers) (delay : Z) (i : Item) (c : consumer) (s : svc) : Item * svc * option error :=
  let i := with_headers h i in
  match requeue i c s with
  | (s, Some e) =>
      match Nak_ (it_seq i) s with
      | (s, Some _) => (i, s, Some (EErrorf "requeue error: %v
 nak error: %v" []))
      | (s, None) => (i, s, Some e)
      end
  | (s, None) =>
      match Ack_ (it_seq i) s with
      | (s, Some e) => (i, s, Some e)
      | (s, None) => let '(s, e) := delete_acked i s in (i, s, e)
      end
  end.

(** [conn.Publish]: not to the stream. *)
Definition Respond (e : option error) : option error :=
  match e with Some e => Some (EOp "nats_respond" e) | None => None end.

(** ** The listener *)

Definition to_item (j : json_item) (n : Z) (c : consumer) : res Item :=
  match j_Options j with
  | None => Panic
  | Some o =>
      Ok (MkItem (j_Job j) (j_Ident j) (j_Payload j) (j_Headers j)
            (if jo_Priority o =? 0 then priority c else jo_Priority o) (jo_Pipeline o) (jo_Delay o)
            (deleteAfterAck c) (if deleteAfterAck c then stream c else "") n)
  end.

Definition handle_msg (m : Msg) (c : consumer) (s : svc) : svc * res consumer :=
  match m_meta m with
  | inr _ => (s, Ok c)
  | inl n =>
      match InProgress_ n s with
      | (s, Some _) => (s, Ok c)
      | (s, None) =>
          match unmarshal_item (m_Data m) with
          | inr _ => (s, Ok c)
          | inl j => match to_item j n c with
                     | Ok i => (s, Ok (with_queue (pq c ++ [i]) (held c) c))
                     | Err e => (s, Err e)
                     | Panic => (s, Panic)
                     end
          end
      end
  end.

(** The next messages that the subscription puts into the channel. *)
Fixpoint handle_msgs (l : list Msg) (c : consumer) (s : svc) : svc * res consumer :=
  match l with
  | [] => (s, Ok c)
  | m :: l' => match handle_msg m c s with
               | (s, Ok c) => handle_msgs l' c s
               | r => r
               end
  end.

Definition listenerStart (c : consumer) (s : svc) : svc * res consumer :=
  match receive (MkSubscription (subject c) (stream c)) s with
  | (s, inr _) => (s, Ok c)
  | (s, inl l) => handle_msgs l c s
  end.

(** ** Control *)

Definition Register (name driver : string) (c : consumer) : consumer :=
  MkConsumer (Some (name, driver)) (listeners c) (sub c) (priority c) (subject c) (stream c) (prefetch c)
    (rateLimit c) (deleteAfterAck c) (deliverNew c) (deleteStreamOnStop c) (loops c) (pq c) (held c).

(** [e]: the error of [js.ChanSubscribe], which then returns a nil subscription. *)
Definition listenerInit (e : option error) (c : consumer) : consumer * option error :=
  (with_loops (listeners c) (match e with None => true | Some _ => false end) (loops c) c, e).

Definition Run (e : option error) (name : string) (c : consumer) : consumer * res unit :=
  match pipe c with
  | None => (c, Panic)
  | Some (n, _) =>
      if negb (String.eqb n name)
      then (c, Err (EOp "nats_run" (EErrorf "no such pipeline registered: %s" [n])))
      else if listeners c =? 1 then (c, Ok tt)
      else match listenerInit e (with_loops (u32_inc (listeners c)) (sub c) (loops c) c) with
           | (c, Some e) => (c, Err (EOp "nats_run" e))
           | (c, None) => (with_loops (listeners c) (sub c) (S (loops c)) c, Ok tt)
           end
  end.

(** [c.stopCh <- struct{}{}] *)
Definition stop_one (c : consumer) : option consumer :=
  match loops c with
  | O => None
  | S l => Some (with_loops (listeners c) (sub c) l c)
  end.

(** The name is compared only for the log. *)
Definition Pause (p : string) (c : consumer) : option (res consumer) :=
  match pipe c with
  | None => Some Panic
  | Some _ =>
      if listeners c =? 0 then Some (Ok c)
      else (λ c, Ok (with_loops (listeners c) false (loops c) c)) <$>
             stop_one (with_loops (u32_dec (listeners c)) (sub c) (loops c) c)
  end.

Definition Resume (e : option error) (p : string) (c : consumer) : res consumer :=
  match pipe c with
  | None => Panic
  | Some _ =>
      if listeners c =? 1 then Ok c
      else match listenerInit e c with
           | (c, Some _) => Ok c
           | (c, None) => Ok (with_loops (u32_inc (listeners c)) (sub c) (S (loops c)) c)
           end
  end.

Definition ready (r : Z) : bool := 0 <? r.

(** [info]: [sub.ConsumerInfo()], the pending and the waiting messages. *)
Definition State_ (info : option (Z * Z) + error) (c : consumer) : res State :=
  match pipe c with
  | None => Panic
  | Some (n, d) =>
      let st a r := Ok (MkState n d (subject c) a 0 r (ready (listeners c))) in
      if sub c then
        match info with
        | inr e => Err e
        | inl None => st 0 0
        | inl (Some (pending, waiting)) => st pending waiting
        end
      else st 0 0
  end.

(** [drain]: the error of [conn.Drain()]. *)
Definition Stop (drain : option error) (c : consumer) (s : svc) : option (consumer * svc * res unit) :=
  c ← (if 0 <? listeners c then stop_one c else Some c);
  let '(s, e) := if deleteStreamOnStop c then DeleteStream (stream c) s else (s, None) in
  Some (c, s, match e with
              | Some e => Err e
              | None => match pipe c with
                        | None => Panic
                        | Some _ => match drain with Some e => Err e | None => Ok tt end
                        end
              end).

(** ** Actions *)

Inductive action :=
  | APush (jb : Job)
  | AListen
  | AExtract (n : nat) | AForget (n : nat)
  | AAck (n : nat) | ANack (n : nat) | ARequeue (h : headers) (delay : Z) (n : nat)
  | ARegister (name driver : string) | ARun (e : option error) (name : string)
  | APause (p : string) | AResume (e : option error) (p : string) | AStop (drain : option error)
  | ARestart.

(** After a panic or a restart there are no goroutines and items. *)
Definition dead (c : consumer) : consumer :=
  MkConsumer None 0 false (priority c) (subject c) (stream c) (prefetch c) (rateLimit c) (deleteAfterAck c)
    (deliverNew c) (deleteStreamOnStop c) 0 [] [].

Definition alive (c : consumer) (r : res consumer) : consumer :=
  match r with Ok c => c | Err _ | Panic => dead c end.

Definition exec (a : action) (c : consumer) (s : svc) : option (consumer * svc) :=
  match a with
  | APush jb => Some (c, (Push jb c s).1)
  | AListen => match loops c with
               | O => None
               | S _ => let '(s, r) := listenerStart c s in Some (alive c r, s)
               end
  | AExtract n => i ← pq c !! n; Some (with_queue (delete n (pq c)) (held c ++ [i]) c, s)
  | AForget n => Some (with_queue (pq c) (delete n (held c)) c, s)
  | AAck n => i ← held c !! n; Some (c, (Ack i s).1)
  | ANack n => i ← held c !! n; Some (c, (Nack i s).1)
  | ARequeue h d n =>
      i ← held c !! n;
      let '(i, s, _) := Requeue_ h d i c s in Some (with_queue (pq c) (<[n := i]> (held c)) c, s)
  | ARegister name driver => Some (Register name driver c, s)
  | ARun e name => let '(c, r) := Run e name c in
                   Some (match r with Panic => dead c | _ => c end, s)
  | APause p => (λ r, (alive c r, s)) <$> Pause p c
  | AResume e p => Some (alive c (Resume e p c), s)
  | AStop d => '(c, s, r) ← Stop d c s; Some (match r with Panic => dead c | _ => c end, s)
  | ARestart => Some (dead c, s)
  end.

(** ** No job is lost *)

Definition key (i : Item) : string * string * bytes := (it_Ident i, it_Job i, it_Payload i).
Definition job_key (jb : Job) : string * string * bytes := (jb_Ident jb, jb_Job jb, jb_Payload jb).

(** The message was published on the subject [u] and holds the job. *)
Definition carries (u : string) (m : Publication) (k : string * string * bytes) : Prop :=
  p_subject m = u ∧ ∃ j, marshal_item j = inl (p_data m) ∧ is_Some (j_Options j) ∧ (j_Ident j, j_Job j, j_Payload j) = k.

Definition tgt (strm : string) (i : Item) : DeleteRequest := MkDelete strm (it_seq i).

(** [a] does not delete the job: acknowledging deletes with the option
    [delete_after_ack] only, stopping with [delete_stream_on_stop] only. *)
Definition spares (k : string * string * bytes) (a : action) (c : consumer) : Prop :=
  match a with
  | AAck n => ∀ i, held c !! n = Some i → it_deleteAfterAck i = true → key i ≠ k
  | AStop _ => deleteStreamOnStop c = false
  | _ => True
  end.

Definition step (cs cs' : consumer * svc) : Prop := ∃ a, exec a cs.1 cs.2 = Some cs'.
Definition step_sparing (k : string * string * bytes) (cs cs' : consumer * svc) : Prop :=
  ∃ a, spares k a cs.1 ∧ exec a cs.1 cs.2 = Some cs'.

Context `{NL : !NatsLaws}.

(** The subject of the consumer does not change. *)
Lemma handle_msgs_subject l c s s' c' : handle_msgs l c s = (s', Ok c') → subject c' = subject c.
Proof.
  revert c s. induction l as [|m l IH]; intros c s; simpl; [by intros [= _ ->]|].
  destruct (handle_msg m c s) as [s1 [c1| |]] eqn:E; [|done..]. intros H. rewrite (IH _ _ H).
  unfold handle_msg in E. repeat (case_match; simplify_eq/=); done.
Qed.

Lemma exec_subject a c s c' s' : exec a c s = Some (c', s') → subject c' = subject c.
Proof.
  intros He. destruct a; simpl in He.
  2:{ destruct (loops c); [done|]. unfold listenerStart in He. destruct (receive _ s) as [s1 [l|e]]; [|by simplify_eq/=].
      destruct (handle_msgs l c s1) as [s2 [c1| |]] eqn:E; simplify_eq/=; [by eapply handle_msgs_subject|done..]. }
  all: unfold Run, listenerInit, Pause, Resume, Stop, stop_one in He;
    repeat (case_match; simplify_eq/=); simplify_option_eq; repeat (case_match; simplify_eq/=); done.
Qed.

Section Subject.
Context (u : string).

Definition item_ok (strm : string) (s : svc) (i : Item) : Prop :=
  tracked (carries u) key (tgt strm) s i ∧ (it_deleteAfterAck i = true → it_stream i = strm).
Abbreviation keep := (keeps (carries u)).
Definition Inv (cs : consumer * svc) : Prop := Forall (item_ok (stream cs.1) cs.2) (pq cs.1 ++ held cs.1).

(** Calls that change neither the messages nor the numbers. *)
Lemma item_ok_same strm s s' i : stored s' = stored s → next s' = next s → item_ok strm s i → item_ok strm s' i.
Proof. unfold item_ok, tracked. by intros -> ->. Qed.
Lemma keep_same k s s' : stored s' = stored s → keep k s → keep k s'.
Proof. unfold keeps. by intros ->. Qed.

Lemma item_ok_remove_ strm d s i : item_ok strm s i → item_ok strm (remove d s).1 i.
Proof. intros [? ?]. split; [|done]. by apply tracked_remove. Qed.

Lemma publish_spec op j c s s' r :
  subject c = u → publish op j c s = (s', r) →
  (∀ strm i, item_ok strm s i → item_ok strm s' i) ∧ (∀ k, keep k s → keep k s') ∧
  (r = None → is_Some (j_Options j) →
   ∃ id m, next s ≤ id ∧ stored s' !! id = Some m ∧ carries u m (j_Ident j, j_Job j, j_Payload j)).
Proof.
  intros Hu. unfold publish. rewrite Hu. destruct (marshal_item j) as [data|] eqn:Em; [|by intros [= <- <-]; split_and!].
  set (m := MkPublication u data).
  pose proof (λ strm i, tracked_send (carries u) key (tgt strm) m s i) as H1.
  pose proof (λ k, keeps_send (carries u) k m s) as H2.
  destruct (send m s) as [s1 [id|e]] eqn:Es; intros [= <- <-]; simpl in *;
    (split; [by intros strm i [? ?]; split; auto|]); (split; [done|]); [|done].
  intros _ Ho. apply send_ok in Es as [? ?]. exists id, m. split_and!; [done..|]. split; [done|]. by exists j.
Qed.

(** After the copy was published, deleting the original leaves the job stored. *)
Lemma keep_remove_copied strm i s s' id m k :
  item_ok strm s i → item_ok strm s' i → next s ≤ id → stored s' !! id = Some m → carries u m (key i) →
  keep k s' → keep k (remove (tgt strm i) s').1 ∧ stored (remove (tgt strm i) s').1 !! id = Some m.
Proof.
  intros [[Hn _] _] [Ht' _] Hid Hm Hc Hk.
  assert (Hc' : stored (remove (tgt strm i) s').1 !! id = Some m).
  { destruct (remove_stored (tgt strm i) s') as [E|E]; rewrite E; [done|]. rewrite lookup_delete_ne; [done|]. lia. }
  split; [|done]. destruct (decide (key i = k)) as [<- |]; [by exists id, m|].
  by apply (keeps_remove (carries u) key (tgt strm)).
Qed.

Lemma requeue_spec i c s s' r :
  subject c = u → item_ok (stream c) s i → requeue i c s = (s', r) →
  (∀ strm j, item_ok strm s j → item_ok strm s' j) ∧ (∀ k, keep k s → keep k s') ∧
  (r = None → ∃ id m, next s ≤ id ∧ stored s' !! id = Some m ∧ carries u m (key i)).
Proof.
  intros Hu Hi. unfold requeue. destruct (0 <? it_Delay i); [by intros [= <- <-]; split_and!|].
  destruct (publish _ _ c s) as [s1 [e|]] eqn:Ep; destruct (publish_spec _ _ _ _ _ _ Hu Ep) as (H1 & H2 & H3);
    intros [= <- <-]; [by split_and!|].
  destruct (H3 eq_refl ltac:(by eexists)) as (id & m & Hid & Hm & Hc). simpl in Hc.
  split_and!.
  - intros. by apply item_ok_remove_, H1.
  - intros k Hk. eapply (keep_remove_copied (stream c) i s s1 id m k); eauto.
  - intros _. exists id, m. split_and!; [done| |done].
    destruct (remove_stored (tgt (stream c) i) s1) as [E|E]; unfold tgt in E; rewrite E; [done|].
    rewrite lookup_delete_ne; [done|]. destruct Hi as [[Hn _] _]. unfold tgt in Hn. lia.
Qed.

Lemma delete_acked_spec strm i s :
  item_ok strm s i → (∀ j, item_ok strm s j → item_ok strm (delete_acked i s).1 j) ∧
  ∀ k, (it_deleteAfterAck i = true → key i ≠ k) → keep k s → keep k (delete_acked i s).1.
Proof.
  intros [Ht Hstr]. unfold delete_acked. destruct (it_deleteAfterAck i); [|done].
  rewrite Hstr by done. split; [intros; by apply item_ok_remove_|]. intros k Hk.
  apply (keeps_remove (carries u) key (tgt strm)); auto.
Qed.

(** What settling an item does to the store. *)
Lemma nats_Ack_spec strm i s :
  item_ok strm s i → (∀ j, item_ok strm s j → item_ok strm (Ack i s).1 j) ∧
  ∀ k, (it_deleteAfterAck i = true → key i ≠ k) → keep k s → keep k (Ack i s).1.
Proof.
  intros Hi. unfold Ack. pose proof (Ack_stored (it_seq i) s) as E1. pose proof (Ack_next (it_seq i) s) as E2.
  destruct (Ack_ (it_seq i) s) as [s1 [e|]]; simpl in *.
  - split; intros; [by eapply item_ok_same|by eapply keep_same].
  - destruct (delete_acked_spec strm i s1) as [H1 H2]; [by eapply item_ok_same|].
    split; intros; [by apply H1; eapply item_ok_same|]. apply H2; [done|]. by eapply keep_same.
Qed.

Lemma nats_Requeue_spec h d i c s i' s' e :
  subject c = u → item_ok (stream c) s i → Requeue_ h d i c s = (i', s', e) →
  item_ok (stream c) s' i' ∧ (∀ j, item_ok (stream c) s j → item_ok (stream c) s' j) ∧
  ∀ k, keep k s → keep k s'.
Proof.
  intros Hu Hi. unfold Requeue_.
  assert (Hi' : item_ok (stream c) s (with_headers h i)) by done.
  destruct (requeue (with_headers h i) c s) as [s1 r1] eqn:Er.
  destruct (requeue_spec _ _ _ _ _ Hu Hi' Er) as (H1 & H2 & H3). destruct r1 as [e1|].
  - pose proof (Nak_stored (it_seq (with_headers h i)) s1) as E1.
    pose proof (Nak_next (it_seq (with_headers h i)) s1) as E2.
    destruct (Nak_ _ s1) as [s2 [e2|]]; simpl in *; intros [= <- <- <-];
      (split_and!; intros; [by eapply item_ok_same; eauto..|by eapply keep_same; eauto]).
  - pose proof (Ack_stored (it_seq (with_headers h i)) s1) as E1.
    pose proof (Ack_next (it_seq (with_headers h i)) s1) as E2.
    destruct (Ack_ _ s1) as [s2 [e2|]]; simpl in E1, E2;
      [intros [= <- <- <-]; split_and!; intros; [by eapply item_ok_same; eauto..|by eapply keep_same; eauto]|].
    destruct (H3 eq_refl) as (id & m & Hid & Hm & Hc).
    assert (Hi2 : item_ok (stream c) s2 (with_headers h i)) by (eapply item_ok_same; eauto).
    destruct (delete_acked_spec (stream c) (with_headers h i) s2 Hi2) as [H4 H5].
    unfold delete_acked in *. destruct (it_deleteAfterAck (with_headers h i)) eqn:Ed.
    + destruct Hi2 as [Ht Hstr]. rewrite Hstr in * by done.
      pose proof (λ k, keep_remove_copied (stream c) (with_headers h i) s s2 id m k Hi' (conj Ht Hstr) Hid
        ltac:(by rewrite E1) Hc) as H6. unfold tgt in H6.
      destruct (remove _ s2) as [s3 e3]; simpl in *. intros [= <- <- <-]. split_and!.
      * by apply H4.
      * intros j Hj. apply H4. eapply item_ok_same; eauto.
      * intros k Hk. apply H6. eapply keep_same; eauto.
    + intros [= <- <- <-]. split_and!; [done| |].
      * intros j Hj. eapply item_ok_same; eauto.
      * intros k Hk. eapply keep_same; eauto.
Qed.

(** ** What the listener does *)

Lemma to_item_key j n c i :
  to_item j n c = Ok i → key i = (j_Ident j, j_Job j, j_Payload j) ∧ it_seq i = n ∧
    (it_deleteAfterAck i = true → it_stream i = stream c).
Proof.
  unfold to_item. destruct (j_Options j); [|done]. intros [= <-]. split_and!; [done..|]. simpl. by intros ->.
Qed.

Lemma handle_msg_spec m c s s' r :
  shown (ref := ref) (delivers := delivers) (MkSubscription (subject c) (stream c)) s m →
  Inv (c, s) → handle_msg m c s = (s', r) →
  stored s' = stored s ∧ next s' = next s ∧
  ∀ c', r = Ok c' → Inv (c', s') ∧ subject c' = subject c ∧ stream c' = stream c.
Proof.
  intros [Hn Hm] Hi. unfold handle_msg. destruct (m_meta m) as [n|e] eqn:Em.
  2: { intros [= <- <-]. split_and!; [done..|]. by intros c' [= <-]. }
  pose proof (InProgress_stored n s) as E1. pose proof (InProgress_next n s) as E2.
  assert (Hi1 : Inv (c, (InProgress_ n s).1)).
  { eapply Forall_impl; [exact Hi|]. intros. by eapply item_ok_same. }
  destruct (InProgress_ n s) as [s1 [e|]]; simpl in *.
  { intros [= <- <-]. split_and!; [done..|]. by intros c' [= <-]. }
  destruct (unmarshal_item (m_Data m)) as [j|e] eqn:Eu.
  2: { intros [= <- <-]. split_and!; [done..|]. by intros c' [= <-]. }
  destruct (to_item j n c) as [i| |] eqn:Et; intros [= <- <-]; (split_and!; [done..|]); [|done..].
  intros c' [= <-]. split_and!; [|done..]. destruct (to_item_key _ _ _ _ Et) as (Hk & Hs & Hd).
  unfold Inv in *. simpl in *. apply Forall_app in Hi1 as [Hq Hh]. apply Forall_app. split; [|done].
  apply Forall_app. split; [done|]. apply Forall_singleton. split; [|done].
  unfold ref, seq_of in Hn, Hm. rewrite Em in Hn, Hm. simpl in Hn, Hm.
  unfold tracked, tgt. rewrite Hs, E1, E2. split; [done|]. intros m' k H (_ & j' & Hj & _ & <-).
  specialize (Hm m' H). unfold delivers in Hm. rewrite <- Hm in Hj. apply item_round_trip in Hj.
  rewrite Hk. congruence.
Qed.

Lemma handle_msgs_spec l c s s' r :
  Forall (shown (ref := ref) (delivers := delivers) (MkSubscription (subject c) (stream c)) s) l →
  Inv (c, s) → handle_msgs l c s = (s', r) →
  stored s' = stored s ∧ ∀ c0, Inv (alive c0 r, s').
Proof.
  revert c s. induction l as [|m l IH]; intros c s Hl Hi; simpl.
  { intros [= <- <-]. done. }
  apply Forall_cons in Hl as [Hm Hl]. destruct (handle_msg m c s) as [s1 r1] eqn:Eh.
  destruct (handle_msg_spec _ _ _ _ _ Hm Hi Eh) as (E1 & E2 & Hr).
  destruct r1 as [c1| |]; [|intros [= <- <-]; split; [done|]; intros; by apply Forall_nil_2..].
  destruct (Hr c1 eq_refl) as (Hi1 & Es & Est). intros E. apply IH in E as [E3 H3].
  - split; [by rewrite E3|done].
  - rewrite Es, Est. eapply Forall_impl; [exact Hl|]. intros x. unfold shown. by rewrite E1, E2.
  - done.
Qed.

Lemma listenerStart_spec c s s' r :
  Inv (c, s) → listenerStart c s = (s', r) → Inv (alive c r, s') ∧ ∀ k, keep k s → keep k s'.
Proof.
  intros Hi. unfold listenerStart. set (f := MkSubscription _ _).
  pose proof (receive_stored f s) as E1. pose proof (receive_next f s) as E2.
  assert (Hi1 : Inv (c, (receive f s).1)).
  { eapply Forall_impl; [exact Hi|]. intros. by eapply item_ok_same. }
  destruct (receive f s) as [s1 [l|e]] eqn:Er; simpl in *.
  - intros E. apply handle_msgs_spec in E as [E3 H3]; [|by eapply receive_shown|done].
    split; [done|]. intros k. apply keep_same. congruence.
  - intros [= <- <-]. split; [done|]. intros k. by apply keep_same.
Qed.

Lemma Inv_frame c c' s :
  stream c' = stream c → pq c' = pq c → held c' = held c → Inv (c, s) → Inv (c', s).
Proof. intros E1 E2 E3. unfold Inv. simpl. by rewrite E1, E2, E3. Qed.

Lemma Inv_grow c s s' : (∀ j, item_ok (stream c) s j → item_ok (stream c) s' j) → Inv (c, s) → Inv (c, s').
Proof. intros Hj Hi. by eapply Forall_impl. Qed.

Lemma item_ok_subseteq strm s s' i :
  stored s' ⊆ stored s → next s' = next s → item_ok strm s i → item_ok strm s' i.
Proof.
  intros Hs Hn [[H1 H2] H3]. split; [|done]. split; [by rewrite Hn|]. intros m k Hm.
  eapply H2, lookup_weaken; eauto.
Qed.

Lemma nats_exec_ok a c s c' s' :
  subject c = u → exec a c s = Some (c', s') → Inv (c, s) →
  Inv (c', s') ∧ ∀ k, spares k a c → keep k s → keep k s'.
Proof.
  intros Hu He Hi. destruct a; simpl in *.
  - injection He as <- <-. unfold Push. destruct (0 <? _); [done|].
    destruct (publish _ _ c s) as [s1 r] eqn:Ep. destruct (publish_spec _ _ _ _ _ _ Hu Ep) as (H1 & H2 & _).
    split; [|by eauto]. eapply Inv_grow; [|done]. apply H1.
  - destruct (loops c); [done|]. destruct (listenerStart c s) as [s1 r] eqn:El. injection He as <- <-.
    apply listenerStart_spec in El as [? ?]; [|done]. by eauto.
  - destruct (pq c !! n) as [i|] eqn:En; simpl in He; [|done]. injection He as <- <-.
    split; [|done]. by apply Forall_extract.
  - injection He as <- <-. split; [|done]. by apply Forall_forget.
  - destruct (held c !! n) as [i|] eqn:En; simpl in He; [|done]. injection He as <- <-.
    destruct (nats_Ack_spec (stream c) i s (Forall_held _ _ _ _ _ Hi En)) as [H1 H2].
    split; [by eapply Inv_grow|]. intros k Hs. apply H2. by apply Hs.
  - destruct (held c !! n) as [i|] eqn:En; simpl in He; [|done]. injection He as <- <-. unfold Nack.
    pose proof (Nak_stored (it_seq i) s) as E1. pose proof (Nak_next (it_seq i) s) as E2.
    split; [eapply Inv_grow; [|done]; intros; by eapply item_ok_same|]. intros k _. by apply keep_same.
  - destruct (held c !! n) as [i|] eqn:En; simpl in He; [|done].
    destruct (Requeue_ h delay i c s) as [[i' s1] e] eqn:Er. injection He as <- <-.
    destruct (nats_Requeue_spec _ _ _ _ _ _ _ _ Hu (Forall_held _ _ _ _ _ Hi En) Er) as (H1 & H2 & H3).
    split; [|by eauto]. apply Forall_update; [|done]. by eapply Forall_impl.
  - by injection He as <- <-.
  - destruct (Run e name c) as [c1 r] eqn:Er. injection He as <- <-. split; [|done].
    unfold Run, listenerInit in Er.
    destruct (pipe c) as [[n d]|]; [|injection Er as <- <-; by apply Forall_nil_2].
    destruct (negb _); [by injection Er as <- <-|]. destruct (listeners c =? 1); [by injection Er as <- <-|].
    by destruct e; injection Er as <- <-.
  - apply fmap_Some in He as (r & Hr & [= -> ->]). split; [|done]. unfold Pause in Hr.
    destruct (pipe c); [|injection Hr as <-; by apply Forall_nil_2].
    destruct (listeners c =? 0); [by injection Hr as <-|].
    unfold stop_one in Hr. simpl in Hr. destruct (loops c); [done|]. by injection Hr as <-.
  - injection He as <- <-. split; [|done]. unfold Resume, listenerInit.
    destruct (pipe c); [|by apply Forall_nil_2]. destruct (listeners c =? 1); [done|]. by destruct e.
  - unfold Stop in He.
    destruct (if 0 <? listeners c then stop_one c else Some c) as [c1|] eqn:Es; simpl in He; [|done].
    assert (Hc1 : stream c1 = stream c ∧ pq c1 = pq c ∧ held c1 = held c ∧
      deleteStreamOnStop c1 = deleteStreamOnStop c)
      by (unfold stop_one in Es; repeat case_match; by simplify_eq/=).
    destruct Hc1 as (F1 & F2 & F3 & F4). rewrite F4 in He.
    pose proof (DeleteStream_stored (stream c1) s) as E1. pose proof (DeleteStream_next (stream c1) s) as E2.
    assert (Hi1 : ∀ s2, stored s2 ⊆ stored s → next s2 = next s → Inv (c1, s2)).
    { intros s2 G1 G2. eapply (Inv_frame c); [done..|]. eapply Inv_grow; [|done]. intros.
      by eapply item_ok_subseteq. }
    destruct (deleteStreamOnStop c).
    + destruct (DeleteStream (stream c1) s) as [s2 e2]; simpl in *. split; [|done].
      repeat case_match; simplify_eq/=; by first [apply Hi1|apply Forall_nil_2].
    + split; [|intros k _; repeat case_match; by simplify_eq/=].
      repeat case_match; simplify_eq/=; by first [apply Hi1|apply Forall_nil_2].
  - injection He as <- <-. split; [by apply Forall_nil_2|done].
Qed.

Lemma nats_steps_Inv cs cs' :
  rtc step cs cs' → subject cs.1 = u → Inv cs → subject cs'.1 = u ∧ Inv cs'.
Proof.
  induction 1 as [|[c s] [c1 s1] cs2 (a & He) _ IH]; [done|]. intros Hu Hi.
  apply IH; [by rewrite <- Hu; eapply exec_subject|by eapply nats_exec_ok].
Qed.

Lemma nats_steps_keep k cs cs' :
  rtc (step_sparing k) cs cs' → subject cs.1 = u → Inv cs → keep k cs.2 → subject cs'.1 = u ∧ keep k cs'.2.
Proof.
  induction 1 as [|[c s] [c1 s1] cs2 (a & Hs & He) _ IH]; [done|]. intros Hu Hi Hk.
  destruct (nats_exec_ok _ _ _ _ _ Hu He Hi) as [Hi1 Hk1].
  apply IH; [by rewrite <- Hu; eapply exec_subject|done|by apply Hk1].
Qed.

End Subject.

Fixpoint run (l : list action) (cs : consumer * svc) : option (consumer * svc) :=
  match l with
  | [] => Some cs
  | a :: l' => cs ← exec a cs.1 cs.2; run l' cs
  end.

Lemma nats_run_steps k l cs cs' :
  Forall (λ a, ∀ c, spares k a c) l → run l cs = Some cs' → rtc (step_sparing k) cs cs'.
Proof.
  revert cs. induction l as [|a l IH]; intros cs Hl; simpl.
  - intros [= <-]. apply rtc_refl.
  - apply Forall_cons in Hl as [Hs Hl]. destruct (exec a cs.1 cs.2) as [cs1|] eqn:E; simpl; [|done].
    intros Hr. eapply rtc_l; [|by apply IH]. by exists a.
Qed.

(** C9: a job that [Push] accepted stays stored, as a message on the subject of the
    consumer, which is still the one it subscribes to, and from which the
    listener reads the job, through lost answers, foreign messages, requeues,
    rejections, acknowledgements, crashes and restarts -- until it is
    acknowledged with [delete_after_ack], or the consumer is stopped with
    [delete_stream_on_stop]. *)
Theorem nats_job_never_lost jb c0 s0 c s s1 c' s' :
  pq c0 = [] → held c0 = [] → rtc step (c0, s0) (c, s) → Push jb c s = (s1, None) →
  rtc (step_sparing (job_key jb)) (c, s1) (c', s') →
  ∃ id m j, stored s' !! id = Some m ∧ p_subject m = subject c0 ∧ subject c' = subject c0 ∧
    unmarshal_item (p_data m) = inl j ∧ ∀ n c2, ∃ i, to_item j n c2 = Ok i ∧ key i = job_key jb.
Proof.
  intros Hq Hh H1 Hp H2.
  destruct (nats_steps_Inv (subject c0) _ _ H1) as [Hu Hi]; [done|..].
  { unfold Inv. simpl. rewrite Hq, Hh. by apply Forall_nil_2. }
  unfold Push in Hp. destruct (0 <? _); [done|].
  apply (publish_spec (subject c0)) in Hp as (H3 & _ & H4); [|done].
  assert (Hi1 : Inv (subject c0) (c, s1)) by (eapply Inv_grow; [apply H3|done]).
  destruct (H4 eq_refl ltac:(by eexists)) as (id0 & m0 & _ & Hm0 & Hc0).
  assert (Hk : keeps (carries (subject c0)) (job_key jb) s1) by (by exists id0, m0).
  destruct (nats_steps_keep _ _ _ _ H2 Hu Hi1 Hk) as (Hu' & id & m & Hm & Hsub & j & Hj & [o Ho] & Hkey).
  exists id, m, j. split_and!; [done..|by apply item_round_trip|]. intros n c2. unfold to_item. rewrite Ho.
  eexists. split; [done|]. exact Hkey.
Qed.

(** With [delete_after_ack] a requeue that did everything reports an error:
    the message was deleted after the copy was published, and is deleted again
    after the acknowledgement. *)
Theorem nats_requeue_reports_error h d i c s data id s1 s2 s3 :
  it_Delay i ≤ 0 → it_deleteAfterAck i = true → it_stream i = stream c → next s > target (tgt (stream c) i) →
  marshal_item (item_json (with_headers h i)) = inl data →
  send (MkPublication (subject c) data) s = (s1, inl id) →
  remove (tgt (stream c) i) s1 = (s2, None) → Ack_ (it_seq i) s2 = (s3, None) →
  ∃ s4 e, Requeue_ h d i c s = (with_headers h i, s4, Some e) ∧
    stored s4 !! id = Some (MkPublication (subject c) data).
Proof.
  intros Hd Ha Hs Hn Hm Hp Hr Hk. unfold Requeue_, requeue, publish.
  change (it_Delay (with_headers h i)) with (it_Delay i). destruct (Z.ltb_spec 0 (it_Delay i)); [lia|].
  rewrite Hm, Hp. change (it_seq (with_headers h i)) with (it_seq i). unfold tgt in Hr. rewrite Hr. cbn [fst].
  rewrite Hk. unfold delete_acked. change (it_deleteAfterAck (with_headers h i)) with (it_deleteAfterAck i).
  change (it_stream (with_headers h i)) with (it_stream i). rewrite Ha, Hs.
  change (it_seq (with_headers h i)) with (it_seq i).
  pose proof (remove_ok _ _ _ Hr) as E2. pose proof (Ack_stored (it_seq i) s2) as E3. rewrite Hk in E3. simpl in E3.
  destruct (send_ok _ _ _ _ Hp) as [E1 Hid].
  destruct (remove_missing (MkDelete (stream c) (it_seq i)) s3) as [e He].
  { by rewrite E3, E2, lookup_delete_eq. }
  pose proof (remove_stored (MkDelete (stream c) (it_seq i)) s3) as E4.
  destruct (remove _ s3) as [s4 e4]; simpl in *. subst e4. exists s4, e. split; [done|].
  unfold tgt in Hn. destruct E4 as [E4|E4]; rewrite E4, ?lookup_delete_ne, E3, E2, lookup_delete_ne by lia; done.
Qed.

(** ** A start that fails *)

Definition stuck (c : consumer) : Prop := listeners c = 1 ∧ loops c = 0%nat ∧ is_Some (pipe c).

Definition step_no_restart (cs cs' : consumer * svc) : Prop :=
  ∃ a, a ≠ ARestart ∧ exec a cs.1 cs.2 = Some cs'.

Lemma stuck_step cs cs' : step_no_restart cs cs' → stuck cs.1 → stuck cs'.1.
Proof.
  destruct cs as [c s], cs' as [c' s']. intros (a & Ha & He) (Hl & Hp & [p Hpipe]). simpl in *.
  assert (Hs : stuck c) by (by split_and!).
  destruct a; simpl in He; try done; try (by injection He as <- <-).
  - by rewrite Hp in He.
  - destruct (pq c !! n); by simplify_eq/=.
  - destruct (held c !! n); by simplify_eq/=.
  - destruct (held c !! n); by simplify_eq/=.
  - destruct (held c !! n); simpl in He; [|done]. destruct (Requeue_ _ _ _ _ _) as [[i' s1] e].
    by injection He as <- <-.
  - unfold Run in He. rewrite Hpipe, Hl in He. destruct p. by destruct (negb _); injection He as <- <-.
  - unfold Pause in He. rewrite Hpipe, Hl in He. simpl in He. unfold stop_one in He. simpl in He. by rewrite Hp in He.
  - unfold Resume in He. rewrite Hpipe, Hl in He. by injection He as <- <-.
  - unfold Stop in He. rewrite Hl in He. simpl in He. unfold stop_one in He. by rewrite Hp in He.
Qed.

(** A start whose subscription fails leaves the driver for ever without a
    listener and with a pause or a stop that does not return: the counter of
    listeners is raised before, so that a resume or a second start does
    nothing. *)
Theorem nats_failed_run_blocks e name c s c1 r cs :
  listeners c = 0 → loops c = 0%nat → Run (Some e) name c = (c1, r) →
  fst <$> pipe c = Some name → rtc step_no_restart (c1, s) cs →
  r = Err (EOp "nats_run" e) ∧ loops cs.1 = 0%nat ∧
  (∀ p, Pause p cs.1 = None) ∧ (∀ d s', Stop d cs.1 s' = None).
Proof.
  intros Hl Hp Hr Hname Hsteps. unfold Run in Hr.
  destruct (pipe c) as [[n d]|] eqn:Epipe; [|done]. simpl in Hname. injection Hname as ->.
  rewrite String.eqb_refl, Hl in Hr. simpl in Hr. injection Hr as <- <-. split; [done|].
  assert (Hst : stuck cs.1).
  { assert (H0 : stuck (with_loops (u32_inc 0) false (loops c) c)).
    { split_and!; simpl; [done|done|]. by rewrite Epipe. }
    clear -Hsteps H0 NL. remember (_, s) as cs0 eqn:E0 in Hsteps.
    assert (H1 : stuck cs0.1) by (rewrite E0; exact H0). clear E0 H0.
    induction Hsteps as [|x y z Hxy _ IH]; [done|]. apply IH. by eapply stuck_step. }
  destruct Hst as (G1 & G2 & [q Gq]). split; [done|]. split.
  - intros p. unfold Pause. rewrite Gq, G1. simpl. unfold stop_one. simpl. by rewrite G2.
  - intros d' s'. unfold Stop. rewrite G1. simpl. unfold stop_one. by rewrite G2.
Qed.
End NatsJobs.

(** ** A stream in memory *)

Section examples.

(** A codec for one job. *)
Definition w_json : json_item := MkJsonItem "mail" "1" "hello" ∅ (Some (MkJsonOptions 10 "p" 0)).
Definition example_json : ItemJson.
Proof.
  refine {| marshal_item g := if decide (g = w_json) then inl "job" else inr (EExt "json");
            unmarshal_item b := if String.eqb b "job" then inl w_json else inr (EExt "json") |}.
  intros i b. destruct (decide _) as [-> |]; [|done]. by intros [= <-].
Defined.
Local Existing Instance example_json.

(** The store of the examples answers a delete of a missing message with an
    error. *)
Definition stream_store : MessageStore Publication Msg DeleteRequest Subscription :=
  let st := map_store (λ id m, MkMsg (p_data m) (inl id)) d_seq inl (λ _, None) in
  {| svc := @svc _ _ _ _ st; stored := @stored _ _ _ _ st; next := @next _ _ _ _ st;
     target := @target _ _ _ _ st; send := @send _ _ _ _ st; receive := @receive _ _ _ _ st;
     remove d s := match @stored _ _ _ _ st s !! @target _ _ _ _ st d with
                   | None => (s, Some (EExt "no message found"))
                   | Some _ => @remove _ _ _ _ st d s
                   end |}.

Local Instance example_nats : Nats := {|
  nats_store := stream_store;
  Ack_ n s := (s, None); Nak_ n s := (s, None); InProgress_ n s := (s, None);
  StreamInfo n s := inl true; AddStream a b s := (s, None); DeleteStream a s := (s, Some (EExt "denied")) |}.

Local Instance example_nats_laws : NatsLaws.
Proof.
  assert (L : MessageStoreLaws (MessageStore0 := map_store (λ id m, MkMsg (p_data m) (inl id)) d_seq inl (λ _, None))
    ref delivers).
  { apply map_store_laws; [done|done|]. by intros l l' [= <-]. }
  split; try done.
  - destruct L. split; try done.
    + intros d s. simpl. case_match; [done|]. done.
    + intros d s. simpl. case_match; [by right|by left].
    + intros d s s'. simpl. case_match eqn:E; [|done]. by intros [= <-].
  - intros d s. simpl. intros ->. by eexists.
Defined.

Definition w_empty : svc := map_empty.
Definition w_job : Job := MkJob "mail" "1" "hello" ∅ 10 "p" 0.
Definition w_new : consumer := MkConsumer None 0 false 10 "default" "default-stream" 100 1000 true false false 0 [] [].
Definition w_reg : consumer := Register "p" "nats" w_new.
Definition w_run : consumer := (Run None "p" w_reg).1.

(** Pushed, delivered, requeued by a poller, and the server restarted. *)
Definition w_actions : list action := [AListen; AExtract 0; ARequeue ∅ 5 0; AForget 0; ARestart].

Lemma w_nats_registered : rtc step (w_new, w_empty) (w_run, w_empty).
Proof.
  eapply (rtc_l step _ (w_reg, w_empty)); [by exists (ARegister "p" "nats")|].
  apply rtc_once. by exists (ARun None "p").
Qed.

Lemma nats_job_never_lost_witness :
  let s1 := (Push w_job w_run w_empty).1 in
  let cs := default (w_run, s1) (run w_actions (w_run, s1)) in
  ∃ id m j, stored cs.2 !! id = Some m ∧ p_subject m = "default" ∧ subject cs.1 = "default" ∧
    unmarshal_item (p_data m) = inl j ∧ ∀ n c2, ∃ i, to_item j n c2 = Ok i ∧ key i = ("1", "mail", "hello").
Proof.
  intros s1 cs.
  apply (nats_job_never_lost w_job w_new w_empty w_run w_empty s1 cs.1 cs.2);
    [reflexivity|reflexivity|exact w_nats_registered|reflexivity|].
  apply (nats_run_steps _ w_actions); [repeat constructor; done|]. vm_compute. reflexivity.
Defined.

Lemma nats_requeue_reports_error_witness :
  let s1 := (Push w_job w_run w_empty).1 in
  let i := MkItem "mail" "1" "hello" ∅ 10 "p" 0 true "default-stream" 0 in
  ∃ s4 e, Requeue_ ∅ 0 i w_run s1 = (i, s4, Some e) ∧ stored s4 !! 1 = Some (MkPublication "default" "job").
Proof.
  intros s1 i.
  eapply (nats_requeue_reports_error ∅ 0 i w_run s1 "job" 1); reflexivity || (simpl; lia).
Defined.

Lemma nats_failed_run_blocks_witness :
  let c1 := (Run (Some (EExt "timeout")) "p" w_reg).1 in
  (∀ p, Pause p c1 = None) ∧ ∀ d s', Stop d c1 s' = None.
Proof.
  intros c1.
  destruct (nats_failed_run_blocks (EExt "timeout") "p" w_reg w_empty c1
    (Err (EOp "nats_run" (EExt "timeout"))) (c1, w_empty)) as (_ & _ & H1 & H2);
    [reflexivity|reflexivity|reflexivity|reflexivity|apply rtc_refl|]. by split.
Defined.
End examples.
End NatsJobs.
