(* ===== verification/JobsWorker.v ===== *)
(** * What a worker is given of a job that went through a broker

    [Context] and [Body] of the items of the four broker drivers, and the way of
    a job from [Push] through the broker and the listener to the payload of a
    poller. *)

From stdpp Require Import base gmap strings list.
From Stdlib Require Import ZArith.
From S2P Require Import Prelude JobsProtocol JobsPlugin JobsListener JobsBroker JobsSqs JobsBeanstalk JobsNats JobsAmqp.

Module JobsWorker.
Import Protocol Jobs Listener Broker.

Section context.
(** [json.Marshal] of the identifier, the job, its headers and its pipeline. *)
Context (marshal_context : string → string → headers → string → bytes + error).

Definition sqs_Context (i : SqsJobs.Item) : bytes + error :=
  marshal_context (SqsJobs.it_Ident i) (SqsJobs.it_Job i) (SqsJobs.it_Headers i) (SqsJobs.it_Pipeline i).
Definition beanstalk_Context (i : BeanstalkJobs.Item) : bytes + error :=
  marshal_context (BeanstalkJobs.it_Ident i) (BeanstalkJobs.it_Job i) (BeanstalkJobs.it_Headers i) (BeanstalkJobs.it_Pipeline i).
Definition nats_Context (i : NatsJobs.Item) : bytes + error :=
  marshal_context (NatsJobs.it_Ident i) (NatsJobs.it_Job i) (NatsJobs.it_Headers i) (NatsJobs.it_Pipeline i).
Definition amqp_Context (i : AmqpJobs.Item) : bytes + error :=
  marshal_context (AmqpJobs.it_Ident i) (AmqpJobs.it_Job i) (AmqpJobs.it_Headers i) (AmqpJobs.it_Pipeline i).

(** The item as a poller sees it; all of them can be settled. *)
Definition sqs_queued (i : SqsJobs.Item) : qjob := MkQjob (sqs_Context i) (SqsJobs.it_Payload i) true.
Definition beanstalk_queued (i : BeanstalkJobs.Item) : qjob := MkQjob (beanstalk_Context i) (BeanstalkJobs.it_Payload i) true.
Definition nats_queued (i : NatsJobs.Item) : qjob := MkQjob (nats_Context i) (NatsJobs.it_Payload i) true.
Definition amqp_queued (i : AmqpJobs.Item) : qjob := MkQjob (amqp_Context i) (AmqpJobs.it_Payload i) true.

(** What the worker has to see of a job of a pipeline. *)
Definition shown (j : Job) (pipeline : string) : qjob :=
  MkQjob (marshal_context (jb_Ident j) (jb_Job j) (jb_Headers j) pipeline) (jb_Payload j) true.

(** A job that beanstalk, NATS or RabbitMQ delivers as it was sent is given to
    the worker with its identifier, name, headers, pipeline and payload; SQS
    delivers everything but the name of the pipeline. *)
Theorem worker_sees_job `{JK : JobKeys, HJ : HeadersJson} `{GO : BeanstalkJobs.Gob} `{IJ : NatsJobs.ItemJson} (j : Job) :
  (∀ b id c, BeanstalkJobs.gob_encode (BeanstalkJobs.exported (BeanstalkJobs.fromJob j)) = inl b →
     ∃ i, BeanstalkJobs.unpack id b c = Ok i ∧ beanstalk_queued i = shown j (jb_Pipeline j)) ∧
  (∀ b n c, NatsJobs.marshal_item (NatsJobs.job_json j) = inl b →
     ∃ x i, NatsJobs.unmarshal_item b = inl x ∧ NatsJobs.to_item x n c = Ok i ∧ nats_queued i = shown j (jb_Pipeline j)) ∧
  (∀ t d c, AmqpJobs.pack (jb_Ident j) (AmqpJobs.fromJob j) = inl t → AmqpJobs.d_Headers d = t → AmqpJobs.d_Body d = jb_Payload j →
     ∃ i, AmqpJobs.fromDelivery d c = Ok i ∧ amqp_queued i = shown j (jb_Pipeline j)) ∧
  (∀ q url m r, int64 (jb_Delay j) → int64 (jb_Priority j) →
     SqsJobs.pack q (SqsJobs.fromJob j) = inl m → SqsJobs.delivers m r →
     ∃ i, SqsJobs.unpack url r = Ok i ∧ sqs_queued i = shown j "").
Proof.
  split_and!.
  - intros b id c Hb. unfold BeanstalkJobs.unpack. rewrite (BeanstalkJobs.gob_decode_encode _ _ Hb). simpl. eauto.
  - intros b n c Hb. exists (NatsJobs.job_json j). rewrite (NatsJobs.item_round_trip _ _ Hb). simpl. eauto.
  - intros t d c Hp Hd Hb. eexists. split; [by apply (AmqpJobs.unpack_packed (AmqpJobs.fromJob j) t d c)|done].
  - intros q url m r H1 H2 Hp Hd. destruct (SqsJobs.unpack_delivered q url (SqsJobs.fromJob j) m r ltac:(by split) Hp Hd) as (n & _ & Hu).
    eexists. split; [done|]. reflexivity.
Qed.
End context.
End JobsWorker.
