(* ===== verification/PubSub.v ===== *)
(** * Publish/subscribe: the in-memory driver ([memory/memorypubsub]) and the
    broadcast plugin ([broadcast])

    The driver keeps which connection listens to which topic in a [bst.Storage]
    and messages in a channel; the broadcast plugin builds drivers from the
    configuration and publishes every message to all of them. *)

From stdpp Require Import base gmap strings list.
From Stdlib Require Import ZArith.
From S2P Require Import Prelude.

(** ** The in-memory driver *)
Module MemPubSub.

Record Message := MkMessage { Topic : string; Payload : bytes }.

(** [github.com/spiral/roadrunner/v2/bst] is not part of the repository.  Its
    interface documents that [Insert] adds a connection to a topic, [Remove]
    takes it away and the topic with its last connection, [Get] returns the
    connections of a topic and [Contains] checks that the topic is there. *)
Class Bst := {
  Storage : Type;
  NewBST : Storage;
  Insert : string → string → Storage → Storage;
  Remove : string → string → Storage → Storage;
  Get : string → Storage → gset string;
  Contains : string → Storage → bool
}.

Class BstLaws `{Bst} := {
  Get_new t : Get t NewBST = ∅;
  Get_Insert u t t' s : Get t' (Insert u t s) = if decide (t = t') then {[u]} ∪ Get t' s else Get t' s;
  Get_Remove u t t' s : u ∈ Get t s →
    Get t' (Remove u t s) = if decide (t = t') then Get t' s ∖ {[u]} else Get t' s;
  Contains_Get t s : Contains t s = true ↔ Get t s ≠ ∅
}.

Definition pushCh_cap : nat := 100.

Section Driver.
Context `{BS : Bst}.

(** [pending]: goroutines of [PublishAsync] that have not sent yet. *)
Record driver := MkDriver { pushCh : list Message; pending : list Message; storage : Storage }.

Definition NewPubSubDriver : driver := MkDriver [] [] NewBST.

Definition with_push l (d : driver) : driver := MkDriver l (pending d) (storage d).
Definition with_storage s (d : driver) : driver := MkDriver (pushCh d) (pending d) s.

(** [None]: the channel is full and the call waits. *)
Definition Publish (msg : Message) (d : driver) : option driver :=
  if (length (pushCh d) <? pushCh_cap)%nat then Some (with_push (pushCh d ++ [msg]) d) else None.

Definition PublishAsync (msg : Message) (d : driver) : driver :=
  MkDriver (pushCh d) (pending d ++ [msg]) (storage d).

Definition send_pending (n : nat) (d : driver) : option driver :=
  m ← pending d !! n;
  Publish m (MkDriver (pushCh d) (delete n (pending d)) (storage d)).

Definition Subscribe (connectionID : string) (topics : list string) (d : driver) : driver :=
  with_storage (foldl (λ s t, Insert connectionID t s) (storage d) topics) d.

Definition Unsubscribe (connectionID : string) (topics : list string) (d : driver) : driver :=
  with_storage (foldl (λ s t, Remove connectionID t s) (storage d) topics) d.

(** [res] is the caller's map, which the call extends. *)
Definition Connections (topic : string) (res : gset string) (d : driver) : gset string :=
  res ∪ Get topic (storage d).

(** [done]: the context is done and its branch of the select is taken, which is
    the only one when the channel is empty ([None]: the call waits). *)
Definition Next (done : bool) (d : driver) : option (driver * res (option Message)) :=
  match pushCh d, done with
  | _, true => Some (d, Err (EOp "pubsub_memory" (EKind TimeOut)))
  | [], false => None
  | msg :: l, false =>
      let d := with_push l d in
      Some (d, Ok (if Contains (Topic msg) (storage d) then Some msg else None))
  end.

(** *** What the driver promises

    A set of subscriptions, a queue of messages, and the messages that are
    waiting to be put into it. *)
Record spec := MkSpec { subs : gset (string * string); queue : list Message; waiting : list Message }.

Inductive call :=
  | CSubscribe (c : string) (ts : list string)
  | CUnsubscribe (c : string) (ts : list string)
  | CPublish (m : Message)
  | CPublishAsync (m : Message) | CSend (n : nat)
  | CNext.

(** A message goes behind the others, when there is room. *)
Definition enqueue (m : Message) (a : spec) : option spec :=
  if (length (queue a) <? pushCh_cap)%nat then Some (MkSpec (subs a) (queue a ++ [m]) (waiting a)) else None.

(** What a call answers: the message [Next] hands out. *)
Definition spec_call (k : call) (a : spec) : option (spec * option Message) :=
  match k with
  | CSubscribe c ts => Some (MkSpec (subs a ∪ list_to_set ((c,.) <$> ts)) (queue a) (waiting a), None)
  | CUnsubscribe c ts => Some (MkSpec (subs a ∖ list_to_set ((c,.) <$> ts)) (queue a) (waiting a), None)
  | CPublish m => (λ a, (a, None)) <$> enqueue m a
  | CPublishAsync m => Some (MkSpec (subs a) (queue a) (waiting a ++ [m]), None)
  | CSend n => m ← waiting a !! n;
               (λ a, (a, None)) <$> enqueue m (MkSpec (subs a) (queue a) (delete n (waiting a)))
  | CNext => match queue a with
             | [] => None
             | m :: q => Some (MkSpec (subs a) q (waiting a),
                 if decide (set_Exists (λ p, p.2 = Topic m) (subs a)) then Some m else None)
             end
  end.

Definition driver_call (k : call) (d : driver) : option (driver * option Message) :=
  match k with
  | CSubscribe c ts => Some (Subscribe c ts d, None)
  | CUnsubscribe c ts => Some (Unsubscribe c ts d, None)
  | CPublish m => (λ d, (d, None)) <$> Publish m d
  | CPublishAsync m => Some (PublishAsync m d, None)
  | CSend n => (λ d, (d, None)) <$> send_pending n d
  | CNext => match Next false d with
             | Some (d, Ok m) => Some (d, m)
             | _ => None
             end
  end.

(** Connections only leave topics they are subscribed to, each once. *)
Definition call_ok (k : call) (a : spec) : Prop :=
  match k with
  | CUnsubscribe c ts => NoDup ts ∧ ∀ t, t ∈ ts → (c, t) ∈ subs a
  | _ => True
  end.

Fixpoint spec_run (l : list call) (a : spec) : option (spec * list (option Message)) :=
  match l with
  | [] => Some (a, [])
  | k :: l' => '(a, m) ← spec_call k a; '(a, ms) ← spec_run l' a; Some (a, m :: ms)
  end.
Fixpoint driver_run (l : list call) (d : driver) : option (driver * list (option Message)) :=
  match l with
  | [] => Some (d, [])
  | k :: l' => '(d, m) ← driver_call k d; '(d, ms) ← driver_run l' d; Some (d, m :: ms)
  end.
Fixpoint calls_ok (l : list call) (a : spec) : Prop :=
  match l with
  | [] => True
  | k :: l' => call_ok k a ∧ match spec_call k a with Some (a', _) => calls_ok l' a' | None => True end
  end.

Definition represents (d : driver) (a : spec) : Prop :=
  pushCh d = queue a ∧ pending d = waiting a ∧ ∀ c t, c ∈ Get t (storage d) ↔ (c, t) ∈ subs a.

Context {BL : BstLaws}.

Lemma Subscribe_represents c ts d a :
  represents d a → represents (Subscribe c ts d) (MkSpec (subs a ∪ list_to_set ((c,.) <$> ts)) (queue a) (waiting a)).
Proof.
  intros (Hq & Hw & Hs). split; [done|]. split; [done|]. simpl. revert Hs. generalize (storage d) (subs a).
  induction ts as [|t ts IH]; intros s A Hs c' t'; simpl.
  { rewrite Hs. set_solver. }
  rewrite (IH (Insert c t s) (A ∪ {[(c, t)]})); [set_solver|].
  intros c2 t2. rewrite Get_Insert. case_decide; [subst|]; rewrite ?elem_of_union, Hs; set_solver.
Qed.

Lemma Unsubscribe_represents c ts d a :
  NoDup ts → (∀ t, t ∈ ts → (c, t) ∈ subs a) → represents d a →
  represents (Unsubscribe c ts d) (MkSpec (subs a ∖ list_to_set ((c,.) <$> ts)) (queue a) (waiting a)).
Proof.
  intros Hnd Hin (Hq & Hw & Hs). split; [done|]. split; [done|]. simpl. revert Hs Hin. generalize (storage d) (subs a).
  induction Hnd as [|t ts Ht Hnd IH]; intros s A Hs Hin c' t'; simpl.
  { rewrite Hs. set_solver. }
  rewrite (IH (Remove c t s) (A ∖ {[(c, t)]})); [set_solver| |].
  - intros c2 t2. rewrite Get_Remove by (apply Hs, Hin; left).
    case_decide; [subst|]; rewrite ?elem_of_difference, Hs; set_solver.
  - intros t2 Ht2. apply elem_of_difference. split; [apply Hin; by right|set_solver].
Qed.

Lemma Publish_represents m d a :
  represents d a →
  match Publish m d, enqueue m a with
  | Some d', Some a' => represents d' a'
  | None, None => True
  | _, _ => False
  end.
Proof. intros (Hq & Hw & Hs). unfold Publish, enqueue. rewrite Hq. by destruct (_ <? _)%nat. Qed.

Lemma driver_call_refines k d a :
  represents d a → call_ok k a →
  match driver_call k d, spec_call k a with
  | Some (d', m), Some (a', m') => represents d' a' ∧ m = m'
  | None, None => True
  | _, _ => False
  end.
Proof.
  intros Hr Hok. pose proof Hr as (Hq & Hw & Hs). destruct k as [c ts|c ts|m|m|n|]; simpl.
  - split; [by apply Subscribe_represents|done].
  - destruct Hok. split; [by apply Unsubscribe_represents|done].
  - pose proof (Publish_represents m d a Hr) as Hp. by destruct (Publish m d), (enqueue m a).
  - split; [|done]. split; [done|]. split; [simpl; by rewrite Hw|done].
  - unfold send_pending. rewrite Hw. destruct (waiting a !! n) as [m|]; [|done]. simpl.
    pose proof (Publish_represents m (MkDriver (pushCh d) (delete n (waiting a)) (storage d))
      (MkSpec (subs a) (queue a) (delete n (waiting a)))) as Hp.
    destruct (Publish _ _), (enqueue _ _); simpl; [split; [|done]|..]; by apply Hp.
  - unfold Next. rewrite Hq. destruct (queue a) as [|m q]; [done|]. simpl.
    split; [done|]. destruct (decide (set_Exists _ _)) as [(p & Hp & Ht)|Hn].
    + destruct (Contains (Topic m) (storage d)) eqn:Ec; [done|].
      apply not_true_iff_false in Ec. rewrite Contains_Get in Ec. destruct p as [c t]; simpl in *; subst.
      apply Hs in Hp. set_solver.
    + destruct (Contains (Topic m) (storage d)) eqn:Ec; [|done].
      apply Contains_Get in Ec. destruct Hn. apply set_choose_L in Ec as [c Hc].
      exists (c, Topic m). split; [by apply Hs|done].
Qed.

Lemma driver_run_refines l d a :
  represents d a → calls_ok l a →
  match driver_run l d, spec_run l a with
  | Some (d', ms), Some (a', ms') => represents d' a' ∧ ms = ms'
  | None, None => True
  | _, _ => False
  end.
Proof.
  revert d a. induction l as [|k l IH]; intros d a Hr Hok; simpl in *; [done|].
  destruct Hok as [Hk Hl]. pose proof (driver_call_refines k d a Hr Hk) as Hc.
  destruct (driver_call k d) as [[d1 m]|], (spec_call k a) as [[a1 m1]|]; try done. simpl.
  destruct Hc as [Hr1 ->]. specialize (IH d1 a1 Hr1 Hl).
  destruct (driver_run l d1) as [[d2 ms]|], (spec_run l a1) as [[a2 ms']|]; try done. simpl. by destruct IH as [? ->].
Qed.

(** C25: the driver implements its contract.  Let connections leave only topics
    they are in, each once.  Then on every sequence of subscriptions, publishings
    of both kinds and [Next] calls the driver waits exactly when a queue of a
    hundred messages would -- full for a publisher, empty for [Next] --, hands
    out the same messages in the same order, nil in place of one to whose topic
    nobody is subscribed when it is taken, and reports for every topic exactly
    the subscribed connections. *)
Theorem mem_pubsub_refines l :
  calls_ok l (MkSpec ∅ [] []) →
  match driver_run l NewPubSubDriver, spec_run l (MkSpec ∅ [] []) with
  | Some (d', ms), Some (a', ms') =>
      ms = ms' ∧ ∀ t res, Connections t res d' = res ∪ set_map fst (filter (λ p, p.2 = t) (subs a'))
  | None, None => True
  | _, _ => False
  end.
Proof.
  intros Hok. pose proof (driver_run_refines l NewPubSubDriver (MkSpec ∅ [] [])) as H.
  destruct (driver_run l NewPubSubDriver) as [[d' ms]|], (spec_run l (MkSpec ∅ [] [])) as [[a' ms']|].
  2,3,4: apply H; [|done]; split; [done|]; split; [done|]; intros c t; simpl; rewrite Get_new; set_solver.
  destruct H as [(Hq & Hw & Hs) ->]; [|done|].
  { split; [done|]. split; [done|]. intros c t. simpl. rewrite Get_new. set_solver. }
  split; [done|]. intros t res. unfold Connections. f_equal.
  apply set_eq. intros c. rewrite Hs, elem_of_map. split.
  - intros Hc. exists (c, t). split; [done|]. by apply elem_of_filter.
  - intros ([c' t'] & -> & [Ht Hc]%elem_of_filter). simpl in *. by subst.
Qed.

End Driver.

(** *** A concrete storage *)

Definition map_bst : Bst := {|
  Storage := gmap string (gset string);
  NewBST := ∅;
  Insert u t s := <[t := {[u]} ∪ default ∅ (s !! t)]> s;
  Remove u t s := let r := default ∅ (s !! t) ∖ {[u]} in
                  if decide (r = ∅) then delete t s else <[t := r]> s;
  Get t s := default ∅ (s !! t);
  Contains t s := bool_decide (default ∅ (s !! t) ≠ ∅)
|}.
#[local] Existing Instance map_bst.
#[export] Program Instance map_bst_laws : @BstLaws map_bst.
Next Obligation. done. Qed.
Next Obligation. cbn. intros. case_decide; subst; by simplify_map_eq. Qed.
Next Obligation.
  cbn. intros u t t' s Hu. destruct (decide (t = t')) as [->|Hne]; case_decide as He; simplify_map_eq; done.
Qed.
Next Obligation. cbn. intros. by rewrite bool_decide_eq_true. Qed.

Definition w_calls : list call :=
  [CSubscribe "c1" ["news"]; CPublish (MkMessage "news" "a"); CPublishAsync (MkMessage "old" "b"); CSend 0; CNext; CNext].

Definition w_subs : gset (string * string) := {[("c1", "news")]}.

Lemma mem_pubsub_refines_witness :
  match driver_run w_calls NewPubSubDriver with
  | Some (d', ms) => ms = [None; None; None; None; Some (MkMessage "news" "a"); None] ∧
      ∀ t res, Connections t res d' = res ∪ set_map fst (filter (λ p, p.2 = t) w_subs)
  | None => False
  end.
Proof.
  pose proof (mem_pubsub_refines w_calls) as H.
  assert (Hs : spec_run w_calls (MkSpec ∅ [] []) = Some (MkSpec w_subs [] [],
    [None; None; None; None; Some (MkMessage "news" "a"); None])) by (vm_compute; reflexivity).
  rewrite Hs in H. destruct (driver_run w_calls NewPubSubDriver) as [[d' ms]|]; apply H; simpl; tauto.
Defined.

End MemPubSub.

(** ** The broadcast plugin *)
Module Broadcast.
Import MemPubSub.

(** What the plugin calls of a driver it has built: [W] is the state of all
    drivers, [H] a driver; [None]: the call waits. *)
Class PubSub (W H : Type) := {
  ps_Publish : H → Message → W → option (W * option error);
  ps_Stop : H → W → option (res W)
}.

(** A driver's side of the contract: a message that [Publish] accepts is in the
    driver's queue, behind the earlier ones, if it is one that the driver
    [wants], and no other driver sees it. *)
Class PubSubLaws (W H : Type) `{PubSub W H} := {
  inbox : H → W → list Message;
  wants : H → W → Message → bool;
  Publish_inbox h m w w' : ps_Publish h m w = Some (w', None) →
    inbox h w' = inbox h w ++ (if wants h w m then [m] else []);
  Publish_other h h' m w w' e : h ≠ h' → ps_Publish h m w = Some (w', e) → inbox h' w' = inbox h' w;
  Publish_wants h h' m w w' e : ps_Publish h m w = Some (w', e) → wants h' w' = wants h' w
}.

(** Values of the configuration that the plugin tells apart. *)
Inductive driver_value := DString (s : string) | DOther.
Inductive section := SMap (driver : option driver_value) | SOther.

Section Plugin.
Context {W H : Type} `{PS : PubSub W H} `{GoRange}.

Record Plugin := MkPlugin {
  cfg_Data : gmap string section;
  publishers : gmap string H;
  constructors : gmap string (string → W → (H + error) * W) }.

Definition with_publishers l (p : Plugin) : Plugin := MkPlugin (cfg_Data p) l (constructors p).

Definition PluginName : string := "broadcast".

Definition Init (has : string → bool) (unmarshal : string → res (gmap string section)) : res Plugin :=
  let op := "broadcast_plugin_init" in
  if negb (has PluginName) then Err (EOp op (EKind Disabled)) else
  data ← wrap_err op (unmarshal PluginName);
  Ok (MkPlugin data ∅ ∅).

Definition CollectPublishers (name : string) (c : string → W → (H + error) * W) (p : Plugin) : Plugin :=
  MkPlugin (cfg_Data p) (publishers p) (<[name := c]> (constructors p)).

Fixpoint stop_loop (hs : list (string * H)) (w : W) : option (res W) :=
  match hs with
  | [] => Some (Ok w)
  | (_, h) :: hs' => r ← ps_Stop h w; match r with Ok w => stop_loop hs' w | x => Some x end
  end.
Definition Stop (p : Plugin) (w : W) : option (res W) := stop_loop (range_map (publishers p)) w.

(** [None] in this and the calls above it: a driver waits, and the plugin with it,
    whose lock is held. *)
Fixpoint publish_loop (hs : list (string * H)) (m : Message) (w : W) : option (W * option error) :=
  match hs with
  | [] => Some (w, None)
  | (_, h) :: hs' => '(w, e) ← ps_Publish h m w;
                     match e with
                     | None => publish_loop hs' m w
                     | Some e => Some (w, Some (EOp "broadcast_plugin_publish" e))
                     end
  end.

Definition Publish (m : Message) (p : Plugin) (w : W) : option (W * option error) :=
  if (0 <? size (publishers p))%nat then publish_loop (range_map (publishers p)) m w else Some (w, None).

(** The body of the goroutine: an error does not stop it. *)
Fixpoint async_loop (hs : list (string * H)) (m : Message) (w : W) : option W :=
  match hs with
  | [] => Some w
  | (_, h) :: hs' => '(w, _) ← ps_Publish h m w; async_loop hs' m w
  end.
Definition publish_async (m : Message) (p : Plugin) (w : W) : option W :=
  if (0 <? size (publishers p))%nat then async_loop (range_map (publishers p)) m w else Some w.

Definition config_key (key : string) : string := "broadcast." +:+ key +:+ ".config".

Definition GetDriver (has : string → bool) (key : string) (p : Plugin) (w : W)
    : Plugin * W * res H :=
  let op := "broadcast_plugin_get_driver" in
  let not_found := Err (EOp op (EStr "could not find driver by provided key")) in
  let build drStr (c : string → W → (H + error) * W) k :=
    match c k w with
    | (inr e, w) => (p, w, Err (EOp op e))
    | (inl ps, w) => (with_publishers (<[config_key key := ps]> (publishers p)) p, w, Ok ps)
    end in
  match cfg_Data p !! key with
  | None => (p, w, not_found)
  | Some SOther => (p, w, Err (EOp op (EStr "wrong type detected in the configuration, please, check yaml indentation")))
  | Some (SMap None) => (p, w, Panic)
  | Some (SMap (Some DOther)) => (p, w, not_found)
  | Some (SMap (Some (DString drStr))) =>
      match constructors p !! drStr with
      | None => (p, w, Err (EOp op (EErrorf "no drivers with the requested name registered" [drStr])))
      | Some c =>
          if has (config_key key) then build drStr c (config_key key)
          else if has key then build drStr c key
          else (p, w, not_found)
      end
  end.

(** *** RPC *)

Record pbMessage := MkPbMessage { pb_Topics : list string; pb_Payload : bytes }.

Fixpoint topics_loop (payload : bytes) (ts : list string) (p : Plugin) (w : W) : option (W * option error) :=
  match ts with
  | [] => Some (w, None)
  | t :: ts' =>
      if String.eqb t "" then topics_loop payload ts' p w else
      '(w, e) ← Publish (MkMessage t payload) p w;
      match e with
      | None => topics_loop payload ts' p w
      | Some e => Some (w, Some (EOp "broadcast_publish" e))
      end
  end.

Fixpoint messages_loop (ms : list pbMessage) (p : Plugin) (w : W) : option (W * option error) :=
  match ms with
  | [] => Some (w, None)
  | m :: ms' => '(w, e) ← topics_loop (pb_Payload m) (pb_Topics m) p w;
                match e with
                | None => messages_loop ms' p w
                | Some e => Some (w, Some e)
                end
  end.

(** The new state, [out.Ok] and the error. *)
Definition rpc_Publish (req : option (list pbMessage)) (p : Plugin) (w : W) : option (W * bool * option error) :=
  match req with
  | None => Some (w, false, None)
  | Some ms => '(w, e) ← messages_loop ms p w;
               match e with
               | None => Some (w, true, None)
               | Some e => Some (w, false, Some e)
               end
  end.

(** The goroutines [PublishAsync] starts, one per message. *)
Definition rpc_PublishAsync (req : option (list pbMessage)) : list Message * bool :=
  match req with
  | None => ([], false)
  | Some ms =>
      (ms ≫= λ m, t ← pb_Topics m;
         if String.eqb t "" then [] else [MkMessage t (pb_Payload m)], true)
  end.

(** *** Delivery *)

(** The messages a request stands for: one per non-empty topic, in order. *)
Definition expand (ms : list pbMessage) : list Message :=
  ms ≫= λ m, (λ t, MkMessage t (pb_Payload m)) <$> filter (λ t, t ≠ "") (pb_Topics m).

Context `{PL : !PubSubLaws W H}.

(** Every driver is registered once. *)
Definition distinct (hs : list (string * H)) : Prop := NoDup hs.*2.

Lemma publish_loop_wants hs m w w' e h : publish_loop hs m w = Some (w', e) → wants h w' = wants h w.
Proof.
  revert w. induction hs as [|[k h0] hs IH]; intros w; simpl; [by intros [= <- _]|].
  destruct (ps_Publish h0 m w) as [[w1 [e1|]]|] eqn:E; simpl; [| |done].
  - intros [= <- _]. by eapply Publish_wants.
  - intros ->%IH. by eapply Publish_wants.
Qed.

Lemma publish_loop_inbox hs m w w' :
  distinct hs → publish_loop hs m w = Some (w', None) →
  (∀ h, h ∈ hs.*2 → inbox h w' = inbox h w ++ (if wants h w m then [m] else [])) ∧ (∀ h, h ∉ hs.*2 → inbox h w' = inbox h w).
Proof.
  unfold distinct. revert w. induction hs as [|[k h] hs IH]; intros w Hd Hp; simpl in *.
  { simplify_eq. split; [set_solver|done]. }
  apply NoDup_cons in Hd as [Hn Hd].
  destruct (ps_Publish h m w) as [[w1 [e|]]|] eqn:E; simpl in Hp; [done| |done]. destruct (IH _ Hd Hp) as [IH1 IH2].
  pose proof (Publish_inbox h m w w1 E) as H1.
  assert (H2 : ∀ h', h ≠ h' → inbox h' w1 = inbox h' w) by (intros h' Hne; by eapply Publish_other).
  split.
  - intros h' [->|Hin]%elem_of_cons; [by rewrite IH2, H1|]. rewrite IH1 by done. rewrite (Publish_wants _ _ _ _ _ _ E).
    by rewrite H2 by set_solver.
  - intros h' Hnin. rewrite IH2, H2 by set_solver. done.
Qed.

Lemma Publish_inbox_all m p w w' h :
  distinct (range_map (publishers p)) → Publish m p w = Some (w', None) →
  (h ∈ (range_map (publishers p)).*2 → inbox h w' = inbox h w ++ (if wants h w m then [m] else [])).
Proof.
  intros Hd Hp Hin. unfold Publish in Hp. destruct (Nat.ltb_spec 0 (size (publishers p))) as [Hlt|Hge].
  - by apply (publish_loop_inbox _ _ _ _ Hd Hp).
  - assert (publishers p = ∅) as He by (apply map_size_empty_inv; lia).
    exfalso. revert Hin. rewrite range_map_perm, He, map_to_list_empty. set_solver.
Qed.
Lemma Publish_wants_all m p w w' e h : Publish m p w = Some (w', e) → wants h w' = wants h w.
Proof. unfold Publish. destruct (_ <? _)%nat; [apply publish_loop_wants|by intros [= <- _]]. Qed.

(** The messages of a list that a driver wants. *)
Definition wanted (h : H) (w : W) (l : list Message) : list Message := List.filter (wants h w) l.

Lemma topics_loop_inbox payload ts p w w' h :
  distinct (range_map (publishers p)) → h ∈ (range_map (publishers p)).*2 →
  topics_loop payload ts p w = Some (w', None) →
  wants h w' = wants h w ∧
  inbox h w' = inbox h w ++ wanted h w ((λ t, MkMessage t payload) <$> filter (λ t, t ≠ "") ts).
Proof.
  intros Hd Hin. revert w. induction ts as [|t ts IH]; intros w Hl; simpl in Hl.
  { simplify_eq. by rewrite app_nil_r. }
  destruct (String.eqb_spec t "") as [->|Hne].
  { rewrite filter_cons_False by auto. by apply IH. }
  rewrite filter_cons_True by done. destruct (Publish _ p w) as [[w1 [e|]]|] eqn:Ep; simpl in Hl; [done| |done].
  destruct (IH _ Hl) as [Hw ->]. rewrite (Publish_inbox_all _ _ _ _ _ Hd Ep Hin).
  rewrite (Publish_wants_all _ _ _ _ _ h Ep) in Hw. split; [done|]. unfold wanted. cbn [fmap list_fmap List.filter].
  rewrite (Publish_wants_all _ _ _ _ _ h Ep). destruct (wants h w _); by rewrite <- (assoc_L (++)).
Qed.

Lemma messages_loop_inbox ms p w w' h :
  distinct (range_map (publishers p)) → h ∈ (range_map (publishers p)).*2 →
  messages_loop ms p w = Some (w', None) → inbox h w' = inbox h w ++ wanted h w (expand ms).
Proof.
  intros Hd Hin. revert w. induction ms as [|m ms IH]; intros w Hl; simpl in Hl.
  { simplify_eq. by rewrite app_nil_r. }
  destruct (topics_loop _ _ p w) as [[w1 [e|]]|] eqn:Et; simpl in Hl; [done| |done].
  destruct (topics_loop_inbox _ _ _ _ _ _ Hd Hin Et) as [Hw Hi]. rewrite (IH _ Hl), Hi.
  unfold expand, wanted in *. rewrite Hw. cbn [mbind list_bind]. by rewrite List.filter_app, <- (assoc_L (++)).
Qed.

(** A publish request that is answered [Ok] has put into the queue of every
    registered driver one message per non-empty topic that the driver wants, in
    the order of the request, whatever order the drivers are visited in; it is
    answered [Ok] exactly when no driver returned an error and the request was
    there, and the asynchronous call starts one goroutine for each of the same
    messages. *)
Theorem broadcast_delivers req (p : Plugin) w w' ok e :
  distinct (range_map (publishers p)) → rpc_Publish req p w = Some (w', ok, e) →
  (ok = true ↔ e = None ∧ is_Some req) ∧
  (ok = true → ∀ k h, publishers p !! k = Some h →
     inbox h w' = inbox h w ++ wanted h w (expand (default [] req))) ∧
  (rpc_PublishAsync req).1 = expand (default [] req).
Proof.
  intros Hd Hr. unfold rpc_Publish in Hr. destruct req as [ms|]; simpl.
  2:{ simplify_eq. split_and!; [|done..]. split; [done|]. by intros [_ []%is_Some_None]. }
  split_and!.
  - destruct (messages_loop ms p w) as [[w1 [e1|]]|]; simplify_eq/=.
    + split; [done|]. by intros [? _].
    + split; [|done]. intros _. split; [done|by eexists].
  - intros -> k h Hk. destruct (messages_loop ms p w) as [[w1 [e1|]]|] eqn:Em; simplify_eq/=.
    eapply messages_loop_inbox; [done| |done].
    apply list_elem_of_fmap. exists (k, h). split; [done|]. by apply elem_of_range_map.
  - unfold expand. apply list_bind_ext; [|done]. intros m.
    induction (pb_Topics m) as [|t ts IH]; [done|]. cbn [mbind list_bind].
    destruct (String.eqb_spec t "") as [->|Hne]; simpl.
    + rewrite filter_cons_False by auto. exact IH.
    + rewrite filter_cons_True by done. simpl. by f_equal.
Qed.

End Plugin.

(** *** Witness: two drivers that record what they accept *)

#[local] Instance log_pubsub : PubSub (gmap string (list Message)) string := {|
  ps_Publish h m w := Some (<[h := default [] (w !! h) ++ [m]]> w, None);
  ps_Stop h w := Some (Ok (delete h w)) |}.
#[local] Program Instance log_laws : PubSubLaws (gmap string (list Message)) string := {|
  inbox h w := default [] (w !! h); wants h w m := true |}.
Next Obligation. cbn. intros h m w w' [= <-]. by rewrite lookup_insert_eq. Qed.
Next Obligation. cbn. intros h h' m w w' e Hne [= <- _]. by rewrite lookup_insert_ne. Qed.
Next Obligation. done. Qed.

Definition w_plugin : Plugin (W := gmap string (list Message)) (H := string) :=
  MkPlugin ∅ (<["broadcast.test.config" := "memory"]> {["broadcast.x.config" := "redis"]}) ∅.
Definition w_req : list pbMessage := [MkPbMessage ["a"; ""; "b"] "x"].

Lemma broadcast_delivers_witness :
  ∃ w', rpc_Publish (Some w_req) w_plugin ∅ = Some (w', true, None) ∧
    inbox "redis" w' = [MkMessage "a" "x"; MkMessage "b" "x"].
Proof.
  eexists. split; [vm_compute; reflexivity|].
  refine (proj1 (proj2 (broadcast_delivers (Some w_req) w_plugin ∅ _ true None _ _)) eq_refl "broadcast.x.config" "redis" _).
  - apply (bool_decide_unpack _). vm_compute. exact I.
  - vm_compute. reflexivity.
  - vm_compute. reflexivity.
Defined.

End Broadcast.
