(* ===== verification/PubSubRedis.v ===== *)
(** * Publish/subscribe over redis ([redis/pubsub])

    Subscriptions are kept twice: a redis set under the name of each topic
    holds the connections of all servers, and the client's subscription holds
    the topics whose messages this server wants.  A goroutine moves the messages
    the client receives into a channel of a hundred places, from which [Next]
    takes them.

    [Subscribe] and [Unsubscribe] send several commands without a lock.  They
    are programs of atomic commands, so that the same text is run as a whole
    ([run]) and interleaved with other calls ([pstep]). *)

From stdpp Require Import base gmap strings list relations.
From Stdlib Require Import ZArith.
From S2P Require Import Prelude KvRemote PubSub.
Local Open Scope Z_scope.

Module RedisPubSub.
Import MemPubSub(Message, MkMessage, Topic, Payload).

(** The configuration is the one of the key-value driver, field by field. *)
Definition Config : Type := RedisKv.Config.
Definition InitDefaults : Config → Config := RedisKv.InitDefaults.

(** The client: [rp_Receive] is a receive on the client's channel, where
    [inr false] is a closed channel and [inr true] one with nothing to receive. *)
Class RedisSets := {
  world : Type;
  rp_NewClient : Config → world;
  rp_Ping : world → option error;
  rp_SAdd : string → string → world → world * (Z + error);
  rp_SRem : string → string → world → world * option error;
  rp_Exists : string → world → Z + error;
  rp_SMembers : string → world → gset string + error;
  rp_Subscribe : list string → world → world * option error;
  rp_Unsubscribe : string → world → world * option error;
  rp_Publish : string → bytes → world → world * option error;
  rp_Receive : world → (world * (string * bytes)) + bool;
  rp_Close : world → world;
}.

(** What redis documents: [members] are the connections of a topic, whose key
    exists while there are any; [listening] are the topics the client asked
    for; [incoming] the messages it has received and not handed out. *)
Class RedisSetsLaws `{RP : RedisSets} := {
  members : string → world → gset string;
  listening : world → gset string;
  incoming : world → list (string * bytes);
  SAdd_members t c t' w w' r : rp_SAdd t c w = (w', r) →
    listening w' = listening w ∧ incoming w' = incoming w ∧
    (members t' w' = members t' w ∧ (∃ e, r = inr e) ∨
     members t' w' = if decide (t = t') then {[c]} ∪ members t' w else members t' w);
  SRem_members t c t' w w' r : rp_SRem t c w = (w', r) →
    listening w' = listening w ∧ incoming w' = incoming w ∧
    (members t' w' = members t' w ∧ (∃ e, r = Some e) ∨
     members t' w' = if decide (t = t') then members t' w ∖ {[c]} else members t' w);
  Exists_members t w n : rp_Exists t w = inl n → n = if decide (members t w = ∅) then 0 else 1;
  SMembers_members t w s : rp_SMembers t w = inl s → s = members t w;
  Subscribe_listening ts w w' r : rp_Subscribe ts w = (w', r) →
    (∀ t, members t w' = members t w) ∧ incoming w' = incoming w ∧ listening w ⊆ listening w' ∧
    (r = None → listening w' = listening w ∪ list_to_set ts);
  Unsubscribe_listening t w w' r : rp_Unsubscribe t w = (w', r) →
    (∀ t', members t' w' = members t' w) ∧ incoming w' = incoming w ∧
    (listening w' = listening w ∧ (∃ e, r = Some e) ∨ listening w' = listening w ∖ {[t]});
  Publish_incoming t p w w' r : rp_Publish t p w = (w', r) →
    (∀ t', members t' w' = members t' w) ∧ listening w' = listening w ∧
    (incoming w' = incoming w ∧ (∃ e, r = Some e) ∨
     incoming w' = incoming w ++ (if decide (t ∈ listening w) then [(t, p)] else []));
  Receive_incoming w :
    match rp_Receive w with
    | inl (w', m) => incoming w = m :: incoming w' ∧ listening w' = listening w ∧ (∀ t, members t w' = members t w)
    | inr _ => True
    end;
}.

(** The server answers every command. *)
Class RedisUp `{RL : RedisSetsLaws} := {
  SAdd_up t c w : ∃ w' n, rp_SAdd t c w = (w', inl n);
  SRem_up t c w : ∃ w', rp_SRem t c w = (w', None);
  Exists_up t w : ∃ n, rp_Exists t w = inl n;
  Subscribe_up ts w : ∃ w', rp_Subscribe ts w = (w', None);
  Unsubscribe_up t w : ∃ w', rp_Unsubscribe t w = (w', None);
}.

(** ** Programs of atomic commands *)

Section Prog.
Context {W : Type}.

Inductive prog :=
  | Ret (r : option error)
  | Do {B : Type} (c : W → W * B) (k : B → prog).

Fixpoint run (p : prog) (w : W) : W * option error :=
  match p with
  | Ret r => (w, r)
  | Do c k => let '(w, b) := c w in run (k b) w
  end.

Definition pstep (p : prog) (w : W) : option (prog * W) :=
  match p with
  | Ret _ => None
  | Do c k => let '(w, b) := c w in Some (k b, w)
  end.

(** Some call of several does its next command. *)
Definition pool_step (x y : list prog * W) : Prop :=
  ∃ i p p', x.1 !! i = Some p ∧ pstep p x.2 = Some (p', y.2) ∧ y.1 = <[i := p']> x.1.

Lemma pool_do i ps {B} (c : W → W * B) k w w' b :
  ps !! i = Some (Do c k) → c w = (w', b) → pool_step (ps, w) (<[i := k b]> ps, w').
Proof. intros Hi Hc. exists i, (Do c k), (k b). simpl. by rewrite Hc. Qed.
End Prog.
Arguments prog W : clear implicits.

Section Driver.
Context `{RP : RedisSets}.

(** The reading goroutine waits for a message or for [exit], holds a message it
    could not hand on, or has returned. *)
Inductive reader := Idle | Sending (m : Message) | Gone.

Record driver := MkDriver {
  cfg : Config; universalClient : world; out : list Message; rd : reader; stopped : bool }.

Definition with_world w (d : driver) : driver := MkDriver (cfg d) w (out d) (rd d) (stopped d).
Definition with_out l (d : driver) : driver := MkDriver (cfg d) (universalClient d) l (rd d) (stopped d).
Definition with_reader r (d : driver) : driver := MkDriver (cfg d) (universalClient d) (out d) r (stopped d).

Definition newRedisChannel (c : Config) (w : world) : driver := MkDriver c w [] Idle false.

Definition NewPubSubDriver (unmarshal : string → res (option Config)) (key : string) : res driver :=
  let op := "new_pub_sub_driver" in
  match unmarshal key with
  | Err e => Err (EOp op e)
  | Panic => Panic
  | Ok None => Err (no_config op key)
  | Ok (Some c) =>
      let c := InitDefaults c in
      let w := rp_NewClient (RedisKv.options c) in
      match rp_Ping w with
      | Some e => Err e
      | None => Ok (newRedisChannel c w)
      end
  end.

Definition Publish (m : Message) (d : driver) : driver * option error :=
  let '(w, e) := rp_Publish (Topic m) (Payload m) (universalClient d) in (with_world w d, e).

(** The body of the goroutine; its error is logged. *)
Definition PublishAsync (m : Message) (d : driver) : driver := (Publish m d).1.

Definition sub (topics : list string) : prog world :=
  Do (rp_Subscribe topics) (λ e, Ret (EOp "redis_sub" <$> e)).

Definition unsub (topic : string) (k : prog world) : prog world :=
  Do (rp_Unsubscribe topic) (λ e, match e with Some e => Ret (Some (EOp "redis_unsub" e)) | None => k end).

(** An answer of zero is logged only. *)
Fixpoint add_all (connectionID : string) (topics : list string) (k : prog world) : prog world :=
  match topics with
  | [] => k
  | t :: ts => Do (rp_SAdd t connectionID)
      (λ r, match r with inr e => Ret (Some e) | inl _ => add_all connectionID ts k end)
  end.

Definition Subscribe (connectionID : string) (topics : list string) : prog world :=
  add_all connectionID topics (sub topics).

Fixpoint remove_all (connectionID : string) (topics : list string) (k : prog world) : prog world :=
  match topics with
  | [] => k
  | t :: ts => Do (rp_SRem t connectionID)
      (λ e, match e with Some e => Ret (Some e) | None => remove_all connectionID ts k end)
  end.

Fixpoint leave_all (topics : list string) : prog world :=
  match topics with
  | [] => Ret None
  | t :: ts => Do (λ w, (w, rp_Exists t w))
      (λ r, match r with
            | inr e => Ret (Some e)
            | inl n => if n =? 1 then leave_all ts else unsub t (leave_all ts)
            end)
  end.

Definition Unsubscribe (connectionID : string) (topics : list string) : prog world :=
  remove_all connectionID topics (leave_all topics).

(** An error panics; [res] is the caller's map. *)
Definition Connections (topic : string) (res : gset string) (d : driver) : option (gset string) :=
  match rp_SMembers topic (universalClient d) with
  | inr _ => None
  | inl r => Some (res ∪ r)
  end.

Definition out_cap : nat := 100.

(** One turn of the reading goroutine. *)
Definition read (d : driver) : option driver :=
  match rd d with
  | Gone => None
  | Idle =>
      match rp_Receive (universalClient d) with
      | inr true => None
      | inr false => Some (with_reader Gone d)
      | inl (w, (t, p)) => Some (with_reader (Sending (MkMessage t p)) (with_world w d))
      end
  | Sending m =>
      if (length (out d) <? out_cap)%nat then Some (with_reader Idle (with_out (out d ++ [m]) d)) else None
  end.

(** [done]: the context is done and its branch is taken.  [None]: the call
    waits. *)
Definition Next (done : bool) (d : driver) : option (driver * res (option Message)) :=
  match out d, done with
  | _, true => Some (d, Err (EOp "redis_driver_next" (EKind TimeOut)))
  | m :: l, false => Some (with_out l d, Ok (Some m))
  | [], false => if stopped d then Some (d, Ok None) else None
  end.

(** The send on [exit] is taken by an idle reader; a second stop sends on a
    closed channel.  [None]: the call waits. *)
Definition Stop (d : driver) : option (res driver) :=
  if stopped d then Some Panic else
  match rd d with
  | Idle => Some (Ok (MkDriver (cfg d) (rp_Close (universalClient d)) (out d) Gone true))
  | _ => None
  end.

(** The goroutine that [stop] starts ranges over a channel that is never made,
    and waits for ever; it is not part of the state. *)
End Driver.

(** ** Subscriptions *)

Section Subscriptions.
Context `{RL : RedisSetsLaws}.

Lemma run_add_all c ts k w :
  ∃ w', listening w' = listening w ∧ incoming w' = incoming w ∧
    (∀ t, members t w ⊆ members t w' ∧ members t w' ⊆ members t w ∪ (if decide (t ∈ ts) then {[c]} else ∅)) ∧
    ((∃ e, run (add_all c ts k) w = (w', Some e)) ∨
     run (add_all c ts k) w = run k w' ∧ ∀ t, t ∈ ts → c ∈ members t w').
Proof.
  revert w. induction ts as [|t ts IH]; intros w; cbn [add_all run].
  { exists w. split_and!; [done..| |right; split; [done|set_solver]]. intros t. set_solver. }
  destruct (rp_SAdd t c w) as [w1 r] eqn:E.
  assert (Hm : ∀ t', members t' w ⊆ members t' w1 ∧ members t' w1 ⊆ members t' w ∪ (if decide (t' ∈ t :: ts) then {[c]} else ∅)).
  { intros t'. destruct (SAdd_members t c t' w w1 r E) as (_ & _ & [[-> _]| ->]); [set_solver|].
    case_decide; [subst; rewrite decide_True by set_solver|]; set_solver. }
  destruct (SAdd_members t c t w w1 r E) as (Hl & Hi & Hc).
  destruct r as [n|e].
  - destruct (IH w1) as (w2 & Hl2 & Hi2 & Hm2 & Hr). exists w2. split_and!; [congruence|congruence| |].
    + intros t'. destruct (Hm t') as [G1 G2], (Hm2 t') as [G3 G4]. split; [set_solver|].
      destruct (decide (t' ∈ ts)) as [Hin|]; [rewrite decide_True in G2 |- * by set_solver; set_solver|set_solver].
    + destruct Hr as [Hr|[Hr Hin]]; [by left|]. right. split; [done|]. intros t' [->|Ht]%elem_of_cons; [|by apply Hin].
      destruct Hc as [[_ [? ?]]|Hc]; [done|]. rewrite decide_True in Hc by done. destruct (Hm2 t). set_solver.
  - exists w1. split_and!; [done|done|done|]. left. by exists e.
Qed.

Lemma run_remove_all c ts k w :
  ∃ w', listening w' = listening w ∧ incoming w' = incoming w ∧
    (∀ t, members t w' ⊆ members t w ∧ members t w ∖ {[c]} ⊆ members t w') ∧
    ((∃ e, run (remove_all c ts k) w = (w', Some e)) ∨
     run (remove_all c ts k) w = run k w' ∧ ∀ t, t ∈ ts → c ∉ members t w').
Proof.
  revert w. induction ts as [|t ts IH]; intros w; cbn [remove_all run].
  { exists w. split_and!; [done..| |right; split; [done|set_solver]]. set_solver. }
  destruct (rp_SRem t c w) as [w1 r] eqn:E.
  assert (Hm : ∀ t', members t' w1 ⊆ members t' w ∧ members t' w ∖ {[c]} ⊆ members t' w1).
  { intros t'. destruct (SRem_members t c t' w w1 r E) as (_ & _ & [[-> _]| ->]); [set_solver|].
    case_decide; set_solver. }
  destruct (SRem_members t c t w w1 r E) as (Hl & Hi & Hc).
  destruct r as [e|].
  - exists w1. split_and!; [done|done|done|]. left. by exists e.
  - destruct (IH w1) as (w2 & Hl2 & Hi2 & Hm2 & Hr). exists w2. split_and!; [congruence|congruence| |].
    + intros t'. destruct (Hm t'), (Hm2 t'). split; set_solver.
    + destruct Hr as [Hr|[Hr Hin]]; [by left|]. right. split; [done|]. intros t' [->|Ht]%elem_of_cons; [|by apply Hin].
      destruct Hc as [[_ [? ?]]|Hc]; [done|]. rewrite decide_True in Hc by done. destruct (Hm2 t). set_solver.
Qed.

Lemma run_leave_all ts w w' r :
  run (leave_all ts) w = (w', r) →
  (∀ t, members t w' = members t w) ∧ incoming w' = incoming w ∧ listening w' ⊆ listening w ∧
  (∀ t, t ∈ listening w → members t w ≠ ∅ → t ∈ listening w').
Proof.
  revert w. induction ts as [|t ts IH]; intros w; cbn [leave_all run].
  { intros [= <- <-]. set_solver. }
  destruct (rp_Exists t w) as [n|e] eqn:E; [|intros [= <- <-]; set_solver].
  apply Exists_members in E. destruct (Z.eqb_spec n 1); [apply IH|]. cbn [unsub run].
  assert (He : members t w = ∅) by (case_decide; [done|congruence]).
  destruct (rp_Unsubscribe t w) as [w1 [e|]] eqn:Eu; apply Unsubscribe_listening in Eu as (Hm & Hi & Hl).
  - intros [= <- <-]. split_and!; [done|done| |].
    + destruct Hl as [[-> _]| ->]; set_solver.
    + intros t' Ht Hne. destruct Hl as [[-> _]| ->]; set_solver.
  - intros Hr. destruct (IH w1 Hr) as (G1 & G2 & G3 & G4). split_and!; [intros; by rewrite G1|congruence| |].
    + destruct Hl as [[Hl _]|Hl]; set_solver.
    + intros t' Ht Hne. apply G4; [|by rewrite Hm]. destruct Hl as [[-> _]| ->]; set_solver.
Qed.

(** Calls that do not overlap: those of this server, whose connections are
    [local], and commands of other servers on theirs. *)
Variable local : string → Prop.

Inductive call_step : world → world → Prop :=
  | CallSubscribe c ts w w' : run (Subscribe c ts) w = (w', None) → call_step w w'
  | CallUnsubscribe c ts w w' r : run (Unsubscribe c ts) w = (w', r) → call_step w w'
  | CallPublish t p w w' r : rp_Publish t p w = (w', r) → call_step w w'
  | CallRemoteAdd c t w w' r : ¬ local c → rp_SAdd t c w = (w', r) → call_step w w'
  | CallRemoteRem c t w w' r : ¬ local c → rp_SRem t c w = (w', r) → call_step w w'.

Definition heard (w : world) : Prop := ∀ t c, local c → c ∈ members t w → t ∈ listening w.

Lemma Subscribe_ok c ts w w' :
  run (Subscribe c ts) w = (w', None) →
  listening w' = listening w ∪ list_to_set ts ∧
  ∀ t, members t w ⊆ members t w' ∧ members t w' ⊆ members t w ∪ (if decide (t ∈ ts) then {[c]} else ∅) ∧
       (t ∈ ts → c ∈ members t w').
Proof.
  intros Hr. unfold Subscribe in Hr. destruct (run_add_all c ts (sub ts) w) as (w1 & Hl & _ & Hm & [[e He]|[He Hin]]); [congruence|].
  rewrite He in Hr. unfold sub in Hr. cbn [run] in Hr. destruct (rp_Subscribe ts w1) as [w2 [e|]] eqn:E; [done|].
  injection Hr as <-. apply Subscribe_listening in E as (Hm2 & _ & _ & Hl2).
  split; [rewrite Hl2 by done; congruence|]. intros t. rewrite Hm2. destruct (Hm t). split_and!; [done|done|]. apply Hin.
Qed.

Lemma call_step_heard w w' : call_step w w' → heard w → heard w'.
Proof.
  intros Hs Hh t c' Hc Hin.
  destruct Hs as [c ts w w' Hr|c ts w w' r Hr|t0 p w w' r Hr|c t0 w w' r Hn Hr|c t0 w w' r Hn Hr].
  - destruct (Subscribe_ok c ts w w' Hr) as (Hl & Hm). destruct (Hm t) as (_ & G2 & _). rewrite Hl.
    destruct (decide (t ∈ ts)) as [Ht|Ht]; [set_solver|]. apply elem_of_union_l, (Hh t c' Hc). set_solver.
  - unfold Unsubscribe in Hr.
    destruct (run_remove_all c ts (leave_all ts) w) as (w1 & Hl & _ & Hm & He). destruct (Hm t) as [G1 _].
    destruct He as [[e He]|[He _]]; rewrite He in Hr.
    + injection Hr as <- <-. rewrite Hl. apply (Hh t c' Hc). set_solver.
    + apply run_leave_all in Hr as (G2 & _ & _ & G4). rewrite G2 in Hin. apply G4; [|set_solver].
      rewrite Hl. apply (Hh t c' Hc). set_solver.
  - apply Publish_incoming in Hr as (Hm & Hl & _). rewrite Hl. rewrite Hm in Hin. by apply (Hh t c').
  - destruct (SAdd_members t0 c t w w' r Hr) as (Hl & _ & Hm). rewrite Hl. apply (Hh t c' Hc).
    destruct Hm as [[Hm _]|Hm]; rewrite Hm in Hin; [done|]. case_decide; [|done].
    apply elem_of_union in Hin as [->%elem_of_singleton|?]; done.
  - destruct (SRem_members t0 c t w w' r Hr) as (Hl & _ & Hm). rewrite Hl. apply (Hh t c' Hc).
    destruct Hm as [[Hm _]|Hm]; rewrite Hm in Hin; [done|]. case_decide; [set_solver|done].
Qed.

(** C19: as long as calls do not overlap and subscriptions succeed, every message
    to a topic that a connection of this server is subscribed to reaches the
    server, whatever other servers do: a successful [Publish] puts it behind
    the messages received before. *)
Theorem redis_members_hear w0 d d' c m :
  heard w0 → rtc call_step w0 (universalClient d) → local c → c ∈ members (Topic m) (universalClient d) →
  Publish m d = (d', None) →
  incoming (universalClient d') = incoming (universalClient d) ++ [(Topic m, Payload m)].
Proof.
  intros H0 Hs Hc Hin Hp.
  assert (Hh : heard (universalClient d)) by (induction Hs; eauto using call_step_heard).
  unfold Publish in Hp. destruct (rp_Publish _ _ _) as [w1 r] eqn:E. injection Hp as <- ->.
  apply Publish_incoming in E as (_ & _ & [[_ [? ?]]|Hi]); [done|].
  rewrite decide_True in Hi by (by apply (Hh _ c)). exact Hi.
Qed.
End Subscriptions.

Section Race.
Context `{UP : RedisUp}.

(** Two calls of this server that overlap: while [c1], the last connection of
    a topic, leaves it, [c2] subscribes between the question whether the topic
    is still used and the answer to it.  Both calls succeed and [c2] never
    hears of the topic. *)
Theorem redis_unsubscribe_race c1 c2 t w :
  c1 ≠ c2 → members t w = {[c1]} →
  ∃ w', rtc pool_step ([Unsubscribe c1 [t]; Subscribe c2 [t]], w) ([Ret None; Ret None], w') ∧
    c2 ∈ members t w' ∧ t ∉ listening w'.
Proof.
  intros Hne Hm.
  destruct (SRem_up t c1 w) as [w1 E1]. destruct (SRem_members t c1 t w w1 None E1) as (_ & _ & M1).
  assert (Hm1 : members t w1 = ∅).
  { destruct M1 as [[_ [? ?]]|M1]; [done|]. rewrite decide_True, Hm in M1 by done. set_solver. }
  destruct (Exists_up t w1) as [n E2]. pose proof (Exists_members t w1 n E2) as Hn. rewrite decide_True in Hn by done. subst n.
  destruct (SAdd_up t c2 w1) as (w2 & n2 & E3). destruct (SAdd_members t c2 t w1 w2 (inl n2) E3) as (_ & _ & M2).
  assert (Hm2 : members t w2 = {[c2]}).
  { destruct M2 as [[_ [? ?]]|M2]; [done|]. rewrite decide_True, Hm1 in M2 by done. set_solver. }
  destruct (Subscribe_up [t] w2) as [w3 E4]. pose proof (Subscribe_listening [t] w2 w3 None E4) as (M3 & _).
  destruct (Unsubscribe_up t w3) as [w4 E5]. pose proof (Unsubscribe_listening t w3 w4 None E5) as (M4 & _ & L4).
  exists w4. split.
  - eapply rtc_l; [eapply (pool_do 0); [reflexivity|exact E1]|].
    eapply rtc_l; [eapply (pool_do 0); [reflexivity|cbv beta; rewrite E2; reflexivity]|].
    eapply rtc_l; [eapply (pool_do 1); [reflexivity|exact E3]|].
    eapply rtc_l; [eapply (pool_do 1); [reflexivity|exact E4]|].
    eapply rtc_l; [eapply (pool_do 0); [reflexivity|exact E5]|]. apply rtc_refl.
  - split; [rewrite M4, M3, Hm2; set_solver|]. destruct L4 as [[_ [? ?]]|L4]; [done|]. set_solver.
Qed.
End Race.

(** ** The way of a message *)

Section Delivery.
Context `{RL : RedisSetsLaws}.

Definition message_of (x : string * bytes) : Message := MkMessage x.1 x.2.
Definition holding (d : driver) : list Message := match rd d with Sending m => [m] | _ => [] end.

(** What is still on its way to a caller of [Next], in order. *)
Definition on_the_way (d : driver) : list Message :=
  out d ++ holding d ++ (message_of <$> incoming (universalClient d)).

(** Steps of the driver, with the messages [Next] has handed out and those
    that arrived for this server: the commands of this and of other servers
    only append to what the client received. *)
Inductive dstep : driver * list Message * list Message → driver * list Message * list Message → Prop :=
  | StepWorld d w got sent new :
      incoming w = incoming (universalClient d) ++ new →
      dstep (d, got, sent) (with_world w d, got, sent ++ (message_of <$> new))
  | StepRead d d' got sent : read d = Some d' → dstep (d, got, sent) (d', got, sent)
  | StepNext d d' m got sent : Next false d = Some (d', Ok (Some m)) → dstep (d, got, sent) (d', got ++ [m], sent)
  | StepNextNone done d d' r got sent : Next done d = Some (d', r) → (∀ m, r ≠ Ok (Some m)) →
      dstep (d, got, sent) (d', got, sent).

Lemma read_way d d' : read d = Some d' → on_the_way d' = on_the_way d.
Proof.
  unfold read, on_the_way, holding. destruct (rd d) as [|m|] eqn:Er; [| |done].
  - pose proof (Receive_incoming (universalClient d)) as Hi.
    destruct (rp_Receive (universalClient d)) as [[w [t p]]|[]]; intros Hr; simplify_eq/=; [|done].
    destruct Hi as (-> & _). done.
  - case_match; intros Hr; simplify_eq/=. by rewrite <- (assoc_L (++)).
Qed.

Lemma dstep_way x y : dstep x y → x.2 = x.1.2 ++ on_the_way x.1.1 → y.2 = y.1.2 ++ on_the_way y.1.1.
Proof.
  intros Hs. destruct Hs as [d w got sent new Hi|d d' got sent Hr|d d' m got sent Hn|done d d' r got sent Hn Hr];
    simpl; intros ->.
  - unfold on_the_way, holding. simpl. rewrite Hi, fmap_app. by rewrite <- !(assoc_L (++)).
  - by rewrite (read_way d d' Hr).
  - unfold Next in Hn. destruct (out d) as [|m' l] eqn:Eo; [by destruct (stopped d)|]. simplify_eq.
    unfold on_the_way, holding. simpl. rewrite Eo. by rewrite <- !(assoc_L (++)).
  - unfold Next in Hn. destruct (out d) as [|m' l] eqn:Eo, done; simplify_eq; try done; [|by destruct (Hr m')].
    destruct (stopped d); by simplify_eq.
Qed.

(** [Next] hands out the messages that arrived for the server in the order of
    their arrival, none of them twice, and every other one is still on its
    way: received by the client, held by the reader or in the channel. *)
Theorem redis_pubsub_fifo c w d got sent :
  incoming w = [] → rtc dstep (newRedisChannel c w, [], []) (d, got, sent) →
  sent = got ++ out d ++ holding d ++ (message_of <$> incoming (universalClient d)).
Proof.
  intros Hw Hs. change (sent = got ++ on_the_way d).
  assert (G : ∀ x y, rtc dstep x y → x.2 = x.1.2 ++ on_the_way x.1.1 → y.2 = y.1.2 ++ on_the_way y.1.1)
    by (induction 1; eauto using dstep_way).
  apply (G _ _ Hs). unfold on_the_way, holding. simpl. by rewrite Hw.
Qed.

(** A stop needs the reader: with a full channel and one more message it waits
    until a caller takes a message. *)
Lemma redis_stop_waits d m :
  rd d = Sending m → length (out d) = out_cap → stopped d = false →
  Stop d = None ∧ read d = None ∧
  ∃ d1 d2 m', Next false d = Some (d1, Ok (Some m')) ∧ read d1 = Some d2 ∧ is_Some (Stop d2).
Proof.
  intros Hr Hl Hs. unfold Stop, read, Next. rewrite Hs, Hr. split; [done|].
  destruct (out d) as [|m' l] eqn:Eo; [done|]. rewrite Hl. split; [done|].
  eexists _, _, m'. split; [done|]. simpl. rewrite Hr. simpl in Hl. injection Hl as ->. simpl. split; [done|].
  simpl. rewrite Hs. by eexists.
Qed.
End Delivery.

(** ** A server that keeps sets in maps *)

Section examples.
Record mworld := MkWorld { mw_sets : gmap string (gset string); mw_topics : gset string; mw_in : list (string * bytes) }.
Definition set_of (t : string) (w : mworld) : gset string := default ∅ (mw_sets w !! t).

Definition map_sets : RedisSets := {|
  world := mworld;
  rp_NewClient _ := MkWorld ∅ ∅ [];
  rp_Ping _ := None;
  rp_SAdd t c w := (MkWorld (<[t := {[c]} ∪ set_of t w]> (mw_sets w)) (mw_topics w) (mw_in w), inl 1);
  rp_SRem t c w := (MkWorld (<[t := set_of t w ∖ {[c]}]> (mw_sets w)) (mw_topics w) (mw_in w), None);
  rp_Exists t w := inl (if decide (set_of t w = ∅) then 0 else 1);
  rp_SMembers t w := inl (set_of t w);
  rp_Subscribe ts w := (MkWorld (mw_sets w) (mw_topics w ∪ list_to_set ts) (mw_in w), None);
  rp_Unsubscribe t w := (MkWorld (mw_sets w) (mw_topics w ∖ {[t]}) (mw_in w), None);
  rp_Publish t p w := (MkWorld (mw_sets w) (mw_topics w)
    (mw_in w ++ if decide (t ∈ mw_topics w) then [(t, p)] else []), None);
  rp_Receive w := match mw_in w with [] => inr true | m :: l => inl (MkWorld (mw_sets w) (mw_topics w) l, m) end;
  rp_Close w := w |}.

Local Existing Instance map_sets.

Lemma set_of_insert t s t' m q l : set_of t' (MkWorld (<[t := s]> m) q l) = if decide (t = t') then s else default ∅ (m !! t').
Proof. unfold set_of. simpl. rewrite lookup_insert. by case_decide. Qed.

Definition map_sets_laws : RedisSetsLaws.
Proof.
  refine {| members := set_of : string → world → gset string; listening := mw_topics; incoming := mw_in |}.
  - intros t c t' w w' r [= <- <-]. split_and!; [done|done|]. right. rewrite set_of_insert.
    case_decide; [by subst|done].
  - intros t c t' w w' r [= <- <-]. split_and!; [done|done|]. right. rewrite set_of_insert.
    case_decide; [by subst|done].
  - by intros t w n [= <-].
  - by intros t w s [= <-].
  - intros ts w w' r [= <- <-]. split_and!; [done|done|set_solver|done].
  - intros t w w' r [= <- <-]. split_and!; [done|done|]. by right.
  - intros t p w w' r [= <- <-]. split_and!; [done|done|]. by right.
  - intros w. simpl. destruct (mw_in w) as [|m l] eqn:E; [done|]. done.
Defined.

Definition map_sets_up : @RedisUp _ map_sets_laws.
Proof. constructor; intros; repeat eexists. Defined.

Definition w_world : mworld := MkWorld ∅ ∅ [].
Definition w_conf : Config := RedisKv.MkConfig None 0 "" "" "" "" false false 0 0 0 0 0 0 0 0 0 0 0 0 false.
Definition w_heard : driver := newRedisChannel w_conf (run (Subscribe "c" ["news"]) (w_world : world)).1.

Definition w_start : driver := newRedisChannel w_conf (w_world : world).
Definition w_got : list Message := [MkMessage "news" "a"].
Definition w_sent : list Message := [MkMessage "news" "a"; MkMessage "news" "b"].

Lemma redis_members_hear_witness :
  mw_in (universalClient (Publish (MkMessage "news" "hello") w_heard).1) = [("news", "hello")].
Proof.
  apply (redis_members_hear (RL := map_sets_laws) (λ _, True) w_world w_heard
    (Publish (MkMessage "news" "hello") w_heard).1 "c" (MkMessage "news" "hello")).
  - intros t c _. unfold members. simpl. unfold set_of. simpl. set_solver.
  - apply rtc_once. by apply (CallSubscribe _ "c" ["news"]).
  - done.
  - vm_compute. reflexivity.
  - reflexivity.
Defined.

Lemma redis_unsubscribe_race_witness :
  let w : mworld := MkWorld {[ "news" := {["c1"]} ]} {["news"]} [] in
  ∃ w' : mworld, rtc pool_step ([Unsubscribe "c1" ["news"]; Subscribe "c2" ["news"]], w) ([Ret None; Ret None], w') ∧
    "c2" ∈ set_of "news" w' ∧ "news" ∉ mw_topics w'.
Proof.
  intros w. apply (redis_unsubscribe_race (UP := map_sets_up) "c1" "c2" "news" w); [done|reflexivity].
Defined.

Definition w_last : driver :=
  MkDriver w_conf (MkWorld ∅ ∅ [("news", "b")] : world) [] Idle false.

Lemma redis_pubsub_fifo_witness :
  w_sent = w_got ++ out w_last ++ holding w_last ++ [MkMessage "news" "b"].
Proof.
  apply (redis_pubsub_fifo (RL := map_sets_laws) w_conf w_world w_last w_got w_sent); [done|].
  pose (d1 := with_world (MkWorld ∅ ∅ [("news", "a"); ("news", "b")] : world) w_start).
  pose (d2 := default d1 (read d1)). pose (d3 := default d2 (read d2)).
  eapply rtc_l; [by apply (StepWorld w_start (universalClient d1) [] [] [("news", "a"); ("news", "b")])|].
  eapply rtc_l; [by apply (StepRead d1 d2)|]. eapply rtc_l; [by apply (StepRead d2 d3)|].
  apply rtc_once. by apply (StepNext d3 w_last (MkMessage "news" "a") []).
Defined.
End examples.
End RedisPubSub.
