(* ===== verification/PubSubDrivers.v ===== *)
(** * Pub/sub drivers behind the broadcast plugin

    The constructors of the memory and the redis plugin ([PubSubFromConfig]), the
    drivers they build, and the broadcast plugin ([PubSub.Broadcast]) over all of
    them.  Redis drivers share servers with each other and with the rest of the
    world: between the calls of a driver, its server may have done anything. *)

From stdpp Require Import base gmap strings list relations.
From Stdlib Require Import ZArith Lia.
From S2P Require Import Prelude GoStrings KvRemote PubSub PubSubRedis.

Module PubSubDrivers.
Import MemPubSub(Message, MkMessage, Topic, Payload, Bst, BstLaws).
Import Broadcast.

Section drivers.
Context `{BS : Bst} `{RP : RedisPubSub.RedisSets} `{GR : GoRange}.

Inductive driver := Mem (d : MemPubSub.driver) | Red (d : RedisPubSub.driver).

(** The drivers that were built, under numbers; a driver is known by its number. *)
Record world := MkWorld { next_id : nat; drivers : gmap nat driver }.

Definition with_driver (h : nat) (d : driver) (w : world) : world := MkWorld (next_id w) (<[h := d]> (drivers w)).

Definition build (d : driver) (w : world) : (nat + error) * world :=
  (inl (next_id w), MkWorld (S (next_id w)) (<[next_id w := d]> (drivers w))).

(** [PubSubFromConfig] of the memory plugin and of the redis plugin; [section] is
    what the configuration holds under a key, which is read without a panic. *)
Definition memory_PubSubFromConfig (key : string) (w : world) : (nat + error) * world :=
  build (Mem MemPubSub.NewPubSubDriver) w.
Definition redis_PubSubFromConfig (section : string → option RedisPubSub.Config + error) (key : string) (w : world)
    : (nat + error) * world :=
  match RedisPubSub.NewPubSubDriver (λ k, match section k with inl c => Ok c | inr e => Err e end) key with
  | Ok d => build (Red d) w
  | Err e => (inr (EOp "pub_sub_from_config" e), w)
  | Panic => (inr (EOp "pub_sub_from_config" (EStr "")), w)
  end.

#[export] Instance drivers_pubsub : PubSub world nat := {
  ps_Publish h m w :=
    match drivers w !! h with
    | Some (Mem d) => d ← MemPubSub.Publish m d; Some (with_driver h (Mem d) w, None)
    | Some (Red d) => let '(d, e) := RedisPubSub.Publish m d in Some (with_driver h (Red d) w, e)
    | None => None
    end;
  ps_Stop h w :=
    match drivers w !! h with
    | Some (Red d) => r ← RedisPubSub.Stop d;
                      Some (match r with Ok d => Ok (with_driver h (Red d) w) | Err e => Err e | Panic => Panic end)
    | _ => Some (Ok w)
    end }.

(** The plugin as the container starts it: the configuration is read and the two
    plugins are collected. *)
Definition collected (data : gmap string section) (section : string → option RedisPubSub.Config + error)
    : Plugin (W := world) (H := nat) :=
  CollectPublishers "redis" (redis_PubSubFromConfig section)
    (CollectPublishers "memory" memory_PubSubFromConfig (MkPlugin data ∅ ∅)).

(** What the clients of a driver and its goroutines do with it. *)
Inductive driver_step : driver → driver → Prop :=
  | MemSubscribe c ts d : driver_step (Mem d) (Mem (MemPubSub.Subscribe c ts d))
  | MemUnsubscribe c ts d : driver_step (Mem d) (Mem (MemPubSub.Unsubscribe c ts d))
  | MemNext b d d' r : MemPubSub.Next b d = Some (d', r) → driver_step (Mem d) (Mem d')
  | RedSubscribe c ts d : driver_step (Red d)
      (Red (RedisPubSub.with_world (RedisPubSub.run (RedisPubSub.Subscribe c ts) (RedisPubSub.universalClient d)).1 d))
  | RedUnsubscribe c ts d : driver_step (Red d)
      (Red (RedisPubSub.with_world (RedisPubSub.run (RedisPubSub.Unsubscribe c ts) (RedisPubSub.universalClient d)).1 d))
  | RedRead d d' : RedisPubSub.read d = Some d' → driver_step (Red d) (Red d')
  | RedNext b d d' r : RedisPubSub.Next b d = Some (d', r) → driver_step (Red d) (Red d')
  (* other drivers and other servers use the server of this one *)
  | RedServer x d : driver_step (Red d) (Red (RedisPubSub.with_world x d)).

(** [has] may differ from call to call. *)
Inductive event := EGet (key : string) | EPublish | EAsync | EDriver (h : nat).

Inductive step : event → Plugin (W := world) (H := nat) * world → Plugin (W := world) (H := nat) * world → Prop :=
  | SGet has key p w p' w' r : GetDriver has key p w = (p', w', r) → step (EGet key) (p, w) (p', w')
  | SPublish req p w w' ok e : rpc_Publish req p w = Some (w', ok, e) → step EPublish (p, w) (p, w')
  | SAsync m p w w' : publish_async m p w = Some w' → step EAsync (p, w) (p, w')
  | SDriver h d d' p w : drivers w !! h = Some d → driver_step d d' → step (EDriver h) (p, w) (p, with_driver h d' w).

Definition any (x y : Plugin (W := world) (H := nat) * world) : Prop := ∃ e, step e x y.
(** Every step except a request for the driver of [key]. *)
Definition other (key : string) (x y : Plugin (W := world) (H := nat) * world) : Prop := ∃ e, e ≠ EGet key ∧ step e x y.

(** *** Drivers are never shared *)

Definition bounded (w : world) : Prop := ∀ h, is_Some (drivers w !! h) → (h < next_id w)%nat.

(** The drivers are the same, each of its kind. *)
Definition is_mem (d : driver) : bool := match d with Mem _ => true | Red _ => false end.
Definition kinds (w : world) : gmap nat bool := is_mem <$> drivers w.
Definition same_ids (w w' : world) : Prop := next_id w' = next_id w ∧ kinds w' = kinds w.

#[export] Instance same_ids_preorder : PreOrder same_ids.
Proof. split; [by split|]. intros x y z [H1 H2] [H3 H4]. split; congruence. Qed.

Lemma kinds_known w h : is_Some (drivers w !! h) ↔ is_Some (kinds w !! h).
Proof. unfold kinds. rewrite lookup_fmap. by rewrite fmap_is_Some. Qed.

Lemma with_driver_ids h d d' w : drivers w !! h = Some d → is_mem d' = is_mem d → same_ids w (with_driver h d' w).
Proof.
  intros Hd Hk. split; [done|]. unfold kinds. simpl. rewrite fmap_insert, Hk. apply insert_id. by rewrite lookup_fmap, Hd.
Qed.

Lemma driver_step_kind d d' : driver_step d d' → is_mem d' = is_mem d.
Proof. by destruct 1. Qed.

Lemma ps_Publish_ids h m w w' e : ps_Publish h m w = Some (w', e) → same_ids w w'.
Proof.
  simpl. destruct (drivers w !! h) as [[d|d]|] eqn:Ed; [| |done].
  - destruct (MemPubSub.Publish m d); [|done]. intros [= <- _]. by eapply with_driver_ids.
  - destruct (RedisPubSub.Publish m d) as [d' e']. intros [= <- _]. by eapply with_driver_ids.
Qed.

Lemma publish_loop_ids hs m w w' e : publish_loop hs m w = Some (w', e) → same_ids w w'.
Proof.
  revert w. induction hs as [|[k h] hs IH]; intros w; cbn [publish_loop]; [by intros [= <- _]|].
  destruct (ps_Publish h m w) as [[w1 [e1|]]|] eqn:E; cbn; [| |done]; apply ps_Publish_ids in E.
  - by intros [= <- _].
  - intros Hl%IH. by etrans.
Qed.
Lemma Publish_ids m p w w' e : Publish m p w = Some (w', e) → same_ids w w'.
Proof. unfold Publish. destruct (_ <? _)%nat; [apply publish_loop_ids|by intros [= <- _]]. Qed.
Lemma async_ids m p w w' : publish_async m p w = Some w' → same_ids w w'.
Proof.
  unfold publish_async. destruct (_ <? _)%nat; [|by intros [= <-]]. generalize (range_map (publishers p)). intros hs.
  revert w. induction hs as [|[k h] hs IH]; intros w; cbn [async_loop]; [by intros [= <-]|].
  destruct (ps_Publish h m w) as [[w1 e1]|] eqn:E; cbn; [|done]. apply ps_Publish_ids in E. intros Hl%IH. by etrans.
Qed.
Lemma topics_ids payload ts p w w' e : topics_loop payload ts p w = Some (w', e) → same_ids w w'.
Proof.
  revert w. induction ts as [|t ts IH]; intros w; cbn [topics_loop]; [by intros [= <- _]|].
  destruct (String.eqb t ""); [apply IH|]. destruct (Publish _ p w) as [[w1 [e1|]]|] eqn:E; cbn; [| |done]; apply Publish_ids in E.
  - by intros [= <- _].
  - intros Hl%IH. by etrans.
Qed.
Lemma rpc_ids req p w w' ok e : rpc_Publish req p w = Some (w', ok, e) → same_ids w w'.
Proof.
  assert (Hms : ∀ ms w w' e, messages_loop ms p w = Some (w', e) → same_ids w w').
  { intros ms. induction ms as [|m ms IH]; intros x x' e0; cbn [messages_loop]; [by intros [= <- _]|].
    destruct (topics_loop _ _ p x) as [[w1 [e1|]]|] eqn:E; cbn; [| |done]; apply topics_ids in E.
    - by intros [= <- _].
    - intros Hl%IH. by etrans. }
  unfold rpc_Publish. destruct req as [ms|]; [|by intros [= <- _ _]].
  destruct (messages_loop ms p w) as [[w1 [e1|]]|] eqn:E; cbn; [| |done]; apply Hms in E; by intros [= <- _ _].
Qed.

(** The registered drivers exist, and no two keys have the same one. *)
Record inv (cs : gmap string (string → world → (nat + error) * world)) (p : Plugin (W := world) (H := nat)) (w : world) : Prop := MkInv {
  inv_bounded : bounded w;
  inv_known k h : publishers p !! k = Some h → is_Some (drivers w !! h);
  inv_unique k k' h : publishers p !! k = Some h → publishers p !! k' = Some h → k = k';
  inv_constructors : constructors p = cs
}.

Lemma inv_same_ids cs p w w' : same_ids w w' → inv cs p w → inv cs p w'.
Proof.
  intros [Hn Hi] [Hb Hk Hu Hc]. split; [| |done|done].
  - intros h Hh. rewrite Hn. apply Hb, kinds_known. rewrite <- Hi. by apply kinds_known.
  - intros k h Hh. apply kinds_known. rewrite Hi. by eapply kinds_known, Hk.
Qed.

(** A constructor that builds a driver uses a new number. *)
Definition builds (c : string → world → (nat + error) * world) : Prop :=
  ∀ k w, (∃ e, c k w = (inr e, w)) ∨ ∃ d, c k w = build d w.

Lemma memory_builds : builds memory_PubSubFromConfig.
Proof. intros k w. right. by eexists. Qed.
Lemma redis_builds section : builds (redis_PubSubFromConfig section).
Proof.
  intros k w. unfold redis_PubSubFromConfig. destruct (RedisPubSub.NewPubSubDriver _ k); [right|left|left]; by eexists.
Qed.

(** [GetDriver] changes nothing or registers a new driver under its key. *)
Lemma GetDriver_cases has key p w p' w' r :
  map_Forall (λ _ c, builds c) (constructors p) → GetDriver has key p w = (p', w', r) →
  (p' = p ∧ w' = w ∧ ∀ h, r ≠ Ok h) ∨
  ∃ d, r = Ok (next_id w) ∧ w' = (build d w).2 ∧ p' = with_publishers (<[config_key key := next_id w]> (publishers p)) p.
Proof.
  intros Hc. unfold GetDriver. destruct (cfg_Data p !! key) as [[[[drStr|]|]|]|]; try (intros [= <- <- <-]; by left).
  destruct (constructors p !! drStr) as [c|] eqn:Ec; [|intros [= <- <- <-]; by left].
  assert (Hb : ∀ k x, x = match c k w with
    | (inr e, w) => (p, w, Err (EOp "broadcast_plugin_get_driver" e))
    | (inl ps, w) => (with_publishers (<[config_key key := ps]> (publishers p)) p, w, Ok ps) end →
    x = (p', w', r) → (p' = p ∧ w' = w ∧ ∀ h, r ≠ Ok h) ∨
    ∃ d, r = Ok (next_id w) ∧ w' = (build d w).2 ∧ p' = with_publishers (<[config_key key := next_id w]> (publishers p)) p).
  { intros k x -> Hx. destruct (map_Forall_lookup_1 _ _ _ _ Hc Ec k w) as [[e He]|[d Hd]].
    - rewrite He in Hx. injection Hx as <- <- <-. by left.
    - rewrite Hd in Hx. injection Hx as <- <- <-. right. by exists d. }
  destruct (has (config_key key)); [by eapply Hb|]. destruct (has key); [by eapply Hb|]. intros [= <- <- <-]. by left.
Qed.

Lemma drivers_step_inv cs e x y : map_Forall (λ _ c, builds c) cs → step e x y → inv cs x.1 x.2 → inv cs y.1 y.2.
Proof.
  intros Hcs Hs Hi. destruct Hs as [has key p w p' w' r Hg|req p w w' ok e Hp|m p w w' Hp|h d d' p w Hd Hds]; simpl in *.
  - pose proof Hi as [Hb Hk Hu Hc]. destruct (GetDriver_cases _ _ _ _ _ _ _ ltac:(by rewrite Hc) Hg) as [(-> & -> & _)|(d & _ & -> & ->)]; [done|].
    split; simpl; [| | |done].
    + intros h. simpl. destruct (decide (next_id w = h)) as [<-|Hne]; [lia|]. rewrite lookup_insert_ne by done. intros ?%Hb. lia.
    + intros k h [[<- <-]|[Hne Hh]]%lookup_insert_Some; [rewrite lookup_insert_eq; eauto|].
      pose proof (Hk _ _ Hh) as Hx. rewrite lookup_insert_ne; [done|]. intros <-. apply Hb in Hx. lia.
    + intros k k' h [[<- <-]|[Hne Hh]]%lookup_insert_Some [[<- He]|[Hne' Hh']]%lookup_insert_Some; [done| | |by eapply Hu].
      * apply Hk, Hb in Hh'. lia.
      * subst h. apply Hk, Hb in Hh. lia.
  - by eapply inv_same_ids; [eapply rpc_ids|].
  - by eapply inv_same_ids; [eapply async_ids|].
  - by eapply inv_same_ids; [eapply with_driver_ids; [|eapply driver_step_kind]|].
Qed.

Lemma config_key_inj k k' : config_key k = config_key k' → k = k'.
Proof.
  unfold config_key. intros H%(inj (String.append "broadcast.")). apply (f_equal chars) in H. rewrite !chars_app in H.
  by apply chars_inj, (inj (.++ chars ".config")).
Qed.

(** *** Delivery *)

Context {RL : RedisPubSub.RedisSetsLaws}.

(** What waits for [Next] in a memory driver; what a redis driver has been sent by
    its server, which is what it listens to. *)
Definition driver_inbox (d : driver) : list Message :=
  match d with
  | Mem d => MemPubSub.pushCh d
  | Red d => (λ tp, MkMessage tp.1 tp.2) <$> RedisPubSub.incoming (RedisPubSub.universalClient d)
  end.
Definition driver_wants (d : driver) (m : Message) : bool :=
  match d with
  | Mem _ => true
  | Red d => bool_decide (Topic m ∈ RedisPubSub.listening (RedisPubSub.universalClient d))
  end.

#[export] Program Instance drivers_laws : PubSubLaws world nat := {
  inbox h w := default [] (driver_inbox <$> drivers w !! h);
  wants h w := match drivers w !! h with Some d => driver_wants d | None => λ _, false end }.
Next Obligation.
  intros h m w w'. simpl. destruct (drivers w !! h) as [[d|d]|] eqn:Ed; [| |done].
  - unfold MemPubSub.Publish. destruct (_ <? _)%nat; [|done]. intros [= <-]. simpl. by rewrite lookup_insert_eq.
  - unfold RedisPubSub.Publish. destruct (RedisPubSub.rp_Publish _ _ _) as [x e] eqn:E. intros [= <- ->]. simpl.
    rewrite lookup_insert_eq. simpl. apply RedisPubSub.Publish_incoming in E as (_ & _ & [[_ [? ?]]|Hi]); [done|].
    rewrite Hi, fmap_app. f_equal. case_decide as Hd; [rewrite bool_decide_eq_true_2 by done|by rewrite bool_decide_eq_false_2].
    by destruct m.
Qed.
Next Obligation.
  intros h h' m w w' e Hne Hp. simpl in Hp. destruct (drivers w !! h) as [[d|d]|]; [| |done].
  - destruct (MemPubSub.Publish m d); [|done]. injection Hp as <- _. simpl. by rewrite lookup_insert_ne.
  - destruct (RedisPubSub.Publish m d). injection Hp as <- _. simpl. by rewrite lookup_insert_ne.
Qed.
Next Obligation.
  intros h h' m w w' e Hp. simpl in Hp. destruct (drivers w !! h) as [[d|d]|] eqn:Ed; [| |done].
  - destruct (MemPubSub.Publish m d); [|done]. injection Hp as <- _. simpl.
    destruct (decide (h = h')) as [<-|Hne]; [by rewrite lookup_insert_eq, Ed|by rewrite lookup_insert_ne].
  - unfold RedisPubSub.Publish in Hp. destruct (RedisPubSub.rp_Publish _ _ _) as [x e'] eqn:E. injection Hp as <- _. simpl.
    destruct (decide (h = h')) as [<-|Hne]; [|by rewrite lookup_insert_ne]. rewrite lookup_insert_eq, Ed. unfold driver_wants. simpl.
    by apply RedisPubSub.Publish_incoming in E as (_ & -> & _).
Qed.

Lemma inv_distinct cs p w : inv cs p w → distinct (range_map (publishers p)).
Proof.
  intros Hi. unfold distinct. apply NoDup_fmap_2_strong.
  - intros [k h] [k' h'] Hk%elem_of_range_map Hk'%elem_of_range_map. simpl. intros <-. by rewrite (inv_unique _ _ _ Hi _ _ _ Hk Hk').
  - rewrite range_map_perm. apply NoDup_map_to_list.
Qed.

Section plugin.
Variable data : gmap string section.
Variable section : string → option RedisPubSub.Config + error.
Let cs := constructors (collected data section).
Let start := (collected data section, MkWorld 0 ∅).

Lemma collected_builds : map_Forall (λ _ c, builds c) cs.
Proof.
  apply map_Forall_insert_2; [apply redis_builds|]. apply map_Forall_insert_2; [apply memory_builds|apply map_Forall_empty].
Qed.

Lemma drivers_start_inv : inv cs start.1 start.2.
Proof. split; simpl; [|done..|done]. intros h [x Hx]. simpl in Hx. by rewrite lookup_empty in Hx. Qed.

Lemma reach_inv x y : rtc any x y → inv cs x.1 x.2 → inv cs y.1 y.2.
Proof. induction 1 as [|a b c [e He] _ IH]; [done|]. intros Hi. apply IH. eapply drivers_step_inv; [apply collected_builds|done|done]. Qed.

Lemma other_any key x y : rtc (other key) x y → rtc any x y.
Proof. apply rtc_subrel. intros a b (e & _ & He). by exists e. Qed.

(** A driver stays registered while its key is not asked for again. *)
Lemma other_publishers key h x y :
  rtc (other key) x y → inv cs x.1 x.2 → publishers x.1 !! config_key key = Some h → publishers y.1 !! config_key key = Some h.
Proof.
  induction 1 as [|a b c (e & Hne & He) _ IH]; [done|]. intros Hi Hh.
  apply IH; [eapply drivers_step_inv; [apply collected_builds|done|done]|].
  destruct He as [has key' p w p' w' r Hg|req p w w' ok e Hp|m p w w' Hp|h' d d' p w Hd _]; simpl in *; try done.
  destruct (GetDriver_cases _ _ _ _ _ _ _ ltac:(rewrite (inv_constructors _ _ _ Hi); apply collected_builds) Hg)
    as [(-> & _)|(d & _ & _ & ->)]; [done|]. simpl.
  rewrite lookup_insert_ne; [done|]. intros ->%config_key_inj. done.
Qed.

(** A driver that [GetDriver] answers is new and registered under its key. *)
Lemma get_registers has key p w p1 w1 h :
  inv cs p w → GetDriver has key p w = (p1, w1, Ok h) →
  inv cs p1 w1 ∧ publishers p1 !! config_key key = Some h ∧ drivers w !! h = None ∧ h = next_id w ∧
  ∀ k, k ≠ config_key key → publishers p1 !! k = publishers p !! k.
Proof.
  intros Hi Hg. split; [apply (drivers_step_inv cs (EGet key) (p, w) (p1, w1) collected_builds); [by eapply SGet|done]|].
  destruct (GetDriver_cases _ _ _ _ _ _ _ ltac:(rewrite (inv_constructors _ _ _ Hi); apply collected_builds) Hg)
    as [(_ & _ & Hr)|(d & [= ->] & Hw & ->)]; [by destruct (Hr h)|]. split_and!; [apply lookup_insert_eq| |done|].
  - apply eq_None_not_Some. intros Hx%(inv_bounded _ _ _ Hi). lia.
  - intros k Hne. by apply lookup_insert_ne.
Qed.

(** A driver keeps its kind. *)
Lemma reach_kind h b x y :
  rtc any x y → inv cs x.1 x.2 → kinds x.2 !! h = Some b → kinds y.2 !! h = Some b.
Proof.
  induction 1 as [|a c z [e He] _ IH]; [done|]. intros Hi Hb.
  apply IH; [eapply drivers_step_inv; [apply collected_builds|done|done]|].
  destruct He as [has key p w p' w' r Hg|req p w w' ok e Hp|m p w w' Hp|h' d d' p w Hd Hds]; simpl in *.
  - destruct (GetDriver_cases _ _ _ _ _ _ _ ltac:(rewrite (inv_constructors _ _ _ Hi); apply collected_builds) Hg)
      as [(_ & -> & _)|(d & _ & -> & _)]; [done|]. unfold kinds in *. simpl. rewrite fmap_insert, lookup_insert_ne; [done|].
    intros <-. assert (Hx : is_Some (drivers w !! next_id w)) by (apply kinds_known; by eexists).
    apply (inv_bounded _ _ _ Hi) in Hx. lia.
  - by rewrite (proj2 (rpc_ids _ _ _ _ _ _ Hp)).
  - by rewrite (proj2 (async_ids _ _ _ _ Hp)).
  - by rewrite (proj2 (with_driver_ids h' d d' w Hd (driver_step_kind _ _ Hds))).
Qed.

(** Asking for the driver of a memory section answers a memory driver. *)
Lemma get_memory has key p w p1 w1 h :
  inv cs p w → cfg_Data p !! key = Some (SMap (Some (DString "memory"))) →
  GetDriver has key p w = (p1, w1, Ok h) → drivers w1 !! h = Some (Mem MemPubSub.NewPubSubDriver).
Proof.
  intros Hi Hd. assert (Hc : constructors p !! "memory" = Some memory_PubSubFromConfig).
  { rewrite (inv_constructors _ _ _ Hi). unfold cs, collected. simpl.
    rewrite lookup_insert_ne by done. apply lookup_insert_eq. }
  unfold GetDriver. rewrite Hd, Hc. unfold memory_PubSubFromConfig, build.
  destruct (has (config_key key)); [intros [= _ <- <-]; apply lookup_insert_eq|].
  destruct (has key); [intros [= _ <- <-]; apply lookup_insert_eq|done].
Qed.

Lemma reach_data x y : rtc any x y → cfg_Data y.1 = cfg_Data x.1.
Proof.
  induction 1 as [|a b c [e He] _ IH]; [done|]. rewrite IH. destruct He as [has key p w p' w' r Hg| | |]; simpl; try done.
  unfold GetDriver in Hg. repeat (case_match; simplify_eq/=); done.
Qed.

(** C20: a section that names the memory driver is served from the time the
    websockets plugin asked for its driver: a new memory driver is answered,
    and until the driver of the same section is asked for again, every publish
    request that is answered [Ok] has put into its channel one message per
    non-empty topic, in order, behind the earlier ones, whatever other drivers
    -- redis ones too, with servers they may share --, clients and requests do;
    and no other section has the same driver. *)
Theorem broadcast_section_served has key p w p1 w1 h p2 w2 req w3 :
  data !! key = Some (SMap (Some (DString "memory"))) →
  rtc any start (p, w) → GetDriver has key p w = (p1, w1, Ok h) →
  rtc (other key) (p1, w1) (p2, w2) → rpc_Publish req p2 w2 = Some (w3, true, None) →
  drivers w !! h = None ∧ drivers w1 !! h = Some (Mem MemPubSub.NewPubSubDriver) ∧
  (∃ d2 d3, drivers w2 !! h = Some (Mem d2) ∧ drivers w3 !! h = Some (Mem d3) ∧
     MemPubSub.pushCh d3 = MemPubSub.pushCh d2 ++ expand (default [] req)) ∧
  ∀ k h', k ≠ config_key key → publishers p2 !! k = Some h' → h' ≠ h.
Proof.
  intros Hd Hs Hg Ho Hp. assert (Hi : inv cs p w) by (apply (reach_inv _ _ Hs drivers_start_inv)).
  assert (Hdp : cfg_Data p !! key = Some (SMap (Some (DString "memory")))) by (pose proof (reach_data _ _ Hs) as E; simpl in E; by rewrite E).
  pose proof (get_memory _ _ _ _ _ _ _ Hi Hdp Hg) as Hm.
  destruct (get_registers _ _ _ _ _ _ _ Hi Hg) as (Hi1 & Hk1 & Hnew & _).
  assert (Hi2 : inv cs p2 w2) by (apply (reach_inv _ _ (other_any _ _ _ Ho) Hi1)).
  pose proof (other_publishers _ _ _ _ Ho Hi1 Hk1) as Hk2. simpl in Hk2.
  assert (Hkind : kinds w2 !! h = Some true).
  { apply (reach_kind h true _ _ (other_any _ _ _ Ho) Hi1). unfold kinds. simpl. by rewrite lookup_fmap, Hm. }
  pose proof (proj2 (rpc_ids _ _ _ _ _ _ Hp)) as Hkind3.
  pose proof (proj1 (proj2 (broadcast_delivers _ _ _ _ _ _ (inv_distinct _ _ _ Hi2) Hp)) eq_refl _ _ Hk2) as Hin.
  split_and!; [done..| |].
  - assert (Hk3 : kinds w3 !! h = Some true) by (by rewrite Hkind3). unfold kinds in Hk3, Hkind.
    rewrite lookup_fmap in Hk3, Hkind.
    simpl in Hin. unfold wanted in Hin. simpl in Hin.
    destruct (drivers w2 !! h) as [[d2|d2]|], (drivers w3 !! h) as [[d3|d3]|]; try done.
    exists d2, d3. split_and!; [done..|]. simpl in Hin. rewrite Hin. f_equal. clear.
    induction (expand (default [] req)) as [|x l IH]; [done|]. simpl. by rewrite IH.
  - intros k h' Hne Hh ->. apply Hne. by eapply inv_unique.
Qed.

(** A driver that is not registered is not registered again. *)
Lemma unregistered_stays h x y :
  rtc any x y → inv cs x.1 x.2 → (h < next_id x.2)%nat → (∀ k, publishers x.1 !! k ≠ Some h) → ∀ k, publishers y.1 !! k ≠ Some h.
Proof.
  induction 1 as [|a b c [e He] _ IH]; [done|]. intros Hi Hlt Hno.
  apply IH; [eapply drivers_step_inv; [apply collected_builds|done|done]|..];
    destruct He as [has key' p w p' w' r Hg|req p w w' ok e Hp|m p w w' Hp|h' d d' p w Hd _]; simpl in *; try done.
  - destruct (GetDriver_cases _ _ _ _ _ _ _ ltac:(rewrite (inv_constructors _ _ _ Hi); apply collected_builds) Hg)
      as [(_ & -> & _)|(d & _ & -> & _)]; [done|]. simpl. lia.
  - apply rpc_ids in Hp as [-> _]. done.
  - apply async_ids in Hp as [-> _]. done.
  - destruct (GetDriver_cases _ _ _ _ _ _ _ ltac:(rewrite (inv_constructors _ _ _ Hi); apply collected_builds) Hg)
      as [(-> & _)|(d & _ & _ & ->)]; [done|]. simpl. intros k [[_ <-]|[_ Hk]]%lookup_insert_Some; [lia|by apply (Hno k)].
Qed.

(** Asking for the driver of a section a second time replaces the first one: the
    first driver, whose client still reads from it, is never registered again,
    so that no publish request reaches it. *)
Theorem broadcast_driver_replaced has key p w p1 w1 h has' p2 w2 p3 w3 h' p4 w4 :
  rtc any start (p, w) → GetDriver has key p w = (p1, w1, Ok h) →
  rtc (other key) (p1, w1) (p2, w2) → GetDriver has' key p2 w2 = (p3, w3, Ok h') →
  rtc any (p3, w3) (p4, w4) → h' ≠ h ∧ ∀ k, publishers p4 !! k ≠ Some h.
Proof.
  intros Hs Hg Ho Hg' Ha. assert (Hi : inv cs p w) by (apply (reach_inv _ _ Hs drivers_start_inv)).
  destruct (get_registers _ _ _ _ _ _ _ Hi Hg) as (Hi1 & Hk1 & _).
  assert (Hi2 : inv cs p2 w2) by (apply (reach_inv _ _ (other_any _ _ _ Ho) Hi1)).
  pose proof (other_publishers _ _ _ _ Ho Hi1 Hk1) as Hk2. simpl in Hk2.
  pose proof (inv_bounded _ _ _ Hi2 _ (inv_known _ _ _ Hi2 _ _ Hk2)) as Hlt.
  destruct (get_registers _ _ _ _ _ _ _ Hi2 Hg') as (Hi3 & Hk3 & Hnew & -> & Hrest). split; [lia|].
  pose proof (inv_bounded _ _ _ Hi3 _ (inv_known _ _ _ Hi3 _ _ Hk3)) as Hlt3.
  apply (unregistered_stays h _ _ Ha Hi3); simpl; [lia|]. intros k Hk.
  destruct (decide (k = config_key key)) as [->|Hne]; [rewrite Hk3 in Hk; injection Hk as Hk; lia|].
  rewrite Hrest in Hk by done. exact (Hne (inv_unique _ _ _ Hi2 _ _ _ Hk Hk2)).
Qed.
End plugin.
End drivers.

(** ** Example: a memory section *)

#[local] Existing Instance MemPubSub.map_bst.
#[local] Existing Instance RedisPubSub.map_sets.
#[local] Existing Instance RedisPubSub.map_sets_laws.

Definition w_data : gmap string section := {["test" := SMap (Some (DString "memory"))]}.
Definition w_plugin : Plugin := collected w_data (λ _, inl None).
Definition w_got := GetDriver (λ k, String.eqb k "test") "test" w_plugin (MkWorld 0 ∅).
Definition w_req : list pbMessage := [MkPbMessage ["a"; ""; "b"] "x"].

Lemma broadcast_section_served_witness :
  ∃ w3 d3, rpc_Publish (Some w_req) w_got.1.1 w_got.1.2 = Some (w3, true, None) ∧
    drivers w3 !! 0%nat = Some (Mem d3) ∧ MemPubSub.pushCh d3 = [MkMessage "a" "x"; MkMessage "b" "x"].
Proof.
  eexists. edestruct (broadcast_section_served w_data (λ _, inl None) (λ k, String.eqb k "test") "test"
    w_plugin (MkWorld 0 ∅) w_got.1.1 w_got.1.2 0 w_got.1.1 w_got.1.2 (Some w_req)) as (_ & _ & (d2 & d3 & H2 & H3 & Hq) & _).
  - reflexivity.
  - apply rtc_refl.
  - reflexivity.
  - apply rtc_refl.
  - reflexivity.
  - exists d3. split; [reflexivity|]. split; [exact H3|]. injection H2 as <-. exact Hq.
Defined.

Lemma broadcast_driver_replaced_witness :
  let again := GetDriver (λ k, String.eqb k "test") "test" w_got.1.1 w_got.1.2 in
  again.2 = Ok 1%nat ∧ ∀ k, publishers again.1.1 !! k ≠ Some 0%nat.
Proof.
  intros again. split; [reflexivity|].
  refine (proj2 (broadcast_driver_replaced w_data (λ _, inl None) (λ k, String.eqb k "test") "test"
    w_plugin (MkWorld 0 ∅) w_got.1.1 w_got.1.2 0 (λ k, String.eqb k "test") w_got.1.1 w_got.1.2
    again.1.1 again.1.2 1 again.1.1 again.1.2 _ _ _ _ _)).
  - apply rtc_refl.
  - reflexivity.
  - apply rtc_refl.
  - reflexivity.
  - apply rtc_refl.
Defined.
End PubSubDrivers.
