(* ===== verification/Config.v ===== *)
(** * The configuration plugin ([config])

    Reading the configuration ends with three rewrites of it: a configuration of
    an older version is migrated, [${ENV}] values are replaced, and flags of the
    command line override keys.  The store itself (viper) and semantic versions
    (hashicorp/go-version) are third-party code and parameters here. *)

From stdpp Require Import base gmap strings list.
From Stdlib Require Import ZArith Ascii.
From Stdlib Require String.
From S2P Require Import Prelude GoStrings.

Inductive driver := DAmqp | DBeanstalk | DSqs | DMemory | DBoltdb | DNats.

Global Instance driver_eq_dec : EqDecision driver.
Proof. solve_decision. Defined.

(** ** Driver sections of version 2.6 and 2.7 ([config/configs]) *)
Module v2_6.
Record MemoryConfig := MkMemory { mem_Priority : Z }.
Record BeanstalkConfig := MkBeanstalk {
  bs_Priority : Z; bs_TubePriority : option Z; bs_Tube : string; bs_ReserveTimeout : Z }.
Record BoltDBConfig := MkBoltDB { bolt_Priority : Z; bolt_File : string; bolt_Prefetch : Z }.
Record AMQPConfig := MkAMQP {
  amqp_Priority : Z; amqp_Prefetch : Z; amqp_Queue : string; amqp_Exchange : string;
  amqp_ExchangeType : string; amqp_RoutingKey : string; amqp_Exclusive : bool;
  amqp_MultipleAck : bool; amqp_RequeueOnFail : bool }.
Record NATSConfig := MkNATS {
  nats_Priority : Z; nats_Subject : string; nats_Stream : string; nats_Prefetch : Z;
  nats_RateLimit : Z; nats_DeleteAfterAck : bool; nats_DeliverNew : bool;
  nats_DeleteStreamOnStop : bool }.
Record SQSConfig := MkSQS {
  sqs_Priority : Z; sqs_VisibilityTimeout : Z; sqs_WaitTimeSeconds : Z; sqs_Prefetch : Z;
  sqs_Queue : option string; sqs_Attributes : gmap string string; sqs_Tags : gmap string string }.

Definition config (d : driver) : Type :=
  match d with
  | DAmqp => AMQPConfig | DBeanstalk => BeanstalkConfig | DSqs => SQSConfig
  | DMemory => MemoryConfig | DBoltdb => BoltDBConfig | DNats => NATSConfig
  end.
End v2_6.

Module v2_7.
Record MemoryConfig := MkMemory { mem_Priority : Z }.
Record BeanstalkConfig := MkBeanstalk {
  bs_Priority : Z; bs_TubePriority : option Z; bs_Tube : string; bs_ReserveTimeout : Z }.
Record BoltDBConfig := MkBoltDB { bolt_Priority : Z; bolt_File : string; bolt_Prefetch : Z }.
Record AMQPConfig := MkAMQP {
  amqp_Priority : Z; amqp_Prefetch : Z; amqp_Queue : string; amqp_Exchange : string;
  amqp_ExchangeType : string; amqp_RoutingKey : string; amqp_Exclusive : bool;
  amqp_MultipleAck : bool; amqp_RequeueOnFail : bool }.
Record NATSConfig := MkNATS {
  nats_Priority : Z; nats_Subject : string; nats_Stream : string; nats_Prefetch : Z;
  nats_RateLimit : Z; nats_DeleteAfterAck : bool; nats_DeliverNew : bool;
  nats_DeleteStreamOnStop : bool }.
Record SQSConfig := MkSQS {
  sqs_Priority : Z; sqs_VisibilityTimeout : Z; sqs_WaitTimeSeconds : Z; sqs_Prefetch : Z;
  sqs_Queue : option string; sqs_Attributes : gmap string string; sqs_Tags : gmap string string }.

Definition config (d : driver) : Type :=
  match d with
  | DAmqp => AMQPConfig | DBeanstalk => BeanstalkConfig | DSqs => SQSConfig
  | DMemory => MemoryConfig | DBoltdb => BoltDBConfig | DNats => NATSConfig
  end.
End v2_7.

Module Config.

(** ** Flags *)

(** [strings.SplitN(s, "=", 2)]: the text before and after the first [=]. *)
Fixpoint split_eq (l : list ascii) : option (list ascii * list ascii) :=
  match l with
  | [] => None
  | a :: l' => if Ascii.eqb a "="%char then Some ([], l')
               else '(k, v) ← split_eq l'; Some (a :: k, v)
  end.

(** [strings.ReplaceAll(s, "\q", "q")] for a one-byte [q]. *)
Fixpoint unescape (q : ascii) (l : list ascii) : list ascii :=
  match l with
  | a :: ((b :: l') as t) =>
      if Ascii.eqb a "\"%char && Ascii.eqb b q then q :: unescape q l' else a :: unescape q t
  | _ => l
  end.

Definition quotes : string := String "034" "'`".
Definition blanks : string := String " " (String "010" (String "009" "")).

(** [[]rune(value)[0]] panics on an empty value. *)
Definition parseValue (value : string) : res string :=
  match chars value with
  | [] => Panic
  | escape :: _ =>
      if mem_char quotes escape
      then Ok (text (unescape escape (chars (Trim value (String escape "")))))
      else Ok value
  end.

Definition parseFlag (flag : string) : res (string * string) :=
  if negb (mem_char flag "="%char)
  then Err (EOp "parse_flag" (EErrorf "invalid flag `%s`" [flag])) else
  match split_eq (chars (TrimLeft flag (String " " quotes))) with
  | None => Err (EStr "usage: -o key=value")
  | Some ([], _) => Err (EStr "key should not be empty")
  | Some (_, []) => Err (EStr "value should not be empty")
  | Some (k, v) =>
      v ← parseValue (Trim (text v) blanks);
      Ok (Trim (text k) blanks, v)
  end.

(** ** The store and the versions *)

Inductive value := VString (s : string) | VDriver (d : driver) (c : v2_7.config d) | VRaw (n : N).

(** [UnmarshalJobs]: [v.UnmarshalKey("jobs", &from.Jobs)], reduced to the names
    of the pipelines with their drivers; [Unmarshal26 d key]: [v.UnmarshalKey]
    into the structure of driver [d]. *)
Class Viper := {
  V : Type;
  Get : string → V → option value;
  Set_ : string → value → V → V;
  AllKeys : V → list string;
  UnmarshalJobs : V → res (option (gmap string string));
  Unmarshal26 (d : driver) : string → V → res (v2_6.config d)
}.

Definition lower_char (a : ascii) : ascii :=
  let n := nat_of_ascii a in if (65 <=? n)%nat && (n <=? 90)%nat then ascii_of_nat (n + 32) else a.
Definition lower (l : list ascii) : list ascii := map lower_char l.

(** Keys are case insensitive paths with dots: one is related to itself, to
    what is below it and to what it is below. *)
Definition related (k1 k2 : string) : Prop :=
  let l1 := lower (chars k1) in let l2 := lower (chars k2) in
  l1 = l2 ∨ (l1 ++ ["."%char]) `prefix_of` l2 ∨ (l2 ++ ["."%char]) `prefix_of` l1.

Class ViperLaws `{Viper} := {
  Get_Set k x v : Get k (Set_ k x v) = Some x;
  Get_Set_other k k' x v : ~ related k k' → Get k' (Set_ k x v) = Get k' v;
  Unmarshal26_Set d k k' x v : ~ related k k' → Unmarshal26 d k' (Set_ k x v) = Unmarshal26 d k' v
}.

Class Semver := {
  Version : Type;
  NewSemver : string → Version + error;
  Segments64 : Version → list Z;
  compare : Version → Version → comparison
}.

Definition driver_of (name : string) : option driver :=
  if String.eqb name "amqp" then Some DAmqp else
  if String.eqb name "beanstalk" then Some DBeanstalk else
  if String.eqb name "sqs" then Some DSqs else
  if String.eqb name "memory" then Some DMemory else
  if String.eqb name "boltdb" then Some DBoltdb else
  if String.eqb name "nats" then Some DNats else None.

Definition convert (d : driver) : v2_6.config d → v2_7.config d :=
  match d with
  | DAmqp => λ c, v2_7.MkAMQP (v2_6.amqp_Priority c) (v2_6.amqp_Prefetch c) (v2_6.amqp_Queue c)
      (v2_6.amqp_Exchange c) (v2_6.amqp_ExchangeType c) (v2_6.amqp_RoutingKey c)
      (v2_6.amqp_Exclusive c) (v2_6.amqp_MultipleAck c) (v2_6.amqp_RequeueOnFail c)
  | DBeanstalk => λ c, v2_7.MkBeanstalk (v2_6.bs_Priority c) (v2_6.bs_TubePriority c)
      (v2_6.bs_Tube c) (v2_6.bs_ReserveTimeout c)
  | DSqs => λ c, v2_7.MkSQS (v2_6.sqs_Priority c) (v2_6.sqs_VisibilityTimeout c)
      (v2_6.sqs_WaitTimeSeconds c) (v2_6.sqs_Prefetch c) (v2_6.sqs_Queue c)
      (v2_6.sqs_Attributes c) (v2_6.sqs_Tags c)
  | DMemory => λ c, v2_7.MkMemory (v2_6.mem_Priority c)
  | DBoltdb => λ c, v2_7.MkBoltDB (v2_6.bolt_Priority c) (v2_6.bolt_File c) (v2_6.bolt_Prefetch c)
  | DNats => λ c, v2_7.MkNATS (v2_6.nats_Priority c) (v2_6.nats_Subject c) (v2_6.nats_Stream c)
      (v2_6.nats_Prefetch c) (v2_6.nats_RateLimit c) (v2_6.nats_DeleteAfterAck c)
      (v2_6.nats_DeliverNew c) (v2_6.nats_DeleteStreamOnStop c)
  end.

Definition oldConfigKey (name : string) : string := "jobs.pipelines." +:+ name.
Definition newConfigKey (name : string) : string := "jobs.pipelines." +:+ name +:+ ".config".

Section Plugin.
Context `{VI : Viper} `{SV : Semver} `{GR : GoRange}.

(** ** Migration *)

Fixpoint migrate_loop (l : list (string * string)) (v : V) : V * res unit :=
  let op := "v2.6_to_v2.7_transition" in
  match l with
  | [] => (v, Ok tt)
  | (key, dr) :: l' =>
      match driver_of dr with
      | None => (v, Err (EOp op (EErrorf "unknown driver name: %s" [dr])))
      | Some d =>
          match Unmarshal26 d (oldConfigKey key) v with
          | Err e => (v, Err (EOp op e))
          | Panic => (v, Panic)
          | Ok c => migrate_loop l' (Set_ (newConfigKey key) (VDriver d (convert d c)) v)
          end
      end
  end.

Definition v26to27 (v : V) : V * res unit :=
  let op := "v2.6_to_v2.7_transition" in
  match UnmarshalJobs v with
  | Err e => (v, Err (EOp op e))
  | Panic => (v, Panic)
  | Ok None => (v, Ok tt)
  | Ok (Some pipelines) => migrate_loop (range_map pipelines) v
  end.

Definition incompatible : error := EErrorf "incompatible versions passed: from: %s, to: %s" [].

Definition transition (from to : Version) (v : V) : V * res unit :=
  match Segments64 from, Segments64 to with
  | f0 :: f1 :: _ :: _, t0 :: t1 :: _ :: _ =>
      if negb (i64 (t1 - f1) =? 1)%Z then (v, Err incompatible) else
      if bool_decide ((f0, f1) = (2, 6)%Z ∧ (t0, t1) = (2, 7)%Z) then v26to27 v else (v, Ok tt)
  | _, _ => (v, Err incompatible)
  end.

Definition LessThan (a b : Version) : bool :=
  match compare a b with Lt => true | _ => false end.
Definition Equal (a b : Version) : bool :=
  match compare a b with Eq => true | _ => false end.

(** [Init] between reading the file and the environment: [ver] is the value of
    the key [version], [rr] the version of the server. *)
Definition upgrade (rr : string) (v : V) : V * res unit :=
  let op := "config_plugin_init" in
  match default (VString "2.6") (Get "version" v) with
  | VString ver =>
      let rr := if String.eqb rr "" || String.eqb rr "local" then "2.7" else rr in
      match NewSemver ver, NewSemver rr, NewSemver "2.6" with
      | inr e, _, _ | inl _, inr e, _ | inl _, inl _, inr e => (v, Err (EOp op e))
      | inl cfgV, inl rrV, inl defV =>
          if LessThan cfgV defV
          then (v, Err (EOp op (EStr "too old configuration version used, should be at least 2.6"))) else
          if LessThan rrV cfgV
          then (v, Err (EOp op (EErrorf "RR version is older than configuration version" [rr; ver]))) else
          if Equal rrV cfgV then (v, Ok tt) else
          match Segments64 rrV, Segments64 cfgV with
          | r0 :: r1 :: _, c0 :: c1 :: _ =>
              if (r0 =? c0)%Z && negb (r1 =? c1)%Z
              then let '(v, r) := transition cfgV rrV v in (v, wrap_err op r) else (v, Ok tt)
          | _, _ => (v, Panic)
          end
      end
  | _ => (v, Err (EOp op (EErrorf "version should be a string, actual type: %T" [])))
  end.

(** ** Environment and flags *)

(** [lookup]: [os.LookupEnv]. *)
Definition parseEnv (lookup : string → option string) (x : value) : value :=
  match x with
  | VString s =>
      if (String.length s <=? 3)%nat then x else
      if String.eqb (String.substring 0 2 s) "${" &&
         String.eqb (String.substring (String.length s - 1) 1 s) "}"
      then match lookup (String.substring 2 (String.length s - 3) s) with
           | Some e => VString e
           | None => x
           end
      else x
  | _ => x
  end.

Definition inject_env (lookup : string → option string) (v : V) : V :=
  foldl (λ v key, match Get key v with
                  | Some x => Set_ key (parseEnv lookup x) v
                  | None => v
                  end) v (AllKeys v).

Fixpoint override (flags : list string) (v : V) : V * res unit :=
  match flags with
  | [] => (v, Ok tt)
  | f :: fs => match parseFlag f with
               | Ok (k, x) => override fs (Set_ k (VString x) v)
               | Err e => (v, Err (EOp "config_plugin_init" e))
               | Panic => (v, Panic)
               end
  end.

(** [read]: the store after [ReadConfig] on the given bytes, or after
    [ReadInConfig] on the file. *)
Record Plugin := MkPlugin {
  Path : string; Prefix : string; Type_ : string; ReadInCfg : option bytes;
  Flags : list string; RRVersion : string }.

Definition Init (read_bytes : bytes → V * res unit) (read_file : string → V * res unit)
    (lookup : string → option string) (new : V) (p : Plugin) : V * res unit :=
  let op := "config_plugin_init" in
  let from_file :=
    if String.eqb (Prefix p) "" then (new, Err (EOp op (EStr "prefix should be set"))) else
    if String.eqb (Path p) "" then (new, Err (EOp op (EStr "path should be set"))) else
    match read_file (Path p) with
    | (v, Ok _) =>
        match upgrade (RRVersion p) v with
        | (v, Ok _) => override (Flags p) (inject_env lookup v)
        | r => r
        end
    | (v, r) => (v, wrap_err op r)
    end in
  match ReadInCfg p with
  | Some b => if negb (String.eqb (Type_ p) "") then read_bytes b else from_file
  | None => from_file
  end.

Definition Overwrite (values : gmap string value) (v : V) : V :=
  foldl (λ v kx, Set_ kx.1 kx.2 v) v (range_map values).

(** ** What the migration does *)

(** A pipeline name without dots, in lower case. *)
Definition plain (name : string) : Prop :=
  Forall (λ a, a ≠ "."%char ∧ lower_char a = a) (chars name).

Lemma lower_plain name : plain name → lower (chars name) = chars name.
Proof. intros Hp. unfold lower. induction Hp as [|a l [_ Ha] _ IH]; simpl; [done|]. by rewrite Ha, IH. Qed.

Lemma dot_in_plain name l1 l2 : plain name → chars name = l1 ++ "."%char :: l2 → False.
Proof.
  intros Hp He. unfold plain in Hp. rewrite He, Forall_app, Forall_cons in Hp.
  by destruct Hp as (_ & [[] _] & _).
Qed.

(** Before the first dot two dotted texts of plain names agree. *)
Lemma plain_dot_eq n1 n2 l1 l2 :
  plain n1 → plain n2 → chars n1 ++ "."%char :: l1 = chars n2 ++ "."%char :: l2 → n1 = n2.
Proof.
  unfold plain. intros H1 H2 E. apply chars_inj. revert E H1 H2.
  generalize (chars n1) (chars n2). intros a. induction a as [|x a IH]; intros [|y b] E H1 H2; simplify_eq/=.
  - done.
  - apply Forall_cons in H2 as [[[] _] _]. done.
  - apply Forall_cons in H1 as [[[] _] _]. done.
  - apply Forall_cons in H1 as [_ H1]. apply Forall_cons in H2 as [_ H2]. f_equal. auto.
Qed.

Lemma lower_app l1 l2 : lower (l1 ++ l2) = lower l1 ++ lower l2.
Proof. apply map_app. Qed.

Lemma lower_new name : plain name →
  lower (chars (newConfigKey name)) = chars "jobs.pipelines." ++ chars name ++ chars ".config".
Proof.
  intros Hp. unfold newConfigKey. rewrite !chars_app, !lower_app, (lower_plain _ Hp). reflexivity.
Qed.
Lemma lower_old name : plain name →
  lower (chars (oldConfigKey name)) = chars "jobs.pipelines." ++ chars name.
Proof.
  intros Hp. unfold oldConfigKey. rewrite !chars_app, !lower_app, (lower_plain _ Hp). reflexivity.
Qed.

Lemma new_old_unrelated n1 n2 :
  plain n1 → plain n2 → n1 ≠ n2 → ~ related (newConfigKey n1) (oldConfigKey n2).
Proof.
  intros H1 H2 Hne. unfold related. cbv zeta. rewrite (lower_new _ H1), (lower_old _ H2).
  intros [E|[[k E]|[k E]]].
  - apply app_inv_head in E. by apply (dot_in_plain n2 (chars n1) (chars "config") H2).
  - rewrite <- !(assoc_L (++)) in E. apply app_inv_head in E.
    by apply (dot_in_plain n2 (chars n1) (chars "config" ++ ["."%char] ++ k) H2).
  - rewrite <- !(assoc_L (++)) in E. apply app_inv_head in E. apply Hne.
    exact (plain_dot_eq n1 n2 (chars "config") k H1 H2 E).
Qed.

Lemma new_new_unrelated n1 n2 :
  plain n1 → plain n2 → n1 ≠ n2 → ~ related (newConfigKey n1) (newConfigKey n2).
Proof.
  intros H1 H2 Hne. unfold related. cbv zeta. rewrite (lower_new _ H1), (lower_new _ H2).
  intros [E|[[k E]|[k E]]]; rewrite <- ?(assoc_L (++)) in E; apply app_inv_head in E; apply Hne.
  - exact (plain_dot_eq n1 n2 (chars "config") (chars "config") H1 H2 E).
  - symmetry. exact (plain_dot_eq n2 n1 (chars "config") (chars "config" ++ ["."%char] ++ k) H2 H1 E).
  - exact (plain_dot_eq n1 n2 (chars "config") (chars "config" ++ ["."%char] ++ k) H1 H2 E).
Qed.

(** The fields of a 2.7 section, read back as a 2.6 section. *)
Definition revert (d : driver) : v2_7.config d → v2_6.config d :=
  match d with
  | DAmqp => λ c, v2_6.MkAMQP (v2_7.amqp_Priority c) (v2_7.amqp_Prefetch c) (v2_7.amqp_Queue c)
      (v2_7.amqp_Exchange c) (v2_7.amqp_ExchangeType c) (v2_7.amqp_RoutingKey c)
      (v2_7.amqp_Exclusive c) (v2_7.amqp_MultipleAck c) (v2_7.amqp_RequeueOnFail c)
  | DBeanstalk => λ c, v2_6.MkBeanstalk (v2_7.bs_Priority c) (v2_7.bs_TubePriority c)
      (v2_7.bs_Tube c) (v2_7.bs_ReserveTimeout c)
  | DSqs => λ c, v2_6.MkSQS (v2_7.sqs_Priority c) (v2_7.sqs_VisibilityTimeout c)
      (v2_7.sqs_WaitTimeSeconds c) (v2_7.sqs_Prefetch c) (v2_7.sqs_Queue c)
      (v2_7.sqs_Attributes c) (v2_7.sqs_Tags c)
  | DMemory => λ c, v2_6.MkMemory (v2_7.mem_Priority c)
  | DBoltdb => λ c, v2_6.MkBoltDB (v2_7.bolt_Priority c) (v2_7.bolt_File c) (v2_7.bolt_Prefetch c)
  | DNats => λ c, v2_6.MkNATS (v2_7.nats_Priority c) (v2_7.nats_Subject c) (v2_7.nats_Stream c)
      (v2_7.nats_Prefetch c) (v2_7.nats_RateLimit c) (v2_7.nats_DeleteAfterAck c)
      (v2_7.nats_DeliverNew c) (v2_7.nats_DeleteStreamOnStop c)
  end.

Lemma revert_convert d c : revert d (convert d c) = c.
Proof. by destruct d, c. Qed.

Context {VL : ViperLaws}.

(** A pipeline the migration understands. *)
Definition migratable (v : V) (kd : string * string) : Prop :=
  ∃ d c, driver_of kd.2 = Some d ∧ Unmarshal26 d (oldConfigKey kd.1) v = Ok c.

Definition migrated (v v' : V) (kd : string * string) : Prop :=
  ∃ d c c', driver_of kd.2 = Some d ∧ Unmarshal26 d (oldConfigKey kd.1) v = Ok c ∧
    Get (newConfigKey kd.1) v' = Some (VDriver d c') ∧ revert d c' = c.

Lemma migrate_loop_frame l v v' r k :
  migrate_loop l v = (v', r) → (∀ kd, kd ∈ l → ~ related (newConfigKey kd.1) k) → Get k v' = Get k v.
Proof.
  revert v. induction l as [|[key dr] l IH]; intros v Hl Hk; simpl in Hl; [by simplify_eq|].
  destruct (driver_of dr) as [d|]; [|by simplify_eq].
  destruct (Unmarshal26 d (oldConfigKey key) v); simplify_eq; [|done..].
  rewrite (IH _ Hl) by (intros; apply Hk; by right). apply Get_Set_other. apply (Hk (key, dr)). left.
Qed.

Lemma migrate_loop_spec l v :
  NoDup l.*1 → Forall plain l.*1 →
  (Forall (migratable v) l ↔ (migrate_loop l v).2 = Ok tt) ∧
  ((migrate_loop l v).2 = Ok tt → Forall (migrated v (migrate_loop l v).1) l).
Proof.
  revert v. induction l as [|[key dr] l IH]; intros v Hnd Hpl; simpl; [by split|].
  simpl in Hnd, Hpl. apply NoDup_cons in Hnd as [Hn Hnd]. apply Forall_cons in Hpl as [Hp Hpl].
  rewrite Forall_cons. unfold migratable at 1. simpl.
  destruct (driver_of dr) as [d|] eqn:Ed; [|split; [split; [by intros [(? & ? & ? & _) _]|done]|done]].
  destruct (Unmarshal26 d (oldConfigKey key) v) as [c|e|] eqn:Eu.
  2,3: split; [split; [intros [(d' & c' & [= ->] & Hc') _]; rewrite Eu in Hc'; done|done]|done].
  set (v1 := Set_ (newConfigKey key) (VDriver d (convert d c)) v).
  assert (Hne : ∀ kd, kd ∈ l → kd.1 ≠ key ∧ plain kd.1).
  { intros kd Hkd. assert (kd.1 ∈ l.*1) by (by apply list_elem_of_fmap_2).
    split; [intros Hk; rewrite Hk in *; done|]. rewrite Forall_forall in Hpl. auto. }
  assert (Hsame : ∀ kd d', kd ∈ l →
    Unmarshal26 d' (oldConfigKey kd.1) v1 = Unmarshal26 d' (oldConfigKey kd.1) v).
  { intros kd d' Hkd. destruct (Hne _ Hkd). apply Unmarshal26_Set. by apply new_old_unrelated. }
  destruct (IH v1 Hnd Hpl) as [IH1 IH2]. split.
  - rewrite <- IH1, !Forall_forall. split.
    + intros [_ H] kd Hkd. destruct (H kd Hkd) as (d' & c' & ? & ?).
      exists d', c'. split; [done|]. by rewrite Hsame.
    + intros H. split; [by exists d, c|]. intros kd Hkd. destruct (H kd Hkd) as (d' & c' & ? & Hu).
      exists d', c'. split; [done|]. by rewrite Hsame in Hu.
  - intros Hok. constructor.
    + exists d, c, (convert d c). split_and!; [done|done| |apply revert_convert]. simpl.
      destruct (migrate_loop l v1) as [v2 r] eqn:El. simpl.
      rewrite (migrate_loop_frame _ _ _ _ (newConfigKey key) El); [apply Get_Set|].
      intros kd Hkd. destruct (Hne _ Hkd). by apply new_new_unrelated.
    + specialize (IH2 Hok). rewrite Forall_forall in IH2 |- *. intros kd Hkd.
      destruct (IH2 kd Hkd) as (d' & c' & c7 & ? & Hu & ? & ?).
      exists d', c', c7. rewrite Hsame in Hu by done. by split_and!.
Qed.

(** C29: for pipelines with names of small letters and without dots, the migration
    from 2.6 to 2.7 succeeds exactly when every pipeline has a known driver and a
    readable section, in whatever order the pipelines are visited, and then every
    pipeline has a [config] section with every field that the 2.6 sections are
    read with -- the prefetch of a memory pipeline is not one of them and is not
    carried over --, while keys that are unrelated to those sections keep their
    value. *)
Theorem config_migration_exact v ps :
  UnmarshalJobs v = Ok (Some ps) → (∀ name, is_Some (ps !! name) → plain name) →
  ((v26to27 v).2 = Ok tt ↔ ∀ name dr, ps !! name = Some dr → migratable v (name, dr)) ∧
  ((v26to27 v).2 = Ok tt → ∀ name dr, ps !! name = Some dr → migrated v (v26to27 v).1 (name, dr)) ∧
  (∀ k, (∀ name, is_Some (ps !! name) → ~ related (newConfigKey name) k) →
     Get k (v26to27 v).1 = Get k v).
Proof.
  intros Hj Hpl. unfold v26to27. rewrite Hj.
  assert (Hp : Forall plain (range_map ps).*1).
  { apply Forall_forall. intros k ([k' dr] & -> & H)%list_elem_of_fmap. apply Hpl.
    apply elem_of_range_map in H. by eexists. }
  destruct (migrate_loop_spec (range_map ps) v (range_map_NoDup ps) Hp) as [H1 H2].
  split_and!.
  - rewrite <- H1, Forall_forall. split.
    + intros H name dr Hn. apply (H (name, dr)). by apply elem_of_range_map.
    + intros H [name dr] Hn. apply H. by apply elem_of_range_map.
  - intros Hok name dr Hn. specialize (H2 Hok). rewrite Forall_forall in H2.
    apply (H2 (name, dr)). by apply elem_of_range_map.
  - intros k Hk. destruct (migrate_loop (range_map ps) v) as [v' r] eqn:El. simpl.
    apply (migrate_loop_frame _ _ _ _ _ El). intros [name dr] Hn. apply Hk.
    apply elem_of_range_map in Hn. by eexists.
Qed.

(** ** When a migration runs *)

(** What [hashicorp/go-version] documents: a semantic version has at least three
    segments and versions are ordered by them first. *)
Class SemverLaws := {
  Segments64_three a : ∃ x y z l, Segments64 a = x :: y :: z :: l ∧ (0 ≤ x < 2 ^ 63 ∧ 0 ≤ y < 2 ^ 63)%Z;
  compare_sym a b : compare a b = CompOpp (compare b a);
  compare_segments a b x y x' y' l l' :
    Segments64 a = x :: y :: l → Segments64 b = x' :: y' :: l' → compare a b ≠ Gt →
    (x < x' ∨ x = x' ∧ y ≤ y')%Z
}.

(** Reading a configuration of version [c0.c1] with a server of version
    [r0.r1] succeeds in one of two ways: it is migrated, exactly from 2.6 to 2.7,
    or it is left as it is -- when the minor versions agree, when the server is
    one minor version ahead of a configuration other than 2.6, and also when the
    major version of the server is larger.  In particular a gap of two or more
    minor versions is refused. *)
Theorem config_upgrade_gate `{SL : SemverLaws} v v' ver rr cfgV rrV c0 c1 cl r0 r1 rl :
  Get "version" v = Some (VString ver) → rr ≠ "" → rr ≠ "local" →
  NewSemver ver = inl cfgV → NewSemver rr = inl rrV →
  Segments64 cfgV = c0 :: c1 :: cl → Segments64 rrV = r0 :: r1 :: rl →
  upgrade rr v = (v', Ok tt) →
  ((c0, c1, r0, r1) = (2, 6, 2, 7)%Z ∧ v26to27 v = (v', Ok tt)) ∨
  (v' = v ∧ ((c0, c1) = (r0, r1) ∨ (c0 < r0)%Z ∨
             (c0 = r0 ∧ r1 = c1 + 1 ∧ (c0, c1) ≠ (2, 6))%Z)).
Proof.
  intros Hver Hr1 Hr2 Hc Hr Hsc Hsr Hu. unfold upgrade in Hu. rewrite Hver in Hu. cbn [default from_option id] in Hu.
  rewrite (proj2 (String.eqb_neq rr "") Hr1), (proj2 (String.eqb_neq rr "local") Hr2) in Hu. cbn [orb] in Hu.
  rewrite Hc, Hr in Hu. destruct (NewSemver "2.6") as [defV|e]; [|done].
  destruct (LessThan cfgV defV); [done|]. destruct (LessThan rrV cfgV) eqn:El; [done|].
  assert (Hle : (c0 < r0 ∨ c0 = r0 ∧ c1 ≤ r1)%Z).
  { eapply (compare_segments cfgV rrV); [done..|]. unfold LessThan in El. rewrite compare_sym.
    by destruct (compare rrV cfgV). }
  destruct (Equal rrV cfgV) eqn:Ee.
  { simplify_eq. right. split; [done|]. left. unfold Equal in Ee.
    assert (Hge : (r0 < c0 ∨ r0 = c0 ∧ r1 ≤ c1)%Z)
      by (eapply (compare_segments rrV cfgV); [done..|]; by destruct (compare rrV cfgV)).
    f_equal; lia. }
  rewrite Hsc, Hsr in Hu. destruct (Z.eqb_spec r0 c0) as [->|Hne0]; cbn [andb] in Hu.
  2:{ simplify_eq. right. split; [done|]. right; left. lia. }
  destruct (Z.eqb_spec r1 c1) as [->|Hne1]; cbn [negb] in Hu.
  { simplify_eq. right. split; [done|]. by left. }
  unfold transition in Hu. destruct (Segments64_three cfgV) as (? & ? & ? & ? & E1 & ?).
  destruct (Segments64_three rrV) as (? & ? & ? & ? & E2 & ?).
  rewrite E1, E2 in Hu. rewrite E1 in Hsc. rewrite E2 in Hsr. simplify_eq.
  rewrite i64_id in Hu by lia. destruct (Z.eqb_spec (r1 - c1) 1) as [H1|]; cbn [negb] in Hu; [|done].
  case_bool_decide as Hb.
  - left. destruct Hb as [[= -> ->] [= ->]]. split; [done|].
    destruct (v26to27 v) as [v2 [[]|e|]]; by simplify_eq/=.
  - simplify_eq/=. right. split; [done|]. right; right. split_and!; [done|lia|].
    intros [= -> ->]. apply Hb. split; [done|]. f_equal. lia.
Qed.

End Plugin.

(** ** Flags *)

(** A text that starts and ends with characters outside of a set. *)
Definition bare (set s : string) : Prop :=
  (∀ a l, chars s = a :: l → mem_char set a = false) ∧
  (∀ a l, rev (chars s) = a :: l → mem_char set a = false).

Lemma drop_while_bare f l : (∀ a l', l = a :: l' → f a = false) → drop_while f l = l.
Proof. destruct l as [|a l]; simpl; [done|]. intros H. by rewrite (H a l eq_refl). Qed.

Lemma Trim_bare s set : bare set s → Trim s set = s.
Proof.
  intros [H1 H2]. unfold Trim. rewrite (drop_while_bare _ (chars s)) by done.
  rewrite drop_while_bare by done. rewrite rev_involutive. apply String.string_of_list_ascii_of_string.
Qed.

Lemma split_eq_app k v :
  mem_char k "="%char = false → split_eq (chars k ++ "="%char :: v) = Some (chars k, v).
Proof.
  unfold mem_char. induction (chars k) as [|a l IH]; [done|]. cbn [existsb app split_eq]. intros H.
  apply orb_false_elim in H as [Ha Hl]. rewrite Ascii.eqb_sym, Ha, (IH Hl). reflexivity.
Qed.

Lemma mem_char_eq_in k v : mem_char (k +:+ "=" +:+ v) "="%char = true.
Proof.
  unfold mem_char. rewrite !chars_app, existsb_app. simpl.
  by rewrite orb_true_r.
Qed.

(** A flag [key=value] overrides [key] with [value], the value being the text
    after the first equals sign, when neither is quoted nor surrounded by white
    space; a value that is white space only makes the reading of the
    configuration panic. *)
Theorem config_parseFlag key v a l :
  chars key = a :: l → mem_char (String " " quotes) a = false →
  bare blanks key → mem_char key "="%char = false →
  (bare blanks v → (∃ b l', chars v = b :: l' ∧ mem_char quotes b = false) →
     parseFlag (key +:+ "=" +:+ v) = Ok (key, v)) ∧
  (v ≠ "" → Trim v blanks = "" → parseFlag (key +:+ "=" +:+ v) = Panic).
Proof.
  intros Hk Ha Hbk Hne.
  assert (Hp : ∀ w, w ≠ "" → parseFlag (key +:+ "=" +:+ w) =
    (x ← parseValue (Trim w blanks); Ok (key, x))).
  { intros w Hw. unfold parseFlag. rewrite mem_char_eq_in. cbn [negb].
    assert (TrimLeft (key +:+ "=" +:+ w) (String " " quotes) = key +:+ "=" +:+ w) as ->.
    { unfold TrimLeft. rewrite drop_while_bare; [apply String.string_of_list_ascii_of_string|].
      intros b l' E. rewrite !chars_app, Hk in E. by simplify_eq/=. }
    rewrite !chars_app. change (chars "=" ++ chars w) with ("="%char :: chars w).
    rewrite (split_eq_app key (chars w) Hne), Hk. rewrite <- Hk.
    destruct w as [|b w']; [done|]. cbn [chars].
    change (b :: chars w') with (chars (String b w')).
    by rewrite !String.string_of_list_ascii_of_string, (Trim_bare key blanks Hbk). }
  split.
  - intros Hbv (b & l' & Hv & Hq). rewrite Hp by (by intros ->). rewrite (Trim_bare v blanks Hbv).
    unfold parseValue. by rewrite Hv, Hq.
  - intros Hv Ht. rewrite (Hp v Hv), Ht. reflexivity.
Qed.

(** ** Witnesses: a store of sections with overrides, versions as numbers *)

Record store := MkStore {
  st_jobs : option (gmap string string);
  st_sections (d : driver) : string → res (v2_6.config d);
  st_set : list (string * value) }.

Fixpoint assoc (k : string) (l : list (string * value)) : option value :=
  match l with
  | [] => None
  | (k', x) :: l' => if decide (lower (chars k') = lower (chars k)) then Some x else assoc k l'
  end.

Definition store_viper : Viper := {|
  V := store;
  Get k v := assoc k (st_set v);
  Set_ k x v := MkStore (st_jobs v) (st_sections v) ((k, x) :: st_set v);
  AllKeys v := (st_set v).*1;
  UnmarshalJobs v := Ok (st_jobs v);
  Unmarshal26 d k v := st_sections v d k |}.
#[local] Existing Instance store_viper.
#[local] Program Instance store_laws : @ViperLaws store_viper.
Next Obligation. intros k x v. cbn. by rewrite decide_True. Qed.
Next Obligation. intros k k' x v Hr. cbn. rewrite decide_False; [done|]. intros He. apply Hr. by left. Qed.
Next Obligation. done. Qed.

Definition num_semver : Semver := {|
  Version := Z * Z;
  NewSemver s := if String.eqb s "2.6" then inl (2, 6)%Z else if String.eqb s "2.7" then inl (2, 7)%Z
                 else inr (EExt "malformed version");
  Segments64 v := [Z.abs v.1 mod 2 ^ 63; Z.abs v.2 mod 2 ^ 63; 0]%Z;
  compare a b := match (Z.abs a.1 mod 2 ^ 63 ?= Z.abs b.1 mod 2 ^ 63)%Z with
                 | Eq => (Z.abs a.2 mod 2 ^ 63 ?= Z.abs b.2 mod 2 ^ 63)%Z
                 | c => c end |}.
#[local] Existing Instance num_semver.
#[local] Program Instance num_laws : @SemverLaws num_semver.
Next Obligation.
  intros [a b]. cbn. do 4 eexists. split; [done|]. split; apply Z.mod_pos_bound; lia.
Qed.
Next Obligation.
  intros [a1 a2] [b1 b2]. cbn. rewrite (Z.compare_antisym (Z.abs b1 mod 2 ^ 63)).
  destruct (_ ?= _)%Z; simpl; [apply Z.compare_antisym|done|done].
Qed.
Next Obligation.
  intros [a1 a2] [b1 b2] x y x' y' l l'. cbn. intros [= -> -> _] [= -> -> _].
  destruct (Z.compare_spec x x'); [|lia|done].
  destruct (Z.compare_spec y y'); [lia|lia|done].
Qed.

Definition w_sections (d : driver) : string → res (v2_6.config d) :=
  match d with DMemory => λ _, Ok (v2_6.MkMemory 7) | _ => λ _, Err (EExt "no section") end.
Definition w_store : @V store_viper :=
  MkStore (Some {["local" := "memory"]}) w_sections [("version", VString "2.6")].

Lemma plain_local : plain "local".
Proof. unfold plain. simpl. repeat constructor; discriminate. Qed.

Lemma config_migration_exact_witness : migrated w_store (v26to27 w_store).1 ("local", "memory").
Proof.
  refine (proj1 (proj2 (config_migration_exact w_store {["local" := "memory"]} _ _)) _ "local" "memory" _).
  - reflexivity.
  - intros name [x [<- _]%lookup_singleton_Some]. exact plain_local.
  - reflexivity.
  - apply lookup_singleton_eq.
Defined.

Lemma config_upgrade_gate_witness :
  v26to27 w_store = ((upgrade "2.7" w_store).1, Ok tt).
Proof.
  destruct (config_upgrade_gate w_store (upgrade "2.7" w_store).1 "2.6" "2.7" ((2, 6)%Z : @Version num_semver) ((2, 7)%Z : @Version num_semver)
    2 6 [0%Z] 2 7 [0%Z]) as [[_ H]|[_ [H|[H|(_ & _ & H)]]]];
    [reflexivity|discriminate|discriminate|reflexivity..|exact H|discriminate|lia|done].
Defined.

Lemma config_parseFlag_witness :
  parseFlag "http.address=tcp://:80?a=b" = Ok ("http.address", "tcp://:80?a=b") ∧
  parseFlag "http.address= " = Panic.
Proof.
  split.
  - refine (proj1 (config_parseFlag "http.address" "tcp://:80?a=b" "h"%char (chars "ttp.address") _ _ _ _) _ _);
      [reflexivity|reflexivity| |reflexivity| |].
    + split; intros a l [= <- <-]; reflexivity.
    + split; intros a l [= <- <-]; reflexivity.
    + do 2 eexists. split; reflexivity.
  - refine (proj2 (config_parseFlag "http.address" " " "h"%char (chars "ttp.address") _ _ _ _) _ _);
      [reflexivity|reflexivity| |reflexivity|discriminate|reflexivity].
    split; intros a l [= <- <-]; reflexivity.
Defined.

End Config.
