(* ===== verification/Reload.v ===== *)
(** * The reload plugin ([reload])

    A watcher polls the files of the watched directories, compares them with
    what it saw before and sends an event for every difference; the plugin
    collects the services with events and resets each of them once no event has
    come for an interval. *)

From stdpp Require Import base gmap strings list.
From Stdlib Require Import ZArith.
From Stdlib Require String.
From S2P Require Import Prelude GoStrings.

Module Reload.

(** ** Files

    [os.FileInfo], reduced to what the watcher reads, and a directory tree
    without links; a directory may be unreadable. *)
Record FileInfo := MkFileInfo { Name : string; IsDir : bool; ModTime : Z; Mode : Z; Size : Z }.

Global Instance FileInfo_eq_dec : EqDecision FileInfo.
Proof. solve_decision. Defined.

Inductive node :=
  | NFile (fi : FileInfo)
  | NDir (fi : FileInfo) (children : list (string * node))
  | NUnreadable (fi : FileInfo).

Definition node_info (n : node) : FileInfo :=
  match n with NFile fi | NDir fi _ | NUnreadable fi => fi end.

(** [os.Stat] and [filepath.Abs]. *)
Record filesystem := MkFs { fs_stat : string → option node; fs_abs : string → string + error }.

Record WatcherConfig := MkWatcherConfig {
  ServiceName : string; Recursive_ : bool; Directories : list string;
  FilterHooks : string → slice string → option error;
  Files : gmap string FileInfo; Ignored : gset string; FilePatterns : slice string }.

Definition with_files f (c : WatcherConfig) : WatcherConfig :=
  MkWatcherConfig (ServiceName c) (Recursive_ c) (Directories c) (FilterHooks c) f
    (Ignored c) (FilePatterns c).

Definition skip_file (e : option error) : bool :=
  match e with Some e => errors_Is SkipFile e | None => false end.

Definition no_file : error := EExt "no such file or directory".
Definition denied : error := EExt "permission denied".

(** The loop over the entries of a directory: the ignored set is asked for the
    directory, and entries are stored under their bare name. *)
Fixpoint single_loop (c : WatcherConfig) (path : string) (l : list (string * node))
    (filesList : gmap string FileInfo) : gmap string FileInfo :=
  match l with
  | [] => filesList
  | (name, n) :: l' =>
      if bool_decide (path ∈ Ignored c) then single_loop c path l' filesList else
      match FilePatterns c with
      | Some _ => if skip_file (FilterHooks c name (FilePatterns c))
                  then single_loop c path l' filesList
                  else single_loop c path l' (<[name := node_info n]> filesList)
      | None => single_loop c path l' (<[name := node_info n]> filesList)
      end
  end.

Definition retrieveFilesSingle (fs : filesystem) (c : WatcherConfig) (path : string)
    : res (gmap string FileInfo) :=
  match fs_stat fs path with
  | None => Err no_file
  | Some n =>
      let filesList := {[path := node_info n]} in
      match n with
      | NFile _ => Ok filesList
      | NUnreadable _ => Err denied
      | NDir _ ch => Ok (single_loop c path ch filesList)
      end
  end.

Definition join (path name : string) : string :=
  if String.eqb path "/" then "/" +:+ name else path +:+ "/" +:+ name.

(** The function [filepath.Walk] calls: it goes on, or skips a directory. *)
Definition visit (c : WatcherConfig) (path : string) (info : FileInfo) (fileList : gmap string FileInfo)
    : gmap string FileInfo * bool :=
  if bool_decide (path ∈ Ignored c) then (fileList, negb (IsDir info)) else
  if skip_file (FilterHooks c (Name info) (FilePatterns c)) then (fileList, true)
  else (<[path := info]> fileList, true).

(** [filepath.Walk]: entries before their contents, in order, and the first
    error ends it. *)
Fixpoint walk (c : WatcherConfig) (path : string) (n : node) (fileList : gmap string FileInfo)
    : res (gmap string FileInfo) :=
  match n with
  | NFile fi => Ok (visit c path fi fileList).1
  | NUnreadable _ => Err (EOp "retrieve files recursive" denied)
  | NDir fi ch =>
      let '(fileList, go) := visit c path fi fileList in
      if negb go then Ok fileList else
      (fix walk_all (ch : list (string * node)) (fileList : gmap string FileInfo) :=
         match ch with
         | [] => Ok fileList
         | (name, n) :: ch' =>
             match walk c (join path name) n fileList with
             | Ok fileList => walk_all ch' fileList
             | r => r
             end
         end) ch fileList
  end.

Definition retrieveFilesRecursive (fs : filesystem) (c : WatcherConfig) (root : string)
    : res (gmap string FileInfo) :=
  match fs_stat fs root with
  | None => Err (EOp "retrieve files recursive" no_file)
  | Some n => walk c root n ∅
  end.

Fixpoint list_dirs (fs : filesystem) (c : WatcherConfig) (dirs : list string)
    (fileList : gmap string FileInfo) : res (gmap string FileInfo) :=
  match dirs with
  | [] => Ok fileList
  | d :: dirs' =>
      match fs_abs fs d with
      | inr e => Err e
      | inl fullPath =>
          l ← (if Recursive_ c then retrieveFilesRecursive else retrieveFilesSingle) fs c fullPath;
          list_dirs fs c dirs' (l ∪ fileList)
      end
  end.

Definition retrieveFileList (fs : filesystem) (c : WatcherConfig) : res (gmap string FileInfo) :=
  list_dirs fs c (Directories c) ∅.

Fixpoint convert_loop (fs : filesystem) (l : list string) (ign : gset string) : res (gset string) :=
  match l with
  | [] => Ok ign
  | p :: l' => match fs_abs fs p with
               | inr e => Err e
               | inl a => convert_loop fs l' ({[a]} ∪ ign)
               end
  end.
Definition ConvertIgnored (fs : filesystem) (ignored : list string) : res (gset string) :=
  convert_loop fs ignored ∅.

(** ** The watcher *)

Record Event := MkEvent { ev_Path : string; ev_Info : FileInfo; ev_service : string }.

Section Watcher.
Context `{GR : GoRange}.

Record Watcher := MkWatcher { started : bool; watcherConfigs : gmap string WatcherConfig }.

Fixpoint init_loop (fs : filesystem) (l : list (string * WatcherConfig)) (cs : gmap string WatcherConfig)
    : res (gmap string WatcherConfig) :=
  match l with
  | [] => Ok cs
  | (srvName, config) :: l' =>
      fileList ← wrap_err "watcher_init_fs" (retrieveFileList fs config);
      init_loop fs l' (<[srvName := with_files fileList config]> cs)
  end.
Definition initFs (fs : filesystem) (w : Watcher) : res Watcher :=
  cs ← init_loop fs (range_map (watcherConfigs w)) (watcherConfigs w);
  Ok (MkWatcher (started w) cs).

Definition NewWatcher (fs : filesystem) (configs : list WatcherConfig) : res Watcher :=
  initFs fs (MkWatcher false (foldl (λ m c, <[ServiceName c := c]> m) ∅ configs)).

(** The check of one listed file against the recorded ones, with what it does to
    the records, the created files and the events. *)
Definition differs (o n : FileInfo) : bool := negb (ModTime o =? ModTime n)%Z || negb (Mode o =? Mode n)%Z.

Definition scan_one (svc : string) (acc : gmap string FileInfo * gmap string FileInfo * list Event)
    (pf : string * FileInfo) :=
  let '(old, creates, evs) := acc in
  let '(pth, f) := pf in
  if IsDir f then acc else
  match old !! pth with
  | None => (old, <[pth := f]> creates, evs)
  | Some oldInfo => if differs oldInfo f then (<[pth := f]> old, creates, evs ++ [MkEvent pth f svc]) else acc
  end.

Definition pollEvents (svc : string) (old files : gmap string FileInfo)
    : gmap string FileInfo * list Event :=
  let removes := filter (λ pf, files !! pf.1 = None) old in
  let '(cur, creates, evs) := foldl (scan_one svc) (old, ∅, []) (range_map files) in
  let cur := foldl insert_pair cur (range_map creates) in
  let cur := foldl (λ m p, delete p m) cur (range_map removes).*1 in
  (cur, evs ++ ((λ pf, MkEvent pf.1 pf.2 svc) <$> range_map creates)
            ++ ((λ pf, MkEvent pf.1 pf.2 svc) <$> range_map removes)).

(** One tick of [waitEvent] for one service: an error of the listing is dropped,
    and the nil map it comes with is compared. *)
Definition poll_service (fs : filesystem) (acc : Watcher * list Event) (srvName : string)
    : Watcher * list Event :=
  let '(w, evs) := acc in
  match watcherConfigs w !! srvName with
  | None => acc
  | Some c =>
      let fileList := match retrieveFileList fs c with Ok l => l | _ => ∅ end in
      let name := ServiceName c in
      match watcherConfigs w !! name with
      | None => acc
      | Some c' =>
          let '(cur, new) := pollEvents name (Files c') fileList in
          (MkWatcher (started w) (<[name := with_files cur c']> (watcherConfigs w)), evs ++ new)
      end
  end.
Definition tick (fs : filesystem) (w : Watcher) : Watcher * list Event :=
  foldl (poll_service fs) (w, []) (range_map (watcherConfigs w)).*1.

Definition StartPolling (w : Watcher) : Watcher * res unit :=
  if started w then (w, Err (EOp "watcher_start_polling" (EStr "already started")))
  else (MkWatcher true (watcherConfigs w), Ok tt).

(** ** The plugin *)

Record ServiceConfig := MkServiceConfig {
  s_Recursive : bool; s_Patterns : slice string; s_Dirs : list string; s_Ignore : list string }.
Record Config := MkConfig {
  Interval : Z; Patterns : slice string; Plugins : option (gmap string ServiceConfig) }.

Definition plugins (c : Config) : gmap string ServiceConfig := default ∅ (Plugins c).

Definition second : Z := 10 ^ 9.

Definition InitDefaults (c : Config) : Config :=
  MkConfig (if (Interval c =? 0)%Z then second else Interval c)
    (match Patterns c with None => Some [".php"] | p => p end) (Plugins c).

Definition Valid (c : Config) : option error :=
  let op := "reload_plugin_valid" in
  if (Interval c <? second)%Z then Some (EOp op (EStr "too short interval")) else
  match Plugins c with
  | None => Some (EOp op (EStr "should add at least 1 service"))
  | Some m => if (size m =? 0)%nat
              then Some (EOp op (EStr "service initialized, however, no config added")) else None
  end.

(** The hook [Init] gives to every service. *)
Definition filter_hook (filename : string) (patterns : slice string) : option error :=
  if existsb (contains filename) (default [] patterns) then None
  else Some (EOp "reload_plugin_init" (EKind SkipFile)).

(** [append(a, b...)]: nil only when both are nil, or [a] is nil and [b] empty. *)
Definition append_slice {A} (a b : slice A) : slice A :=
  match a, b with
  | None, (None | Some []) => None
  | _, _ => Some (default [] a ++ default [] b)
  end.

(** An ignored path that cannot be resolved ends [Init], with the variable of an
    earlier error, which is nil there, in the error. *)
Fixpoint configs_loop (fs : filesystem) (patterns : slice string) (l : list (string * ServiceConfig))
    : res (list WatcherConfig) :=
  match l with
  | [] => Ok []
  | (name, s) :: l' =>
      ignored ← match ConvertIgnored fs (s_Ignore s) with
                 | Err _ => Err (EOp "reload_plugin_init" (EStr ""))
                 | r => r
                 end;
      cs ← configs_loop fs patterns l';
      Ok (MkWatcherConfig name (s_Recursive s) (s_Dirs s) filter_hook ∅ ignored
            (append_slice (s_Patterns s) patterns) :: cs)
  end.

Definition Init (fs : filesystem) (has : bool) (unmarshal : res Config) : res (Config * Watcher) :=
  let op := "reload_plugin_init" in
  if negb has then Err (EOp op (EKind Disabled)) else
  match unmarshal with
  | Err _ => Err (EOp op (EKind Disabled))
  | Panic => Panic
  | Ok c =>
      let c := InitDefaults c in
      cs ← configs_loop fs (Patterns c) (range_map (plugins c));
      w ← wrap_err op (NewWatcher fs cs);
      Ok (c, w)
  end.

(** The goroutine of [Serve] that collects events: [updated] are the services
    with events, [armed] says whether the timer runs; [Reset_] is the resetter. *)
Record collector := MkCollector { updated : gmap string ServiceConfig; armed : bool; failed : option error }.
Definition new_collector : collector := MkCollector ∅ true None.

Definition zero_service : ServiceConfig := MkServiceConfig false None [] [].

Context {W : Type} (cfg : Config) (Reset_ : string → W → W * option error).

Fixpoint reset_loop (l : list string) (w : W) : W * option error :=
  match l with
  | [] => (w, None)
  | n :: l' => match Reset_ n w with
               | (w, None) => reset_loop l' w
               | (w, Some e) => (w, Some (EOp "reload_plugin_serve" e))
               end
  end.

Inductive signal := SEvent (service : string) | SFire.

Definition collect (s : signal) (c : collector) (w : W) : collector * W :=
  match failed c with
  | Some _ => (c, w)
  | None =>
      match s with
      | SEvent service => 
          (MkCollector (<[service := default zero_service (plugins cfg !! service)]> (updated c)) true None, w)
      | SFire =>
          if negb (armed c) then (c, w) else
          match reset_loop (range_map (updated c)).*1 w with
          | (w, None) => (MkCollector ∅ false None, w)
          | (w, Some e) => (MkCollector (updated c) false (Some e), w)
          end
      end
  end.

Fixpoint collect_all (l : list signal) (c : collector) (w : W) : collector * W :=
  match l with
  | [] => (c, w)
  | s :: l' => let '(c, w) := collect s c w in collect_all l' c w
  end.

Definition Serve (c : Config) : option error :=
  if (Interval c <? second)%Z
  then Some (EOp "reload_plugin_serve" (EStr "reload interval is too fast")) else None.

(** ** What a poll reports *)

Definition is_updated (old : gmap string FileInfo) (pf : string * FileInfo) : bool :=
  negb (IsDir pf.2) && match old !! pf.1 with Some o => differs o pf.2 | None => false end.
Definition is_created (old : gmap string FileInfo) (pf : string * FileInfo) : bool :=
  negb (IsDir pf.2) && match old !! pf.1 with Some _ => false | None => true end.

Definition event_of (svc : string) (pf : string * FileInfo) : Event := MkEvent pf.1 pf.2 svc.

Lemma filter_bool_cons {A} (g : A → bool) x l :
  filter (λ y, g y) (x :: l) = if g x then x :: filter (λ y, g y) l else filter (λ y, g y) l.
Proof. rewrite filter_cons. by destruct (g x). Qed.

Lemma filter_insert_other (g : gmap string FileInfo → string * FileInfo → bool) old k f l :
  (∀ old old' pf, old !! pf.1 = old' !! pf.1 → g old pf = g old' pf) → k ∉ l.*1 →
  filter (λ pf, g (<[k := f]> old) pf) l = filter (λ pf, g old pf) l.
Proof.
  intros Hg. induction l as [|[k' f'] l IH]; intros Hk; [done|]. simpl in Hk.
  apply not_elem_of_cons in Hk as [Hne Hk]. rewrite !filter_bool_cons, IH by done.
  by rewrite (Hg (<[k := f]> old) old (k', f')) by (by rewrite lookup_insert_ne).
Qed.

Lemma scan_spec svc l old creates evs :
  NoDup l.*1 →
  foldl (scan_one svc) (old, creates, evs) l =
    (foldl insert_pair old (filter (λ pf, is_updated old pf) l),
     foldl insert_pair creates (filter (λ pf, is_created old pf) l),
     evs ++ (event_of svc <$> filter (λ pf, is_updated old pf) l)).
Proof.
  revert old creates evs. induction l as [|[p f] l IH]; intros old creates evs Hnd.
  { simpl. by rewrite app_nil_r. }
  simpl in Hnd. apply list.NoDup_cons in Hnd as [Hn Hnd]. cbn [foldl].
  unfold scan_one at 2. rewrite !filter_bool_cons.
  assert (Hu : is_updated old (p, f) = negb (IsDir f) &&
    match old !! p with Some o => differs o f | None => false end) by done.
  assert (Hc : is_created old (p, f) = negb (IsDir f) &&
    match old !! p with Some _ => false | None => true end) by done.
  rewrite Hu, Hc. destruct (IsDir f); cbn [negb andb]; [by apply IH|].
  destruct (old !! p) as [o|] eqn:Eo; [|by rewrite IH].
  destruct (differs o f); [|by apply IH].
  rewrite IH by done.
  rewrite (filter_insert_other is_updated), (filter_insert_other is_created); [| |done| |done].
  - by rewrite <- (assoc_L (++)).
  - intros ? ? ? H. unfold is_created. by rewrite H.
  - intros ? ? ? H. unfold is_updated. by rewrite H.
Qed.

(** The listed file [p] is news: it was created, changed or removed. *)
Definition news (old files : gmap string FileInfo) (p : string) : Prop :=
  match files !! p with
  | None => is_Some (old !! p)
  | Some f => IsDir f = false ∧
      match old !! p with
      | None => True
      | Some o => ModTime o ≠ ModTime f ∨ Mode o ≠ Mode f
      end
  end.

(** What the watcher knows of [p] afterwards. *)
Definition known (old files : gmap string FileInfo) (p : string) : option FileInfo :=
  match files !! p with
  | None => None
  | Some f => if IsDir f then old !! p else
      match old !! p with
      | None => Some f
      | Some o => if decide (ModTime o = ModTime f ∧ Mode o = Mode f) then Some o else Some f
      end
  end.

Lemma differs_true o f : differs o f = true ↔ ModTime o ≠ ModTime f ∨ Mode o ≠ Mode f.
Proof. unfold differs. rewrite orb_true_iff, !negb_true_iff, !Z.eqb_neq. done. Qed.

Lemma known_differs old files p :
  known old files p = match files !! p with
    | None => None
    | Some f => if IsDir f then old !! p else
        match old !! p with
        | None => Some f
        | Some o => if differs o f then Some f else Some o
        end
    end.
Proof.
  unfold known. destruct (files !! p) as [f|]; [|done]. destruct (IsDir f); [done|].
  destruct (old !! p) as [o|]; [|done]. destruct (differs o f) eqn:E.
  - apply differs_true in E. rewrite decide_False; [done|tauto].
  - apply not_true_iff_false in E. rewrite differs_true in E. rewrite decide_True; [done|].
    split; apply dec_stable; tauto.
Qed.

Section poll.
Context (svc : string) (old files : gmap string FileInfo).

Definition updates : list (string * FileInfo) := filter (λ pf, is_updated old pf) (range_map files).
Definition created : gmap string FileInfo :=
  foldl insert_pair ∅ (filter (λ pf, is_created old pf) (range_map files)).
Definition removed : gmap string FileInfo := filter (λ pf, files !! pf.1 = None) old.

Lemma pollEvents_eq :
  pollEvents svc old files =
    (foldl (λ m p, delete p m) (foldl insert_pair (foldl insert_pair old updates) (range_map created))
       (range_map removed).*1,
     (event_of svc <$> updates) ++ (event_of svc <$> range_map created) ++ (event_of svc <$> range_map removed)).
Proof.
  unfold pollEvents. rewrite scan_spec by apply range_map_NoDup. reflexivity.
Qed.

Lemma filter_keys_NoDup (g : string * FileInfo → bool) :
  NoDup (filter (λ pf, g pf) (range_map files)).*1.
Proof.
  eapply sublist_NoDup; [apply (range_map_NoDup files)|]. apply fmap_sublist, sublist_filter.
Qed.

Lemma elem_of_updates p f :
  (p, f) ∈ updates ↔ files !! p = Some f ∧ is_updated old (p, f) = true.
Proof.
  unfold updates. rewrite list_elem_of_filter, elem_of_range_map, Is_true_true. tauto.
Qed.

Lemma lookup_created p :
  created !! p = match files !! p with
                 | Some f => if is_created old (p, f) then Some f else None
                 | None => None
                 end.
Proof.
  unfold created. set (l := filter _ _).
  assert (Hl : ∀ f, (p, f) ∈ l ↔ files !! p = Some f ∧ is_created old (p, f) = true).
  { intros f. unfold l. rewrite list_elem_of_filter, elem_of_range_map, Is_true_true. tauto. }
  destruct (files !! p) as [f|] eqn:Ef; [destruct (is_created old (p, f)) eqn:Ec|].
  - apply lookup_foldl_insert; [apply filter_keys_NoDup|]. by apply Hl.
  - rewrite lookup_foldl_insert_ne; [done|]. intros ([p' f'] & -> & H)%list_elem_of_fmap.
    apply Hl in H as [? ?]. simpl in *. congruence.
  - rewrite lookup_foldl_insert_ne; [done|]. intros ([p' f'] & -> & H)%list_elem_of_fmap.
    apply Hl in H as [? ?]. simpl in *. congruence.
Qed.

Lemma elem_of_keys {A} (m : gmap string A) p : p ∈ (range_map m).*1 ↔ is_Some (m !! p).
Proof.
  rewrite list_elem_of_fmap. split.
  - intros ([k a] & -> & H). apply elem_of_range_map in H. by eexists.
  - intros [a H]. exists (p, a). split; [done|]. by apply elem_of_range_map.
Qed.

Lemma removed_Some p : is_Some (removed !! p) ↔ files !! p = None ∧ is_Some (old !! p).
Proof.
  unfold removed. split.
  - intros [f [H1 H2]%map_lookup_filter_Some]. eauto.
  - intros [H1 [f H2]]. exists f. by apply map_lookup_filter_Some.
Qed.

Lemma pollEvents_known p : (pollEvents svc old files).1 !! p = known old files p.
Proof.
  rewrite pollEvents_eq. cbn [fst]. rewrite lookup_foldl_delete, known_differs.
  case_decide as Hr; rewrite elem_of_keys, removed_Some in Hr.
  { destruct Hr as [-> _]. done. }
  assert (Hu : ∀ m, ~ (∃ f, (p, f) ∈ updates) → foldl insert_pair m updates !! p = m !! p).
  { intros m Hn. apply lookup_foldl_insert_ne. intros ([p' f'] & -> & H)%list_elem_of_fmap. eauto. }
  destruct (created !! p) as [f|] eqn:Ec.
  - rewrite (lookup_foldl_insert _ _ p f); [|apply range_map_NoDup|by apply elem_of_range_map].
    rewrite lookup_created in Ec. destruct (files !! p) as [f'|] eqn:Ef; [|done].
    unfold is_created in Ec. simpl in Ec. destruct (IsDir f'); simpl in Ec; [done|].
    destruct (old !! p) as [o|] eqn:Eo; by simplify_eq.
  - rewrite lookup_foldl_insert_ne by (rewrite elem_of_keys, Ec; by intros []%is_Some_None).
    rewrite lookup_created in Ec. destruct (files !! p) as [f'|] eqn:Ef.
    + unfold is_created in Ec. simpl in Ec. destruct (IsDir f') eqn:Ed.
      { apply Hu. intros (f & H). apply elem_of_updates in H as [? H]. unfold is_updated in H. simpl in H.
        simplify_eq. by rewrite Ed in H. }
      destruct (old !! p) as [o|] eqn:Eo; [|done]. destruct (differs o f') eqn:Edf.
      * apply lookup_foldl_insert; [apply filter_keys_NoDup|]. apply elem_of_updates. split; [done|].
        unfold is_updated. simpl. by rewrite Ed, Eo, Edf.
      * rewrite Hu; [done|]. intros (f & H). apply elem_of_updates in H as [? H]. unfold is_updated in H.
        simpl in H. simplify_eq. by rewrite Ed, Eo, Edf in H.
    + rewrite Hu; [|by intros (f & [? _]%elem_of_updates); simplify_eq].
      destruct (old !! p) eqn:Eo; [|done]. destruct Hr. eauto.
Qed.

Lemma pollEvents_news p :
  p ∈ ev_Path <$> (pollEvents svc old files).2 ↔ news old files p.
Proof.
  rewrite pollEvents_eq. cbn [snd]. rewrite !fmap_app, !elem_of_app.
  assert (Hm : ∀ l, ev_Path <$> (event_of svc <$> l) = l.*1)
    by (intros l; rewrite <- list_fmap_compose; by apply list_fmap_ext).
  rewrite !Hm, !elem_of_keys, removed_Some, lookup_created. unfold news.
  rewrite list_elem_of_fmap. split.
  - intros [([p' f] & -> & H)|[H|[-> H]]]; simpl; [..|done].
    + apply elem_of_updates in H as [-> H]. unfold is_updated in H. simpl in H.
      apply andb_prop in H as [Hd H]. apply negb_true_iff in Hd. split; [done|].
      destruct (old !! p'); [by apply differs_true|done].
    + destruct (files !! p) as [f|]; [|by apply is_Some_None in H]. unfold is_created in H. simpl in H.
      destruct (IsDir f); [by apply is_Some_None in H|].
      destruct (old !! p); simpl in H; [by apply is_Some_None in H|done].
  - destruct (files !! p) as [f|] eqn:Ef; [|by intros; right; right].
    intros [Hd H]. unfold is_created. simpl. rewrite Hd. destruct (old !! p) as [o|] eqn:Eo.
    + left. exists (p, f). split; [done|]. apply elem_of_updates. split; [done|].
      unfold is_updated. simpl. rewrite Hd, Eo. by apply differs_true.
    + right; left. simpl. by eexists.
Qed.

End poll.

(** C24: a poll sends events for exactly the files that were created, removed or
    changed their modification time or mode since the last one, whatever order
    the maps are visited in, and remembers the listing: polling an unchanged
    listing again sends nothing and changes nothing. *)
Theorem reload_poll_exact svc old files p :
  (p ∈ ev_Path <$> (pollEvents svc old files).2 ↔ news old files p) ∧
  (pollEvents svc old files).1 !! p = known old files p ∧
  pollEvents svc (pollEvents svc old files).1 files = ((pollEvents svc old files).1, []).
Proof.
  split_and!; [apply pollEvents_news|apply pollEvents_known|].
  set (cur := (pollEvents svc old files).1).
  assert (Hcur : ∀ q, cur !! q = known old files q) by apply pollEvents_known.
  assert (Hdiff : ∀ f, differs f f = false)
    by (intros f; unfold differs; by rewrite !Z.eqb_refl).
  rewrite (surjective_pairing (pollEvents svc cur files)). f_equal.
  - apply map_eq. intros q. rewrite pollEvents_known, known_differs, !Hcur, known_differs.
    destruct (files !! q) as [f|]; [|done]. destruct (IsDir f); [done|].
    destruct (old !! q) as [o|]; [|by rewrite Hdiff].
    destruct (differs o f) eqn:E; [by rewrite Hdiff|by rewrite E].
  - destruct (pollEvents svc cur files).2 as [|e l] eqn:Ee; [done|exfalso].
    assert (Hn : news cur files (ev_Path e)) by (apply (pollEvents_news svc); rewrite Ee; left).
    unfold news in Hn. rewrite Hcur, known_differs in Hn.
    destruct (files !! ev_Path e) as [f|]; [|by apply is_Some_None in Hn].
    destruct Hn as [Hd Hn]. rewrite Hd in Hn. destruct (old !! ev_Path e) as [o|].
    + destruct (differs o f) eqn:E; apply differs_true in Hn; [by rewrite Hdiff in Hn|by rewrite E in Hn].
    + apply differs_true in Hn. by rewrite Hdiff in Hn.
Qed.

(** ** Listings *)

(** In a listing that is not recursive a file is recorded under its bare name. *)
Lemma single_loop_last c path l n f m :
  path ∉ Ignored c → skip_file (FilterHooks c n (FilePatterns c)) = false →
  NoDup l.*1 → (n, f) ∈ l → single_loop c path l m !! n = Some (node_info f).
Proof.
  intros Hi Hs. revert m. induction l as [|[n' f'] l IH]; intros m Hnd Hin; [by apply elem_of_nil in Hin|].
  simpl in *. apply list.NoDup_cons in Hnd as [Hn Hnd]. rewrite bool_decide_false by done.
  assert (Hother : n ∉ l.*1 → ∀ m, single_loop c path l m !! n = m !! n).
  { clear -Hi. induction l as [|[n2 f2] l IH]; intros Hn m; [done|]. simpl in *.
    apply not_elem_of_cons in Hn as [Hne Hn]. rewrite bool_decide_false by done.
    destruct (FilePatterns c); [destruct (skip_file _)|]; rewrite IH by done; [done|..];
      by rewrite lookup_insert_ne. }
  apply elem_of_cons in Hin as [[= -> ->]|Hin].
  - rewrite Hs. destruct (FilePatterns c); rewrite Hother by done; apply lookup_insert_eq.
  - destruct (FilePatterns c) as [pt|]; [destruct (skip_file (FilterHooks c n' (Some pt)))|]; by apply IH.
Qed.

(** When two directories that are listed without recursion hold a file of
    the same name, only the one of the later directory is watched: whatever is
    recorded for the first one, the listing has the information of the second
    one under the bare name, so that a change of the first one sends nothing. *)
Theorem reload_same_name_shadowed fs c d1 d2 p1 p2 i1 i2 ch1 ch2 name n1 n2 l :
  Recursive_ c = false → Directories c = [d1; d2] →
  fs_abs fs d1 = inl p1 → fs_abs fs d2 = inl p2 →
  fs_stat fs p1 = Some (NDir i1 ch1) → fs_stat fs p2 = Some (NDir i2 ch2) →
  NoDup ch2.*1 → (name, n1) ∈ ch1 → (name, n2) ∈ ch2 →
  p2 ∉ Ignored c → skip_file (FilterHooks c name (FilePatterns c)) = false →
  retrieveFileList fs c = Ok l →
  l !! name = Some (node_info n2).
Proof.
  intros Hr Hd Ha1 Ha2 Hs1 Hs2 Hnd2 H1 H2 Hi Hsk Hl.
  unfold retrieveFileList in Hl. rewrite Hd in Hl. cbn [list_dirs] in Hl.
  rewrite Ha1, Ha2, Hr in Hl. unfold retrieveFilesSingle in Hl. rewrite Hs1, Hs2 in Hl.
  cbn [mbind res_bind] in Hl. injection Hl as <-.
  apply lookup_union_Some_l. by apply single_loop_last.
Qed.

(** ** Resets *)

Lemma reset_loop_ok l w w' :
  reset_loop l w = (w', None) → w' = foldl (λ w n, (Reset_ n w).1) w l.
Proof.
  revert w. induction l as [|n l IH]; intros w Hl; simpl in *; [by simplify_eq|].
  destruct (Reset_ n w) as [w1 [e|]]; [done|]. simpl. by apply IH.
Qed.

Lemma collect_events l c w :
  failed c = None →
  (∀ s, s ∈ l → ∃ n, s = SEvent n) →
  (collect_all l c w).2 = w ∧ failed (collect_all l c w).1 = None ∧
  (armed c = true → armed (collect_all l c w).1 = true) ∧
  (l ≠ [] → armed (collect_all l c w).1 = true) ∧
  ∀ n, is_Some (updated (collect_all l c w).1 !! n) ↔ SEvent n ∈ l ∨ is_Some (updated c !! n).
Proof.
  revert c. induction l as [|s l IH]; intros c Hf Hl; simpl.
  { split_and!; [done..|]. intros n. split; [by right|]. intros [H|H]; [by apply elem_of_nil in H|done]. }
  destruct (Hl s) as [n0 ->]; [left|]. unfold collect. rewrite Hf.
  destruct (IH (MkCollector (<[n0 := default zero_service (plugins cfg !! n0)]> (updated c)) true None))
    as (Hw & Hfl & Har & _ & Hu); [done|intros s Hs; apply Hl; by right|].
  split_and!; [done|done|auto|auto|]. intros n. rewrite Hu. cbn [updated].
  rewrite lookup_insert_is_Some', elem_of_cons. split.
  - intros [H|[->|H]]; auto.
  - intros [[[= ->]|H]|H]; auto.
Qed.

(** Events are collected until the timer fires: however many events came,
    the resetter is then called once for every service that had one, for no
    other, and afterwards nothing is left to reset. *)
Theorem reload_resets_once l c w c' w' :
  failed c = None → armed c = true → updated c = ∅ →
  (∀ s, s ∈ l → ∃ n, s = SEvent n) →
  collect_all (l ++ [SFire]) c w = (c', w') → failed c' = None →
  ∃ order, NoDup order ∧ (∀ n, n ∈ order ↔ SEvent n ∈ l) ∧
    w' = foldl (λ w n, (Reset_ n w).1) w order ∧ updated c' = ∅.
Proof.
  intros Hf Ha Hu Hl Hc Hf'.
  assert (Happ : ∀ l1 l2 c w, collect_all (l1 ++ l2) c w =
    collect_all l2 (collect_all l1 c w).1 (collect_all l1 c w).2).
  { induction l1 as [|s l1 IH]; intros l2 c0 w0; simpl; [done|].
    destruct (collect s c0 w0) as [c1 w1]. apply IH. }
  rewrite Happ in Hc. destruct (collect_events l c w Hf Hl) as (Hw & Hfl & Har & _ & Hup).
  destruct (collect_all l c w) as [c1 w1]. cbn [fst snd] in *. subst w1. simpl in Hc.
  unfold collect in Hc. rewrite Hfl, (Har Ha) in Hc. cbn [negb] in Hc.
  destruct (reset_loop _ w) as [w1 [e|]] eqn:Er; simplify_eq.
  exists (range_map (updated c1)).*1.
  split_and!; [apply range_map_NoDup| |by apply reset_loop_ok|done].
  intros n. rewrite elem_of_keys, Hup, Hu, lookup_empty. split; [|by left].
  intros [H|[]%is_Some_None]. done.
Qed.

End Watcher.

(** ** Witnesses *)

Definition w_info (n : string) (t : Z) : FileInfo := MkFileInfo n false t 420 10.
Definition w_dir (n : string) : FileInfo := MkFileInfo n true 1 493 4096.
Definition w_fs (t : Z) : filesystem := MkFs
  (λ p, if String.eqb p "/app/a" then Some (NDir (w_dir "a") [("index.php", NFile (w_info "index.php" t))])
        else if String.eqb p "/app/b" then Some (NDir (w_dir "b") [("index.php", NFile (w_info "index.php" 7))])
        else None)
  (λ p, inl ("/app/" +:+ p)).
Definition w_config : WatcherConfig :=
  MkWatcherConfig "http" false ["a"; "b"] filter_hook ∅ ∅ (Some [".php"]).

Definition w_listing (t : Z) : gmap string FileInfo :=
  match retrieveFileList (w_fs t) w_config with Ok l => l | _ => ∅ end.

Lemma reload_same_name_shadowed_witness :
  w_listing 1 !! "index.php" = Some (w_info "index.php" 7).
Proof.
  apply (reload_same_name_shadowed (w_fs 1) w_config "a" "b" "/app/a" "/app/b" (w_dir "a") (w_dir "b")
    [("index.php", NFile (w_info "index.php" 1))] [("index.php", NFile (w_info "index.php" 7))]
    "index.php" (NFile (w_info "index.php" 1)) (NFile (w_info "index.php" 7)));
    try reflexivity.
  - apply list.NoDup_singleton.
  - left.
  - left.
  - apply not_elem_of_empty.
Defined.

Definition w_service : ServiceConfig := MkServiceConfig true None ["src"] [].
Definition w_cfg : Config := MkConfig second None (Some {["http" := w_service]}).
Definition w_reset (n : string) (w : list string) : list string * option error := (w ++ [n], None).

Lemma reload_resets_once_witness :
  ∃ order, NoDup order ∧ (∀ n, n ∈ order ↔ SEvent n ∈ [SEvent "http"; SEvent "http"]) ∧
    ["http"] = foldl (λ w n, (w_reset n w).1) [] order ∧ updated (MkCollector ∅ false None) = ∅.
Proof.
  apply (reload_resets_once w_cfg w_reset [SEvent "http"; SEvent "http"] new_collector []
    (MkCollector ∅ false None) ["http"]); try reflexivity.
  intros s Hs. repeat (apply elem_of_cons in Hs as [->|Hs]; [by exists "http"|]). by apply elem_of_nil in Hs.
Defined.

End Reload.
