(* ===== verification/ReloadSystem.v ===== *)
(** * The goroutines of the reload plugin

    [Serve] starts three goroutines: one polls the files and sends an event per
    change over a channel without places, one copies events into a channel of
    [thresholdChanBuffer] places, one collects them and resets services when its
    timer fires.  [Stop] sends to the first and to the third.  [exec] runs one
    step of one of them. *)

From stdpp Require Import base gmap strings list relations.
From Stdlib Require Import ZArith Lia.
From S2P Require Import Prelude GoStrings Reload.

Module ReloadSystem.
Import Reload.

Definition thresholdChanBuffer : nat := 1000.

(** The polling goroutine: not there, about to start, in its [select], sending
    the events of a tick (their services), or returned. *)
Inductive poller := NotStarted | Fresh (w : Watcher) | Waiting (w : Watcher) | Sending (w : Watcher) (l : list string) | Gone.

(** [Stop]: not called, waiting to send on [close], waiting to send on [stopc],
    returned. *)
Inductive stopping := Running | WaitClose | WaitStopc | Stopped.

Section system.
Context `{GR : GoRange} {W : Type} (cfg : Config) (Reset_ : string → W → W * option error).

(** [held]: the event the copying goroutine has received and not sent; [ended]:
    the collecting goroutine has received the stop; [resets] lists, for the
    statements, the services that were reset. *)
Record state := MkState {
  poll : poller; held : option string; thCh : list string; coll : collector; ended : bool;
  stopc : bool; stop : stopping; world : W; resets : list string }.

Definition with_poll p s := MkState p (held s) (thCh s) (coll s) (ended s) (stopc s) (stop s) (world s) (resets s).
Definition with_stop x s := MkState (poll s) (held s) (thCh s) (coll s) (ended s) (stopc s) x (world s) (resets s).

(** [Serve]; with an interval that is too short nothing is started. *)
Definition start (w : Watcher) (x : W) : state :=
  MkState (match Serve cfg with Some _ => NotStarted | None => Fresh w end) None [] new_collector
    (match Serve cfg with Some _ => true | None => false end) false Running x [].

Inductive action :=
  | ABegin | ATick (fs : filesystem) | AForward | APut | ACollect | AFire | AEnd | AStop | AClose | AStopc.

(** The collecting goroutine is there. *)
Definition alive (s : state) : bool := negb (ended s) && match failed (coll s) with None => true | Some _ => false end.

Definition sending (w : Watcher) (l : list string) : poller := match l with [] => Waiting w | _ => Sending w l end.

Definition exec (a : action) (s : state) : option state :=
  match a with
  | ABegin => match poll s with
              | Fresh w => Some (with_poll (match StartPolling w with (w, Ok _) => Waiting w | _ => Gone end) s)
              | _ => None
              end
  | ATick fs => match poll s with
                | Waiting w => let '(w, evs) := tick fs w in Some (with_poll (sending w (ev_service <$> evs)) s)
                | _ => None
                end
  | AForward => match poll s, held s with
                | Sending w (e :: l), None =>
                    Some (MkState (sending w l) (Some e) (thCh s) (coll s) (ended s) (stopc s) (stop s) (world s) (resets s))
                | _, _ => None
                end
  | APut => match held s with
            | Some e => if (length (thCh s) <? thresholdChanBuffer)%nat
                        then Some (MkState (poll s) None (thCh s ++ [e]) (coll s) (ended s) (stopc s) (stop s) (world s) (resets s))
                        else None
            | None => None
            end
  | ACollect => match thCh s with
                | e :: l => if alive s
                            then let '(c, x) := collect cfg Reset_ (SEvent e) (coll s) (world s) in
                                 Some (MkState (poll s) (held s) l c (ended s) (stopc s) (stop s) x (resets s))
                            else None
                | [] => None
                end
  | AFire => if alive s && armed (coll s)
             then let '(c, x) := collect cfg Reset_ SFire (coll s) (world s) in
                  let done := match failed c with None => (range_map (updated (coll s))).*1 | Some _ => [] end in
                  Some (MkState (poll s) (held s) (thCh s) c (ended s) (stopc s) (stop s) x (resets s ++ done))
             else None
  | AEnd => if alive s && stopc s
            then Some (MkState (poll s) (held s) (thCh s) (coll s) true false (stop s) (world s) (resets s))
            else None
  | AStop => match stop s with Running => Some (with_stop WaitClose s) | _ => None end
  | AClose => match stop s, poll s with
              | WaitClose, Waiting _ => Some (with_stop WaitStopc (with_poll Gone s))
              | _, _ => None
              end
  | AStopc => match stop s with
              | WaitStopc => if stopc s then None
                             else Some (MkState (poll s) (held s) (thCh s) (coll s) (ended s) true Stopped (world s) (resets s))
              | _ => None
              end
  end.

Definition step (s s' : state) : Prop := ∃ a, exec a s = Some s'.

(** *** Changes reach the resetter *)

Definition unsent (p : poller) : list string := match p with Sending _ l => l | _ => [] end.

(** The service has an event on its way, or has been reset since the first [n]
    resets. *)
Definition noticed (n : nat) (svc : string) (s : state) : Prop :=
  svc ∈ unsent (poll s) ∨ held s = Some svc ∨ svc ∈ thCh s ∨ is_Some (updated (coll s) !! svc) ∨ svc ∈ drop n (resets s).

Lemma unsent_sending w l : unsent (sending w l) = l.
Proof. by destruct l. Qed.

Lemma collect_event e c x : failed c = None →
  collect cfg Reset_ (SEvent e) c x =
    (MkCollector (<[e := default zero_service (plugins cfg !! e)]> (updated c)) true None, x).
Proof. intros Hf. unfold collect. by rewrite Hf. Qed.

Lemma alive_failed s : alive s = true → failed (coll s) = None ∧ ended s = false.
Proof. unfold alive. destruct (failed (coll s)), (ended s); done. Qed.

Lemma exec_noticed a s s' n svc :
  exec a s = Some s' → (n ≤ length (resets s))%nat → noticed n svc s → noticed n svc s' ∧ (n ≤ length (resets s'))%nat.
Proof.
  unfold noticed. intros He Hn Hs. destruct a; simpl in He.
  - destruct (poll s) as [|w| | |] eqn:Ep; try done. injection He as <-. simpl in *. by destruct (StartPolling w) as [w' []].
  - destruct (poll s) as [| |w| |] eqn:Ep; try done. destruct (tick fs w) as [w' evs]. injection He as <-. simpl in *.
    split; [|done]. destruct Hs as [Hs|Hs]; [by apply elem_of_nil in Hs|by right].
  - destruct (poll s) as [| | |w [|e l]|] eqn:Ep; try done. destruct (held s) eqn:Eh; [done|]. injection He as <-. simpl in *.
    rewrite unsent_sending. split; [|done]. destruct Hs as [[->|Hs]%elem_of_cons|[Hs|Hs]]; [by right; left|by left|done|by do 2 right].
  - destruct (held s) as [e|] eqn:Eh; [|done]. destruct (_ <? _)%nat; [|done]. injection He as <-. simpl in *.
    split; [|done]. rewrite elem_of_app, list_elem_of_singleton. naive_solver.
  - destruct (thCh s) as [|e l] eqn:Et; [done|]. destruct (alive s) eqn:Ea; [|done]. apply alive_failed in Ea as [Ef _].
    rewrite collect_event in He by done. injection He as <-. simpl in *. split; [|done].
    rewrite lookup_insert_is_Some'. rewrite elem_of_cons in Hs. naive_solver.
  - destruct (alive s && armed (coll s)) eqn:Ea; [|done]. apply andb_true_iff in Ea as [[Ef _]%alive_failed Ear].
    unfold collect in He. rewrite Ef, Ear in He. simpl in He. destruct (reset_loop _ _ _) as [x [e|]]; injection He as <-; simpl.
    + rewrite app_nil_r. done.
    + rewrite length_app, drop_app_le by done. split; [|lia]. rewrite elem_of_app, elem_of_keys. naive_solver.
  - destruct (alive s && stopc s); [|done]. by injection He as <-.
  - destruct (stop s); try done. by injection He as <-.
  - destruct (stop s); try done. destruct (poll s) eqn:Ep; try done. by injection He as <-.
  - destruct (stop s); try done. destruct (stopc s); [done|]. by injection He as <-.
Qed.

(** *** The goroutines come to rest *)

(** Every step but a tick of the poll and the call of [Stop]. *)
Definition own (a : action) : Prop := match a with ATick _ | AStop => False | _ => True end.
Definition internal (s s' : state) : Prop := ∃ a, own a ∧ exec a s = Some s'.

Definition measure (s : state) : nat :=
  (match poll s with Fresh _ => 1 | Sending _ l => 4 * length l | _ => 0 end
   + match held s with Some _ => 3 | None => 0 end + 2 * length (thCh s) + Nat.b2n (armed (coll s))
   + match stop s with WaitClose => 3 | WaitStopc => 2 | _ => 0 end + Nat.b2n (stopc s))%nat.

Lemma own_measure s s' : internal s s' → (measure s' < measure s)%nat.
Proof.
  intros (a & Ho & He). unfold measure. destruct a; try done; simpl in He.
  - destruct (poll s) as [|w| | |] eqn:Ep; try done. injection He as <-. simpl. destruct (StartPolling w) as [w' []]; simpl; lia.
  - destruct (poll s) as [| | |w [|e l]|] eqn:Ep; try done. destruct (held s) eqn:Eh; [done|]. injection He as <-. simpl.
    destruct l; simpl; lia.
  - destruct (held s) as [e|] eqn:Eh; [|done]. destruct (_ <? _)%nat; [|done]. injection He as <-. simpl. rewrite length_app. simpl. lia.
  - destruct (thCh s) as [|e l] eqn:Et; [done|]. destruct (alive s) eqn:Ea; [|done]. apply alive_failed in Ea as [Ef _].
    rewrite collect_event in He by done. injection He as <-. simpl. lia.
  - destruct (alive s && armed (coll s)) eqn:Ea; [|done]. apply andb_true_iff in Ea as [[Ef _]%alive_failed Ear].
    unfold collect in He. rewrite Ef, Ear in He. simpl in He.
    destruct (reset_loop _ _ _) as [x [e|]]; injection He as <-; simpl; rewrite Ear; simpl; lia.
  - destruct (alive s); [|done]. destruct (stopc s) eqn:Es; [|done]. injection He as <-. simpl. lia.
  - destruct (stop s) eqn:Es; try done. destruct (poll s) eqn:Ep; try done. injection He as <-. simpl. lia.
  - destruct (stop s) eqn:Es; try done. destruct (stopc s) eqn:Ec; [done|]. injection He as <-. simpl. lia.
Qed.

Lemma own_terminates s : sn internal s.
Proof.
  remember (measure s) as k eqn:Ek. revert s Ek. induction (lt_wf k) as [k _ IH]. intros s ->.
  constructor. intros s' Hs. apply (IH (measure s')); [by apply own_measure|done].
Qed.

(** How far [Stop] has come; the resetter has reported no error. *)
Record ok (s : state) : Prop := MkOk {
  ok_fresh w : poll s = Fresh w → started w = false;
  ok_started : poll s ≠ NotStarted;
  ok_gone : poll s = Gone → stop s = WaitStopc ∨ stop s = Stopped;
  ok_stopc : stopc s = true → stop s = Stopped;
  ok_ended : ended s = true → stop s = Stopped;
  ok_failed : failed (coll s) = None;
  ok_armed : updated (coll s) ≠ ∅ → armed (coll s) = true;
  ok_sending w : poll s ≠ Sending w []
}.

Hypothesis Hserve : Serve cfg = None.
Hypothesis Hreset : ∀ n x, (Reset_ n x).2 = None.

Lemma reset_loop_total l x : (reset_loop Reset_ l x).2 = None.
Proof. revert x. induction l as [|n l IH]; intros x; simpl; [done|]. pose proof (Hreset n x). destruct (Reset_ n x) as [y [e|]]; [done|]. apply IH. Qed.

Lemma reload_exec_ok a s s' : exec a s = Some s' → ok s → ok s'.
Proof.
  intros He [H1 H2 H3 H4 H5 H6 H7 H8]. destruct a; simpl in He.
  - destruct (poll s) as [|w| | |] eqn:Ep; try done. injection He as <-. unfold StartPolling. rewrite (H1 w) by done.
    by split.
  - destruct (poll s) as [| |w| |] eqn:Ep; try done. destruct (tick fs w) as [w' evs]. injection He as <-.
    unfold sending. split; simpl; try done; by destruct (ev_service <$> evs).
  - destruct (poll s) as [| | |w [|e l]|] eqn:Ep; try done. destruct (held s) eqn:Eh; [done|]. injection He as <-.
    unfold sending. split; simpl; try done; by destruct l.
  - destruct (held s) as [e|] eqn:Eh; [|done]. destruct (_ <? _)%nat; [|done]. injection He as <-. by split.
  - destruct (thCh s) as [|e l] eqn:Et; [done|]. destruct (alive s) eqn:Ea; [|done].
    rewrite collect_event in He by done. injection He as <-. by split.
  - destruct (alive s && armed (coll s)) eqn:Ea; [|done]. apply andb_true_iff in Ea as [_ Ear].
    unfold collect in He. rewrite H6, Ear in He. simpl in He. pose proof (reset_loop_total (range_map (updated (coll s))).*1 (world s)) as Hr.
    destruct (reset_loop _ _ _) as [x [e|]]; [done|]. injection He as <-. by split.
  - destruct (alive s); [|done]. destruct (stopc s) eqn:Es; [|done]. injection He as <-. split; simpl; auto.
  - destruct (stop s) eqn:Es; try done. injection He as <-. split; simpl; try done.
    + intros Hg. destruct (H3 Hg); done.
    + intros Hg. by specialize (H4 Hg).
    + intros Hg. by specialize (H5 Hg).
  - destruct (stop s) eqn:Es; try done. destruct (poll s) eqn:Ep; try done. injection He as <-. split; simpl; try done; auto.
    + intros Hg. by specialize (H4 Hg).
    + intros Hg. by specialize (H5 Hg).
  - destruct (stop s) eqn:Es; try done. destruct (stopc s) eqn:Ec; [done|]. injection He as <-. split; simpl; auto.
Qed.

Lemma reach_ok s s' : rtc step s s' → ok s → ok s'.
Proof. induction 1 as [|x y z [a Ha] _ IH]; [done|]. intros Hx. by eapply IH, reload_exec_ok. Qed.

Lemma start_ok w x : started w = false → ok (start w x).
Proof. intros Hw. unfold start. rewrite Hserve. split; simpl; try done. by intros w' [= <-]. Qed.

Lemma internal_step s s' : rtc internal s s' → rtc step s s'.
Proof. apply rtc_subrel. intros x y (a & _ & He). by exists a. Qed.

Lemma enabled s a : own a → is_Some (exec a s) → ¬ nf internal s.
Proof. intros Ho [s' He] Hn. apply Hn. exists s', a. done. Qed.

(** Nothing is left to do only when [Stop] is not waiting and no event is on its
    way to a collector that is there. *)
Lemma rest_quiet s :
  ok s → nf internal s → (stop s = Running ∨ stop s = Stopped) ∧
  (stop s = Running → unsent (poll s) = [] ∧ held s = None ∧ thCh s = [] ∧ updated (coll s) = ∅).
Proof.
  intros Hok Hnf. assert (Hen := λ a, enabled s a).
  assert (Halive : stop s ≠ Stopped → alive s = true).
  { intros Hs. unfold alive. rewrite (ok_failed _ Hok). destruct (ended s) eqn:Ee; [|done]. by apply (ok_ended _ Hok) in Ee. }
  assert (Hch : stop s ≠ Stopped → thCh s = []).
  { intros Hs. destruct (thCh s) as [|e l] eqn:Et; [done|]. destruct (Hen ACollect); [done| |done]. simpl. rewrite Et, (Halive Hs).
    destruct (collect _ _ _ _ _). eauto. }
  assert (Hh : stop s ≠ Stopped → held s = None).
  { intros Hs. destruct (held s) as [e|] eqn:Eh; [|done]. destruct (Hen APut); [done| |done]. simpl. rewrite Eh, (Hch Hs). eauto. }
  assert (Hp : stop s ≠ Stopped → unsent (poll s) = [] ∧ (poll s = Gone ∨ ∃ w, poll s = Waiting w ∨ poll s = Sending w [])).
  { intros Hs. destruct (poll s) as [|w|w|w [|e l]|] eqn:Ep; eauto.
    - by destruct (ok_started _ Hok).
    - destruct (Hen ABegin); [done| |done]. simpl. rewrite Ep. eauto.
    - destruct (Hen AForward); [done| |done]. simpl. rewrite Ep, (Hh Hs). eauto. }
  split.
  - destruct (stop s) eqn:Es; auto.
    + destruct (Hp ltac:(done)) as [_ [Hg|[w Hw]]]; [destruct (ok_gone _ Hok Hg); congruence|].
      destruct Hw as [Hw|Hw]; [|by destruct (ok_sending _ Hok w)].
      destruct (Hen AClose); [done| |done]. simpl. rewrite Es, Hw. eauto.
    + destruct (stopc s) eqn:Ec; [apply (ok_stopc _ Hok) in Ec; congruence|].
      destruct (Hen AStopc); [done| |done]. simpl. rewrite Es, Ec. eauto.
  - intros Hs. assert (Hne : stop s ≠ Stopped) by congruence. split_and!; [by apply Hp|by apply Hh|by apply Hch|].
    destruct (decide (updated (coll s) = ∅)) as [|Hu]; [done|]. destruct (Hen AFire); [done| |done]. simpl.
    rewrite (Halive Hne), (ok_armed _ Hok Hu). simpl. destruct (collect _ _ _ _ _). eauto.
Qed.

Lemma reach_noticed n svc s s' :
  rtc step s s' → (n ≤ length (resets s))%nat → noticed n svc s → noticed n svc s'.
Proof.
  induction 1 as [|x y z [a Ha] _ IH]; [done|]. intros Hn Hx. destruct (exec_noticed _ _ _ _ _ Ha Hn Hx) as [Hy Hn']. by apply IH.
Qed.

(** The goroutines do not begin the stop. *)
Lemma own_running s s' : rtc internal s s' → stop s' = Running ↔ stop s = Running.
Proof.
  induction 1 as [|x y z (a & Ho & He) _ IH]; [done|]. rewrite IH. destruct a; try done; simpl in He.
  - destruct (poll x); try done. by injection He as <-.
  - destruct (poll x) as [| | |w [|e l]|]; try done. destruct (held x); [done|]. by injection He as <-.
  - destruct (held x); [|done]. destruct (_ <? _)%nat; [|done]. by injection He as <-.
  - destruct (thCh x); [done|]. destruct (alive x); [|done]. destruct (collect _ _ _ _ _). by injection He as <-.
  - destruct (alive x && armed (coll x)); [|done]. destruct (collect _ _ _ _ _). by injection He as <-.
  - destruct (alive x && stopc x); [|done]. by injection He as <-.
  - destruct (stop x); try done. destruct (poll x); try done. by injection He as <-.
  - destruct (stop x); try done. destruct (stopc x); [done|]. by injection He as <-.
Qed.

(** C21: as long as the resetter reports no error and [Serve] accepted the interval,
    every change a poll sees gets its service reset, unless the plugin is stopped
    first: whatever the goroutines do meanwhile, they come to rest after finitely
    many steps, and then the service has been reset after the poll. *)
Theorem reload_change_resets w x s0 fs s1 svc s2 :
  started w = false → rtc step (start w x) s0 → exec (ATick fs) s0 = Some s1 → svc ∈ unsent (poll s1) →
  rtc step s1 s2 → stop s2 = Running →
  sn internal s2 ∧ ∀ s3, rtc internal s2 s3 → nf internal s3 → svc ∈ drop (length (resets s1)) (resets s3).
Proof.
  intros Hw H0 Ht Hsvc H2 Hst. split; [apply own_terminates|]. intros s3 H3 Hnf.
  assert (Hok : ok s3).
  { apply (reach_ok _ _ (internal_step _ _ H3)), (reach_ok _ _ H2), (reload_exec_ok _ _ _ Ht), (reach_ok _ _ H0), start_ok, Hw. }
  assert (Hn : noticed (length (resets s1)) svc s3).
  { apply (reach_noticed _ _ s1); [etrans; [done|by apply internal_step]|done|by left]. }
  destruct (rest_quiet s3 Hok Hnf) as [_ Hq]. destruct (Hq (proj2 (own_running _ _ H3) Hst)) as (Q1 & Q2 & Q3 & Q4).
  unfold noticed in Hn. rewrite Q1, Q2, Q3, Q4, lookup_empty in Hn.
  destruct Hn as [Hn|[Hn|[Hn|[[? Hn]|Hn]]]]; [by apply elem_of_nil in Hn|done|by apply elem_of_nil in Hn|done|done].
Qed.

(** A call of [Stop] returns as long as the resetter reports no error: the
    goroutines come to rest after finitely many steps, also in the middle of a
    poll with any number of events, and then it has returned. *)
Theorem reload_stop_returns w x s :
  started w = false → rtc step (start w x) s → stop s ≠ Running →
  sn internal s ∧ ∀ s', rtc internal s s' → nf internal s' → stop s' = Stopped.
Proof.
  intros Hw H0 Hst. split; [apply own_terminates|]. intros s' Hs Hnf.
  assert (Hok : ok s') by (apply (reach_ok _ _ (internal_step _ _ Hs)), (reach_ok _ _ H0), start_ok, Hw).
  destruct (rest_quiet s' Hok Hnf) as [[Hr|Hr] _]; [|done]. by apply (own_running _ _ Hs) in Hr.
Qed.

(** *** A stop that waits for ever *)

(** The polling goroutine is not there, or it waits behind a full channel that
    nobody empties, the collecting goroutine having returned after an error of
    the resetter. *)
Definition jammed (s : state) : Prop :=
  poll s = NotStarted ∨
  is_Some (failed (coll s)) ∧ length (thCh s) = thresholdChanBuffer ∧ is_Some (held s) ∧ ∃ w e l, poll s = Sending w (e :: l).

Lemma exec_jammed a s s' : exec a s = Some s' → jammed s → stop s ≠ WaitStopc → stop s ≠ Stopped →
  jammed s' ∧ stop s' ≠ WaitStopc ∧ stop s' ≠ Stopped.
Proof.
  intros He Hj H1 H2. destruct a; simpl in He.
  - destruct (poll s) eqn:Ep; try done. destruct Hj as [Hj|(_ & _ & _ & ? & ? & ? & Hj)]; congruence.
  - destruct (poll s) eqn:Ep; try done. destruct Hj as [Hj|(_ & _ & _ & ? & ? & ? & Hj)]; congruence.
  - destruct (poll s) as [| | |w [|e l]|] eqn:Ep; try done. destruct (held s) eqn:Eh; [done|].
    destruct Hj as [Hj|(_ & _ & [? Hj] & _)]; congruence.
  - destruct (held s) eqn:Eh; [|done]. destruct (Nat.ltb_spec (length (thCh s)) thresholdChanBuffer); [|done].
    destruct Hj as [Hj|(_ & Hl & _)]; [|lia]. injection He as <-. split; [by left|done].
  - destruct (thCh s); [done|]. destruct (alive s) eqn:Ea; [|done]. destruct Hj as [Hj|([e He'] & _)].
    + destruct (collect _ _ _ _ _). injection He as <-. split; [by left|done].
    + apply alive_failed in Ea as [Ea _]. congruence.
  - destruct (alive s && armed (coll s)) eqn:Ea; [|done]. apply andb_true_iff in Ea as [[Ea _]%alive_failed _].
    destruct Hj as [Hj|([e He'] & _)]; [|congruence]. destruct (collect _ _ _ _ _). injection He as <-. split; [by left|done].
  - destruct (alive s) eqn:Ea; [|done]. destruct (stopc s); [|done]. destruct Hj as [Hj|([e He'] & _)].
    + injection He as <-. split; [by left|done].
    + apply alive_failed in Ea as [Ea _]. congruence.
  - destruct (stop s); try done. injection He as <-. split; [|done]. destruct Hj as [Hj|Hj]; [by left|by right].
  - destruct (stop s); try done. destruct (poll s) eqn:Ep; try done. destruct Hj as [Hj|(_ & _ & _ & ? & ? & ? & Hj)]; congruence.
  - by destruct (stop s).
Qed.

(** When [Serve] refused the interval, or when the resetter has reported an error
    and a thousand and two events have come since, a call of [Stop] does not
    return, whatever happens. *)
Theorem reload_stop_blocks s s' :
  jammed s → stop s = Running ∨ stop s = WaitClose → rtc step s s' → stop s' ≠ Stopped.
Proof.
  intros Hj Hs Hr. assert (H1 : stop s ≠ WaitStopc ∧ stop s ≠ Stopped) by (by destruct Hs as [-> | ->]). clear Hs.
  induction Hr as [x|x y z [a Ha] _ IH]; [by destruct H1|]. destruct H1 as [H1 H2].
  destruct (exec_jammed _ _ _ Ha Hj H1 H2) as (Hj' & H3). by apply IH.
Qed.
End system.

(** ** Examples *)

Definition w_watcher : Watcher := MkWatcher false {["http" := w_config]}.
Definition w_run (l : list action) (s : state (W := list string)) : option (state (W := list string)) :=
  foldl (λ o a, s ← o; exec w_cfg w_reset a s) (Some s) l.

Lemma w_run_rtc l s s' : w_run l s = Some s' → rtc (step w_cfg w_reset) s s'.
Proof.
  unfold w_run. revert s. induction l as [|a l IH]; intros s; simpl; [by intros [= ->]|].
  destruct (exec w_cfg w_reset a s) as [s1|] eqn:E; simpl.
  - intros Hr. eapply rtc_l; [by exists a|]. by apply IH.
  - intros Hr. exfalso. clear -Hr. induction l as [|b l IH]; [done|]. by apply IH.
Qed.
Definition w_s0 : state := default (start w_cfg w_watcher []) (w_run [ABegin] (start w_cfg w_watcher [])).
Definition w_s1 : state := default w_s0 (exec w_cfg w_reset (ATick (w_fs 1)) w_s0).
Lemma reload_change_resets_witness :
  sn (internal w_cfg w_reset) w_s1 ∧
  ∀ s3, rtc (internal w_cfg w_reset) w_s1 s3 → nf (internal w_cfg w_reset) s3 → "http" ∈ drop 0 (resets s3).
Proof.
  apply (reload_change_resets w_cfg w_reset eq_refl (λ _ _, eq_refl) w_watcher [] w_s0 (w_fs 1) w_s1 "http" w_s1).
  - reflexivity.
  - apply (w_run_rtc [ABegin]). reflexivity.
  - vm_compute. reflexivity.
  - vm_compute. left.
  - apply rtc_refl.
  - reflexivity.
Defined.

Lemma reload_stop_returns_witness :
  let s := with_stop WaitClose w_s1 in
  sn (internal w_cfg w_reset) s ∧
  ∀ s', rtc (internal w_cfg w_reset) s s' → nf (internal w_cfg w_reset) s' → stop s' = Stopped.
Proof.
  apply (reload_stop_returns w_cfg w_reset eq_refl (λ _ _, eq_refl) w_watcher []).
  - reflexivity.
  - apply (w_run_rtc [ABegin; ATick (w_fs 1); AStop]). vm_compute. reflexivity.
  - done.
Defined.

Lemma reload_stop_blocks_witness :
  let s := start (MkConfig 1 None None) w_watcher ([] : list string) in
  ∀ s', rtc (step (MkConfig 1 None None) w_reset) s s' → stop s' ≠ Stopped.
Proof.
  intros s s'. apply (reload_stop_blocks (MkConfig 1 None None) w_reset s s'); [left; reflexivity|left; reflexivity].
Defined.
End ReloadSystem.
