(* ===== verification/HttpBase.v ===== *)
(** * What the plugins use of [net/http]

    Headers with their canonical names, the response writer, [http.Error], and
    the helpers of [net] and [net/url] that requests go through. *)

From stdpp Require Import base gmap strings list.
From Stdlib Require Import ZArith Ascii Lia.
From Stdlib Require String.
From S2P Require Import Prelude GoStrings.

Module HttpBase.

(** [err.Error()] *)
Class ErrorText := { error_text : error → string }.

(** ** Headers *)

Abbreviation Header := (gmap string (list string)).

Definition upper_ascii (a : ascii) : ascii :=
  if between 97 122 a then ascii_of_N (N_of_ascii a - 32) else a.

(** The bytes a header name may have (RFC 7230, token). *)
Definition token_char (a : ascii) : bool :=
  between 48 57 a || between 65 90 a || between 97 122 a || mem_char "!#$%&'*+-.^_`|~" a.

Fixpoint canonical_chars (upper : bool) (l : list ascii) : list ascii :=
  match l with
  | [] => []
  | a :: l' => (if upper then upper_ascii a else lower_ascii a)
                 :: canonical_chars (Ascii.eqb a "-") l'
  end.

(** [textproto.CanonicalMIMEHeaderKey]: a name with other bytes is left alone. *)
Definition CanonicalKey (s : string) : string :=
  if forallb token_char (chars s) then text (canonical_chars true (chars s)) else s.

Example CanonicalKey_ct : CanonicalKey "content-type" = "Content-Type".
Proof. reflexivity. Qed.
Example CanonicalKey_trailer : CanonicalKey "Trailer:foo" = "Trailer:foo".
Proof. reflexivity. Qed.

Definition hdr_Values (k : string) (h : Header) : list string := default [] (h !! CanonicalKey k).
Definition hdr_Get (k : string) (h : Header) : string := default "" (head (hdr_Values k h)).
Definition hdr_Set (k v : string) (h : Header) : Header := <[CanonicalKey k := [v]]> h.
Definition hdr_Add (k v : string) (h : Header) : Header :=
  <[CanonicalKey k := hdr_Values k h ++ [v]]> h.
Definition hdr_Del (k : string) (h : Header) : Header := delete (CanonicalKey k) h.

Lemma hdr_Get_Set k v h : hdr_Get k (hdr_Set k v h) = v.
Proof. unfold hdr_Get, hdr_Values, hdr_Set. by rewrite lookup_insert_eq. Qed.
Lemma hdr_Get_Set_ne k k' v h :
  CanonicalKey k ≠ CanonicalKey k' → hdr_Get k (hdr_Set k' v h) = hdr_Get k h.
Proof. intros Hn. unfold hdr_Get, hdr_Values, hdr_Set. by rewrite lookup_insert_ne. Qed.

(** ** The response writer

    [rw_sent] is the header as it was when the status line was written.  A
    connection error or a length that does not fit is [rw_fail]. *)

Record writer := MkWriter {
  rw_header : Header; rw_status : option Z; rw_sent : Header; rw_body : string;
  rw_fail : option error; rw_push : option (string → option error) }.

Definition new_writer : writer := MkWriter ∅ None ∅ "" None None.

Definition with_header (h : Header) (w : writer) : writer :=
  MkWriter h (rw_status w) (rw_sent w) (rw_body w) (rw_fail w) (rw_push w).

(** A status that has no three digits panics; only the first call has an effect. *)
Definition WriteHeader (code : Z) (w : writer) : res writer :=
  if (code <? 100)%Z || (999 <? code)%Z then Panic
  else match rw_status w with
       | Some _ => Ok w
       | None => Ok (MkWriter (rw_header w) (Some code) (rw_header w) (rw_body w) (rw_fail w) (rw_push w))
       end.

Definition body_allowed (code : Z) : bool :=
  negb ((code <? 200)%Z || (code =? 204)%Z || (code =? 304)%Z).

Definition ErrBodyNotAllowed : error := EExt "http: request method or response status code does not allow body".

Definition ensure_header (w : writer) : writer :=
  match rw_status w with
  | Some _ => w
  | None => MkWriter (rw_header w) (Some 200%Z) (rw_header w) (rw_body w) (rw_fail w) (rw_push w)
  end.

Definition Write (data : string) (w : writer) : writer * option error :=
  let w := ensure_header w in
  if String.eqb data "" then (w, None)
  else if negb (body_allowed (default 200%Z (rw_status w))) then (w, Some ErrBodyNotAllowed)
  else match rw_fail w with
       | Some e => (w, Some e)
       | None => (MkWriter (rw_header w) (rw_status w) (rw_sent w) (rw_body w +:+ data) None (rw_push w), None)
       end.

(** [http.Error]; the constants passed by the plugins are valid statuses. *)
Definition http_Error (msg : string) (code : Z) (w : writer) : writer :=
  let w := with_header (hdr_Set "X-Content-Type-Options" "nosniff"
             (hdr_Set "Content-Type" "text/plain; charset=utf-8" (rw_header w))) w in
  match WriteHeader code w with
  | Ok w => (Write (msg +:+ String "010" "") w).1
  | _ => w
  end.

(** The status the client sees: the server writes 200 when the handler did not. *)
Definition final_status (w : writer) : Z := default 200%Z (rw_status w).

(** ** Addresses ([net.SplitHostPort]) *)

Definition has_char (a : ascii) (l : list ascii) : bool := existsb (Ascii.eqb a) l.

(** The text before and after the first [a]. *)
Fixpoint cut (a : ascii) (l : list ascii) : option (list ascii * list ascii) :=
  match l with
  | [] => None
  | b :: l' => if Ascii.eqb a b then Some ([], l')
               else match cut a l' with Some (x, y) => Some (b :: x, y) | None => None end
  end.

(** The same for the last [a]. *)
Definition cut_last (a : ascii) (l : list ascii) : option (list ascii * list ascii) :=
  match cut a (rev l) with Some (x, y) => Some (rev y, rev x) | None => None end.

(** The host, [None] being the error (which comes with an empty host). *)
Definition SplitHost (l : list ascii) : option (list ascii) :=
  match cut_last ":" l with
  | None => None
  | Some (h, port) =>
      match l with
      | b :: l' =>
          if Ascii.eqb b "[" then
            match cut "]" l' with
            | None => None
            | Some (inner, rest) =>
                (* the bracket must be followed by the last colon *)
                if Ascii.eqb (default "000"%char (head rest)) ":" && negb (has_char ":" (tail rest))
                   && negb (has_char "[" inner) && negb (has_char "[" rest) && negb (has_char "]" rest)
                then Some inner else None
            end
          else if has_char ":" h || has_char "[" l || has_char "]" l then None else Some h
      | [] => None
      end
  end.

Definition FetchIP (pair : string) : string :=
  if negb (has_char ":" (chars pair)) then pair
  else text (default [] (SplitHost (chars pair))).

Example FetchIP_v4 : FetchIP "127.0.0.1:8080" = "127.0.0.1".
Proof. reflexivity. Qed.
Example FetchIP_v6 : FetchIP "[::1]:8080" = "::1".
Proof. reflexivity. Qed.
Example FetchIP_bare_v6 : FetchIP "2001:db8::1" = "".
Proof. reflexivity. Qed.

(** ** [url.QueryUnescape] *)

Definition hex_of (a : ascii) : option N :=
  let n := N_of_ascii a in
  if between 48 57 a then Some (n - 48)%N
  else if between 97 102 a then Some (n - 87)%N
  else if between 65 70 a then Some (n - 55)%N
  else None.

Fixpoint query_unescape (l : list ascii) : option (list ascii) :=
  match l with
  | [] => Some []
  | c :: l' =>
      if Ascii.eqb c "%" then
        match l' with
        | a :: b :: l'' =>
            match hex_of a, hex_of b with
            | Some x, Some y => (ascii_of_N (16 * x + y) ::.) <$> query_unescape l''
            | _, _ => None
            end
        | _ => None
        end
      else ((if Ascii.eqb c "+" then " "%char else c) ::.) <$> query_unescape l'
  end.

Definition QueryUnescape (s : string) : option string := text <$> query_unescape (chars s).

Example QueryUnescape_ok : QueryUnescape "a%20b+c" = Some "a b c".
Proof. reflexivity. Qed.
Example QueryUnescape_bad : QueryUnescape "%2" = None.
Proof. reflexivity. Qed.

(** ** [path.Ext] *)

(** The name reversed, up to and including its last dot. *)
Fixpoint ext_rev (l : list ascii) : option (list ascii) :=
  match l with
  | [] => None
  | a :: l' => if Ascii.eqb a "/" then None
               else if Ascii.eqb a "." then Some [a]
               else (a ::.) <$> ext_rev l'
  end.

Definition path_Ext (s : string) : string :=
  text (rev (default [] (ext_rev (rev (chars s))))).

Example path_Ext_php : path_Ext "a.b/shell.tar.PHP" = ".PHP".
Proof. reflexivity. Qed.
Example path_Ext_none : path_Ext "a.b/shell" = "".
Proof. reflexivity. Qed.

(** ** Facts *)

Lemma cut_app a x y : a ∉ x → cut a (x ++ a :: y) = Some (x, y).
Proof.
  induction x as [|b x IH]; intros Hn; simpl.
  - by rewrite Ascii.eqb_refl.
  - apply not_elem_of_cons in Hn as [Hb Hn]. destruct (Ascii.eqb_spec a b); [done|].
    by rewrite IH.
Qed.

Lemma cut_inv a l :
  match cut a l with
  | Some (x, y) => l = x ++ a :: y ∧ a ∉ x
  | None => a ∉ l
  end.
Proof.
  induction l as [|b l IH]; simpl; [apply not_elem_of_nil|].
  destruct (Ascii.eqb_spec a b) as [->|Hne]; [split; [done|apply not_elem_of_nil]|].
  destruct (cut a l) as [[x y]|].
  - destruct IH as [-> Hx]. split; [done|]. by apply not_elem_of_cons.
  - by apply not_elem_of_cons.
Qed.

Lemma cut_last_app a x y : a ∉ y → cut_last a (x ++ a :: y) = Some (x, y).
Proof.
  intros Hn. unfold cut_last.
  rewrite rev_app_distr. simpl. rewrite <- app_assoc. simpl. rewrite cut_app.
  - by rewrite !rev_involutive.
  - by rewrite list_elem_of_In, <- in_rev, <- list_elem_of_In.
Qed.

Lemma has_char_spec a l : has_char a l = true ↔ a ∈ l.
Proof.
  unfold has_char. rewrite existsb_exists. setoid_rewrite Ascii.eqb_eq.
  rewrite list_elem_of_In. naive_solver.
Qed.

(** The host of a pair [host:port]. *)
Lemma FetchIP_pair h p :
  ":"%char ∉ chars h → ":"%char ∉ chars p →
  has_char "[" (chars (h +:+ ":" +:+ p)) = false → has_char "]" (chars (h +:+ ":" +:+ p)) = false →
  FetchIP (h +:+ ":" +:+ p) = h.
Proof.
  intros Hh Hp Hb1 Hb2. unfold FetchIP.
  assert (Hc : chars (h +:+ ":" +:+ p) = chars h ++ ":"%char :: chars p) by (by rewrite chars_app).
  rewrite Hc in *. assert (Hin : has_char ":" (chars h ++ ":"%char :: chars p) = true).
  { apply has_char_spec, elem_of_app. right. left. }
  rewrite Hin. cbn [negb]. unfold SplitHost. rewrite cut_last_app by done.
  assert (Hh0 : has_char ":" (chars h) = false).
  { apply not_true_iff_false. by rewrite has_char_spec. }
  destruct (chars h ++ ":"%char :: chars p) as [|b l] eqn:E; [by destruct (chars h)|].
  assert (Hb : Ascii.eqb b "[" = false).
  { apply not_true_iff_false. intros ->%Ascii.eqb_eq. cbn in Hb1. done. }
  rewrite Hb, Hh0, Hb1, Hb2. cbn. apply text_chars.
Qed.

(** An address with two colons and no brackets has no host for [FetchIP]. *)
Lemma FetchIP_bare a b c :
  ":"%char ∉ chars c → head (chars (a +:+ ":" +:+ b +:+ ":" +:+ c)) ≠ Some "["%char →
  FetchIP (a +:+ ":" +:+ b +:+ ":" +:+ c) = "".
Proof.
  intros Hc Hne. unfold FetchIP.
  assert (Hs : chars (a +:+ ":" +:+ b +:+ ":" +:+ c) =
    (chars a ++ ":"%char :: chars b) ++ ":"%char :: chars c).
  { rewrite !chars_app. simpl. rewrite <- app_assoc. reflexivity. }
  rewrite Hs in *. rewrite (proj2 (has_char_spec _ _)) by set_solver. cbn [negb].
  unfold SplitHost. rewrite cut_last_app by done.
  rewrite (proj2 (has_char_spec ":" (chars a ++ _))) by set_solver. cbn [orb].
  destruct ((chars a ++ ":"%char :: chars b) ++ ":"%char :: chars c) as [|x l]; [done|].
  destruct (Ascii.eqb_spec x "["); [by subst|done].
Qed.

Lemma WriteHeader_ok code w :
  (100 ≤ code ≤ 999)%Z → ∃ w', WriteHeader code w = Ok w' ∧
    rw_status w' = Some (default code (rw_status w)) ∧ rw_body w' = rw_body w.
Proof.
  intros Hc. unfold WriteHeader.
  destruct (Z.ltb_spec code 100); [lia|]. destruct (Z.ltb_spec 999 code); [lia|]. cbn.
  destruct (rw_status w) as [c|] eqn:E; eexists; split; try done; by rewrite ?E.
Qed.

Lemma Write_status d w : rw_status (Write d w).1 = Some (final_status w).
Proof.
  unfold Write, ensure_header, final_status. destruct (rw_status w) as [c|] eqn:E; simpl; rewrite ?E;
    repeat case_match; simpl; by rewrite ?E.
Qed.

Lemma http_Error_status msg code w :
  (100 ≤ code ≤ 999)%Z → rw_status (http_Error msg code w) = Some (default code (rw_status w)).
Proof.
  intros Hc. unfold http_Error.
  match goal with |- context [WriteHeader code ?x] => destruct (WriteHeader_ok code x Hc) as (w' & -> & Hs & _) end.
  rewrite Write_status. unfold final_status. by rewrite Hs.
Qed.
End HttpBase.
