(* ===== verification/HttpForm.v ===== *)
(** * Form and upload trees ([http/handler/parse.go])

    A form key such as [a[b][]] is split into indexes, and the values are mounted
    in a tree of maps.  The same code serves form values and uploaded files; they
    differ in the value that a plain key keeps (the last one, the first one). *)

From stdpp Require Import base gmap strings list.
From Stdlib Require Import ZArith Ascii Lia.
From Stdlib Require String.
From S2P Require Import Prelude GoStrings.

Module HttpForm.

Definition MaxLevel : nat := 127.

(** ** Indexes *)

(** The variables of the loop; the slice [keys] is [keys_init ++ [keys_last]]. *)
Record scan := MkScan { pos : nat; keys_init : list string; keys_last : string }.

Definition keys (s : scan) : list string := keys_init s ++ [keys_last s].

(** [keys = append(keys, e)] with an empty [e]. *)
Definition append_empty (s : scan) : scan := MkScan (pos s) (keys s) "".
Definition set_pos (p : nat) (s : scan) : scan := MkScan p (keys_init s) (keys_last s).

Definition fetch_step (s : scan) (c : list ascii) : scan :=
  let ch := text c in
  if String.eqb ch " " then s
  else if String.eqb ch "[" then set_pos 1 s
  else if String.eqb ch "]" then
    set_pos 2 (if Nat.eqb (pos s) 1 then append_empty s else s)
  else
    let s := if Nat.eqb (pos s) 1 || Nat.eqb (pos s) 2 then append_empty s else s in
    MkScan 0 (keys_init s) (keys_last s +:+ ch).

Definition FetchIndexes (s : string) : list string :=
  keys (foldl fetch_step (MkScan 0 [] "") (runes s)).

Example FetchIndexes_nested : FetchIndexes "a[b][c][]" = ["a"; "b"; "c"; ""].
Proof. reflexivity. Qed.
Example FetchIndexes_odd : FetchIndexes "a [b]c[" = ["a"; "b"; "c"].
Proof. reflexivity. Qed.

(** ** Trees *)

Inductive dval (A : Type) :=
  | VOne (a : A)
  | VMany (l : list A)
  | VTree (m : gmap string (dval A)).
Arguments VOne {A} a.
Arguments VMany {A} l.
Arguments VTree {A} m.

Abbreviation tree A := (gmap string (dval A)).

Section trees.
Context {A : Type}.

(** [pick] is the element a plain key takes from its values; indexing an empty
    slice panics, and so does the assertion that an entry is a tree. *)
Fixpoint mount (pick : list A → option A) (i : list string) (v : list A) (d : tree A)
    : res (tree A) :=
  match i with
  | [] => Panic
  | [k] => match pick v with Some a => Ok (<[k := VOne a]> d) | None => Panic end
  | k :: (k2 :: rest) as i' =>
      if String.eqb k2 "" && Nat.eqb (length rest) 0 then Ok (<[k := VMany v]> d)
      else match d !! k with
           | Some (VTree p) => p ← mount pick i' v p; Ok (<[k := VTree p]> d)
           | Some _ => Panic
           | None => p ← mount pick i' v ∅; Ok (<[k := VTree p]> d)
           end
  end.

Definition push (pick : list A → option A) (k : string) (v : list A) (d : tree A) : res (tree A) :=
  let keys := FetchIndexes k in
  if length keys <=? MaxLevel then mount pick keys v d else Ok d.

(** A loop of pushes over the entries of a map, in the order they come. *)
Fixpoint push_all (pick : list A → option A) (l : list (string * list A)) (d : tree A) : res (tree A) :=
  match l with
  | [] => Ok d
  | (k, v) :: l' => d ← push pick k v d; push_all pick l' d
  end.
End trees.

(** [v[len(v)-1]] and [v[0]]. *)
Definition dataTree_mount : list string → list string → tree string → res (tree string) := mount last.
Definition fileTree_mount : list string → list nat → tree nat → res (tree nat) := mount head.
Definition dataTree_push (k : string) (v : list string) (d : tree string) : res (tree string) :=
  push last k v d.
Definition fileTree_push (k : string) (v : list nat) (d : tree nat) : res (tree nat) :=
  push head k v d.

(** What [net/http] parsed: [r.PostForm] and [r.MultipartForm]. *)
Record form := MkForm {
  PostForm : option (gmap string (list string));
  MultipartValue : option (gmap string (list string)) }.

Definition parseData `{GoRange} (r : form) : res (tree string) :=
  d ← match PostForm r with
      | Some m => push_all last (range_map m) ∅
      | None => Ok ∅
      end;
  match MultipartValue r with
  | Some m => push_all last (range_map m) d
  | None => Ok d
  end.

(** ** What a tree holds *)

Section spec.
Context {A : Type}.
Implicit Types (d : tree A) (t : dval A) (i p : list string).

(** The entry at a path of keys. *)
Fixpoint tree_get t p : option (dval A) :=
  match p with
  | [] => Some t
  | k :: p' => match t with
               | VTree m => match m !! k with Some t' => tree_get t' p' | None => None end
               | _ => None
               end
  end.

Abbreviation get d p := (tree_get (VTree d) p).

Definition is_leaf t : bool := match t with VTree _ => false | _ => true end.

(** Where the values of a list of indexes end up, and as what. *)
Fixpoint target i : list string :=
  match i with
  | [] => []
  | [k] => [k]
  | k :: (k2 :: rest) as i' =>
      if String.eqb k2 "" && Nat.eqb (length rest) 0 then [k] else k :: target i'
  end.

Definition ends_empty i : bool :=
  match rev i with e :: _ :: _ => String.eqb e "" | _ => false end.

Definition leaf (pick : list A → option A) i (v : list A) : option (dval A) :=
  if ends_empty i then Some (VMany v) else VOne <$> pick v.

Lemma ends_empty_cons k k2 i :
  ends_empty (k :: k2 :: i) = ends_empty (k2 :: i) || (String.eqb k2 "" && Nat.eqb (length i) 0).
Proof.
  unfold ends_empty. destruct i as [|e i _] using rev_ind; simpl.
  - destruct (String.eqb k2 ""); done.
  - rewrite rev_app_distr, length_app. simpl.
    replace (length i + 1 =? 0) with false by (symmetry; apply Nat.eqb_neq; lia).
    destruct (rev i); simpl; by rewrite andb_false_r, orb_false_r.
Qed.

Lemma target_length i : length (target i) ≤ length i.
Proof.
  induction i as [|k i IH]; [done|]. destruct i as [|k2 i]; [done|].
  cbn [target]. destruct (_ && _); simpl in *; lia.
Qed.

Lemma target_ne i : i ≠ [] → target i ≠ [].
Proof.
  destruct i as [|k [|k2 i]]; [done..|]. cbn [target]. by destruct (_ && _).
Qed.

Lemma get_nil d : get d [] = Some (VTree d).
Proof. done. Qed.
Lemma get_cons d k p : get d (k :: p) = match d !! k with Some t => tree_get t p | None => None end.
Proof. done. Qed.
Lemma get_empty p : p ≠ [] → get (∅ : tree A) p = None.
Proof. destruct p; [done|]. rewrite get_cons, lookup_empty. done. Qed.

Lemma tree_get_app t p q :
  tree_get t (p ++ q) = match tree_get t p with Some t' => tree_get t' q | None => None end.
Proof.
  revert t. induction p as [|k p IH]; intros t; [done|].
  simpl. destruct t as [| |m]; try done. destruct (m !! k); [apply IH|done].
Qed.

Lemma tree_get_leaf t k p : is_leaf t = true → tree_get t (k :: p) = None.
Proof. by destruct t. Qed.

(** No strict prefix of the path holds a value. *)
Definition open_path d p : Prop :=
  ∀ q k r, p = q ++ k :: r → ∀ t, get d q = Some t → is_leaf t = false.

Lemma open_path_cons d k p :
  open_path d (k :: p) ↔
    match d !! k with
    | Some (VTree m) => open_path m p
    | Some _ => p = []
    | None => True
    end.
Proof.
  unfold open_path. split.
  - intros H. destruct (d !! k) as [[a|l|m]|] eqn:E; [| | |done].
    + destruct p as [|k2 p]; [done|]. specialize (H [k] k2 p eq_refl (VOne a)).
      rewrite get_cons, E in H. specialize (H eq_refl). done.
    + destruct p as [|k2 p]; [done|]. specialize (H [k] k2 p eq_refl (VMany l)).
      rewrite get_cons, E in H. specialize (H eq_refl). done.
    + intros q k' r -> t Ht. apply (H (k :: q) k' r); [done|]. by rewrite get_cons, E.
  - intros H q k' r Hp t Ht. destruct q as [|k0 q]; simplify_eq/=; [done|].
    destruct (d !! k0) as [[a|l|m]|] eqn:E; [| | |done].
    + by destruct q.
    + by destruct q.
    + by apply (H q k' r eq_refl).
Qed.

Lemma mount_cons2 pick k k2 i v d :
  mount pick (k :: k2 :: i) v d =
    if String.eqb k2 "" && Nat.eqb (length i) 0 then Ok (<[k := VMany v]> d)
    else match d !! k with
         | Some (VTree p) => p ← mount pick (k2 :: i) v p; Ok (<[k := VTree p]> d)
         | Some _ => Panic
         | None => p ← mount pick (k2 :: i) v ∅; Ok (<[k := VTree p]> d)
         end.
Proof. done. Qed.

Lemma target_cons2 k k2 i :
  target (k :: k2 :: i) =
    if String.eqb k2 "" && Nat.eqb (length i) 0 then [k] else k :: target (k2 :: i).
Proof. done. Qed.

Lemma leaf_cons pick k k2 i v :
  leaf pick (k :: k2 :: i) v =
    if String.eqb k2 "" && Nat.eqb (length i) 0 then Some (VMany v) else leaf pick (k2 :: i) v.
Proof.
  unfold leaf. rewrite ends_empty_cons. destruct (_ && _); by rewrite ?orb_true_r, ?orb_false_r.
Qed.

(** Mounting succeeds exactly when the path is open and there is a value. *)
Lemma mount_ok pick i v d t :
  i ≠ [] → leaf pick i v = Some t → open_path d (target i) → ∃ d', mount pick i v d = Ok d'.
Proof.
  revert d. induction i as [|k i IH]; intros d Hne Hl Ho; [done|]. clear Hne.
  destruct i as [|k2 i].
  - unfold leaf in Hl. simpl in *. destruct (pick v); [|done]. eauto.
  - rewrite mount_cons2. rewrite target_cons2 in Ho. rewrite leaf_cons in Hl.
    destruct (_ && _) eqn:E; [by eauto|]. apply open_path_cons in Ho.
    assert (Hk : ∀ m, open_path m (target (k2 :: i)) → ∃ d', mount pick (k2 :: i) v m = Ok d')
      by (intros m; apply IH; done).
    destruct (d !! k) as [[a|l|m]|] eqn:Ek.
    + exfalso. by apply (target_ne (k2 :: i)).
    + exfalso. by apply (target_ne (k2 :: i)).
    + destruct (Hk m Ho) as [d' ->]. by eauto.
    + destruct (Hk ∅) as [d' ->]; [|by eauto]. intros q k' r Hq t' Ht'. destruct q as [|k0 q].
      * by simplify_eq/=.
      * rewrite get_empty in Ht' by done. done.
Qed.

Lemma mount_inv pick i v d d' :
  mount pick i v d = Ok d' → i ≠ [] ∧ is_Some (leaf pick i v) ∧ open_path d (target i).
Proof.
  revert d d'. induction i as [|k i IH]; intros d d' H; [done|]. split; [done|].
  destruct i as [|k2 i].
  - unfold leaf. simpl in *. destruct (pick v); [|done]. split; [by eauto|].
    apply open_path_cons. repeat case_match; try done. intros q k' r Hq. by destruct q.
  - rewrite mount_cons2 in H. rewrite target_cons2, leaf_cons.
    destruct (_ && _) eqn:E.
    { split; [by eauto|]. apply open_path_cons. repeat case_match; try done.
      intros q k' r Hq. by destruct q. }
    destruct (d !! k) as [[a|l|m]|] eqn:Ek; [done..| |].
    + destruct (mount pick (k2 :: i) v m) as [d0| |] eqn:Em; [|done..].
      destruct (IH _ _ Em) as (_ & Hl & Ho). split; [done|]. apply open_path_cons. by rewrite Ek.
    + destruct (mount pick (k2 :: i) v ∅) as [d0| |] eqn:Em; [|done..].
      destruct (IH _ _ Em) as (_ & Hl & Ho). split; [done|]. apply open_path_cons. by rewrite Ek.
Qed.

(** The tree after a mount: the value at its place, everything that is neither
    above nor below unchanged. *)
Lemma mount_get pick i v d d' :
  mount pick i v d = Ok d' →
  get d' (target i) = leaf pick i v ∧
  (∀ p, ¬ p `prefix_of` target i → ¬ target i `prefix_of` p → get d' p = get d p) ∧
  (∀ p t, p `prefix_of` target i → p ≠ target i → get d' p = Some t → is_leaf t = false).
Proof.
  revert d d'. induction i as [|k i IH]; intros d d' H; [done|].
  assert (Hset : ∀ x, is_leaf x = true → d' = <[k := x]> d →
    get d' [k] = Some x ∧
    (∀ p, ¬ p `prefix_of` [k] → ¬ [k] `prefix_of` p → get d' p = get d p) ∧
    (∀ p t, p `prefix_of` [k] → p ≠ [k] → get d' p = Some t → is_leaf t = false)).
  { intros x Hx ->. split_and!.
    - by rewrite get_cons, lookup_insert_eq.
    - intros p H1 H2. destruct p as [|k0 p]; [by destruct H1; apply prefix_nil|].
      rewrite !get_cons, lookup_insert_ne; [done|]. intros <-.
      apply H2. by apply prefix_cons, prefix_nil.
    - intros p t H1 H2 Ht. destruct p as [|k0 p]; [by simplify_eq/=|].
      apply prefix_cons_inv_1 in H1 as Hk. apply prefix_cons_inv_2 in H1. subst.
      apply prefix_nil_inv in H1. by subst. }
  destruct i as [|k2 i].
  - unfold leaf. simpl in H. destruct (pick v) as [a|] eqn:Ep; simplify_eq.
    by apply Hset.
  - rewrite mount_cons2 in H. rewrite target_cons2, leaf_cons.
    destruct (_ && _) eqn:E; [by simplify_eq; apply Hset|].
    assert (∃ m d0, mount pick (k2 :: i) v m = Ok d0 ∧ d' = <[k := VTree d0]> d ∧
      (d !! k = Some (VTree m) ∨ d !! k = None ∧ m = ∅)) as (m & d0 & Hm & -> & Hd).
    { destruct (d !! k) as [[a|l|m]|] eqn:Ek; [done..| |].
      - destruct (mount pick (k2 :: i) v m) as [d0| |] eqn:Em; [|done..]. naive_solver.
      - destruct (mount pick (k2 :: i) v ∅) as [d0| |] eqn:Em; [|done..]. naive_solver. }
    destruct (IH _ _ Hm) as (H1 & H2 & H3). split_and!.
    + by rewrite get_cons, lookup_insert_eq.
    + intros p Hp1 Hp2. destruct p as [|k0 p]; [by destruct Hp1; apply prefix_nil|].
      rewrite !get_cons. destruct (decide (k0 = k)) as [->|]; [|by rewrite lookup_insert_ne].
      rewrite lookup_insert_eq.
      assert (Hp : get d0 p = get m p).
      { apply H2; intros ?; [apply Hp1|apply Hp2]; by apply prefix_cons. }
      destruct Hd as [->|[-> ->]]; [done|]. rewrite Hp. apply get_empty. intros ->.
      apply Hp1. apply prefix_cons, prefix_nil.
    + intros p t Hp1 Hp2 Ht. destruct p as [|k0 p]; [by simplify_eq/=|].
      apply prefix_cons_inv_1 in Hp1 as Hk. apply prefix_cons_inv_2 in Hp1. subst.
      rewrite get_cons, lookup_insert_eq in Ht. apply (H3 p); [done|congruence|done].
Qed.
End spec.

(** ** Forms as a set of paths *)

Section forms.
Context {A : Type} (pick : list A → option A).
Implicit Types (d : tree A) (l : list (string * list A)).

Abbreviation get d p := (tree_get (VTree d) p).

(** Where an entry of a form goes and what it leaves there. *)
Definition entry_path (e : string * list A) : list string := target (FetchIndexes e.1).
Definition entry_leaf (e : string * list A) : option (dval A) := leaf pick (FetchIndexes e.1) e.2.

(** Two entries go together when they are the same or none is above the other. *)
Definition compatible (e f : string * list A) : Prop :=
  e = f ∨ (¬ entry_path e `prefix_of` entry_path f ∧ ¬ entry_path f `prefix_of` entry_path e).

(** An entry that is mounted: it is not too deep and has values. *)
Definition mountable (e : string * list A) : Prop :=
  length (FetchIndexes e.1) ≤ MaxLevel ∧ is_Some (entry_leaf e).

(** The leaves of the tree are those of the entries. *)
Definition holds d l : Prop :=
  ∀ p t, get d p = Some t ∧ is_leaf t = true ↔
    ∃ e, e ∈ l ∧ entry_path e = p ∧ entry_leaf e = Some t.

Lemma FetchIndexes_ne s : FetchIndexes s ≠ [].
Proof. unfold FetchIndexes, keys. by destruct (keys_init _). Qed.

Lemma leaf_is_leaf i (v : list A) t : leaf pick i v = Some t → is_leaf t = true.
Proof. unfold leaf. repeat case_match; try done; [|destruct (pick v)]; intros; by simplify_eq/=. Qed.

Lemma holds_nil : holds ∅ [].
Proof.
  intros p t. split.
  - intros [Ht Hl]. destruct p as [|k p]; [by simplify_eq/=|]. by rewrite get_empty in Ht.
  - intros (e & He & _). by apply elem_of_nil in He.
Qed.

Lemma get_prefix_tree d p q t :
  get d p = Some t → q `prefix_of` p → q ≠ p → ∃ m, get d q = Some (VTree m).
Proof.
  intros Ht [r ->] Hne. destruct r as [|k r]; [by rewrite app_nil_r in Hne|].
  rewrite tree_get_app in Ht. destruct (get d q) as [[a|l|m]|]; [done..| |done]. by eauto.
Qed.

Lemma push_holds d l e :
  holds d l → mountable e → Forall (compatible e) l →
  ∃ d', push pick e.1 e.2 d = Ok d' ∧ holds d' (l ++ [e]).
Proof.
  intros Hh [Hlen [t Ht]] Hc. rewrite list.Forall_forall in Hc.
  unfold push. rewrite (proj2 (Nat.leb_le _ _) Hlen).
  assert (Hopen : open_path d (entry_path e)).
  { intros q k r Hq x Hx. destruct (is_leaf x) eqn:Hlx; [|done]. exfalso.
    destruct (proj1 (Hh q x) (conj Hx Hlx)) as (f & Hf & Hfp & Hfl).
    destruct (Hc f Hf) as [<-|[_ Hnp]].
    - rewrite Hfp in Hq. apply (f_equal length) in Hq. rewrite length_app in Hq. simpl in Hq. lia.
    - apply Hnp. rewrite Hfp, Hq. by apply prefix_app_r. }
  destruct (mount_ok pick (FetchIndexes e.1) e.2 d t) as [d' Hd'];
    [apply FetchIndexes_ne|done|done|].
  exists d'. split; [done|]. destruct (mount_get _ _ _ _ _ Hd') as (H1 & H2 & H3).
  fold (entry_path e) in *. fold (entry_leaf e) in *. intros p x.
  assert (Hsplit : (∃ f, f ∈ l ++ [e] ∧ entry_path f = p ∧ entry_leaf f = Some x) ↔
    (∃ f, f ∈ l ∧ entry_path f = p ∧ entry_leaf f = Some x) ∨
    (entry_path e = p ∧ entry_leaf e = Some x)).
  { setoid_rewrite elem_of_app. setoid_rewrite list_elem_of_singleton. naive_solver. }
  rewrite Hsplit. clear Hsplit. rewrite <- (Hh p x). split.
  - intros [Hx Hlx]. destruct (decide (p = entry_path e)) as [->|Hne].
    { right. by rewrite <- H1. }
    left. split; [|done]. destruct (decide (p `prefix_of` entry_path e)) as [Hp|Hp].
    { by rewrite (H3 p x Hp Hne Hx) in Hlx. }
    destruct (decide (entry_path e `prefix_of` p)) as [Hp2|Hp2].
    { destruct (get_prefix_tree _ _ _ _ Hx Hp2) as [m Hm]; [congruence|].
      rewrite H1 in Hm. by apply leaf_is_leaf in Hm. }
    by rewrite <- (H2 p Hp Hp2).
  - intros [[Hx Hlx]|[<- Hx]]; [|split; [by rewrite H1|by eapply leaf_is_leaf]].
    destruct (proj1 (Hh p x) (conj Hx Hlx)) as (f & Hf & <- & Hfl).
    destruct (Hc f Hf) as [<-|[Hn1 Hn2]]; [by rewrite H1|]. by rewrite H2.
Qed.

Lemma push_all_holds l0 l d :
  holds d l0 → Forall mountable l → (∀ e f, e ∈ l0 ++ l → f ∈ l0 ++ l → compatible e f) →
  ∃ d', push_all pick l d = Ok d' ∧ holds d' (l0 ++ l).
Proof.
  revert l0 d. induction l as [|e l IH]; intros l0 d Hh Hm Hc.
  { exists d. by rewrite app_nil_r. }
  apply Forall_cons in Hm as [Hme Hm].
  destruct (push_holds d l0 e Hh Hme) as (d1 & Hp & Hh1).
  { apply list.Forall_forall. intros f Hf. apply Hc; set_solver. }
  destruct (IH (l0 ++ [e]) d1 Hh1 Hm) as (d2 & Hp2 & Hh2).
  { by rewrite <- app_assoc. }
  exists d2. rewrite <- app_assoc in Hh2. split; [|done].
  destruct e as [k v]. simpl in *. by rewrite Hp.
Qed.

Lemma push_all_app l1 l2 d :
  push_all pick (l1 ++ l2) d = (d ← push_all pick l1 d; push_all pick l2 d).
Proof.
  revert d. induction l1 as [|[k v] l1 IH]; intros d; [done|]. simpl.
  destruct (push pick k v d); simpl; [apply IH|done..].
Qed.

(** Every path is at most [n] long. *)
Definition depth_le (n : nat) d : Prop := ∀ p t, get d p = Some t → length p ≤ n.

Lemma mount_depth i v d d' n :
  mount pick i v d = Ok d' → length i ≤ n → depth_le n d → depth_le n d'.
Proof.
  intros H Hi Hd p t Ht. destruct (mount_get _ _ _ _ _ H) as (H1 & H2 & H3).
  pose proof (target_length i).
  destruct (decide (p `prefix_of` target i)) as [Hp|Hp]; [apply prefix_length in Hp; lia|].
  destruct (decide (target i `prefix_of` p)) as [Hp2|Hp2].
  { destruct (decide (p = target i)) as [->|Hne]; [lia|].
    destruct (get_prefix_tree _ _ _ _ Ht Hp2) as [m Hm]; [congruence|].
    rewrite H1 in Hm. by apply leaf_is_leaf in Hm. }
  apply (Hd p t). by rewrite <- (H2 p Hp Hp2).
Qed.

Lemma push_all_depth l d d' :
  push_all pick l d = Ok d' → depth_le MaxLevel d → depth_le MaxLevel d'.
Proof.
  revert d. induction l as [|[k v] l IH]; intros d H Hd; simplify_eq/=; [done|].
  destruct (push pick k v d) as [d1| |] eqn:E; [|done..]. apply (IH d1 H).
  unfold push in E. destruct (_ <=? _) eqn:El; [|by simplify_eq].
  apply (mount_depth _ _ _ _ _ E); [by apply Nat.leb_le|done].
Qed.
End forms.

(** ** Splitting printed keys *)

(** A rune that is not a bracket or a space. *)
Definition plain_rune (c : list ascii) : Prop :=
  valid_rune c ∧ text c ≠ " " ∧ text c ≠ "[" ∧ text c ≠ "]".

(** A name made of such runes. *)
Definition name_of (rs : list (list ascii)) : string := text (concat rs).

Definition bracket (rs : list (list ascii)) : list (list ascii) :=
  [["["%char]] ++ rs ++ [["]"%char]].

(** [root[i1][i2]...] *)
Definition print_key (root : list (list ascii)) (is_ : list (list (list ascii))) : string :=
  text (concat (root ++ concat (map bracket is_))).

Lemma fetch_plain c s :
  plain_rune c →
  fetch_step s c = MkScan 0 (if (pos s =? 1) || (pos s =? 2) then keys s else keys_init s)
    ((if (pos s =? 1) || (pos s =? 2) then "" else keys_last s) +:+ text c).
Proof.
  intros (_ & H1 & H2 & H3). unfold fetch_step.
  rewrite (proj2 (String.eqb_neq _ _) H1), (proj2 (String.eqb_neq _ _) H2),
    (proj2 (String.eqb_neq _ _) H3).
  by destruct ((pos s =? 1) || (pos s =? 2)).
Qed.

Lemma fetch_name rs ks k :
  Forall plain_rune rs →
  foldl fetch_step (MkScan 0 ks k) rs = MkScan 0 ks (k +:+ name_of rs).
Proof.
  intros H. revert k. induction H as [|c rs Hc _ IH]; intros k; cbn [foldl].
  { f_equal. apply chars_inj. by rewrite chars_app, app_nil_r. }
  rewrite fetch_plain by done. cbn [pos Nat.eqb orb keys_init keys_last]. rewrite IH. f_equal.
  unfold name_of. cbn [concat]. rewrite text_app. apply chars_inj.
  rewrite !chars_app. by rewrite app_assoc.
Qed.

Lemma fetch_open s : fetch_step s ["["%char] = set_pos 1 s.
Proof. reflexivity. Qed.
Lemma fetch_close s :
  fetch_step s ["]"%char] = set_pos 2 (if pos s =? 1 then append_empty s else s).
Proof. reflexivity. Qed.

Lemma fetch_bracket rs s :
  Forall plain_rune rs →
  foldl fetch_step s (bracket rs) = MkScan 2 (keys s) (name_of rs).
Proof.
  intros H. unfold bracket. rewrite !foldl_app. cbn [foldl]. rewrite fetch_open, fetch_close.
  destruct H as [|c rs Hc H]; [reflexivity|]. cbn [foldl].
  rewrite fetch_plain by done. cbn [pos set_pos Nat.eqb orb].
  rewrite fetch_name by done. unfold set_pos, keys. simpl. f_equal.
  unfold name_of. cbn [concat]. by rewrite text_app.
Qed.

Lemma fetch_brackets is_ s :
  Forall (Forall plain_rune) is_ →
  keys (foldl fetch_step s (concat (map bracket is_))) = keys s ++ map name_of is_.
Proof.
  intros H. revert s. induction H as [|rs is_ Hrs _ IH]; intros s; cbn [map concat].
  { cbn [foldl]. by rewrite app_nil_r. }
  rewrite foldl_app, fetch_bracket, IH by done. unfold keys at 1. simpl.
  by rewrite <- app_assoc.
Qed.

Lemma plain_valid rs : Forall plain_rune rs → Forall valid_rune rs.
Proof. intros H. apply (list.Forall_impl _ _ _ H). by intros c [? _]. Qed.

Lemma bracket_valid is_ :
  Forall (Forall plain_rune) is_ → Forall valid_rune (concat (map bracket is_)).
Proof.
  induction 1 as [|rs is_ Hrs _ IH]; simpl; [constructor|].
  apply Forall_cons. split; [done|]. rewrite <- app_assoc. rewrite !Forall_app.
  split_and!; [by apply plain_valid|by repeat constructor|done].
Qed.

(** C23: [FetchIndexes] inverts the printing of a key: [root[i1]...[in]] is split
    into [root, i1, ..., in], for names of any runes but brackets and spaces;
    names may be empty. *)
Theorem FetchIndexes_print root is_ :
  Forall plain_rune root → Forall (Forall plain_rune) is_ →
  FetchIndexes (print_key root is_) = name_of root :: map name_of is_.
Proof.
  intros Hr Hi. unfold FetchIndexes, print_key.
  rewrite runes_concat.
  - rewrite foldl_app, fetch_name, fetch_brackets by done. reflexivity.
  - apply Forall_app. split; [by apply plain_valid|by apply bracket_valid].
Qed.

Lemma FetchIndexes_print_witness :
  FetchIndexes "é[b][]" = ["é"; "b"; ""].
Proof.
  apply (FetchIndexes_print [chars "é"] [[chars "b"]; []]);
    repeat constructor; try done.
Defined.

(** ** Parsed forms *)

Section parsed.
Context `{GoRange}.
Implicit Types (r : form) (e f : string * list string).

Definition form_entries r : list (string * list string) :=
  map_to_list (default ∅ (PostForm r)) ++ map_to_list (default ∅ (MultipartValue r)).

Definition shallow e : bool := length (FetchIndexes e.1) <=? MaxLevel.

(** Two entries of a form that can be mounted in any order. *)
Definition form_ok r : Prop :=
  (∀ e, e ∈ form_entries r → shallow e = true → e.2 ≠ []) ∧
  (∀ e f, e ∈ form_entries r → f ∈ form_entries r → shallow e = true → shallow f = true →
     compatible e f).

Definition visited r : list (string * list string) :=
  default [] (range_map <$> PostForm r) ++ default [] (range_map <$> MultipartValue r).

Lemma elem_of_visited r e : e ∈ visited r ↔ e ∈ form_entries r.
Proof.
  unfold visited, form_entries. rewrite !elem_of_app.
  destruct (PostForm r) as [m1|], (MultipartValue r) as [m2|]; simpl;
    by rewrite ?range_map_perm.
Qed.

Lemma parseData_visited r : parseData r = push_all last (visited r) ∅.
Proof.
  unfold parseData, visited. rewrite push_all_app.
  destruct (PostForm r), (MultipartValue r); simpl; done.
Qed.

Lemma push_all_shallow l (d : tree string) :
  push_all last l d = push_all last (filter (λ e, shallow e = true) l) d.
Proof.
  revert d. induction l as [|[k v] l IH]; intros d; [done|].
  rewrite filter_cons. destruct (decide (shallow (k, v) = true)) as [E|E]; simpl.
  - destruct (push last k v d); simpl; [apply IH|done..].
  - unfold push. unfold shallow in E. simpl in E. destruct (_ <=? _); [done|]. apply IH.
Qed.

(** C11: [parseData] refines a set of paths.  When every key that is not too deep
    has a value and no key is above another, the tree is built in every order of
    the form's maps, and its leaves are exactly the entries: the last value of a
    plain key, all values of a key that ends in [[]]; deeper keys are left out. *)
Theorem parseData_paths r :
  form_ok r →
  ∃ d, parseData r = Ok d ∧
    ∀ p t, tree_get (VTree d) p = Some t ∧ is_leaf t = true ↔
      ∃ e, e ∈ form_entries r ∧ shallow e = true ∧ entry_path e = p ∧ entry_leaf last e = Some t.
Proof.
  intros [Hv Hc]. rewrite parseData_visited, push_all_shallow.
  assert (Hin : ∀ e, e ∈ filter (λ e, shallow e = true) (visited r) ↔
    e ∈ form_entries r ∧ shallow e = true).
  { intros e. rewrite list_elem_of_filter, elem_of_visited. naive_solver. }
  destruct (push_all_holds last [] (filter (λ e, shallow e = true) (visited r)) ∅)
    as (d & Hd & Hh).
  - apply holds_nil.
  - apply list.Forall_forall. intros e [He Hs]%Hin. split; [by apply Nat.leb_le|].
    unfold entry_leaf, leaf. destruct (ends_empty _); [by eauto|].
    destruct (proj2 (last_is_Some e.2)) as [x ->]; [by apply Hv|]. by eauto.
  - intros e f [He Hse]%Hin [Hf Hsf]%Hin. by apply Hc.
  - exists d. split; [done|]. intros p t. rewrite (Hh p t). simpl.
    setoid_rewrite Hin. naive_solver.
Qed.

(** C39: a request cannot build a tree deeper than [MaxLevel]: every path of the
    tree of a form has at most 127 keys. *)
Theorem parseData_depth r d :
  parseData r = Ok d → ∀ p t, tree_get (VTree d) p = Some t → length p ≤ 127.
Proof.
  rewrite parseData_visited. intros H1. apply (push_all_depth _ _ _ _ H1).
  intros p t Ht. destruct p as [|k p]; [simpl; lia|]. by rewrite get_empty in Ht.
Qed.

Lemma mount_no_err {A} (pick : list A → option A) i v d er : mount pick i v d ≠ Err er.
Proof.
  revert d. induction i as [|k i IH]; intros d; [done|]. destruct i as [|k2 i].
  - simpl. by destruct (pick v).
  - rewrite mount_cons2. destruct (_ && _); [done|].
    destruct (d !! k) as [[a|l|m]|]; [done..| |];
      match goal with |- context [mount pick (k2 :: i) v ?x] =>
        specialize (IH x); destruct (mount pick (k2 :: i) v x) end; done.
Qed.

Lemma push_first e :
  shallow e = true → e.2 ≠ [] → ∃ d, push last e.1 e.2 ∅ = Ok d ∧ holds last d [e].
Proof.
  intros Hs Hv. apply (push_holds last ∅ [] e); [apply holds_nil| |constructor].
  split; [by apply Nat.leb_le|]. unfold entry_leaf, leaf. destruct (ends_empty _); [by eauto|].
  destruct (proj2 (last_is_Some e.2)) as [x ->]; [done|]. by eauto.
Qed.

(** When one key of a form is above another ([a=1&a[b]=2]), the order in which
    the map is visited decides: visiting the upper key first panics, visiting it
    last drops the value of the other key. *)
Theorem parseData_conflict m e1 e2 :
  shallow e1 = true → shallow e2 = true → e1.2 ≠ [] → e2.2 ≠ [] →
  entry_path e1 `prefix_of` entry_path e2 → entry_path e1 ≠ entry_path e2 →
  (range_map m = [e1; e2] → parseData (MkForm (Some m) None) = Panic) ∧
  (range_map m = [e2; e1] → ∃ d, parseData (MkForm (Some m) None) = Ok d ∧
     tree_get (VTree d) (entry_path e1) = entry_leaf last e1 ∧
     tree_get (VTree d) (entry_path e2) = None).
Proof.
  intros Hs1 Hs2 Hv1 Hv2 Hp Hne. rewrite parseData_visited. unfold visited. simpl.
  split; intros Hr; rewrite Hr; simpl; destruct e1 as [k1 v1], e2 as [k2 v2]; simpl.
  - destruct (push_first (k1, v1) Hs1 Hv1) as (d & Hd & Hh). simpl in Hd. rewrite Hd. simpl.
    destruct (proj2 (last_is_Some v1) Hv1) as [x Hx].
    assert (∃ t, entry_leaf last (k1, v1) = Some t) as [t Ht].
    { unfold entry_leaf, leaf. simpl. destruct (ends_empty _); rewrite ?Hx; by eauto. }
    destruct (proj2 (Hh (entry_path (k1, v1)) t)) as [Hg Hl].
    { exists (k1, v1). split_and!; [by left|done..]. }
    unfold push. unfold shallow in Hs2. simpl in Hs2. rewrite Hs2.
    destruct (mount last (FetchIndexes k2) v2 d) as [d'|er|] eqn:E; [|by destruct (mount_no_err _ _ _ _ _ E)|done].
    destruct (mount_inv _ _ _ _ _ E) as (_ & _ & Ho). destruct Hp as [q Hq].
    destruct q as [|k q]; [by rewrite app_nil_r in Hq|].
    rewrite (Ho _ _ _ Hq t Hg) in Hl. done.
  - destruct (push_first (k2, v2) Hs2 Hv2) as (d & Hd & Hh). simpl in Hd. rewrite Hd. simpl.
    destruct (proj2 (last_is_Some v1) Hv1) as [x Hx].
    assert (∃ t, leaf last (FetchIndexes k1) v1 = Some t) as [t Ht].
    { unfold leaf. destruct (ends_empty _); rewrite ?Hx; by eauto. }
    destruct (mount_ok last (FetchIndexes k1) v1 d t) as [d' Hd']; [apply FetchIndexes_ne|done| |].
    { intros q k r Hq y Hy. destruct (is_leaf y) eqn:Hl; [|done]. exfalso.
      destruct (proj1 (Hh q y) (conj Hy Hl)) as (f & Hf%list_elem_of_singleton & <- & _). subst f.
      apply prefix_length in Hp. apply (f_equal length) in Hq. rewrite length_app in Hq.
      unfold entry_path in *. simpl in *. lia. }
    unfold push. unfold shallow in Hs1. simpl in Hs1. rewrite Hs1, Hd'. exists d'. split; [done|].
    destruct (mount_get _ _ _ _ _ Hd') as (H1 & _). split; [done|].
    destruct Hp as [q Hq]. rewrite Hq. destruct q as [|k q]; [by rewrite app_nil_r in Hq|].
    unfold entry_path at 1. simpl. rewrite tree_get_app, H1, Ht.
    apply tree_get_leaf. by eapply leaf_is_leaf.
Qed.
End parsed.

(** ** Concrete forms *)

Definition form_example : form :=
  MkForm (Some {["a[b]" := ["1"; "2"]; "a[c][]" := ["3"; "4"]]}) None.

Lemma form_example_ok : form_ok form_example.
Proof.
  split; intros e; [|intros f]; unfold form_entries, form_example; simpl;
    rewrite ?app_nil_r, ?elem_of_map_to_list'; intros He; [|intros Hf]; intros ?.
  all: repeat match goal with H : _ !! _ = Some _ |- _ =>
    apply lookup_insert_Some in H as [[? ?]|[? H]] || apply lookup_singleton_Some in H as [? ?] end.
  all: try (intros ?; destruct e as [k v]; simpl in *; congruence).
  all: destruct e as [ke ve], f as [kf vf]; simpl in *; subst; intros _;
    try (by left); right; split; intros [q Hq]; discriminate Hq.
Qed.

Lemma parseData_paths_witness :
  ∃ d, parseData form_example = Ok d ∧
    tree_get (VTree d) ["a"; "b"] = Some (VOne "2").
Proof.
  destruct (parseData_paths form_example form_example_ok) as (d & Hd & Hp).
  exists d. split; [exact Hd|]. apply Hp. exists ("a[b]", ["1"; "2"]).
  split_and!; [|reflexivity..]. unfold form_entries. apply elem_of_app. left.
  apply elem_of_map_to_list. reflexivity.
Defined.

Lemma parseData_depth_witness :
  ∃ d, parseData form_example = Ok d ∧ ∀ p t, tree_get (VTree d) p = Some t → length p ≤ 127.
Proof.
  eexists. split; [reflexivity|]. apply (parseData_depth form_example). reflexivity.
Defined.

Lemma parseData_conflict_witness :
  let m := {["a" := ["1"]; "a[b]" := ["2"]]} in
  parseData (H := last_range) (MkForm (Some m) None) = Panic ∧
  ∃ d, parseData (H := first_range) (MkForm (Some m) None) = Ok d ∧
    tree_get (VTree d) ["a"; "b"] = None.
Proof.
  intros m. split.
  - apply (parseData_conflict (H := last_range) m ("a", ["1"]) ("a[b]", ["2"]));
      try reflexivity; try done. by exists ["b"].
  - destruct (parseData_conflict (H := first_range) m ("a", ["1"]) ("a[b]", ["2"])) as [_ Hd];
      try reflexivity; try done; [by exists ["b"]|].
    destruct (Hd eq_refl) as (d & H1 & _ & H2). exact (ex_intro _ d (conj H1 H2)).
Defined.
End HttpForm.
