(* ===== verification/HttpConfig.v ===== *)
(** * Configuration of the HTTP server ([http/config])

    Defaults and validation of the [http] section.  Pointers to sections are
    options.  Addresses and subnets ([net.ParseIP], [net.ParseCIDR]) are the
    class [Net]; [os.Stat], the temporary directory and the number of processors
    are the record [host_env]. *)

From stdpp Require Import base gmap strings list.
From Stdlib Require Import ZArith Ascii Lia.
From Stdlib Require String.
From S2P Require Import Prelude GoStrings.

Module HttpConfig.

Class Net := {
  IP : Type;
  IPNet : Type;
  ParseIP : string → option IP;
  ParseCIDR : string → res IPNet;
  net_Contains : IPNet → IP → bool
}.

(** What [os.Stat] answers. *)
Inductive stat := StatOk | StatNotExist | StatErr (e : error).

Record host_env := MkHost { NumCPU : Z; TempDir : string; Stat : string → stat }.

(** ** Sections *)

Record AcmeConfig := MkAcme {
  CacheDir : string; Email : string; ChallengeType : string; AltHTTPPort : Z;
  AltTLSALPNPort : Z; UseProductionEndpoint : bool; Domains : list string }.

Definition acme_InitDefaults (ac : AcmeConfig) : res AcmeConfig :=
  let dir := if String.eqb (CacheDir ac) "" then "rr_cache_dir" else CacheDir ac in
  if String.eqb (Email ac) "" then Err (EStr "email could not be empty") else
  match Domains ac with
  | [] => Err (EStr "should be at least 1 domain")
  | _ =>
      let '(ct, port) :=
        if String.eqb (ChallengeType ac) ""
        then ("http-01", if (AltHTTPPort ac =? 0)%Z then 80%Z else AltHTTPPort ac)
        else (ChallengeType ac, AltHTTPPort ac) in
      Ok (MkAcme dir (Email ac) ct port (AltTLSALPNPort ac) (UseProductionEndpoint ac) (Domains ac))
  end.

Record SSL := MkSSL {
  ssl_Address : string; Acme : option AcmeConfig; Redirect : bool; Key : string;
  Cert : string; RootCA : string; host : string; Port : Z }.

Definition ssl_InitDefaults (s : SSL) : res SSL :=
  acme ← match Acme s with
         | Some ac => ac ← acme_InitDefaults ac; Ok (Some ac)
         | None => Ok None
         end;
  let addr := if String.eqb (ssl_Address s) "" then "127.0.0.1:443" else ssl_Address s in
  Ok (MkSSL addr acme (Redirect s) (Key s) (Cert s) (RootCA s) (host s) (Port s)).

(** [if _, err := os.Stat(path); err != nil] with its two branches. *)
Definition stat_check (h : host_env) (op fmt path : string) : option error :=
  match Stat h path with
  | StatOk => None
  | StatNotExist => Some (EOp op (EErrorf fmt [path]))
  | StatErr e => Some e
  end.

(** [Valid] also fills [host] and [Port]; they are kept when it fails later. *)
Definition ssl_Valid (h : host_env) (s : SSL) : SSL * option error :=
  let op := "ssl_valid" in
  match Split (ssl_Address s) ":" with
  | [p0; p1] =>
      let hst := if String.eqb p0 "" then "127.0.0.1" else p0 in
      let with_host port := MkSSL (ssl_Address s) (Acme s) (Redirect s) (Key s) (Cert s)
                              (RootCA s) hst port in
      match ParseInt p1 with
      | None => (with_host (Port s), Some (EOp op (EExt "strconv.Atoi: parsing")))
      | Some port =>
          let s := with_host port in
          let own := match Acme s with
                     | Some _ => None
                     | None =>
                         match stat_check h op "key file '%s' does not exists" (Key s) with
                         | Some e => Some e
                         | None => stat_check h op "cert file '%s' does not exists" (Cert s)
                         end
                     end in
          match own with
          | Some e => (s, Some e)
          | None =>
              if String.eqb (RootCA s) "" then (s, None)
              else (s, stat_check h op "root ca path provided, but path '%s' does not exists" (RootCA s))
          end
      end
  | _ => (s, Some (EOp op (EErrorf
            "unknown format, accepted format is [:<port> or <host>:<port>], provided: %s"
            [ssl_Address s])))
  end.

Record HTTP2 := MkHTTP2 { H2C : bool; MaxConcurrentStreams : Z }.
Definition http2_InitDefaults (c : HTTP2) : HTTP2 :=
  MkHTTP2 (H2C c) (if (MaxConcurrentStreams c =? 0)%Z then 128 else MaxConcurrentStreams c).

Record Uploads := MkUploads {
  Dir : string; Forbid : list string; Allow : list string;
  Forbidden : gset string; Allowed : gset string }.

Definition empty_uploads : Uploads := MkUploads "" [] [] ∅ ∅.

Definition add_ext (m : gset string) (e : string) : gset string := {[e]} ∪ m.

Definition uploads_InitDefaults (h : host_env) (cfg : Uploads) : Uploads :=
  let forbid := match Forbid cfg with [] => [".php"; ".exe"; ".bat"] | l => l end in
  let dir := if String.eqb (Dir cfg) "" then TempDir h else Dir cfg in
  let forbidden := foldl add_ext ∅ forbid in
  let allowed := foldl add_ext ∅ (Allow cfg) in
  MkUploads dir [] [] forbidden (foldl (λ m k, m ∖ {[k]}) allowed (elements forbidden)).

(** The pool settings that have defaults here; times in seconds. *)
Record PoolConfig := MkPool {
  Debug : bool; NumWorkers : Z; MaxJobs : Z; AllocateTimeout : Z; DestroyTimeout : Z }.

Section config.
Context `{Net}.

Abbreviation Cidrs := (list IPNet).

Fixpoint any_contains (c : Cidrs) (i : IP) : bool :=
  match c with
  | [] => false
  | cird :: c' => if net_Contains cird i then true else any_contains c' i
  end.

Definition IsTrusted (c : Cidrs) (ip : string) : bool :=
  match c with
  | [] => false
  | _ => match ParseIP ip with
         | None => false
         | Some i => any_contains c i
         end
  end.

Fixpoint ParseCIDRs (subnets : list string) : res Cidrs :=
  match subnets with
  | [] => Ok []
  | cidr :: l =>
      cr ← ParseCIDR cidr;
      c ← ParseCIDRs l;
      Ok (cr :: c)
  end.

Record HTTP := MkHTTP {
  Address : string; AccessLogs : bool; Pool : option PoolConfig; InternalErrorCode : Z;
  SSLConfig : option SSL; FCGIAddress : option string; HTTP2Config : option HTTP2;
  cfg_Uploads : option Uploads; MaxRequestSize : Z; TrustedSubnets : slice string;
  Env : gmap string string; Middleware : list string; cfg_Cidrs : Cidrs }.

Definition EnableHTTP (c : HTTP) : bool := negb (String.eqb (Address c) "").
Definition EnableTLS (c : HTTP) : bool :=
  match SSLConfig c with
  | None => false
  | Some s => match Acme s with
              | Some _ => true
              | None => negb (String.eqb (Key s) "") || negb (String.eqb (Cert s) "")
              end
  end.
Definition EnableH2C (c : HTTP) : bool :=
  match HTTP2Config c with None => false | Some h => H2C h end.
Definition EnableFCGI (c : HTTP) : bool :=
  match FCGIAddress c with None => false | Some a => negb (String.eqb a "") end.
Definition EnableACME (c : HTTP) : bool :=
  match SSLConfig c with None => false | Some s => bool_decide (is_Some (Acme s)) end.

Definition with_ssl (s : option SSL) (c : HTTP) : HTTP :=
  MkHTTP (Address c) (AccessLogs c) (Pool c) (InternalErrorCode c) s (FCGIAddress c)
    (HTTP2Config c) (cfg_Uploads c) (MaxRequestSize c) (TrustedSubnets c) (Env c) (Middleware c)
    (cfg_Cidrs c).

Definition no_method : error := EStr
  "unable to run http service, no method has been specified (http, https, http/2 or FastCGI)".

Definition Valid (h : host_env) (c : HTTP) : HTTP * option error :=
  let op := "validation" in
  if negb (bool_decide (is_Some (cfg_Uploads c)))
  then (c, Some (EOp op (EStr "malformed uploads config")))
  else if negb (bool_decide (is_Some (Pool c)))
  then (c, Some (EOp op (EStr "malformed pool config")))
  else if negb (EnableHTTP c) && negb (EnableTLS c) && negb (EnableFCGI c)
  then (c, Some (EOp op no_method))
  else if negb (String.eqb (Address c) "") && negb (contains (Address c) ":")
  then (c, Some (EOp op (EStr "malformed http server address")))
  else if EnableTLS c then
    match SSLConfig c with
    | Some s => let '(s, e) := ssl_Valid h s in (with_ssl (Some s) c, EOp op <$> e)
    | None => (c, None)
    end
  else (c, None).

(** The subnets that may set the client address unless the user names others. *)
Definition default_subnets : list string :=
  ["10.0.0.0/8"; "127.0.0.0/8"; "172.16.0.0/12"; "192.168.0.0/16"; "::1/128"; "fc00::/7";
   "fe80::/10"].

Definition InitDefaults (h : host_env) (c : HTTP) : res HTTP :=
  let pool := match Pool c with
              | None => MkPool false (u64 (NumCPU h)) 0 60 60
              | Some p => p
              end in
  let code := if (InternalErrorCode c =? 0)%Z then 500%Z else InternalErrorCode c in
  ssl ← match SSLConfig c with
        | Some s => s ← ssl_InitDefaults s; Ok (Some s)
        | None => Ok None
        end;
  let up := uploads_InitDefaults h (default empty_uploads (cfg_Uploads c)) in
  let subnets := default default_subnets (TrustedSubnets c) in
  cidrs ← ParseCIDRs subnets;
  let c := MkHTTP (Address c) (AccessLogs c) (Some pool) code ssl (FCGIAddress c)
             (http2_InitDefaults <$> HTTP2Config c) (Some up) (MaxRequestSize c) (Some subnets)
             (Env c) (Middleware c) cidrs in
  match Valid h c with
  | (c, None) => Ok c
  | (_, Some e) => Err e
  end.

(** ** What a valid configuration is *)

Lemma foldl_add_ext l (m : gset string) : foldl add_ext m l = list_to_set l ∪ m.
Proof.
  revert m. induction l as [|e l IH]; intros m; simpl; [set_solver|].
  rewrite IH. unfold add_ext. set_solver.
Qed.

Lemma foldl_difference l (m : gset string) : foldl (λ m k, m ∖ {[k]}) m l = m ∖ list_to_set l.
Proof. revert m. induction l as [|e l IH]; intros m; simpl; [set_solver|]. rewrite IH. set_solver. Qed.

(** The extensions that are refused and the ones that are allowed. *)
Lemma uploads_InitDefaults_sets h cfg :
  Forbidden (uploads_InitDefaults h cfg) =
    list_to_set (match Forbid cfg with [] => [".php"; ".exe"; ".bat"] | l => l end) ∧
  Allowed (uploads_InitDefaults h cfg) =
    list_to_set (Allow cfg) ∖ Forbidden (uploads_InitDefaults h cfg).
Proof.
  unfold uploads_InitDefaults. cbn [Forbidden Allowed].
  rewrite foldl_difference, !foldl_add_ext, list_to_set_elements_L.
  by rewrite !union_empty_r_L.
Qed.

Lemma IsTrusted_spec c ip :
  IsTrusted c ip = true ↔ ∃ i n, ParseIP ip = Some i ∧ n ∈ c ∧ net_Contains n i = true.
Proof.
  assert (Hany : ∀ i, any_contains c i = true ↔ ∃ n, n ∈ c ∧ net_Contains n i = true).
  { intros i. induction c as [|n c IH]; simpl; [split; [done|]|].
    - by intros (n & Hn%elem_of_nil & _).
    - setoid_rewrite elem_of_cons. destruct (net_Contains n i) eqn:E.
      + split; [|done]. intros _. exists n. auto.
      + rewrite IH. split; intros (m & Hm & Hc); exists m; [by auto|].
        destruct Hm as [->|Hm]; [congruence|done]. }
  unfold IsTrusted. destruct c as [|n c].
  { split; [done|]. by intros (i & n & _ & Hn%elem_of_nil & _). }
  destruct (ParseIP ip) as [i|].
  - rewrite Hany. split; [intros (m & Hm & Hc); by exists i, m|].
    intros (i' & m & [= <-] & Hm & Hc). by exists m.
  - split; [done|]. by intros (i & m & ? & _).
Qed.

(** The configuration the server starts with. *)
Record wf_http (h : host_env) (c : HTTP) : Prop := {
  wf_code : InternalErrorCode c ≠ 0%Z;
  wf_pool : is_Some (Pool c);
  wf_method : EnableHTTP c || EnableTLS c || EnableFCGI c = true;
  wf_address : Address c = "" ∨ contains (Address c) ":" = true;
  wf_uploads : ∃ u, cfg_Uploads c = Some u ∧ Forbidden u ∩ Allowed u = ∅ ∧ Forbidden u ≠ ∅;
  wf_streams : ∀ h2, HTTP2Config c = Some h2 → MaxConcurrentStreams h2 ≠ 0%Z;
  wf_tls : EnableTLS c = true → ∃ s p q, SSLConfig c = Some s ∧
    Split (ssl_Address s) ":" = [p; q] ∧ ParseInt q = Some (Port s) ∧
    host s ≠ "" ∧ (p ≠ "" → host s = p) ∧
    (Acme s = None → Stat h (Key s) = StatOk ∧ Stat h (Cert s) = StatOk) ∧
    (RootCA s ≠ "" → Stat h (RootCA s) = StatOk)
}.
Lemma stat_check_None h op fmt path : stat_check h op fmt path = None → Stat h path = StatOk.
Proof. unfold stat_check. by destruct (Stat h path). Qed.

Lemma ssl_Valid_ok h s s' :
  ssl_Valid h s = (s', None) →
  ssl_Address s' = ssl_Address s ∧ Acme s' = Acme s ∧ Key s' = Key s ∧ Cert s' = Cert s ∧
  RootCA s' = RootCA s ∧ Redirect s' = Redirect s ∧
  (∃ p q, Split (ssl_Address s) ":" = [p; q] ∧ ParseInt q = Some (Port s') ∧
     host s' ≠ "" ∧ (p ≠ "" → host s' = p)) ∧
  (Acme s = None → Stat h (Key s) = StatOk ∧ Stat h (Cert s) = StatOk) ∧
  (RootCA s ≠ "" → Stat h (RootCA s) = StatOk).
Proof.
  unfold ssl_Valid. destruct (Split (ssl_Address s) ":") as [|p [|q [|? ?]]]; try done.
  destruct (ParseInt q) as [port|] eqn:Eq; [|done]. cbn [Acme Key Cert RootCA].
  destruct (match Acme s with Some _ => _ | None => _ end) eqn:Eown; [done|].
  intros H1.
  assert (Hs : s' = MkSSL (ssl_Address s) (Acme s) (Redirect s) (Key s) (Cert s) (RootCA s)
    (if String.eqb p "" then "127.0.0.1" else p) port) by (destruct (String.eqb (RootCA s) ""); congruence).
  subst s'. cbn. split_and!; try done; [by exists p, q; destruct (String.eqb_spec p "")| |].
  - intros Ha. rewrite Ha in Eown. destruct (stat_check h _ _ (Key s)) eqn:Ek; [done|].
    split; by eapply stat_check_None.
  - intros Hr. rewrite (proj2 (String.eqb_neq _ _) Hr) in H1. injection H1 as H1.
    by eapply stat_check_None.
Qed.

Lemma Valid_ok h c c' :
  Valid h c = (c', None) →
  (∃ s', c' = with_ssl s' c ∧ (EnableTLS c = false → s' = SSLConfig c) ∧
     (EnableTLS c = true → ∃ s t, SSLConfig c = Some s ∧ s' = Some t ∧ ssl_Valid h s = (t, None))) ∧
  EnableHTTP c || EnableTLS c || EnableFCGI c = true ∧
  (Address c = "" ∨ contains (Address c) ":" = true).
Proof.
  unfold Valid. destruct (bool_decide (is_Some (cfg_Uploads c))); [|done].
  destruct (bool_decide (is_Some (Pool c))); [|done]. cbn [negb].
  destruct (negb (EnableHTTP c) && _ && _) eqn:Em; [done|].
  destruct (negb (String.eqb (Address c) "") && _) eqn:Ea; [done|]. intros H1.
  assert (Hid : c = with_ssl (SSLConfig c) c) by (by destruct c).
  split_and!.
  - destruct (EnableTLS c) eqn:Et; [|by exists (SSLConfig c); simplify_eq].
    unfold EnableTLS in Et. destruct (SSLConfig c) as [s|] eqn:Es; [|done].
    destruct (ssl_Valid h s) as [t e] eqn:Ev. exists (Some t). injection H1 as <- H2.
    split_and!; [done..|]. intros _. exists s, t. destruct e; done.
  - by destruct (EnableHTTP c), (EnableTLS c), (EnableFCGI c).
  - destruct (String.eqb_spec (Address c) ""); [by left|right]. by destruct (contains _ _).
Qed.

End config.

(** ** A concrete network: IPv4 addresses and subnets *)

Definition octet (s : string) : option Z :=
  match chars s with
  | [] => None
  | l => match parse_digits 0 l with
         | Some n => if (n <=? 255)%Z && (length l <=? 3) then Some n else None
         | None => None
         end
  end.

Definition parse_ipv4 (s : string) : option Z :=
  match Split s "." with
  | [a; b; c; d] =>
      a ← octet a; b ← octet b; c ← octet c; d ← octet d;
      Some (((a * 256 + b) * 256 + c) * 256 + d)%Z
  | _ => None
  end.

Definition parse_subnet (s : string) : res (Z * Z) :=
  match Split s "/" with
  | [a; n] => match parse_ipv4 a, octet n with
              | Some ip, Some n => Ok (Z.shiftr ip (32 - n), n)
              | _, _ => Err (EExt "invalid CIDR address")
              end
  | _ => Err (EExt "invalid CIDR address")
  end.

Definition ipv4_net : Net := {|
  IP := Z; IPNet := Z * Z; ParseIP := parse_ipv4; ParseCIDR := parse_subnet;
  net_Contains n ip := Z.eqb (Z.shiftr ip (32 - n.2)) n.1 |}.

Example ipv4_trusted :
  IsTrusted (H := ipv4_net) [(10, 8)%Z] "10.1.2.3" = true ∧
  IsTrusted (H := ipv4_net) [(10, 8)%Z] "11.1.2.3" = false.
Proof. split; reflexivity. Qed.

Definition example_host : host_env := MkHost 8 "/tmp" (λ _, StatOk).

Definition example_http : HTTP (H := ipv4_net) :=
  @MkHTTP ipv4_net ":8080" false None 0 (Some (MkSSL ":443" None true "key" "crt" "" "" 0)) None
    (Some (MkHTTP2 true 0)) None 1 (Some ["10.0.0.0/8"]) ∅ [] [].

End HttpConfig.
