(* ===== verification/HttpRequest.v ===== *)
(** * Requests, uploads and attributes ([http/handler], [http/attributes])

    The conversion of a request of [net/http] into the message a worker gets:
    [request.go], [uploads.go] and the attributes middleware can attach.  What
    [net/http] parses out of the body, the outcome of operations on files and the
    JSON encoder are arguments. *)

From stdpp Require Import base gmap strings list.
From Stdlib Require Import ZArith Ascii Lia.
From Stdlib Require String.
From S2P Require Import Prelude GoStrings HttpBase HttpForm.

(** ** Attributes ([http/attributes/attributes.go]) *)
Module Attributes.

Inductive attr := ABool (b : bool) | AStr (s : string).

(** A map that may be nil, and the value of the context key, which may be absent. *)
Abbreviation attrs := (option (gmap string attr)).
Abbreviation context := (option attrs).

Definition get (v : attrs) (key : string) : option attr :=
  match v with None => Some (AStr "") | Some m => m !! key end.
(** Assignment to a nil map panics. *)
Definition set (v : attrs) (key : string) (value : attr) : res attrs :=
  match v with None => Panic | Some m => Ok (Some (<[key := value]> m)) end.
Definition del (v : attrs) (key : string) : attrs := delete key <$> v.
Definition Delete (v : attrs) (key : string) : attrs :=
  match v with None => None | _ => del v key end.

Definition Init (c : context) : context :=
  match c with None => Some (Some ∅) | Some _ => c end.
Definition All (c : context) : attrs :=
  match c with None => Some ∅ | Some v => v end.
Definition Get (c : context) (key : string) : option attr :=
  match c with None => None | Some v => get v key end.
Definition no_context : error := EStr "unable to find `psr:attributes` context key".
Definition Set_ (c : context) (key : string) (value : attr) : res context :=
  match c with
  | None => Err no_context
  | Some v => v ← set v key value; Ok (Some v)
  end.

(** After [Init], a value that was set is read back and others are kept. *)
Lemma Set_Get c key value key' :
  c ≠ Some None →
  ∃ c', Set_ (Init c) key value = Ok c' ∧
    Get c' key' = if decide (key' = key) then Some value else Get (Init c) key'.
Proof.
  intros Hc. destruct c as [[m|]|]; [|done|]; eexists; (split; [reflexivity|]); simpl;
    case_decide; subst; by rewrite ?lookup_insert_eq, ?lookup_insert_ne, ?lookup_empty by done.
Qed.
End Attributes.

Module HttpRequest.
Import HttpBase HttpForm.

(** ** Uploads ([uploads.go]) *)

Definition UploadErrorOK : Z := 0.
Definition UploadErrorNoFile : Z := 4.
Definition UploadErrorNoTmpDir : Z := 6.
Definition UploadErrorCantWrite : Z := 7.
Definition UploadErrorExtension : Z := 8.

(** [multipart.FileHeader]: name and content type given by the client. *)
Record FileHeader := MkFileHeader { Filename : string; ContentType : string }.

Record FileUpload := MkUpload {
  Name : string; Mime : string; Size : Z; Error : Z; TempFilename : string; header : FileHeader }.

Definition NewUpload (f : FileHeader) : FileUpload :=
  MkUpload (Filename f) (ContentType f) 0 UploadErrorOK "" f.

(** The tree and the list share the uploads: the tree holds positions in the list. *)
Record Uploads := MkUploads { u_tree : tree nat; u_list : list FileUpload }.

(** One key of [r.MultipartForm.File]. *)
Definition add_files (u : Uploads) (k : string) (v : list FileHeader) : res Uploads :=
  let files := map NewUpload v in
  let ids := seq (length (u_list u)) (length files) in
  t ← fileTree_push k ids (u_tree u);
  Ok (MkUploads t (u_list u ++ files)).

Fixpoint add_all (u : Uploads) (l : list (string * list FileHeader)) : res Uploads :=
  match l with
  | [] => Ok u
  | (k, v) :: l' => u ← add_files u k v; add_all u l'
  end.

Definition parseUploads `{GoRange} (files : gmap string (list FileHeader)) : res Uploads :=
  add_all (MkUploads ∅ []) (range_map files).

(** What the operating system answers while one file is moved. *)
Record file_env := MkFileEnv {
  fe_open : option error; fe_tmp : string → string + error; fe_copy : Z * option error }.

Section open.
Context `{Unicode}.

(** The files that exist in the temporary directory are [tmp].  The deferred
    [Close] calls assign to a local variable after the result is fixed. *)
Definition FileUpload_Open (dir : string) (forbid allow : gset string) (env : file_env)
    (f : FileUpload) (tmp : gset string) : FileUpload * gset string * option error :=
  let with_error e := MkUpload (Name f) (Mime f) (Size f) e (TempFilename f) (header f) in
  let ext := ToLower (path_Ext (Name f)) in
  if bool_decide (ext ∈ forbid) then (with_error UploadErrorExtension, tmp, None)
  else if negb (bool_decide (allow = ∅)) && negb (bool_decide (ext ∈ allow))
  then (with_error UploadErrorExtension, tmp, None)
  else match fe_open env with
  | Some e => (with_error UploadErrorNoFile, tmp, Some e)
  | None =>
      match fe_tmp env dir with
      | inr e => (with_error UploadErrorNoTmpDir, tmp, Some e)
      | inl name =>
          let '(n, err) := fe_copy env in
          let code := match err with Some _ => UploadErrorCantWrite | None => Error f end in
          (MkUpload (Name f) (Mime f) n code name (header f), {[name]} ∪ tmp, None)
      end
  end.

(** The goroutines of [Uploads.Open] work on different files; errors are logged. *)
Fixpoint open_all (dir : string) (forbid allow : gset string) (env : nat → file_env) (i : nat)
    (l : list FileUpload) (tmp : gset string) : list FileUpload * gset string :=
  match l with
  | [] => ([], tmp)
  | f :: l' =>
      let '(f, tmp, _) := FileUpload_Open dir forbid allow (env i) f tmp in
      let '(l', tmp) := open_all dir forbid allow env (S i) l' tmp in
      (f :: l', tmp)
  end.

Definition Uploads_Open dir forbid allow env (u : Uploads) (tmp : gset string)
    : Uploads * gset string :=
  let '(l, tmp) := open_all dir forbid allow env 0 (u_list u) tmp in
  (MkUploads (u_tree u) l, tmp).
End open.

(** [os.Remove] fails for the names [rm] gives an error for. *)
Fixpoint clear_files (rm : string → option error) (l : list FileUpload) (tmp : gset string)
    : gset string :=
  match l with
  | [] => tmp
  | f :: l' =>
      let tmp :=
        if negb (String.eqb (TempFilename f) "") && bool_decide (TempFilename f ∈ tmp)
        then match rm (TempFilename f) with Some _ => tmp | None => tmp ∖ {[TempFilename f]} end
        else tmp in
      clear_files rm l' tmp
  end.

Definition Uploads_Clear rm (u : Uploads) (tmp : gset string) : gset string :=
  clear_files rm (u_list u) tmp.

(** ** Requests ([request.go]) *)

(** A request of [net/http] with the outcome of reading and parsing its body. *)
Record hreq := MkHReq {
  r_Header : Header; r_RemoteAddr : string; r_Proto : string; r_Method : string;
  r_URL : string; r_URLHost : string; r_RawQuery : string; r_TLS : bool; r_Host : string;
  r_Cookies : list (string * string); r_Context : Attributes.context;
  r_Body : bytes * option error; r_ParseMultipart : option error;
  r_Files : gmap string (list FileHeader); r_ParseForm : option error; r_Form : form }.

(** [body interface{}] *)
Inductive body := BNil | BBytes (b : bytes) | BData (d : tree string).

Record Request := MkRequest {
  RemoteAddr : string; Protocol : string; Method : string; URI_ : string;
  Header_ : Header; Cookies : gmap string string; RawQuery : string; Parsed : bool;
  Uploads_ : option Uploads; Attributes_ : Attributes.attrs; body_ : body }.

Definition with_cookies c (q : Request) : Request :=
  MkRequest (RemoteAddr q) (Protocol q) (Method q) (URI_ q) (Header_ q) c (RawQuery q)
    (Parsed q) (Uploads_ q) (Attributes_ q) (body_ q).
Definition with_uploads u (q : Request) : Request :=
  MkRequest (RemoteAddr q) (Protocol q) (Method q) (URI_ q) (Header_ q) (Cookies q) (RawQuery q)
    (Parsed q) u (Attributes_ q) (body_ q).
Definition with_body p b (q : Request) : Request :=
  MkRequest (RemoteAddr q) (Protocol q) (Method q) (URI_ q) (Header_ q) (Cookies q) (RawQuery q)
    p (Uploads_ q) (Attributes_ q) b.
Definition with_addr a (q : Request) : Request :=
  MkRequest a (Protocol q) (Method q) (URI_ q) (Header_ q) (Cookies q) (RawQuery q)
    (Parsed q) (Uploads_ q) (Attributes_ q) (body_ q).

Inductive content := contentNone | contentStream | contentMultipart | contentFormData.

Definition contentType (q : Request) : content :=
  if String.eqb (Method q) "HEAD" || String.eqb (Method q) "OPTIONS" then contentNone
  else
    let ct := hdr_Get "content-type" (Header_ q) in
    if contains ct "application/x-www-form-urlencoded" then contentFormData
    else if contains ct "multipart/form-data" then contentMultipart
    else contentStream.

Definition URI (r : hreq) : string :=
  let uri := strip_newlines (r_URL r) in
  if negb (String.eqb (r_URLHost r) "") then uri
  else if r_TLS r then "https://" +:+ r_Host r +:+ uri
  else "http://" +:+ r_Host r +:+ uri.

Definition add_cookie (m : gmap string string) (c : string * string) : gmap string string :=
  match QueryUnescape c.2 with Some v => <[c.1 := v]> m | None => m end.

(** The case [contentFormData]. *)
Definition form_body `{GoRange} (r : hreq) (q : Request) : Request * res unit :=
  match r_ParseForm r with
  | Some e => (q, Err e)
  | None =>
      match parseData (r_Form r) with
      | Ok d => (with_body true (BData d) q, Ok tt)
      | Err e => (q, Err e)
      | Panic => (q, Panic)
      end
  end.

Definition request `{GoRange} (r : hreq) (q : Request) : Request * res unit :=
  let q := with_cookies (foldl add_cookie (Cookies q) (r_Cookies r)) q in
  match contentType q with
  | contentNone => (q, Ok tt)
  | contentStream =>
      let '(b, err) := r_Body r in
      (with_body (Parsed q) (BBytes b) q, match err with Some e => Err e | None => Ok tt end)
  | contentMultipart =>
      match r_ParseMultipart r with
      | Some e => (q, Err e)
      | None =>
          match parseUploads (r_Files r) with
          | Ok u => form_body r (with_uploads (Some u) q)
          | Err e => (q, Err e)
          | Panic => (q, Panic)
          end
      end
  | contentFormData => form_body r q
  end.

Definition Request_Open `{Unicode} dir forbid allow env (q : Request) (tmp : gset string)
    : Request * gset string :=
  match Uploads_ q with
  | None => (q, tmp)
  | Some u => let '(u, tmp) := Uploads_Open dir forbid allow env u tmp in
              (with_uploads (Some u) q, tmp)
  end.

Definition Request_Close rm (q : Request) (tmp : gset string) : gset string :=
  match Uploads_ q with None => tmp | Some u => Uploads_Clear rm u tmp end.

(** The message for the worker; a nil slice is empty. *)
Record payload := MkPld { Context : bytes; Body : bytes }.
Definition nil_payload : payload := MkPld "" "".

(** [json.Marshal] (json-iterator). *)
Class Marshal := {
  marshal_request : Request → bytes + error;
  marshal_body : body → bytes + error
}.

Definition Payload `{Marshal} (q : Request) (p : payload) : payload * res unit :=
  match marshal_request q with
  | inr e => (MkPld "" (Body p), Err e)
  | inl ctx =>
      if Parsed q then
        match marshal_body (body_ q) with
        | inr e => (MkPld ctx "", Err (EOpKind "marshal_payload" Encode e))
        | inl b => (MkPld ctx b, Ok tt)
        end
      else match body_ q with
           | BNil => (MkPld ctx (Body p), Ok tt)
           | BBytes b => (MkPld ctx b, Ok tt)
           | BData _ => (MkPld ctx (Body p), Panic)
           end
  end.

(** ** Temporary files *)

(** The names a list of uploads owns. *)
Definition owned (l : list FileUpload) : gset string :=
  list_to_set (TempFilename <$> l) ∖ {[""]}.

Lemma owned_cons f l :
  owned (f :: l) = (if String.eqb (TempFilename f) "" then ∅ else {[TempFilename f]}) ∪ owned l.
Proof.
  unfold owned. rewrite fmap_cons, list_to_set_cons.
  destruct (String.eqb_spec (TempFilename f) "") as [->|]; set_solver.
Qed.

(** Clearing removes what the uploads own. *)
Lemma clear_files_owned rm l tmp :
  (∀ n, rm n = None) → clear_files rm l tmp = tmp ∖ owned l.
Proof.
  intros Hrm. revert tmp. induction l as [|f l IH]; intros tmp; simpl.
  { unfold owned. set_solver. }
  rewrite IH, owned_cons, Hrm. destruct (String.eqb_spec (TempFilename f) ""); simpl; [set_solver|].
  case_bool_decide; set_solver.
Qed.

Section open_facts.
Context `{Unicode} (dir : string) (forbid allow : gset string).

Definition tmp_named (env : nat → file_env) : Prop := ∀ i n, fe_tmp (env i) dir = inl n → n ≠ "".

Lemma open_all_owned env i l tmp l' tmp' :
  tmp_named env → open_all dir forbid allow env i l tmp = (l', tmp') →
  tmp ⊆ tmp' ∧ tmp' ⊆ tmp ∪ owned l'.
Proof.
  intros Hn. revert i tmp l' tmp'. induction l as [|f l IH]; intros i tmp l' tmp' E; simpl in E.
  { simplify_eq. set_solver. }
  destruct (FileUpload_Open dir forbid allow (env i) f tmp) as [[f1 tmp1] e1] eqn:Ef.
  destruct (open_all dir forbid allow env (S i) l tmp1) as [l1 tmp2] eqn:El. simplify_eq.
  destruct (IH _ _ _ _ El) as [H1 H2]. rewrite owned_cons.
  assert (tmp1 = tmp ∨ TempFilename f1 ≠ "" ∧ tmp1 = {[TempFilename f1]} ∪ tmp) as [->|[Hf ->]].
  { unfold FileUpload_Open in Ef. destruct (bool_decide _); [naive_solver|].
    destruct (_ && _); [naive_solver|]. destruct (fe_open (env i)); [naive_solver|].
    destruct (fe_tmp (env i) dir) as [n|] eqn:En; [|naive_solver].
    destruct (fe_copy (env i)). simplify_eq. right. split; [by eapply Hn|done]. }
  - set_solver.
  - rewrite (proj2 (String.eqb_neq _ _) Hf). set_solver.
Qed.

(** An extension the configuration lets through. *)
Definition ext_allowed (name : string) : Prop :=
  ToLower (path_Ext name) ∉ forbid ∧ (allow = ∅ ∨ ToLower (path_Ext name) ∈ allow).

(** What becomes of every upload. *)
Lemma FileUpload_Open_cases env f tmp f' tmp' err :
  FileUpload_Open dir forbid allow env f tmp = (f', tmp', err) →
  Name f' = Name f ∧
  (¬ ext_allowed (Name f) → Error f' = UploadErrorExtension ∧ TempFilename f' = TempFilename f ∧ tmp' = tmp) ∧
  (ext_allowed (Name f) →
     match fe_open env, fe_tmp env dir, fe_copy env with
     | Some _, _, _ => Error f' = UploadErrorNoFile ∧ tmp' = tmp
     | None, inr _, _ => Error f' = UploadErrorNoTmpDir ∧ tmp' = tmp
     | None, inl n, (_, Some _) => Error f' = UploadErrorCantWrite ∧ TempFilename f' = n ∧ n ∈ tmp'
     | None, inl n, (z, None) => Error f' = Error f ∧ Size f' = z ∧ TempFilename f' = n ∧ n ∈ tmp'
     end).
Proof.
  unfold FileUpload_Open, ext_allowed.
  destruct (bool_decide_reflect (ToLower (path_Ext (Name f)) ∈ forbid)); [naive_solver|].
  destruct (bool_decide_reflect (allow = ∅)), (bool_decide_reflect (ToLower (path_Ext (Name f)) ∈ allow));
    simpl; try (intros; simplify_eq; naive_solver);
  (destruct (fe_open env); [intros; simplify_eq; naive_solver|];
   destruct (fe_tmp env dir); [|intros; simplify_eq; naive_solver];
   destruct (fe_copy env) as [z [er|]]; intros; simplify_eq; simpl; (split; [done|split; [tauto|]]);
   intros _; set_solver).
Qed.

Lemma open_all_forall (P : FileUpload → Prop) env i l tmp l' tmp' :
  open_all dir forbid allow env i l tmp = (l', tmp') →
  (∀ i f tmp f' tmp' err, f ∈ l → FileUpload_Open dir forbid allow (env i) f tmp = (f', tmp', err) → P f') →
  Forall P l'.
Proof.
  revert i tmp l' tmp'. induction l as [|f l IH]; intros i tmp l' tmp' E HP; simpl in E.
  { simplify_eq. constructor. }
  destruct (FileUpload_Open dir forbid allow (env i) f tmp) as [[f1 tmp1] e1] eqn:Ef.
  destruct (open_all dir forbid allow env (S i) l tmp1) as [l1 tmp2] eqn:El. simplify_eq.
  constructor; [eapply HP; [by left|done]|]. eapply IH; [done|]. intros. eapply HP; [by right|done].
Qed.
End open_facts.
End HttpRequest.
