(* ===== verification/HttpHandler.v ===== *)
(** * The HTTP handler ([http/handler/handler.go], [response.go])

    [ServeHTTP] turns a request into a payload, lets a worker handle it and writes
    the answer.  Requests, responses and payloads live in object pools, so the
    pools are part of the state; a call is one step, since concurrent calls only
    meet in the pools and own the objects they took.  A panic ends a call in the
    state it has reached ([net/http] recovers it).  The worker pool, the JSON
    codec and the file system are arguments. *)

From stdpp Require Import base gmap strings list.
From Stdlib Require Import ZArith Ascii Lia.
From Stdlib Require String.
From S2P Require Import Prelude GoStrings HttpBase HttpForm HttpRequest HttpConfig.

Module HttpHandler.
Import HttpBase HttpForm HttpRequest.
Import HttpConfig (Net, IPNet, ParseIP, IsTrusted).

Definition MB : Z := 1024 * 1024.

Record Response := MkResponse { Status : Z; Headers : Header }.

Definition nil_response : Response := MkResponse (-1) ∅.

Section handler.
Context `{Net} `{Unicode} `{GoRange} `{Marshal} `{ErrorText}.

Record Handler := MkHandler {
  maxRequestSize : Z; dir : string; allow : gset string; forbid : gset string;
  trusted : list IPNet; internalHTTPCode : Z }.

(** The three pools, and the files in the temporary directory. *)
Record hstate := MkHState {
  reqPool : list Request; respPool : list Response; pldPool : list payload; tmp : gset string }.

Definition NewHandler (maxReqSize code : Z) (d : string) (al fb : gset string)
    (tr : list IPNet) : Handler * hstate :=
  (MkHandler (u64 (maxReqSize * MB)) d al fb tr code, MkHState [] [] [] ∅).

Definition with_tmp t (s : hstate) : hstate := MkHState (reqPool s) (respPool s) (pldPool s) t.

(** ** Pools *)

Definition new_request : Request :=
  MkRequest "" "" "" "" ∅ ∅ "" false None (Some ∅) BNil.

(** The fields that [putReq] resets are all but [Uploads]. *)
Definition reset_request (q : Request) : Request :=
  MkRequest "" "" "" "" ∅ ∅ "" false (Uploads_ q) None BNil.

Definition putReq (q : Request) (s : hstate) : hstate :=
  MkHState (reset_request q :: reqPool s) (respPool s) (pldPool s) (tmp s).

Definition getReq (pick : option nat) (r : hreq) (s : hstate) : Request * hstate :=
  let '(q, pool) := pool_get new_request pick (reqPool s) in
  (MkRequest (FetchIP (r_RemoteAddr r)) (r_Proto r) (r_Method r) (URI r) (r_Header r) ∅
     (strip_newlines (r_RawQuery r)) false (Uploads_ q) (Attributes.All (r_Context r)) BNil,
   MkHState pool (respPool s) (pldPool s) (tmp s)).

Definition putRsp (rsp : Response) (s : hstate) : hstate :=
  MkHState (reqPool s) (MkResponse (-1) ∅ :: respPool s) (pldPool s) (tmp s).
Definition getRsp (pick : option nat) (s : hstate) : Response * hstate :=
  let '(q, pool) := pool_get nil_response pick (respPool s) in
  (q, MkHState (reqPool s) pool (pldPool s) (tmp s)).

Definition putPld (p : payload) (s : hstate) : hstate :=
  MkHState (reqPool s) (respPool s) (nil_payload :: pldPool s) (tmp s).
Definition getPld (pick : option nat) (s : hstate) : payload * hstate :=
  let '(q, pool) := pool_get nil_payload pick (pldPool s) in
  (q, MkHState (reqPool s) (respPool s) pool (tmp s)).

(** ** The address of the client *)

(** The loop from the last address to the first. *)
Fixpoint last_valid (ips : list string) : option string :=
  match ips with
  | [] => None
  | a :: l => match last_valid l with
              | Some b => Some b
              | None => match ParseIP (TrimSpace a) with Some _ => Some (TrimSpace a) | None => None end
              end
  end.

Definition resolveIP (h : Handler) (q : Request) : Request :=
  if negb (IsTrusted (trusted h) (RemoteAddr q)) then q else
  let xff := hdr_Get "X-Forwarded-For" (Header_ q) in
  if negb (String.eqb xff "") then
    match last_valid (Split xff ",") with Some a => with_addr a q | None => q end
  else
    let real := hdr_Get "X-Real-Ip" (Header_ q) in
    let client := hdr_Get "True-Client-IP" (Header_ q) in
    let cf := hdr_Get "CF-Connecting-IP" (Header_ q) in
    if negb (String.eqb real "") then with_addr (FetchIP real) q
    else if negb (String.eqb client "") then with_addr (FetchIP client) q
    else if negb (String.eqb cf "") then with_addr (FetchIP cf) q
    else q.

(** ** Answers *)

Definition internal_kinds : list Kind :=
  [SoftJob; WatcherStopped; WorkerAllocate; ExecTTL; IdleTTL; TTLKind; Encode; Decode; Network].

Definition handleError (h : Handler) (err : error) (w : writer) : writer * res unit :=
  let '(w, r) :=
    if errors_Is NoFreeWorkers err then
      let w := with_header (hdr_Set "No-Workers" "true" (rw_header w)) w in
      match WriteHeader (i64 (internalHTTPCode h)) w with Ok w => (w, Ok tt) | _ => (w, Panic) end
    else (w, Ok tt) in
  match r with
  | Ok _ =>
      if existsb (λ k, errors_Is k err) internal_kinds then
        match WriteHeader (i64 (internalHTTPCode h)) w with Ok w => (w, Ok tt) | _ => (w, Panic) end
      else (w, Ok tt)
  | _ => (w, r)
  end.

(** One name of a [Trailer] header. *)
Definition trailer_one (h : Header) (n : string) : Header :=
  let n := Trim n (String "009" " ") in
  match h !! n with
  | Some v => delete n (<["Trailer:" +:+ n := v]> h)
  | None => h
  end.

Definition handleTrailers (h : Header) : Header :=
  delete "Trailer"
    (foldl (λ h tr, foldl trailer_one h (Split tr ",")) h (default [] (h !! "Trailer"))).

Fixpoint push_all_links (push : string → option error) (l : list string) : option error :=
  match l with
  | [] => None
  | a :: l' => match push a with Some e => Some e | None => push_all_links push l' end
  end.

Definition add_header (h : Header) (kv : string * list string) : Header :=
  foldl (λ h v, hdr_Add kv.1 v h) h kv.2.

(** What [json.Unmarshal] finds in the context of the worker's answer: a missing
    field keeps the value of the pooled response. *)
Abbreviation decoder := (bytes → (option Z * option Header) + error).

Definition response_of (rsp : Response) (f : option Z * option Header) : Response :=
  MkResponse (default (Status rsp) f.1) (default (Headers rsp) f.2).

(** The payload of the worker. *)
Record answer := MkAnswer { a_Context : bytes; a_Body : bytes }.

Definition write_response (rsp : Response) (body : bytes) (w : writer) : writer * res Z :=
  let pushed := match rw_push w, Headers rsp !! "Http2-Push" with
                | Some push, Some l => push_all_links push l
                | _, _ => None
                end in
  match pushed with
  | Some e => (w, Err e)
  | None =>
      let hs := match default [] (Headers rsp !! "Trailer") with
                | [] => Headers rsp
                | _ => handleTrailers (Headers rsp)
                end in
      let w := with_header (foldl add_header (rw_header w) (range_map hs)) w in
      match WriteHeader (Status rsp) w with
      | Ok w =>
          match Write body w with
          | (w, Some e) => (w, Err e)
          | (w, None) => (w, Ok (Status rsp))
          end
      | _ => (w, Panic)
      end
  end.

(** [putRsp] is deferred, it also runs when the writer panics. *)
Definition Write_ (dec : decoder) (pick : option nat) (pld : answer) (w : writer) (s : hstate)
    : hstate * writer * res Z :=
  let '(rsp, s) := getRsp pick s in
  match dec (a_Context pld) with
  | inr e => (putRsp rsp s, w, Err e)
  | inl f =>
      let rsp := response_of rsp f in
      let '(w, r) := write_response rsp (a_Body pld) w in
      (putRsp rsp s, w, r)
  end.

(** ** Serving *)

Record serve_env := MkServeEnv {
  pick_req : option nat; pick_rsp : option nat; pick_pld : option nat;
  files : nat → file_env; rm : string → option error;
  exec : payload → answer + error; dec : decoder }.

Definition errEPIPE : error := EExt "EPIPE(32) -> connection reset by peer".

(** The answer of the size check, if it refuses the request. *)
Definition size_check (h : Handler) (r : hreq) (w : writer) : option writer :=
  if (maxRequestSize h =? 0)%Z then None else
  let length := hdr_Get "Content-Length" (r_Header r) in
  if String.eqb length "" then None else
  match ParseInt length with
  | None => Some (http_Error "" 500 w)
  | Some size =>
      if (i64 (maxRequestSize h) <? size)%Z
      then Some (http_Error (error_text (EOp "http_handler_max_size"
                               (EStr "request body max size is exceeded"))) 400 w)
      else None
  end.

(** [req.Close], [putReq], [putPld]. *)
Definition finish (env : serve_env) (q : Request) (p : payload) (s : hstate) : hstate :=
  putPld p (putReq q (with_tmp (Request_Close (rm env) q (tmp s)) s)).

Definition fail (h : Handler) (env : serve_env) (q : Request) (p : payload) (err : error)
    (w : writer) (s : hstate) : hstate * writer * res unit :=
  let s := finish env q p s in
  let '(w, r) := handleError h err w in (s, w, r).

(** The part of [ServeHTTP] before the worker: an early return, or the request and
    the payload that are given to the worker. *)
Inductive prepared :=
  | Done (s : hstate) (w : writer) (r : res unit)
  | Ready (s : hstate) (q : Request) (p : payload).

Definition prepare (h : Handler) (env : serve_env) (r : hreq) (w : writer) (s : hstate) : prepared :=
  match size_check h r w with
  | Some w => Done s w (Ok tt)
  | None =>
      let '(q, s) := getReq (pick_req env) r s in
      match request r q with
      | (q, Panic) => Done s w Panic
      | (q, Err e) =>
          if bool_decide (e = errEPIPE) then Done (putReq q s) w (Ok tt)
          else Done (putReq q s) (http_Error (error_text (EOp "serve_http" e)) 500 w) (Ok tt)
      | (q, Ok _) =>
          let q := resolveIP h q in
          let '(q, t) := Request_Open (dir h) (forbid h) (allow h) (files env) q (tmp s) in
          let s := with_tmp t s in
          let '(p, s) := getPld (pick_pld env) s in
          match Payload q p with
          | (p, Panic) => Done s w Panic
          | (p, Err e) => let '(s, w, r) := fail h env q p e w s in Done s w r
          | (p, Ok _) => Ready s q p
          end
      end
  end.

Definition ServeHTTP (h : Handler) (env : serve_env) (r : hreq) (w : writer) (s : hstate)
    : hstate * writer * res unit :=
  match prepare h env r w s with
  | Done s w r => (s, w, r)
  | Ready s q p =>
      match exec env p with
      | inr e => fail h env q p e w s
      | inl ans =>
          match Write_ (dec env) (pick_rsp env) ans w s with
          | (s, w, Panic) => (s, w, Panic)
          | (s, w, Err e) => fail h env q p e w s
          | (s, w, Ok _) => (finish env q p s, w, Ok tt)
          end
      end
  end.

(** ** Pools stay clean *)

Definition blank_request (u : option Uploads) : Request :=
  MkRequest "" "" "" "" ∅ ∅ "" false u None BNil.

Definition clean (s : hstate) : Prop :=
  Forall (λ q, ∃ u, q = blank_request u) (reqPool s) ∧
  Forall (eq nil_response) (respPool s) ∧ Forall (eq nil_payload) (pldPool s).

(** What [getReq] fills in, whatever object it got. *)
Definition filled (r : hreq) (u : option Uploads) : Request :=
  MkRequest (FetchIP (r_RemoteAddr r)) (r_Proto r) (r_Method r) (URI r) (r_Header r) ∅
    (strip_newlines (r_RawQuery r)) false u (Attributes.All (r_Context r)) BNil.

Lemma getReq_clean pick r s q s' :
  clean s → getReq pick r s = (q, s') →
  (∃ u, q = filled r u ∧ (u = None ∨ blank_request u ∈ reqPool s)) ∧ clean s' ∧ tmp s' = tmp s ∧
  respPool s' = respPool s ∧ pldPool s' = pldPool s ∧ (∀ x, x ∈ reqPool s' → x ∈ reqPool s).
Proof.
  intros (Hq & Hr & Hp). unfold getReq. destruct (pool_get new_request pick (reqPool s)) as [q0 pool] eqn:E.
  intros [= <- <-]. apply pool_get_cases in E as [[-> ->]|[Hin [i ->]]].
  - split; [exists None; auto|]. done.
  - destruct (proj1 (list.Forall_forall _ _) Hq _ Hin) as [u ->].
    split; [exists u; auto|]. split_and!; try done; simpl.
    + split_and!; try done. by apply Forall_delete.
    + intros x Hx. by eapply list_elem_of_delete_inv.
Qed.

Lemma getPld_clean pick s p s' :
  clean s → getPld pick s = (p, s') →
  p = nil_payload ∧ clean s' ∧ tmp s' = tmp s ∧ reqPool s' = reqPool s ∧ respPool s' = respPool s.
Proof.
  intros (Hq & Hr & Hp). unfold getPld. destruct (pool_get nil_payload pick (pldPool s)) as [p0 pool] eqn:E.
  intros [= <- <-]. destruct (Forall_pool_get _ _ _ _ _ _ eq_refl Hp E) as [<- Hp']. by split_and!.
Qed.

Lemma getRsp_clean pick s rsp s' :
  clean s → getRsp pick s = (rsp, s') →
  rsp = nil_response ∧ clean s' ∧ tmp s' = tmp s ∧ reqPool s' = reqPool s ∧ pldPool s' = pldPool s.
Proof.
  intros (Hq & Hr & Hp). unfold getRsp. destruct (pool_get nil_response pick (respPool s)) as [p0 pool] eqn:E.
  intros [= <- <-]. destruct (Forall_pool_get _ _ _ _ _ _ eq_refl Hr E) as [<- Hp']. by split_and!.
Qed.

Lemma clean_putReq q s : clean s → clean (putReq q s).
Proof. intros (? & ? & ?). split_and!; try done. constructor; [by exists (Uploads_ q)|done]. Qed.
Lemma clean_putPld p s : clean s → clean (putPld p s).
Proof. intros (? & ? & ?). split_and!; try done. by constructor. Qed.
Lemma clean_putRsp rsp s : clean s → clean (putRsp rsp s).
Proof. intros (? & ? & ?). split_and!; try done. by constructor. Qed.
Lemma clean_with_tmp t s : clean s → clean (with_tmp t s).
Proof. done. Qed.
Lemma clean_finish env q p s : clean s → clean (finish env q p s).
Proof. intros Hs. by apply clean_putPld, clean_putReq. Qed.

Lemma fail_fst h env q p e w s : (fail h env q p e w s).1.1 = finish env q p s.
Proof. unfold fail. by destruct (handleError h e w). Qed.

(** The body is a tree exactly when the request is marked as parsed. *)
Definition body_typed (q : Request) : Prop :=
  if Parsed q then ∃ d, body_ q = BData d else ∀ d, body_ q ≠ BData d.

Lemma request_typed r u q o : request r (filled r u) = (q, Ok o) → body_typed q.
Proof.
  unfold request. match goal with |- context [contentType ?x] => set (q1 := x) end.
  assert (Hf : ∀ q2, Parsed q2 = false → ∀ q, form_body r q2 = (q, Ok o) → body_typed q).
  { intros q2 _ q' Hq'. unfold form_body in Hq'. destruct (r_ParseForm r); [done|].
    destruct (parseData (r_Form r)) as [d| |]; simplify_eq. by exists d. }
  destruct (contentType q1).
  - intros [= <- _]. done.
  - destruct (r_Body r) as [b [e|]]; [done|]. by intros [= <- _].
  - destruct (r_ParseMultipart r); [done|]. destruct (parseUploads (r_Files r)) as [u'| |]; [|done..].
    by apply Hf.
  - by apply Hf.
Qed.

Lemma Payload_typed q p : body_typed q → (Payload q p).2 ≠ Panic.
Proof.
  unfold body_typed, Payload. intros Hb. destruct (marshal_request q); [|done].
  destruct (Parsed q); [by destruct (marshal_body _)|]. destruct (body_ q) eqn:E; try done. by destruct (Hb d).
Qed.

Lemma resolveIP_typed h q : body_typed q → body_typed (resolveIP h q).
Proof. intros Hb. unfold resolveIP. repeat case_match; done. Qed.
Lemma Request_Open_typed d f a env q t q' t' :
  Request_Open d f a env q t = (q', t') → body_typed q → body_typed q'.
Proof.
  unfold Request_Open. destruct (Uploads_ q); [|by intros [= <- _]].
  destruct (Uploads_Open _ _ _ _ _ _). by intros [= <- _].
Qed.

(** The cases of [prepare], for a clean state. *)
Lemma prepare_cases h env r w s :
  clean s →
  match prepare h env r w s with
  | Done s' w' o =>
      clean s' ∧
      ((∃ wr, size_check h r w = Some wr ∧ s' = s ∧ w' = wr ∧ o = Ok tt) ∨
       (o = Panic ∧ tmp s' = tmp s) ∨ (o = Ok tt ∧ tmp s' = tmp s) ∨
       ∃ q t q' p e s1, Request_Open (dir h) (forbid h) (allow h) (files env) q (tmp s) = (q', t) ∧
         tmp s1 = t ∧ (s', w', o) = fail h env q' p e w s1)
  | Ready s' q' p =>
      clean s' ∧ size_check h r w = None ∧
      ∃ u q, (u = None ∨ blank_request u ∈ reqPool s) ∧ request r (filled r u) = (q, Ok tt) ∧
        Request_Open (dir h) (forbid h) (allow h) (files env) (resolveIP h q) (tmp s) = (q', tmp s') ∧
        Payload q' nil_payload = (p, Ok tt)
  end.
Proof.
  intros Hs. unfold prepare. destruct (size_check h r w) as [wr|] eqn:Esz; [by eauto 8|].
  destruct (getReq (pick_req env) r s) as [q0 s1] eqn:Eg.
  destruct (getReq_clean _ _ _ _ _ Hs Eg) as ((u & -> & Hu) & Hs1 & Ht1 & _).
  destruct (request r (filled r u)) as [q1 [[]|e|]] eqn:Er.
  - destruct (Request_Open _ _ _ _ _ _) as [q2 t] eqn:Eo. rewrite Ht1 in Eo.
    destruct (getPld (pick_pld env) (with_tmp t s1)) as [p0 s2] eqn:Ep.
    destruct (getPld_clean _ _ _ _ (clean_with_tmp t s1 Hs1) Ep) as (-> & Hs2 & Ht2 & _).
    destruct (Payload q2 nil_payload) as [p1 [[]|e|]] eqn:Epl.
    + split_and!; [done..|]. exists u, q1. by rewrite Ht2.
    + destruct (fail h env q2 p1 e w s2) as [[s3 w3] o3] eqn:Ef. split.
      { replace s3 with (fail h env q2 p1 e w s2).1.1 by (by rewrite Ef). rewrite fail_fst.
        by apply clean_finish. }
      right. right. right. by exists (resolveIP h q1), t, q2, p1, e, s2.
    + split; [done|]. exfalso. apply (Payload_typed q2 nil_payload); [|by rewrite Epl].
      eapply Request_Open_typed; [done|]. apply resolveIP_typed. by eapply request_typed.
  - destruct (bool_decide _); (split; [by apply clean_putReq|]); right; right; left; by rewrite <- Ht1.
  - split; [done|]. right. left. by rewrite <- Ht1.
Qed.
Lemma Write_clean dc pick ans w s s' w' o :
  clean s → Write_ dc pick ans w s = (s', w', o) → clean s' ∧ tmp s' = tmp s.
Proof.
  intros Hs. unfold Write_. destruct (getRsp pick s) as [rsp s1] eqn:Eg.
  destruct (getRsp_clean _ _ _ _ Hs Eg) as (-> & Hs1 & Ht & _).
  destruct (dc (a_Context ans)).
  - destruct (write_response _ _ _). intros [= <- _ _]. split; [by apply clean_putRsp|done].
  - intros [= <- _ _]. split; [by apply clean_putRsp|done].
Qed.

Lemma ServeHTTP_clean h env r w s : clean s → clean (ServeHTTP h env r w s).1.1.
Proof.
  intros Hs. pose proof (prepare_cases h env r w s Hs) as Hp. unfold ServeHTTP.
  destruct (prepare h env r w s) as [s1 w1 o1|s1 q p]; [by destruct Hp|].
  destruct Hp as (Hs1 & _). destruct (exec env p) as [ans|e].
  - destruct (Write_ _ _ _ _ _) as [[s2 w2] [z|e|]] eqn:Ew;
      destruct (Write_clean _ _ _ _ _ _ _ _ Hs1 Ew) as [Hs2 _]; simpl.
    + by apply clean_finish.
    + rewrite fail_fst. by apply clean_finish.
    + done.
  - rewrite fail_fst. by apply clean_finish.
Qed.

(** A sequence of served requests. *)
Definition serve_all (h : Handler) (l : list (serve_env * hreq * writer)) (s : hstate) : hstate :=
  foldl (λ s c, (ServeHTTP h c.1.1 c.1.2 c.2 s).1.1) s l.

Lemma serve_all_clean h l s : clean s → clean (serve_all h l s).
Proof. revert s. induction l as [|c l IH]; intros s Hs; [done|]. simpl. by apply IH, ServeHTTP_clean. Qed.

Lemma clean_new m c d al fb tr : clean (NewHandler m c d al fb tr).2.
Proof. split_and!; constructor. Qed.

(** ** Temporary files *)

Lemma Close_Open h env q t q' t' :
  tmp_named (dir h) (files env) → (∀ n, rm env n = None) →
  Request_Open (dir h) (forbid h) (allow h) (files env) q t = (q', t') →
  t ⊆ t' ∧ Request_Close (rm env) q' t' ⊆ t.
Proof.
  intros Hn Hrm. unfold Request_Open, Request_Close. destruct (Uploads_ q) as [u|] eqn:Eu.
  - unfold Uploads_Open. destruct (open_all _ _ _ _ _ _ _) as [l t1] eqn:Eo. intros [= <- <-].
    simpl. unfold Uploads_Clear. simpl. rewrite clear_files_owned by done.
    destruct (open_all_owned _ _ _ _ _ _ _ _ _ Hn Eo). set_solver.
  - intros [= <- <-]. by rewrite Eu.
Qed.

Lemma finish_tmp env q p s : tmp (finish env q p s) = Request_Close (rm env) q (tmp s).
Proof. done. Qed.

(** C15: no temporary file outlives its request: whenever [ServeHTTP] returns, on
    every path, the files left in the directory were there before the call (if
    they can be removed). *)
Theorem serve_removes_files h env r w s :
  clean s → tmp_named (dir h) (files env) → (∀ n, rm env n = None) →
  (ServeHTTP h env r w s).2 = Ok tt → tmp (ServeHTTP h env r w s).1.1 ⊆ tmp s.
Proof.
  intros Hs Hn Hrm. pose proof (prepare_cases h env r w s Hs) as Hp. unfold ServeHTTP.
  destruct (prepare h env r w s) as [s1 w1 o1|s1 q' p]; simpl.
  - destruct Hp as [_ [(wr & _ & -> & _)|[[-> Ht]|[[_ ->]|(q & t & q' & p & e & s2 & Ho & Ht & Hf)]]]]; try done.
    intros _. pose proof (fail_fst h env q' p e w s2) as Hff. rewrite <- Hf in Hff. simpl in Hff. subst s1.
    rewrite finish_tmp, Ht. by destruct (Close_Open _ _ _ _ _ _ Hn Hrm Ho).
  - destruct Hp as (Hs1 & _ & u & q & _ & _ & Ho & _).
    destruct (Close_Open _ _ _ _ _ _ Hn Hrm Ho) as [_ Hc].
    destruct (exec env p) as [ans|e].
    + destruct (Write_ _ _ _ _ _) as [[s2 w2] [z|e|]] eqn:Ew;
        destruct (Write_clean _ _ _ _ _ _ _ _ Hs1 Ew) as [_ Ht]; [| |done]; intros _;
        rewrite ?fail_fst; simpl; by rewrite Ht.
    + intros _. by rewrite fail_fst.
Qed.

(** ** A handler without pools *)

Definition failed (h : Handler) (t : gset string) (e : error) (w : writer) : gset string * writer * res unit :=
  let '(w, r) := handleError h e w in (t, w, r).

(** The same service with fresh objects; [u] is what the request object still
    holds as uploads. *)
Definition serve_spec (h : Handler) (env : serve_env) (r : hreq) (w : writer) (u : option Uploads)
    (t : gset string) : gset string * writer * res unit :=
  match size_check h r w with
  | Some w => (t, w, Ok tt)
  | None =>
      match request r (filled r u) with
      | (_, Panic) => (t, w, Panic)
      | (_, Err e) =>
          (t, if bool_decide (e = errEPIPE) then w
              else http_Error (error_text (EOp "serve_http" e)) 500 w, Ok tt)
      | (q, Ok _) =>
          let '(q, t') := Request_Open (dir h) (forbid h) (allow h) (files env) (resolveIP h q) t in
          let closed := Request_Close (rm env) q t' in
          match Payload q nil_payload with
          | (_, Panic) => (t', w, Panic)
          | (_, Err e) => failed h closed e w
          | (p, Ok _) =>
              match exec env p with
              | inr e => failed h closed e w
              | inl ans =>
                  match dec env (a_Context ans) with
                  | inr e => failed h closed e w
                  | inl f =>
                      match write_response (response_of nil_response f) (a_Body ans) w with
                      | (w, Panic) => (t', w, Panic)
                      | (w, Err e) => failed h closed e w
                      | (w, Ok _) => (closed, w, Ok tt)
                      end
                  end
              end
          end
      end
  end.

(** What can be seen of a call. *)
Definition observe (x : hstate * writer * res unit) : gset string * writer * res unit :=
  (tmp x.1.1, x.1.2, x.2).

Definition picked_uploads (env : serve_env) (s : hstate) : option Uploads :=
  Uploads_ (pool_get new_request (pick_req env) (reqPool s)).1.

Lemma getReq_filled pick r s :
  getReq pick r s = (filled r (Uploads_ (pool_get new_request pick (reqPool s)).1),
    MkHState (pool_get new_request pick (reqPool s)).2 (respPool s) (pldPool s) (tmp s)).
Proof. unfold getReq. by destruct (pool_get new_request pick (reqPool s)). Qed.

Lemma observe_fail h env q p e w s :
  observe (fail h env q p e w s) = failed h (Request_Close (rm env) q (tmp s)) e w.
Proof. unfold observe, fail, failed. by destruct (handleError h e w). Qed.

Lemma Write_spec dc pick ans w s :
  clean s →
  Write_ dc pick ans w s =
    (let s' := (Write_ dc pick ans w s).1.1 in
     match dc (a_Context ans) with
     | inr e => (s', w, Err e)
     | inl f => (s', (write_response (response_of nil_response f) (a_Body ans) w).1,
                 (write_response (response_of nil_response f) (a_Body ans) w).2)
     end).
Proof.
  intros Hs. unfold Write_. destruct (getRsp pick s) as [rsp s1] eqn:Eg.
  destruct (getRsp_clean _ _ _ _ Hs Eg) as (-> & _). destruct (dc (a_Context ans)); [|done].
  by destruct (write_response _ _ _).
Qed.

(** C3: pooling is invisible up to the uploads.  In every state the handler can
    reach, what a call of [ServeHTTP] does -- the bytes sent to the worker, the
    response and the temporary files -- is what the handler without pools does,
    with the uploads that the pooled request object still holds. *)
Theorem serve_refines_spec h env r w l m c d al fb tr :
  let s := serve_all h l (NewHandler m c d al fb tr).2 in
  observe (ServeHTTP h env r w s) = serve_spec h env r w (picked_uploads env s) (tmp s).
Proof.
  intros s. assert (Hs : clean s) by (apply serve_all_clean, clean_new). clearbody s.
  unfold ServeHTTP, serve_spec, prepare. destruct (size_check h r w); [done|].
  rewrite getReq_filled. fold (picked_uploads env s). set (s1 := MkHState _ _ _ _).
  assert (Hs1 : clean s1).
  { apply (getReq_clean (pick_req env) r s (filled r (picked_uploads env s)) s1 Hs). by rewrite getReq_filled. }
  destruct (request r _) as [q1 [[]|e|]]; [|by destruct (bool_decide _)|done].
  change (tmp s1) with (tmp s). destruct (Request_Open _ _ _ _ _ _) as [q2 t] eqn:Eo.
  destruct (getPld (pick_pld env) (with_tmp t s1)) as [p0 s2] eqn:Ep.
  destruct (getPld_clean _ _ _ _ (clean_with_tmp t s1 Hs1) Ep) as (-> & Hs2 & Ht2 & _).
  simpl in Ht2. subst t. destruct (Payload q2 nil_payload) as [p1 [[]|e|]].
  - destruct (exec env p1) as [ans|e]; [|apply observe_fail].
    destruct (Write_ _ _ ans w s2) as [[s3 w3] o3] eqn:Ew.
    destruct (Write_clean _ _ _ _ _ _ _ _ Hs2 Ew) as [_ Ht3].
    rewrite (Write_spec _ _ _ _ _ Hs2) in Ew. cbn zeta in Ew.
    destruct (dec env (a_Context ans)) as [f|e].
    + destruct (write_response _ _ _) as [w4 o4]. simpl in Ew. simplify_eq.
      destruct o3; [|rewrite observe_fail|]; unfold observe; simpl; by rewrite Ht3.
    + simplify_eq. rewrite observe_fail. by rewrite Ht3.
  - destruct (fail h env q2 p1 e w s2) as [[s3 w3] o3] eqn:Ef.
    rewrite <- (observe_fail h env q2 p1). by rewrite Ef.
  - done.
Qed.

(** ** Uploads of an earlier request *)

Definition names (u : Uploads) : list string := Name <$> u_list u.

Lemma open_all_names dr f a env i l t l' t' :
  open_all dr f a env i l t = (l', t') → Name <$> l' = Name <$> l.
Proof.
  revert i t l' t'. induction l as [|x l IH]; intros i t l' t' E; simpl in E; [by simplify_eq|].
  destruct (FileUpload_Open dr f a (env i) x t) as [[x1 t1] e1] eqn:Ex.
  destruct (open_all dr f a env (S i) l t1) as [l1 t2] eqn:El. simplify_eq. rewrite !fmap_cons.
  f_equal; [|by eapply IH]. by destruct (FileUpload_Open_cases _ _ _ _ _ _ _ _ _ Ex).
Qed.

Lemma Request_Open_names dr f a env q t q' t' u :
  Request_Open dr f a env q t = (q', t') → Uploads_ q = Some u →
  ∃ u', Uploads_ q' = Some u' ∧ names u' = names u.
Proof.
  unfold Request_Open. intros Hq Hu. rewrite Hu in Hq. unfold Uploads_Open in Hq.
  destruct (open_all _ _ _ _ _ _ _) as [l t1] eqn:Eo. simplify_eq. simpl.
  eexists. split; [done|]. by eapply open_all_names.
Qed.

Lemma resolveIP_uploads h q : Uploads_ (resolveIP h q) = Uploads_ q.
Proof. unfold resolveIP. repeat case_match; done. Qed.

(** After a call that got past [request], the request object is on top of the pool
    with the uploads it was given. *)
Lemma serve_pool_head h env r w s u q :
  clean s → size_check h r w = None → (ServeHTTP h env r w s).2 = Ok tt →
  request r (filled r (picked_uploads env s)) = (q, Ok tt) → Uploads_ q = Some u →
  ∃ u' pool, reqPool (ServeHTTP h env r w s).1.1 = blank_request (Some u') :: pool ∧ names u' = names u.
Proof.
  intros Hs Hsz Hok Hq Hu.
  revert Hok. unfold ServeHTTP, prepare. rewrite Hsz, getReq_filled. fold (picked_uploads env s).
  rewrite Hq. destruct (Request_Open _ _ _ _ _ _) as [q2 t] eqn:Eo.
  destruct (Request_Open_names _ _ _ _ _ _ _ _ u Eo) as (u2 & Hu2 & Hn); [by rewrite resolveIP_uploads|].
  destruct (getPld _ _) as [p0 s2].
  assert (Hfin2 : ∀ p s1, ∃ u' pool,
    reqPool (finish env q2 p s1) = blank_request (Some u') :: pool ∧ names u' = names u).
  { intros p s1. exists u2, (reqPool s1). split; [|done]. simpl. unfold reset_request. by rewrite Hu2. }
  destruct (Payload q2 p0) as [p1 [[]|e|]].
  - destruct (exec env p1) as [ans|e]; [|intros _; rewrite fail_fst; apply Hfin2].
    destruct (Write_ _ _ ans w s2) as [[s3 w3] [z|e|]]; intros ?;
      [apply Hfin2|rewrite fail_fst; apply Hfin2|done].
  - destruct (fail h env q2 p1 e w s2) as [[s3 w3] o3] eqn:Ef. intros _. simpl.
    pose proof (fail_fst h env q2 p1 e w s2) as Hff. rewrite Ef in Hff. simpl in Hff. rewrite Hff. apply Hfin2.
  - done.
Qed.

(** Uploads leak between requests.  After a request with uploads was served,
    the next request that reuses its object carries the uploads to the worker,
    although it has none of its own (here: a request without a body). *)
Theorem serve_leaks_uploads h env1 r1 w1 s q1 u1 env2 r2 w2 :
  (∀ q, ∃ b, marshal_request q = inl b) →
  clean s → size_check h r1 w1 = None → (ServeHTTP h env1 r1 w1 s).2 = Ok tt →
  request r1 (filled r1 (picked_uploads env1 s)) = (q1, Ok tt) → Uploads_ q1 = Some u1 →
  pick_req env2 = Some 0 → size_check h r2 w2 = None → r_Method r2 = "HEAD" →
  ∃ s2 q2 p2 u2, prepare h env2 r2 w2 (ServeHTTP h env1 r1 w1 s).1.1 = Ready s2 q2 p2 ∧
    marshal_request q2 = inl (Context p2) ∧ Uploads_ q2 = Some u2 ∧ names u2 = names u1.
Proof.
  intros Hm Hs Hsz1 Hok Hq1 Hu1 Hpk Hsz2 Hhead.
  destruct (serve_pool_head _ _ _ _ _ _ _ Hs Hsz1 Hok Hq1 Hu1) as (u & pool & Hpool & Hn).
  pose proof (ServeHTTP_clean h env1 r1 w1 s Hs) as Hs1.
  set (s1 := (ServeHTTP h env1 r1 w1 s).1.1) in *. unfold prepare. rewrite Hsz2, getReq_filled.
  rewrite Hpk, Hpool. cbn [pool_get list_lookup lookup fst snd].
  unfold request. unfold contentType. cbn [Method with_cookies filled]. rewrite Hhead.
  change (String.eqb "HEAD" "HEAD") with true. cbn [orb].
  destruct (Request_Open _ _ _ _ _ _) as [q2 t] eqn:Eo.
  destruct (Request_Open_names _ _ _ _ _ _ _ _ u Eo) as (u2 & Hu2 & Hn2).
  { rewrite resolveIP_uploads. done. }
  destruct (getPld _ _) as [p0 s2].
  assert (Hb : Parsed q2 = false ∧ body_ q2 = BNil).
  { revert Eo. unfold Request_Open. repeat case_match; intros [= <- <-]; simpl;
      unfold resolveIP; repeat case_match; done. }
  destruct Hb as [Hb1 Hb2]. unfold Payload. destruct (Hm q2) as [b Hb]. rewrite Hb, Hb1, Hb2.
  eexists _, q2, _, u2. split_and!; [done..|by rewrite Hn2].
Qed.

(** ** The size limit *)

(** The limit of the configuration, in megabytes, is exact below 2^43: a
    declared length is refused with 400 exactly when it is larger.  From 2^43 to
    2^44 the comparison is against a negative number and every declared length is
    refused, and 2^44 turns the check off. *)
Theorem max_request_size m c d al fb tr r w len size :
  let h := (NewHandler m c d al fb tr).1 in
  hdr_Get "Content-Length" (r_Header r) = len → len ≠ "" → ParseInt len = Some size → (0 ≤ size)%Z →
  rw_status w = None →
  ((0 < m < 2 ^ 43)%Z →
     if decide (m * MB < size)%Z
     then ∃ w', size_check h r w = Some w' ∧ rw_status w' = Some 400%Z
     else size_check h r w = None) ∧
  ((2 ^ 43 ≤ m < 2 ^ 44)%Z → ∃ w', size_check h r w = Some w' ∧ rw_status w' = Some 400%Z) ∧
  (m = 2 ^ 44 → size_check h r w = None)%Z.
Proof.
  intros h Hl Hne Hp Hpos Hw. unfold size_check. rewrite Hl, (proj2 (String.eqb_neq _ _) Hne), Hp.
  unfold h. cbn [NewHandler fst maxRequestSize]. unfold MB.
  assert (Herr : ∀ msg, ∃ w', Some (http_Error msg 400 w) = Some w' ∧ rw_status w' = Some 400%Z).
  { intros msg. eexists. split; [done|]. rewrite http_Error_status, Hw by lia. done. }
  split_and!.
  - intros Hm. rewrite u64_id, i64_id by lia. destruct (Z.eqb_spec (m * (1024 * 1024)) 0); [lia|].
    case_decide; destruct (Z.ltb_spec (m * (1024 * 1024)) size); try lia; done.
  - intros Hm. rewrite u64_id by lia. destruct (Z.eqb_spec (m * (1024 * 1024)) 0); [lia|].
    assert (Hi : i64 (m * (1024 * 1024)) = (m * (1024 * 1024) - 2 ^ 64)%Z).
    { unfold i64. replace (m * (1024 * 1024) + 2 ^ 63)%Z
        with (m * (1024 * 1024) - 2 ^ 63 + 1 * 2 ^ 64)%Z by lia.
      rewrite Z_mod_plus_full, Z.mod_small by lia. lia. }
    rewrite Hi. destruct (Z.ltb_spec (m * (1024 * 1024) - 2 ^ 64) size); [done|lia].
  - intros ->. done.
Qed.

(** ** Errors *)

Definition known_error (e : error) : bool :=
  errors_Is NoFreeWorkers e || existsb (λ k, errors_Is k e) internal_kinds.

Lemma handleError_status h e w :
  (100 ≤ internalHTTPCode h ≤ 999)%Z →
  ∃ w', handleError h e w = (w', Ok tt) ∧ rw_body w' = rw_body w ∧
    rw_status w' = (if known_error e then Some (default (internalHTTPCode h) (rw_status w)) else rw_status w) ∧
    (known_error e = false → w' = w).
Proof.
  intros Hc. unfold handleError, known_error. rewrite i64_id by lia.
  destruct (errors_Is NoFreeWorkers e); cbn [orb].
  - match goal with |- context [WriteHeader _ ?x] => destruct (WriteHeader_ok (internalHTTPCode h) x Hc) as (w1 & -> & Hs & Hb) end.
    destruct (existsb _ _).
    + destruct (WriteHeader_ok (internalHTTPCode h) w1 Hc) as (w2 & -> & Hs2 & Hb2).
      exists w2. split_and!; [done|by rewrite Hb2, Hb|by rewrite Hs2, Hs|done].
    + exists w1. by split_and!.
  - destruct (existsb _ _).
    + destruct (WriteHeader_ok (internalHTTPCode h) w Hc) as (w2 & -> & Hs2 & Hb2). exists w2. by split_and!.
    + by exists w.
Qed.

(** The answers to failures of the worker.  An error of a kind the handler
    knows gives the configured status and no body; any other error -- such as a
    context of the worker that is not JSON -- leaves the response untouched, so
    that the client sees an empty 200. *)
Theorem serve_failure_status h env r w s s1 q p e :
  (100 ≤ internalHTTPCode h ≤ 999)%Z → clean s → rw_status w = None →
  prepare h env r w s = Ready s1 q p →
  (exec env p = inr e ∨ ∃ ans, exec env p = inl ans ∧ dec env (a_Context ans) = inr e) →
  (ServeHTTP h env r w s).2 = Ok tt ∧
  final_status (ServeHTTP h env r w s).1.2 = (if known_error e then internalHTTPCode h else 200%Z) ∧
  rw_body (ServeHTTP h env r w s).1.2 = rw_body w.
Proof.
  intros Hc Hs Hw Hp He. unfold ServeHTTP. rewrite Hp.
  pose proof (prepare_cases h env r w s Hs) as Hr. rewrite Hp in Hr. destruct Hr as (Hs1 & _).
  assert (Hf : ∀ s2, (fail h env q p e w s2).2 = Ok tt ∧
    final_status (fail h env q p e w s2).1.2 = (if known_error e then internalHTTPCode h else 200%Z) ∧
    rw_body (fail h env q p e w s2).1.2 = rw_body w).
  { intros s2. unfold fail. destruct (handleError_status h e w Hc) as (w' & -> & Hb & Hst & _).
    split_and!; [done| |done]. unfold final_status. cbn [fst snd]. rewrite Hst, Hw. by destruct (known_error e). }
  destruct He as [->|(ans & -> & Hd)]; [apply Hf|].
  rewrite (Write_spec _ _ _ _ _ Hs1), Hd. cbn zeta. apply Hf.
Qed.

(** A worker answer without a valid status makes the handler panic after the
    uploads were stored: their temporary files stay. *)
Theorem serve_bad_status_leaves_files h env r w s s1 q p ans f :
  clean s → prepare h env r w s = Ready s1 q p → exec env p = inl ans →
  dec env (a_Context ans) = inl f → rw_push w = None →
  (default (-1) f.1 < 100 ∨ 999 < default (-1) f.1)%Z →
  (ServeHTTP h env r w s).2 = Panic ∧ tmp (ServeHTTP h env r w s).1.1 = tmp s1.
Proof.
  intros Hs Hp He Hd Hpush Hst. unfold ServeHTTP. rewrite Hp, He.
  pose proof (prepare_cases h env r w s Hs) as Hr. rewrite Hp in Hr. destruct Hr as (Hs1 & _).
  destruct (Write_ _ _ ans w s1) as [[s2 w2] o2] eqn:Ew.
  destruct (Write_clean _ _ _ _ _ _ _ _ Hs1 Ew) as [_ Ht].
  rewrite (Write_spec _ _ _ _ _ Hs1), Hd in Ew. cbn zeta in Ew.
  assert (Hpanic : (write_response (response_of nil_response f) (a_Body ans) w).2 = Panic).
  { unfold write_response. rewrite Hpush. cbn [response_of Status nil_response]. unfold WriteHeader.
    destruct (Z.ltb_spec (default (-1)%Z f.1) 100); [done|]. destruct (Z.ltb_spec 999 (default (-1)%Z f.1)); [done|lia]. }
  rewrite Hpanic in Ew. by simplify_eq.
Qed.

(** ** The client address *)

Lemma last_valid_app l a post :
  is_Some (ParseIP (TrimSpace a)) → Forall (λ b, ParseIP (TrimSpace b) = None) post →
  last_valid (l ++ a :: post) = Some (TrimSpace a).
Proof.
  intros [i Ha] Hpost. induction l as [|x l IH]; simpl.
  - assert (last_valid post = None) as ->.
    { induction Hpost as [|b post Hb _ IH]; [done|]. simpl. by rewrite IH, Hb. }
    by rewrite Ha.
  - by rewrite IH.
Qed.

Lemma last_valid_none l : Forall (λ b, ParseIP (TrimSpace b) = None) l → last_valid l = None.
Proof. induction 1 as [|b l Hb _ IH]; [done|]. simpl. by rewrite IH, Hb. Qed.

(** Who decides the client address.  A peer outside the trusted subnets cannot
    change it.  From a trusted peer, [X-Forwarded-For] counts with its last entry
    that is an address, and hides the other headers; an IPv6 address without
    brackets in [X-Real-Ip] gives an empty address. *)
Theorem resolveIP_spec h q :
  (IsTrusted (trusted h) (RemoteAddr q) = false → resolveIP h q = q) ∧
  (IsTrusted (trusted h) (RemoteAddr q) = true →
    (∀ xff pre a post, hdr_Get "X-Forwarded-For" (Header_ q) = xff → xff ≠ "" →
       Split xff "," = pre ++ a :: post → is_Some (ParseIP (TrimSpace a)) →
       Forall (λ b, ParseIP (TrimSpace b) = None) post →
       resolveIP h q = with_addr (TrimSpace a) q) ∧
    (∀ xff, hdr_Get "X-Forwarded-For" (Header_ q) = xff → xff ≠ "" →
       Forall (λ b, ParseIP (TrimSpace b) = None) (Split xff ",") → resolveIP h q = q) ∧
    (∀ a b c, hdr_Get "X-Forwarded-For" (Header_ q) = "" →
       hdr_Get "X-Real-Ip" (Header_ q) = a +:+ ":" +:+ b +:+ ":" +:+ c → ":"%char ∉ chars c →
       head (chars (a +:+ ":" +:+ b +:+ ":" +:+ c)) ≠ Some "["%char →
       resolveIP h q = with_addr "" q)).
Proof.
  unfold resolveIP. split; [by intros ->|]. intros ->. cbn [negb]. split_and!.
  - intros xff pre a post -> Hne Hsp Ha Hpost. rewrite (proj2 (String.eqb_neq _ _) Hne). cbn [negb].
    by rewrite Hsp, last_valid_app.
  - intros xff -> Hne Hall. rewrite (proj2 (String.eqb_neq _ _) Hne). cbn [negb].
    by rewrite last_valid_none.
  - intros a b c -> -> Hc Hh. cbn [negb String.eqb].
    assert (Hne : a +:+ ":" +:+ b +:+ ":" +:+ c ≠ "") by (by destruct a).
    rewrite (proj2 (String.eqb_neq _ _) Hne). cbn [negb]. by rewrite FetchIP_bare.
Qed.

(** ** Upload extensions *)

Definition forbid_list (cfg : HttpConfig.Uploads) : list string :=
  match HttpConfig.Forbid cfg with [] => [".php"; ".exe"; ".bat"] | l => l end.

Definition lower_ext (f : FileUpload) : string := ToLower (path_Ext (Name f)).

(** Uploads and the configured extensions.  A file with a forbidden extension,
    in any case of its letters, is marked with the extension error and gets no
    temporary file; so is a file that is not on the list of allowed extensions,
    provided one of these is not forbidden.  If all of them are forbidden the
    list has no effect. *)
Theorem upload_extensions cfg hst env u t u' t' :
  let c := HttpConfig.uploads_InitDefaults hst cfg in
  Uploads_Open (HttpConfig.Dir c) (HttpConfig.Forbidden c) (HttpConfig.Allowed c) env u t = (u', t') →
  Forall (λ f, TempFilename f = "" ∧ Error f = UploadErrorOK) (u_list u) →
  Forall (λ f, lower_ext f ∈ forbid_list cfg →
     Error f = UploadErrorExtension ∧ TempFilename f = "") (u_list u') ∧
  ((∃ e, e ∈ HttpConfig.Allow cfg ∧ e ∉ forbid_list cfg) →
     Forall (λ f, lower_ext f ∉ HttpConfig.Allow cfg →
       Error f = UploadErrorExtension ∧ TempFilename f = "") (u_list u')) ∧
  ((∀ e, e ∈ HttpConfig.Allow cfg → e ∈ forbid_list cfg) →
     Forall (λ f, lower_ext f ∉ forbid_list cfg → Error f ≠ UploadErrorExtension) (u_list u')).
Proof.
  intros c Ho Hu. destruct (HttpConfig.uploads_InitDefaults_sets hst cfg) as [Hf Ha].
  fold c in Hf, Ha. fold (forbid_list cfg) in Hf. rewrite Hf in Ha.
  unfold Uploads_Open in Ho. destruct (open_all _ _ _ _ _ _ _) as [l t1] eqn:El. simplify_eq.
  cbn [u_list]. rewrite list.Forall_forall in Hu.
  assert (Hno : ∀ P : FileUpload → Prop,
    (∀ f' : FileUpload, (¬ ext_allowed (HttpConfig.Forbidden c) (HttpConfig.Allowed c) (Name f') →
        Error f' = UploadErrorExtension ∧ TempFilename f' = "") →
      (ext_allowed (HttpConfig.Forbidden c) (HttpConfig.Allowed c) (Name f') → Error f' ≠ UploadErrorExtension) → P f') →
    Forall P l).
  { intros P HP. eapply open_all_forall; [exact El|]. intros i f tm f' tm' er Hin Hop.
    destruct (Hu f Hin) as [Ht He].
    destruct (FileUpload_Open_cases _ _ _ _ _ _ _ _ _ Hop) as (Hn & H1' & H2'). apply HP; rewrite Hn.
    - intros Hx. destruct (H1' Hx) as (-> & -> & _). done.
    - intros Hx. specialize (H2' Hx). repeat case_match; destruct H2' as [Hq _]; rewrite Hq, ?He; done. }
  unfold ext_allowed in Hno. rewrite Hf, Ha in Hno.
  split_and!; [|intros (e & He1 & He2)|intros Hall]; apply Hno; unfold lower_ext; intros f' H1' H2' Hx.
  - apply H1'. set_solver.
  - apply H1'. intros [_ [Hemp|Hin]]; set_solver.
  - apply H2'. split; [set_solver|]. left. set_solver.
Qed.
End handler.

(** ** Concrete requests *)

Section examples.
Local Existing Instance HttpConfig.ipv4_net.
Local Existing Instance ascii_unicode.

(** An encoder that shows the names of the uploads. *)
Local Instance example_marshal : Marshal := {|
  marshal_request q := inl (match Uploads_ q with
                            | Some u => String.concat "," (Name <$> u_list u)
                            | None => "none" end);
  marshal_body _ := inl "body" |}.
Local Instance example_text : ErrorText := {| error_text _ := "error" |}.

Definition example_req (method ct : string) : hreq :=
  MkHReq (hdr_Set "Content-Type" ct (hdr_Set "Content-Length" "3" ∅)) "10.0.0.1:80" "HTTP/1.1" method
    "/" "" "" false "host" [] (Some (Some ∅)) ("abc", None) None
    {["f" := [MkFileHeader "a.txt" "text/plain"]]} None (MkForm None None).

(** A worker that echoes the context it gets. *)
Definition example_env (pick : option nat) (status : option Z) : serve_env :=
  MkServeEnv pick None None (λ _, MkFileEnv None (λ d, inl (d +:+ "/upload1")) (3%Z, None)) (λ _, None)
    (λ p, inl (MkAnswer "ctx" (Context p))) (λ _, inl (status, None)).

Definition example_trusted : list IPNet := [(10, 8)%Z].
Definition example_handler : Handler := (NewHandler 1 500 "/tmp" ∅ {[".php"]} example_trusted).1.
Definition example_start : hstate := (NewHandler 1 500 "/tmp" ∅ {[".php"]} example_trusted).2.

Definition upload_req := example_req "POST" "multipart/form-data; boundary=x".
Definition head_req := example_req "HEAD" "".

Lemma example_clean : clean example_start.
Proof. split_and!; constructor. Qed.

Lemma example_named : tmp_named (dir example_handler) (files (example_env None (Some 200%Z))).
Proof. intros i n [= <-]. done. Qed.

Lemma serve_removes_files_witness :
  tmp (ServeHTTP example_handler (example_env None (Some 200%Z)) upload_req new_writer example_start).1.1 ⊆ ∅.
Proof.
  apply (serve_removes_files example_handler (example_env None (Some 200%Z)) upload_req new_writer example_start).
  - apply example_clean.
  - apply example_named.
  - done.
  - reflexivity.
Defined.

Lemma serve_leaks_uploads_witness :
  ∃ s2 q2 p2 u2,
    prepare example_handler (example_env (Some 0) (Some 200%Z)) head_req new_writer
      (ServeHTTP example_handler (example_env None (Some 200%Z)) upload_req new_writer example_start).1.1
      = Ready s2 q2 p2 ∧
    Uploads_ q2 = Some u2 ∧ names u2 = ["a.txt"].
Proof.
  edestruct (serve_leaks_uploads example_handler (example_env None (Some 200%Z)) upload_req new_writer
    example_start (request upload_req (filled upload_req None)).1
    (MkUploads {["f" := VOne 0]} [NewUpload (MkFileHeader "a.txt" "text/plain")])
    (example_env (Some 0) (Some 200%Z)) head_req new_writer) as (s2 & q2 & p2 & u2 & H1 & _ & H3 & H4).
  - intros q. by eexists.
  - apply example_clean.
  - reflexivity.
  - reflexivity.
  - reflexivity.
  - reflexivity.
  - reflexivity.
  - reflexivity.
  - reflexivity.
  - exists s2, q2, p2, u2. split; [exact H1|]. split; [exact H3|]. rewrite H4. reflexivity.
Defined.

Lemma max_request_size_witness :
  size_check example_handler upload_req new_writer = None.
Proof.
  destruct (max_request_size 1 500 "/tmp" ∅ {[".php"]} example_trusted upload_req new_writer "3" 3)
    as [Hx _]; [done..|]. exact (Hx ltac:(done)).
Defined.

Lemma serve_failure_status_witness :
  let env := MkServeEnv None None None (λ _, MkFileEnv None (λ d, inl (d +:+ "/upload1")) (3%Z, None)) (λ _, None)
    (λ p, inl (MkAnswer "{" "")) (λ _, inr (EExt "unexpected end of JSON input")) in
  final_status (ServeHTTP example_handler env head_req new_writer example_start).1.2 = 200%Z.
Proof.
  intros env.
  eapply (serve_failure_status example_handler env head_req new_writer example_start _ _ _
    (EExt "unexpected end of JSON input"));
    [|apply example_clean|reflexivity|reflexivity|].
  - split; by vm_compute.
  - right. eexists. split; reflexivity.
Defined.

Lemma serve_bad_status_leaves_files_witness :
  tmp (ServeHTTP example_handler (example_env None None) upload_req new_writer example_start).1.1
    = {["/tmp/upload1"]}.
Proof.
  etransitivity.
  - eapply (serve_bad_status_leaves_files example_handler (example_env None None) upload_req new_writer
      example_start); [apply example_clean|vm_compute; reflexivity..|]. left. done.
  - vm_compute. reflexivity.
Defined.

Definition example_uploads : HttpConfig.Uploads :=
  HttpConfig.uploads_InitDefaults HttpConfig.example_host HttpConfig.empty_uploads.

Definition example_opened : Uploads * gset string :=
  Uploads_Open (HttpConfig.Dir example_uploads) (HttpConfig.Forbidden example_uploads)
    (HttpConfig.Allowed example_uploads) (λ _, MkFileEnv None (λ d, inl (d +:+ "/upload1")) (3%Z, None))
    (MkUploads ∅ [NewUpload (MkFileHeader "shell.PHP" "")]) ∅.

Lemma upload_extensions_witness :
  Forall (λ f, lower_ext f ∈ [".php"; ".exe"; ".bat"] →
    Error f = UploadErrorExtension ∧ TempFilename f = "") (u_list example_opened.1).
Proof.
  apply (upload_extensions HttpConfig.empty_uploads HttpConfig.example_host
    (λ _, MkFileEnv None (λ d, inl (d +:+ "/upload1")) (3%Z, None))
    (MkUploads ∅ [NewUpload (MkFileHeader "shell.PHP" "")]) ∅ example_opened.1 example_opened.2).
  - exact (surjective_pairing example_opened).
  - by repeat constructor.
Defined.
End examples.
End HttpHandler.
