(* ===== verification/HttpPlugin.v ===== *)
(** * The HTTP plugin ([http/plugin.go], [serve.go], [http.go], [ssl.go])

    The plugin builds the worker pool, the handler and up to three servers (HTTP,
    HTTPS, FastCGI), puts the configured middleware in front of them and answers
    requests.  Its read-write lock is modelled by the number of readers that hold
    it: a call that needs the write lock returns [None] while there are readers.
    Worker pools, certificates and listeners are parameters. *)

From stdpp Require Import base gmap strings list.
From Stdlib Require Import ZArith Ascii Lia.
From Stdlib Require String.
From S2P Require Import Prelude GoStrings HttpBase HttpForm HttpRequest HttpConfig HttpHandler.

Module HttpPlugin.
Import HttpBase HttpForm HttpRequest HttpHandler.
Import HttpConfig (Net, HTTP, SSL, SSLConfig, Acme, RootCA, Redirect, Address, Port, PoolConfig,
  EnableHTTP, EnableTLS, EnableH2C, EnableFCGI, EnableACME).

(** ** Workers *)

Inductive worker_state := StateInactive | StateReady | StateWorking | StateInvalid | StateStopped.

(** [IsActive] is a question to the worker library; [ws_process] reads the state of
    the operating system process. *)
Record worker := MkWorker { ws_active : bool; ws_value : worker_state; ws_process : Z + error }.

Class WorkerPool := {
  P : Type;
  pool_Workers : P → list worker;
  pool_Reset : P → P * option error;
  NewWorkerPool : PoolConfig → gmap string string → P + error
}.

(** ** Servers *)

(** Cipher suites and curves as [crypto/tls] numbers them. *)
Inductive suite :=
  | RSA_AES_128_GCM | RSA_AES_256_GCM | ECDSA_AES_128_GCM | ECDSA_AES_256_GCM
  | RSA_CHACHA20 | ECDSA_CHACHA20 | TLS13_AES_128 | TLS13_CHACHA20 | TLS13_AES_256.

#[global] Instance suite_eq_dec : EqDecision suite.
Proof. solve_decision. Defined.

Record TLSConfig := MkTLS {
  CipherSuites : list suite; MinVersion : Z; RootCAs : option bytes;
  GetCertificate : option string; NextProtos : list string }.

(** A server with the handler it calls; [H] is the type of handlers. *)
Record server (H : Type) := MkServer {
  srv_Addr : string; srv_Handler : H; srv_TLS : option TLSConfig; srv_Streams : option Z }.
Arguments MkServer {H}.
Arguments srv_Addr {H}.
Arguments srv_Handler {H}.
Arguments srv_TLS {H}.
Arguments srv_Streams {H}.

(** The loop of [applyMiddlewares] runs from the last name to the first. *)
Fixpoint apply_rev {H} (mw : gmap string (H → H)) (order_rev : list string) (h : H) : H :=
  match order_rev with
  | [] => h
  | n :: l => apply_rev mw l (match mw !! n with Some m => m h | None => h end)
  end.

Definition applyMiddlewares {H} (mw : gmap string (H → H)) (order : list string) (s : server H)
    : server H :=
  MkServer (srv_Addr s) (apply_rev mw (rev order) (srv_Handler s)) (srv_TLS s) (srv_Streams s).

Definition suites (hasGCMAsm : bool) : list suite :=
  (if hasGCMAsm
   then [RSA_AES_128_GCM; RSA_AES_256_GCM; ECDSA_AES_128_GCM; ECDSA_AES_256_GCM; RSA_CHACHA20; ECDSA_CHACHA20]
   else [RSA_CHACHA20; ECDSA_CHACHA20; RSA_AES_128_GCM; RSA_AES_256_GCM; ECDSA_AES_128_GCM; ECDSA_AES_256_GCM])
  ++ (if hasGCMAsm then [TLS13_AES_128; TLS13_CHACHA20; TLS13_AES_256]
      else [TLS13_CHACHA20; TLS13_AES_128; TLS13_AES_256]).

Definition VersionTLS12 : Z := 771.

(** [%v] of the port. *)
Definition tlsAddr (show : Z → string) (ssl : SSL) (host : string) (forcePort : bool) : string :=
  let host := default "" (head (Split host ":")) in
  if forcePort || negb (Port ssl =? 443)%Z then host +:+ ":" +:+ show (Port ssl) else host.

Section plugin.
Context `{Net} `{Unicode} `{GoRange} `{Marshal} `{ErrorText} `{WorkerPool}.
(** Handlers: the plugin itself, wrapped in the h2c handler or in middleware. *)
Context {HT : Type} (plugin_handler : HT) (h2c : HT → HT).

(** What the operating system and the ACME client answer. *)
Record serve_world := MkWorld {
  hasGCMAsm : bool; SystemCertPool : option bytes + error; ReadFile : string → bytes + error;
  AppendPEM : bytes → bytes → option bytes; ObtainCertificates : string + error;
  ConfigureHTTP2 : option error; show_port : Z → string }.

Record Plugin := MkPlugin {
  cfg : HTTP; mdwr : gmap string (HT → HT); pool : option P; handler : option (Handler * hstate);
  http : option (server HT); https : option (server HT); fcgi : option (server HT); readers : nat }.

Definition with_pool x (p : Plugin) : Plugin :=
  MkPlugin (cfg p) (mdwr p) x (handler p) (http p) (https p) (fcgi p) (readers p).
Definition with_handler x (p : Plugin) : Plugin :=
  MkPlugin (cfg p) (mdwr p) (pool p) x (http p) (https p) (fcgi p) (readers p).
Definition with_http x (p : Plugin) : Plugin :=
  MkPlugin (cfg p) (mdwr p) (pool p) (handler p) x (https p) (fcgi p) (readers p).
Definition with_https x (p : Plugin) : Plugin :=
  MkPlugin (cfg p) (mdwr p) (pool p) (handler p) (http p) x (fcgi p) (readers p).
Definition with_fcgi x (p : Plugin) : Plugin :=
  MkPlugin (cfg p) (mdwr p) (pool p) (handler p) (http p) (https p) x (readers p).
Definition with_readers n (p : Plugin) : Plugin :=
  MkPlugin (cfg p) (mdwr p) (pool p) (handler p) (http p) (https p) (fcgi p) n.
Definition with_mdwr x (p : Plugin) : Plugin :=
  MkPlugin (cfg p) x (pool p) (handler p) (http p) (https p) (fcgi p) (readers p).

Definition with_env e (c : HTTP) : HTTP :=
  HttpConfig.MkHTTP (Address c) (HttpConfig.AccessLogs c) (HttpConfig.Pool c)
    (HttpConfig.InternalErrorCode c) (SSLConfig c) (HttpConfig.FCGIAddress c)
    (HttpConfig.HTTP2Config c) (HttpConfig.cfg_Uploads c) (HttpConfig.MaxRequestSize c)
    (HttpConfig.TrustedSubnets c) e (HttpConfig.Middleware c) (HttpConfig.cfg_Cidrs c).

(** [section] is what the configurer has for the key [http]. *)
Definition Init (hst : HttpConfig.host_env) (section : option (HTTP + error)) : res Plugin :=
  let op := "http_plugin_init" in
  match section with
  | None => Err (EOp op (EKind Disabled))
  | Some (inr e) => Err (EOp op e)
  | Some (inl c) =>
      match HttpConfig.InitDefaults hst c with
      | Ok c =>
          if negb (EnableHTTP c) && negb (EnableTLS c) && negb (EnableFCGI c)
          then Err (EOp op (EKind Disabled))
          else Ok (MkPlugin (with_env (<["RR_MODE" := "http"]> (HttpConfig.Env c)) c) ∅ None None
                      None None None 0)
      | Err e => Err (EOp op e)
      | Panic => Panic
      end
  end.

Definition AddMiddleware (name : string) (m : HT → HT) (p : Plugin) : Plugin :=
  with_mdwr (<[name := m]> (mdwr p)) p.

(** ** Start *)

Definition initTLS (wd : serve_world) (ssl : SSL) (p : Plugin) : server HT :=
  MkServer (tlsAddr (show_port wd) ssl (Address (cfg p)) true) plugin_handler
    (Some (MkTLS (suites (hasGCMAsm wd)) VersionTLS12 None None [])) None.

Definition map_tls (f : TLSConfig → TLSConfig) (s : server HT) : server HT :=
  MkServer (srv_Addr s) (srv_Handler s) (f <$> srv_TLS s) (srv_Streams s).

(** Without a pool of system certificates the root CA of the configuration is left out. *)
Definition appendRootCa (wd : serve_world) (ssl : SSL) (srv : option (server HT))
    : option (server HT) * option error :=
  match SystemCertPool wd with
  | inr _ => (srv, None)
  | inl roots =>
      match ReadFile wd (RootCA ssl) with
      | inr e => (srv, Some e)
      | inl ca =>
          match AppendPEM wd (default "" roots) ca with
          | None => (srv, Some (EOp "http_plugin_append_root_ca" (EStr "could not append Certs from PEM")))
          | Some roots =>
              match srv with
              | None => (None, Some (EStr "https server is nil. This is the BUG, please, report to the https://github.com/spiral/roadrunner-plugins"))
              | Some s => (Some (map_tls (λ t, MkTLS (CipherSuites t) (MinVersion t) (Some roots)
                                   (GetCertificate t) (NextProtos t)) s), None)
              end
          end
      end
  end.

(** The branch of [serve] for TLS; the error goes to the channel. *)
Definition serve_tls (wd : serve_world) (ssl : SSL) (p : Plugin) : Plugin * option error :=
  let p := with_https (Some (initTLS wd ssl p)) p in
  let '(p, e) :=
    if String.eqb (RootCA ssl) "" then (p, None)
    else let '(s, e) := appendRootCa wd ssl (https p) in (with_https s p, e) in
  match e with
  | Some e => (p, Some e)
  | None =>
      let '(p, e) :=
        if EnableACME (cfg p) then
          match ObtainCertificates wd with
          | inr e => (p, Some e)
          | inl cert =>
              (with_https (map_tls (λ t, MkTLS (CipherSuites t) (MinVersion t) (RootCAs t) (Some cert)
                 (NextProtos t ++ ["acme-tls/1"])) <$> https p) p, None)
          end
        else (p, None) in
      match e with
      | Some e => (p, Some e)
      | None =>
          match HttpConfig.HTTP2Config (cfg p) with
          | None => (p, None)
          | Some h2 =>
              match ConfigureHTTP2 wd with
              | Some e => (p, Some e)
              | None => (with_https ((λ s, MkServer (srv_Addr s) (srv_Handler s) (srv_TLS s)
                           (Some (HttpConfig.MaxConcurrentStreams h2))) <$> https p) p, None)
              end
          end
      end
  end.

(** The three servers apply the middleware before they listen. *)
Definition start_server (p : Plugin) (s : server HT) : server HT :=
  if bool_decide (mdwr p = ∅) then s else applyMiddlewares (mdwr p) (HttpConfig.Middleware (cfg p)) s.

(** [p.cfg.Pool] and [p.cfg.Uploads] are set by [InitDefaults]; a nil one panics. *)
Definition serve (wd : serve_world) (p : Plugin) : Plugin * res unit :=
  match HttpConfig.Pool (cfg p), HttpConfig.cfg_Uploads (cfg p) with
  | Some pc, Some up =>
      match NewWorkerPool pc (HttpConfig.Env (cfg p)) with
      | inr e => (p, Err e)
      | inl w =>
          let p := with_pool (Some w) p in
          let p := with_handler (Some (NewHandler (HttpConfig.MaxRequestSize (cfg p))
                     (HttpConfig.InternalErrorCode (cfg p)) (HttpConfig.Dir up) (HttpConfig.Allowed up)
                     (HttpConfig.Forbidden up) (HttpConfig.cfg_Cidrs (cfg p)))) p in
          let p := if EnableHTTP (cfg p)
                   then with_http (Some (MkServer "" (if EnableH2C (cfg p) then h2c plugin_handler
                                                      else plugin_handler) None None)) p
                   else p in
          let '(p, e) :=
            match SSLConfig (cfg p) with
            | Some ssl => if EnableTLS (cfg p) then serve_tls wd ssl p else (p, None)
            | None => (p, None)
            end in
          match e with
          | Some e => (p, Err e)
          | None =>
              let p := if EnableFCGI (cfg p)
                       then with_fcgi (Some (MkServer "" plugin_handler None None)) p else p in
              (with_http (start_server p <$> http p)
                (with_https (start_server p <$> https p)
                  (with_fcgi (start_server p <$> fcgi p) p)), Ok tt)
          end
      end
  | _, _ => (p, Panic)
  end.

(** ** Requests *)

Definition headerContainsUpgrade (r : hreq) : bool := bool_decide (is_Some (r_Header r !! "Upgrade")).

(** [http.Redirect] sets the location; the text of the URL is built by [net/url]. *)
Definition redirect (url : string → hreq → string) (show : Z → string) (ssl : SSL) (r : hreq) (w : writer)
    : writer :=
  let w := with_header (hdr_Set "Location" (url (tlsAddr show ssl (r_Host r) false) r) (rw_header w)) w in
  match WriteHeader 308 w with Ok w => w | _ => w end.

Definition with_context c (r : hreq) : hreq :=
  MkHReq (r_Header r) (r_RemoteAddr r) (r_Proto r) (r_Method r) (r_URL r) (r_URLHost r) (r_RawQuery r)
    (r_TLS r) (r_Host r) (r_Cookies r) c (r_Body r) (r_ParseMultipart r) (r_Files r) (r_ParseForm r) (r_Form r).

(** The lock is released after the handler returns, and not when it panics. *)
Definition ServeHTTP (url : string → hreq → string) (show : Z → string) (hijacked : bool) (env : serve_env)
    (r : hreq) (w : writer) (p : Plugin) : Plugin * writer * res unit :=
  if headerContainsUpgrade r then
    if hijacked then (p, w, Ok tt)
    else let w := (Write "" w).1 in
         (p, http_Error "server does not support upgrade header" 500 w, Ok tt)
  else
    let redirecting := match https p, SSLConfig (cfg p) with
                       | Some _, Some ssl => if negb (r_TLS r) && Redirect ssl then Some ssl else None
                       | _, _ => None
                       end in
    match redirecting with
    | Some ssl =>
        let w := with_header (hdr_Add "Strict-Transport-Security"
                   "max-age=31536000; includeSubDomains; preload" (rw_header w)) w in
        (p, redirect url show ssl r w, Ok tt)
    | None =>
        let r := with_context (Attributes.Init (r_Context r)) r in
        let p := with_readers (S (readers p)) p in
        match handler p with
        | None => (p, w, Panic)
        | Some (h, s) =>
            let '(s, w, o) := HttpHandler.ServeHTTP h env r w s in
            let p := with_handler (Some (h, s)) p in
            match o with
            | Ok _ => (with_readers (readers p - 1) p, w, Ok tt)
            | _ => (p, w, o)
            end
        end
    end.

(** ** Life cycle *)

(** [None]: the call waits for the readers. *)
Definition Reset (p : Plugin) : option (Plugin * option error) :=
  match readers p with
  | S _ => None
  | O => match pool p with
         | None => Some (p, None)
         | Some w => let '(w, e) := pool_Reset w in
                     Some (with_pool (Some w) p, EOp "http_plugin_reset" <$> e)
         end
  end.

(** The servers that are shut down, in order; their errors are only logged. *)
Definition Stop (p : Plugin) : option (list (server HT)) :=
  match readers p with
  | S _ => None
  | O => Some (option_list (fcgi p) ++ option_list (https p) ++ option_list (http p))
  end.

Definition workers (p : Plugin) : list worker :=
  match pool p with None => [] | Some w => pool_Workers w end.

Fixpoint states (l : list worker) : option (list Z) :=
  match l with
  | [] => Some []
  | w :: l' => match ws_process w with
               | inr _ => None
               | inl z => match states l' with Some zs => Some (z :: zs) | None => None end
               end
  end.
Definition Workers (p : Plugin) : option (list Z) := states (workers p).

Definition Status (p : Plugin) : Z := if existsb ws_active (workers p) then 200%Z else 503%Z.
Definition is_ready (w : worker) : bool := match ws_value w with StateReady => true | _ => false end.
Definition Ready (p : Plugin) : Z := if existsb is_ready (workers p) then 200%Z else 503%Z.

(** [Collect] of the exporter adds the memory of the workers in 64 bits. *)
Definition collect_memory (p : Plugin) : Z := foldl (λ c m, u64 (c + m)) 0%Z (default [] (Workers p)).

(** ** Theorems *)

(** Middleware runs in the order of the configuration: the handler of a server
    is the first configured middleware around the second, and so on, with names
    that are not registered left out. *)
Theorem middleware_order (mw : gmap string (HT → HT)) order (s : server HT) :
  srv_Handler (applyMiddlewares mw order s) =
    foldr (λ n h, match mw !! n with Some m => m h | None => h end) (srv_Handler s) order.
Proof.
  unfold applyMiddlewares. cbn [srv_Handler]. generalize (srv_Handler s).
  induction order as [|n l IH] using rev_ind; intros h; [done|].
  rewrite rev_app_distr, foldr_app. apply IH.
Qed.

(** A request with the circumstances it is served in. *)
Record call := MkCall {
  c_url : string → hreq → string; c_show : Z → string; c_hijacked : bool; c_env : serve_env;
  c_req : hreq; c_writer : writer }.

Definition serve_call (c : call) (p : Plugin) : Plugin * writer * res unit :=
  ServeHTTP (c_url c) (c_show c) (c_hijacked c) (c_env c) (c_req c) (c_writer c) p.

Definition serve_calls (l : list call) (p : Plugin) : Plugin :=
  foldl (λ p c, (serve_call c p).1.1) p l.

Lemma serve_call_readers c p :
  readers (serve_call c p).1.1 =
    (if is_ok (serve_call c p).2 then readers p else S (readers p)).
Proof.
  unfold serve_call, ServeHTTP. destruct (headerContainsUpgrade _); [by destruct (c_hijacked c)|].
  destruct (match https p with Some _ => _ | None => _ end); [done|]. cbn [handler with_readers].
  destruct (handler p) as [[h s]|]; [|done].
  destruct (HttpHandler.ServeHTTP _ _ _ _ _) as [[s' w'] [[]|e|]]; simpl; [lia|done..].
Qed.

Lemma serve_calls_readers l p : readers p ≤ readers (serve_calls l p).
Proof.
  revert p. induction l as [|c l IH]; intros p; [done|]. simpl. etransitivity; [|apply IH].
  rewrite serve_call_readers. destruct (is_ok _); lia.
Qed.

(** Requests that do not panic leave the lock free for [Reset] and [Stop]. *)
Lemma serve_calls_free l p :
  readers p = 0 →
  (∀ l1 c l2, l = l1 ++ c :: l2 → is_ok (serve_call c (serve_calls l1 p)).2 = true) →
  readers (serve_calls l p) = 0.
Proof.
  intros Hp. induction l as [|c l IH] using rev_ind; intros Hok; [done|].
  unfold serve_calls in *. rewrite foldl_app. simpl. rewrite serve_call_readers.
  rewrite (Hok l c [] eq_refl). apply IH. intros l1 c' l2 ->. apply (Hok l1 c' (l2 ++ [c])).
  by rewrite <- app_assoc.
Qed.

(** A form post that the server hands to the workers. *)
Definition plain_form_post (h : Handler) (c : call) (p : Plugin) : Prop :=
  headerContainsUpgrade (c_req c) = false ∧ https p = None ∧
  size_check h (c_req c) (c_writer c) = None ∧ r_Method (c_req c) = "POST" ∧
  hdr_Get "content-type" (r_Header (c_req c)) = "application/x-www-form-urlencoded" ∧
  r_ParseForm (c_req c) = None.

(** One request can stop the server from being reset.  A form whose keys are
    in conflict makes the handler panic (see [parseData_conflict]); the read lock
    is then never released, so that [Reset] and [Stop] wait for ever, whatever
    is served afterwards. *)
Theorem form_conflict_blocks_reset h s c p later :
  handler p = Some (h, s) → plain_form_post h c p → parseData (r_Form (c_req c)) = Panic →
  (serve_call c p).2 = Panic ∧
  Reset (serve_calls (c :: later) p) = None ∧ Stop (serve_calls (c :: later) p) = None.
Proof.
  intros Hh (Hup & Hs & Hsz & Hm & Hct & Hpf) Hd.
  assert (Hpanic : (serve_call c p).2 = Panic).
  { unfold serve_call, ServeHTTP. rewrite Hup, Hs. cbn [handler with_readers]. rewrite Hh.
    unfold HttpHandler.ServeHTTP, prepare.
    change (size_check h (with_context _ (c_req c)) (c_writer c)) with (size_check h (c_req c) (c_writer c)).
    rewrite Hsz, getReq_filled. unfold request, contentType.
    cbn [Method with_cookies filled with_context r_Method Header_ r_Header]. rewrite Hm, Hct.
    change (String.eqb "POST" "HEAD" || String.eqb "POST" "OPTIONS") with false. cbn iota.
    assert (Hcc : contains "application/x-www-form-urlencoded" "application/x-www-form-urlencoded" = true)
      by reflexivity.
    rewrite Hcc. unfold form_body.
    cbn [with_context r_ParseForm r_Form]. by rewrite Hpf, Hd. }
  split; [done|]. assert (Hr : readers (serve_calls (c :: later) p) ≠ 0).
  { simpl. pose proof (serve_calls_readers later (serve_call c p).1.1) as Hle.
    rewrite serve_call_readers, Hpanic in Hle. simpl in Hle. unfold serve_calls in *. lia. }
  unfold Reset, Stop. by destruct (readers _).
Qed.

(** An upgrade request that nobody took over is meant to be answered with 500;
    the probe of the connection has already sent 200, which is what the client
    sees, with the error text as body. *)
Theorem upgrade_answered_200 c p :
  headerContainsUpgrade (c_req c) = true → c_hijacked c = false →
  rw_status (c_writer c) = None → rw_fail (c_writer c) = None → rw_body (c_writer c) = "" →
  final_status (serve_call c p).1.2 = 200%Z ∧
  rw_body (serve_call c p).1.2 = "server does not support upgrade header" +:+ String "010" "".
Proof.
  intros Hu Hh Hs Hf Hb. unfold serve_call, ServeHTTP. rewrite Hu, Hh.
  destruct (c_writer c) as [hd st sent bd fl ps]. simpl in *. subst. done.
Qed.

Lemma appendRootCa_some wd ssl srv srv' e :
  appendRootCa wd ssl (Some srv) = (srv', e) → is_Some srv'.
Proof. unfold appendRootCa. repeat case_match; intros [= <- <-]; by eauto. Qed.

Lemma serve_tls_frame wd ssl p p' e :
  serve_tls wd ssl p = (p', e) →
  cfg p' = cfg p ∧ http p' = http p ∧ fcgi p' = fcgi p ∧ pool p' = pool p ∧ handler p' = handler p ∧
  is_Some (https p').
Proof.
  unfold serve_tls. set (p1 := with_https _ p).
  destruct (if String.eqb (RootCA ssl) "" then _ else _) as [p2 e2] eqn:E2.
  assert (H2' : cfg p2 = cfg p ∧ http p2 = http p ∧ fcgi p2 = fcgi p ∧ pool p2 = pool p ∧ handler p2 = handler p
    ∧ is_Some (https p2)).
  { destruct (String.eqb (RootCA ssl) ""); [simplify_eq; split_and!; by eauto|].
    destruct (appendRootCa wd ssl (https p1)) as [s e3] eqn:Er. apply appendRootCa_some in Er.
    simplify_eq. by split_and!. }
  clearbody p1. clear E2. destruct H2' as (Hc & Hh & Hf & Hp & Hd & [sv Hs]). destruct e2 as [e2|].
  { intros [= <- <-]. split_and!; by eauto. }
  destruct (if EnableACME (cfg p2) then _ else _) as [p3 e3] eqn:E3.
  assert (H3' : cfg p3 = cfg p ∧ http p3 = http p ∧ fcgi p3 = fcgi p ∧ pool p3 = pool p ∧ handler p3 = handler p
    ∧ is_Some (https p3)).
  { destruct (EnableACME (cfg p2)); [|simplify_eq; split_and!; by eauto].
    destruct (ObtainCertificates wd); simplify_eq; split_and!; simpl; rewrite ?Hs; by eauto. }
  destruct H3' as (Hc' & Hh' & Hf' & Hp' & Hd' & [sv' Hs']). destruct e3 as [e3|].
  { intros [= <- <-]. split_and!; by eauto. }
  repeat case_match; intros [= <- <-]; split_and!; simpl; rewrite ?Hs'; by eauto.
Qed.

Lemma EnableTLS_ssl c : EnableTLS c = true → is_Some (SSLConfig c).
Proof. unfold EnableTLS. destruct (SSLConfig c); by eauto. Qed.

(** [serve] starts exactly the servers the configuration enables, and all of
    them only when no step failed. *)
Theorem serve_servers wd p p' :
  http p = None → https p = None → fcgi p = None → serve wd p = (p', Ok tt) →
  (is_Some (http p') ↔ EnableHTTP (cfg p) = true) ∧
  (is_Some (https p') ↔ EnableTLS (cfg p) = true) ∧
  (is_Some (fcgi p') ↔ EnableFCGI (cfg p) = true) ∧
  is_Some (pool p') ∧ is_Some (handler p') ∧ cfg p' = cfg p.
Proof.
  intros H1' H2' H3'. unfold serve.
  destruct (HttpConfig.Pool (cfg p)) as [pc|]; [|done].
  destruct (HttpConfig.cfg_Uploads (cfg p)) as [up|]; [|done].
  destruct (NewWorkerPool pc _) as [wk|]; [|done].
  set (p1 := with_handler _ (with_pool (Some wk) p)).
  set (p2 := if EnableHTTP (cfg p1) then _ else p1).
  assert (Hp2 : cfg p2 = cfg p ∧ https p2 = None ∧ fcgi p2 = None ∧ is_Some (pool p2) ∧ is_Some (handler p2) ∧
    (is_Some (http p2) ↔ EnableHTTP (cfg p) = true)).
  { unfold p2. change (cfg p1) with (cfg p). destruct (EnableHTTP (cfg p)); simpl;
      rewrite ?H1'; split_and!; eauto; split; intros; by eauto. }
  clearbody p2. destruct Hp2 as (Hc & Hs & Hf & Hpl & Hd & Hh). rewrite Hc.
  destruct (match SSLConfig (cfg p) with Some _ => _ | None => _ end) as [p3 e3] eqn:E3.
  assert (Hp3 : cfg p3 = cfg p ∧ fcgi p3 = None ∧ is_Some (pool p3) ∧ is_Some (handler p3) ∧
    (is_Some (http p3) ↔ EnableHTTP (cfg p) = true) ∧ (is_Some (https p3) ↔ EnableTLS (cfg p) = true)).
  { destruct (SSLConfig (cfg p)) as [ssl|] eqn:Es.
    - destruct (EnableTLS (cfg p)) eqn:Et.
      + destruct (serve_tls_frame _ _ _ _ _ E3) as (-> & -> & -> & -> & -> & Hsv). by split_and!.
      + simplify_eq. rewrite Hs. by split_and!.
    - assert (Et : EnableTLS (cfg p) = false).
      { destruct (EnableTLS (cfg p)) eqn:Et; [|done]. apply EnableTLS_ssl in Et as [? ?]. congruence. }
      simplify_eq. rewrite Hs, Et. by split_and!. }
  clear E3. destruct Hp3 as (Hc3 & Hf3 & Hpl3 & Hd3 & Hh3 & Hs3). destruct e3; [done|]. rewrite Hc3.
  intros [= <-].
  destruct (EnableFCGI (cfg p)); simpl; rewrite ?Hf3, !fmap_is_Some; simpl; by split_and!.
Qed.
End plugin.

(** ** A concrete server *)

Section examples.
Local Existing Instance HttpConfig.ipv4_net.
Local Existing Instance ascii_unicode.
Local Existing Instance HttpHandler.example_marshal.
Local Existing Instance HttpHandler.example_text.
Local Instance example_pool : WorkerPool := {|
  P := list worker; pool_Workers := id; pool_Reset w := (w, None); NewWorkerPool _ _ := inl [] |}.

(** Handlers are the list of middleware in front of the plugin. *)
Abbreviation chain := (list string).

Definition example_cfg : HTTP :=
  match HttpConfig.InitDefaults HttpConfig.example_host HttpConfig.example_http with
  | Ok c => c
  | _ => HttpConfig.example_http
  end.

Definition example_plugin : Plugin (HT := chain) :=
  MkPlugin example_cfg ∅ (Some []) (Some (example_handler, example_start)) None None None 0.

Definition conflict_req : hreq :=
  MkHReq (hdr_Set "Content-Type" "application/x-www-form-urlencoded" ∅) "10.0.0.1:80" "HTTP/1.1" "POST"
    "/" "" "" false "host" [] None ("", None) None ∅ None
    (MkForm (Some {["a" := ["1"]; "a[b]" := ["2"]]}) None).

Definition example_call (r : hreq) : call :=
  MkCall (λ h _, h) (λ _, "443") false (example_env None (Some 200%Z)) r new_writer.

Lemma form_conflict_blocks_reset_witness :
  Reset (serve_calls (H1 := last_range) [example_call conflict_req] example_plugin) = None.
Proof.
  apply (form_conflict_blocks_reset (H1 := last_range) example_handler example_start
    (example_call conflict_req) example_plugin []).
  - reflexivity.
  - by split_and!.
  - vm_compute. reflexivity.
Defined.

Lemma upgrade_answered_200_witness :
  let r := MkHReq {["Upgrade" := ["websocket"]]} "" "" "GET" "/" "" "" false "" [] None ("", None) None ∅
             None (MkForm None None) in
  final_status (serve_call (H1 := first_range) (example_call r) example_plugin).1.2 = 200%Z.
Proof. apply upgrade_answered_200; reflexivity. Defined.

Definition example_world : serve_world :=
  MkWorld true (inl None) (λ _, inl "") (λ a b, Some b) (inl "cert") None (λ _, "443").

Lemma serve_servers_witness :
  let p := MkPlugin example_cfg {["gzip" := (λ h, "gzip" :: h)]} None None None None None 0 in
  is_Some (https (serve (HT := chain) [] id example_world p).1) ↔ EnableTLS example_cfg = true.
Proof.
  intros p.
  eapply (serve_servers (HT := chain) [] id example_world p); [reflexivity..|].
  destruct (serve _ _ _ _) as [p' r] eqn:E. cbn [fst].
  assert (r = Ok tt) as ->; [|reflexivity].
  change r with (p', r).2. rewrite <- E. vm_compute. reflexivity.
Defined.
End examples.
End HttpPlugin.
