(* ===== verification/HttpServers.v ===== *)
(** * Servers and certificates ([http/acme.go], [http/http.go], [http/ssl.go], [http/serve.go])

    Module [Acme] models how certificates are obtained: the settings the ACME
    client gets and the calls made on it.  Module [Servers] models the goroutines
    that listen: one per server of the plugin, each of which applies the
    middleware, opens its listener and serves, while [Stop] shuts the servers
    down. *)

From stdpp Require Import base gmap strings list relations.
From Stdlib Require Import ZArith Lia.
From S2P Require Import Prelude GoStrings HttpBase HttpForm HttpRequest HttpConfig HttpHandler HttpPlugin.

(** ** Certificates *)

Module Acme.

Inductive CA := LetsEncryptProduction | LetsEncryptStaging.

(** The settings of [certmagic.ACMEManager] that the code sets. *)
Record Manager := MkManager {
  m_CA : CA; TestCA : CA; m_Email : string; Agreed : bool;
  DisableHTTPChallenge : bool; DisableTLSALPNChallenge : bool; ListenHost : string;
  m_AltHTTPPort : Z; m_AltTLSALPNPort : Z; CertObtainTimeout : Z }.

(** What the client is asked for: a certificate, or to keep a list of them. *)
Inductive request := ObtainCertAsync (domain : string) | ManageSync (domains : list string).

Definition HTTP01 : string := "http-01".
Definition TLSAlpn01 : string := "tlsalpn-01".

Definition new_manager (email : string) (altHTTPPort altTLSAlpnPort : Z) : Manager :=
  MkManager LetsEncryptProduction LetsEncryptStaging email true false false "0.0.0.0"
    altHTTPPort altTLSAlpnPort (240 * 10 ^ 9).

Definition with_ca c (m : Manager) : Manager :=
  MkManager c (TestCA m) (m_Email m) (Agreed m) (DisableHTTPChallenge m) (DisableTLSALPNChallenge m)
    (ListenHost m) (m_AltHTTPPort m) (m_AltTLSALPNPort m) (CertObtainTimeout m).
Definition with_challenges h t (m : Manager) : Manager :=
  MkManager (m_CA m) (TestCA m) (m_Email m) (Agreed m) h t
    (ListenHost m) (m_AltHTTPPort m) (m_AltTLSALPNPort m) (CertObtainTimeout m).

(** The manager after the two switches; an unknown challenge means HTTP. *)
Definition manager (email challengeType : string) (useProduction : bool) (altHTTPPort altTLSAlpnPort : Z)
    : Manager :=
  let m := new_manager email altHTTPPort altTLSAlpnPort in
  let m := if negb useProduction then with_ca LetsEncryptStaging m else m in
  if String.eqb challengeType HTTP01 then with_challenges (DisableHTTPChallenge m) true m
  else if String.eqb challengeType TLSAlpn01 then with_challenges true (DisableTLSALPNChallenge m) m
  else with_challenges (DisableHTTPChallenge m) true m.

Section client.
(** [certmagic]: the configuration of a client with the directory of its
    certificates and its manager; what it answers to a request, and its TLS
    settings. *)
Context {T : Type} (ask : string → Manager → list request → request → option error).
Context (TLSConfig : string → Manager → T).

(** The requests made so far are part of what the client may answer by. *)
Fixpoint obtain_all (dir : string) (m : Manager) (domains : list string) (log : list request)
    : list request * option error :=
  match domains with
  | [] => (log, None)
  | d :: l => match ask dir m log (ObtainCertAsync d) with
              | Some e => (log ++ [ObtainCertAsync d], Some e)
              | None => obtain_all dir m l (log ++ [ObtainCertAsync d])
              end
  end.

Definition ObtainCertificates (cacheDir email challengeType : string) (domains : list string)
    (useProduction : bool) (altHTTPPort altTLSAlpnPort : Z) : list request * (T + error) :=
  let m := manager email challengeType useProduction altHTTPPort altTLSAlpnPort in
  match obtain_all cacheDir m domains [] with
  | (log, Some e) => (log, inr e)
  | (log, None) =>
      match ask cacheDir m log (ManageSync domains) with
      | Some e => (log ++ [ManageSync domains], inr e)
      | None => (log ++ [ManageSync domains], inl (TLSConfig cacheDir m))
      end
  end.

Lemma obtain_all_ok dir m domains log log' :
  obtain_all dir m domains log = (log', None) → log' = log ++ (ObtainCertAsync <$> domains).
Proof.
  revert log. induction domains as [|d l IH]; intros log; simpl.
  { intros [= <-]. by rewrite app_nil_r. }
  destruct (ask _ _ _ _); [done|]. intros ->%IH. by rewrite <- app_assoc.
Qed.

Lemma obtain_all_err dir m domains log log' e :
  obtain_all dir m domains log = (log', Some e) →
  ∃ pre d post, domains = pre ++ d :: post ∧ log' = log ++ (ObtainCertAsync <$> pre ++ [d]).
Proof.
  revert log. induction domains as [|d l IH]; intros log; simpl; [done|].
  destruct (ask _ _ _ _) as [e'|].
  - intros [= <- _]. by exists [], d, l.
  - intros (pre & d' & post & -> & ->)%IH. exists (d :: pre), d', post. split; [done|]. simpl. by rewrite <- app_assoc.
Qed.

Definition obtain (ac : HttpConfig.AcmeConfig) : list request * (T + error) :=
  ObtainCertificates (HttpConfig.CacheDir ac) (HttpConfig.Email ac) (HttpConfig.ChallengeType ac)
    (HttpConfig.Domains ac) (HttpConfig.UseProductionEndpoint ac) (HttpConfig.AltHTTPPort ac)
    (HttpConfig.AltTLSALPNPort ac).
Definition manager_of (ac : HttpConfig.AcmeConfig) : Manager :=
  manager (HttpConfig.Email ac) (HttpConfig.ChallengeType ac) (HttpConfig.UseProductionEndpoint ac)
    (HttpConfig.AltHTTPPort ac) (HttpConfig.AltTLSALPNPort ac).

Definition all_requests (domains : list string) : list request :=
  (ObtainCertAsync <$> domains) ++ [ManageSync domains].

Lemma manager_challenges email ct prod p q :
  let m := manager email ct prod p q in
  DisableHTTPChallenge m = bool_decide (ct = TLSAlpn01) ∧
  DisableTLSALPNChallenge m = bool_decide (ct ≠ TLSAlpn01) ∧
  m_CA m = if prod then LetsEncryptProduction else LetsEncryptStaging.
Proof.
  intros m. unfold m, manager. destruct (String.eqb_spec ct HTTP01) as [->|H1].
  { by destruct prod. }
  destruct (String.eqb_spec ct TLSAlpn01) as [->|H2]; [by destruct prod|].
  rewrite bool_decide_eq_false_2, bool_decide_eq_true_2 by done. by destruct prod.
Qed.

(** For a configuration that [InitDefaults] accepts exactly one of the two
    challenges stays enabled, TLS-ALPN only when it is asked for; the production
    authority is used only when it is asked for.  Certificates are returned
    only after every domain was requested, in order, and all were put under
    management together; on an error nothing after the failing request is
    asked. *)
Theorem acme_requests (ac ac' : HttpConfig.AcmeConfig) log r :
  HttpConfig.acme_InitDefaults ac = Ok ac' → obtain ac' = (log, r) →
  DisableHTTPChallenge (manager_of ac') = bool_decide (HttpConfig.ChallengeType ac = TLSAlpn01) ∧
  DisableTLSALPNChallenge (manager_of ac') = negb (DisableHTTPChallenge (manager_of ac')) ∧
  m_CA (manager_of ac') = (if HttpConfig.UseProductionEndpoint ac then LetsEncryptProduction else LetsEncryptStaging) ∧
  log ≠ [] ∧
  match r with
  | inl _ => log = all_requests (HttpConfig.Domains ac)
  | inr _ => log `prefix_of` all_requests (HttpConfig.Domains ac)
  end.
Proof.
  intros Hi Ho.
  assert (Hac : HttpConfig.Domains ac' = HttpConfig.Domains ac ∧
    HttpConfig.UseProductionEndpoint ac' = HttpConfig.UseProductionEndpoint ac ∧
    (HttpConfig.ChallengeType ac' = TLSAlpn01 ↔ HttpConfig.ChallengeType ac = TLSAlpn01)).
  { unfold HttpConfig.acme_InitDefaults in Hi. destruct (String.eqb (HttpConfig.Email ac) ""); [done|].
    destruct (HttpConfig.Domains ac) eqn:Ed; [done|].
    destruct (String.eqb_spec (HttpConfig.ChallengeType ac) "") as [Ec|Ec]; injection Hi as <-; simpl;
      rewrite ?Ed, ?Ec; split_and!; done. }
  destruct Hac as (Hd & Hp & Hc).
  destruct (manager_challenges (HttpConfig.Email ac') (HttpConfig.ChallengeType ac')
    (HttpConfig.UseProductionEndpoint ac') (HttpConfig.AltHTTPPort ac') (HttpConfig.AltTLSALPNPort ac')) as (H1 & H2 & H3).
  unfold manager_of. rewrite H1, H2, H3, Hp. split_and!.
  - by apply bool_decide_ext.
  - by rewrite <- bool_decide_not.
  - done.
  - unfold obtain, ObtainCertificates in Ho. rewrite Hd in Ho. cbv zeta in Ho.
    destruct (obtain_all _ _ _ _) as [l [e|]] eqn:E.
    + injection Ho as <- _. apply obtain_all_err in E as (pre & d & post & _ & ->). by destruct pre.
    + destruct (ask _ _ _ _); injection Ho as <- _; by destruct l.
  - unfold obtain, ObtainCertificates in Ho. rewrite Hd in Ho. cbv zeta in Ho. unfold all_requests.
    destruct (obtain_all _ _ _ _) as [l [e|]] eqn:E.
    + injection Ho as <- <-. apply obtain_all_err in E as (pre & d & post & -> & ->). simpl.
      exists ((ObtainCertAsync <$> post) ++ [ManageSync (pre ++ d :: post)]).
      rewrite !fmap_app. simpl. by rewrite <- !app_assoc.
    + apply obtain_all_ok in E as ->. by destruct (ask _ _ _ _); injection Ho as <- <-.
Qed.
End client.

Definition w_acme : HttpConfig.AcmeConfig := HttpConfig.MkAcme "" "a@b" "" 0 0 false ["x.org"; "y.org"].

Lemma acme_requests_witness :
  ∃ log r, obtain (T := unit) (λ _ _ _ _, None) (λ _ _, tt)
      (HttpConfig.MkAcme "rr_cache_dir" "a@b" "http-01" 80 0 false ["x.org"; "y.org"]) = (log, r) ∧
    match r with
    | inl _ => log = all_requests ["x.org"; "y.org"]
    | inr _ => log `prefix_of` all_requests ["x.org"; "y.org"]
    end.
Proof.
  eexists _, _. split; [reflexivity|].
  apply (acme_requests (T := unit) (λ _ _ _ _, None) (λ _ _, tt) w_acme
    (HttpConfig.MkAcme "rr_cache_dir" "a@b" "http-01" 80 0 false ["x.org"; "y.org"])); reflexivity.
Defined.
End Acme.

(** ** The goroutines that serve *)

Module Servers.
Import HttpBase HttpForm HttpRequest HttpHandler HttpPlugin.
Import HttpConfig (Net).

Inductive kind := KHttp | KHttps | KFcgi.

(** A goroutine has not listened yet, has a listener, serves, has ended, or
    waits for a place in the channel for its error. *)
Inductive phase := Fresh | Bound | Up | Down | Full (e : error).

(** [shut]: [Shutdown] of the [http.Server] has been called. *)
Record thread := MkThread { t_kind : kind; t_phase : phase; shut : bool }.

Definition errCh_cap : nat := 2.
Record state := MkState { threads : list thread; errCh : list error }.

Definition op_of (k : kind) : string :=
  match k with KHttp => "serveHTTP" | KHttps => "serveHTTPS" | KFcgi => "serveFCGI" end.

Definition at_phase (ph : phase) (t : thread) : thread := MkThread (t_kind t) ph (shut t).

(** [errCh <- err], the last thing a goroutine does. *)
Definition report (i : nat) (t : thread) (e : error) (s : state) : state :=
  if (length (errCh s) <? errCh_cap)%nat
  then MkState (<[i := at_phase Down t]> (threads s)) (errCh s ++ [e])
  else MkState (<[i := at_phase (Full e) t]> (threads s)) (errCh s).

(** [utils.CreateListener]. *)
Definition listen (i : nat) (r : option error) (s : state) : option state :=
  t ← threads s !! i;
  match t_phase t with
  | Fresh => Some (match r with
                   | Some e => report i t (EOp (op_of (t_kind t)) e) s
                   | None => MkState (<[i := at_phase Bound t]> (threads s)) (errCh s)
                   end)
  | _ => None
  end.

(** [Serve] and [ServeTLS] of a server that was shut down return
    [http.ErrServerClosed] at once; [fcgi.Serve] gets the handler of its server
    and knows nothing of the server. *)
Definition enter (i : nat) (s : state) : option state :=
  t ← threads s !! i;
  match t_phase t with
  | Bound =>
      let closed := match t_kind t with KFcgi => false | _ => shut t end in
      Some (MkState (<[i := at_phase (if closed then Down else Up) t]> (threads s)) (errCh s))
  | _ => None
  end.

(** Accepting a connection fails for another reason. *)
Definition fail (i : nat) (e : error) (s : state) : option state :=
  t ← threads s !! i;
  match t_phase t with
  | Up => Some (report i t (EOp (op_of (t_kind t)) e) s)
  | _ => None
  end.

(** A place gets free. *)
Definition send (i : nat) (s : state) : option state :=
  t ← threads s !! i;
  match t_phase t with
  | Full e => if (length (errCh s) <? errCh_cap)%nat
              then Some (MkState (<[i := at_phase Down t]> (threads s)) (errCh s ++ [e])) else None
  | _ => None
  end.
Definition receive (s : state) : option state :=
  match errCh s with [] => None | _ :: l => Some (MkState (threads s) l) end.

(** [Shutdown] closes the listeners of its server, which ends [Serve]. *)
Definition shutdown (t : thread) : thread :=
  match t_kind t, t_phase t with
  | (KHttp | KHttps), Up => MkThread (t_kind t) Down true
  | _, ph => MkThread (t_kind t) ph true
  end.
Definition Stop (s : state) : state := MkState (shutdown <$> threads s) (errCh s).

Inductive action :=
  | AListen (i : nat) (r : option error) | AEnter (i : nat) | AFail (i : nat) (e : error)
  | ASend (i : nat) | AReceive | AStop.

Definition exec (a : action) (s : state) : option state :=
  match a with
  | AListen i r => listen i r s
  | AEnter i => enter i s
  | AFail i e => fail i e s
  | ASend i => send i s
  | AReceive => receive s
  | AStop => Some (Stop s)
  end.
Definition step (s s' : state) : Prop := ∃ a, exec a s = Some s'.

Section start.
Context `{Net} `{Unicode} `{GoRange} `{Marshal} `{ErrorText} `{WorkerPool} {HT : Type}.

(** The goroutines that [serve] starts. *)
Definition start (p : Plugin (HT := HT)) : state :=
  let go k (srv : option (server HT)) := match srv with Some _ => [MkThread k Fresh false] | None => [] end in
  MkState (go KHttp (http p) ++ go KHttps (https p) ++ go KFcgi (fcgi p)) [].

(** The files of the certificate and its key that [ServeTLS] gets. *)
Definition tls_files (c : HttpConfig.HTTP) : option (string * string) :=
  ssl ← HttpConfig.SSLConfig c;
  Some (if HttpConfig.EnableACME c then ("", "") else (HttpConfig.Cert ssl, HttpConfig.Key ssl)).
End start.

(** *** Stop *)

Lemma lookup_set (l : list thread) i t x j : l !! i = Some t →
  <[i := x]> l !! j = if decide (i = j) then Some x else l !! j.
Proof.
  intros Hi. destruct (decide (i = j)) as [<-|Hne];
    [apply list_lookup_insert_eq; by eapply lookup_lt_Some|by apply list_lookup_insert_ne].
Qed.

(** What a step does to a thread: nothing, a change of phase that starts serving
    only where [enter] allows it, or the shutdown. *)
Definition moved (t t' : thread) : Prop :=
  t' = t ∨ t' = shutdown t ∨
  ∃ ph, t' = at_phase ph t ∧ (ph = Up → t_kind t = KFcgi ∨ shut t = false).

Lemma step_moved s s' j t : step s s' → threads s !! j = Some t → ∃ t', threads s' !! j = Some t' ∧ moved t t'.
Proof.
  assert (Hset : ∀ i t0 ph, threads s !! i = Some t0 → threads s !! j = Some t →
    (ph = Up → t_kind t0 = KFcgi ∨ shut t0 = false) →
    ∃ t', <[i := at_phase ph t0]> (threads s) !! j = Some t' ∧ moved t t').
  { intros i t0 ph Hi Hj Hup. rewrite (lookup_set _ _ _ _ _ Hi). destruct (decide (i = j)) as [<-|Hne].
    - rewrite Hi in Hj. injection Hj as ->. eexists. split; [done|]. right; right. by exists ph.
    - exists t. split; [done|by left]. }
  assert (Hrep : ∀ i t0 e, threads s !! i = Some t0 → threads s !! j = Some t →
    ∃ t', threads (report i t0 e s) !! j = Some t' ∧ moved t t').
  { intros i t0 e Hi Hj. unfold report. by destruct (_ <? _)%nat; apply Hset. }
  intros [a Ha] Hj. destruct a as [i r|i|i e|i| |]; simpl in Ha.
  - unfold listen in Ha. destruct (threads s !! i) as [t0|] eqn:E; [|done]. simpl in Ha.
    destruct (t_phase t0); try done. injection Ha as <-. destruct r; [by apply Hrep|by apply Hset].
  - unfold enter in Ha. destruct (threads s !! i) as [t0|] eqn:E; [|done]. simpl in Ha.
    destruct (t_phase t0); try done. injection Ha as <-. apply Hset; [done..|].
    destruct (t_kind t0); [| |by left]; destruct (shut t0); try done; by right.
  - unfold fail in Ha. destruct (threads s !! i) as [t0|] eqn:E; [|done]. simpl in Ha.
    destruct (t_phase t0); try done. injection Ha as <-. by apply Hrep.
  - unfold send in Ha. destruct (threads s !! i) as [t0|] eqn:E; [|done]. simpl in Ha.
    destruct (t_phase t0); try done. destruct (_ <? _)%nat; [|done]. injection Ha as <-. by apply Hset.
  - unfold receive in Ha. destruct (errCh s); [done|]. injection Ha as <-. exists t. split; [done|by left].
  - injection Ha as <-. simpl. rewrite list_lookup_fmap, Hj. simpl. eexists. split; [done|]. right. by left.
Qed.

(** A server of [net/http] that was shut down does not serve. *)
Definition closed (t : thread) : Prop := t_kind t ≠ KFcgi ∧ shut t = true ∧ t_phase t ≠ Up.

Lemma shutdown_closed t : t_kind t ≠ KFcgi → closed (shutdown t).
Proof. destruct t as [[] [] b]; intros; by split_and!. Qed.

Lemma moved_closed t t' : moved t t' → closed t → closed t'.
Proof.
  intros [->|[->|(ph & -> & Hph)]] (Hk & Hs & Hp); [done|by apply shutdown_closed|].
  split_and!; [done..|]. simpl. intros ->. destruct (Hph eq_refl); congruence.
Qed.

Lemma steps_closed s s' j t : rtc step s s' → threads s !! j = Some t → closed t →
  ∃ t', threads s' !! j = Some t' ∧ closed t'.
Proof.
  intros Hs. revert t. induction Hs as [s|s1 s2 s3 H12 _ IH]; intros t Hj Hc; [by exists t|].
  destruct (step_moved _ _ _ _ H12 Hj) as (t2 & Hj2 & Hm). by eapply IH, moved_closed.
Qed.

(** Once [Stop] has shut the servers down, no HTTP or HTTPS server serves again,
    in whatever state their goroutines were: also those that had not listened
    yet end when they come to it. *)
Theorem http_stop_final s s' j t :
  threads s !! j = Some t → t_kind t ≠ KFcgi → rtc step (Stop s) s' →
  ∃ t', threads s' !! j = Some t' ∧ t_phase t' ≠ Up.
Proof.
  intros Hj Hk Hs. destruct (steps_closed (Stop s) s' j (shutdown t) Hs) as (t' & Hj' & _ & _ & Hp).
  - simpl. by rewrite list_lookup_fmap, Hj.
  - by apply shutdown_closed.
  - by exists t'.
Qed.

(** The FastCGI server is not among the servers that [Stop] ends: one that serves
    goes on, through every later step, until accepting a connection fails. *)
Theorem fcgi_outlives_stop s s' j b :
  threads s !! j = Some (MkThread KFcgi Up b) →
  rtc (λ x y, ∃ a, (∀ e, a ≠ AFail j e) ∧ exec a x = Some y) (Stop s) s' →
  ∃ b', threads s' !! j = Some (MkThread KFcgi Up b').
Proof.
  intros Hj Hs. assert (H0 : ∃ b', threads (Stop s) !! j = Some (MkThread KFcgi Up b')).
  { exists true. simpl. by rewrite list_lookup_fmap, Hj. }
  clear Hj. induction Hs as [x|x y z (a & Ha & He) _ IH]; [done|]. apply IH. clear IH. destruct H0 as [b' Hj].
  assert (Hset : ∀ i t0 t1, threads x !! i = Some t0 → i ≠ j →
    ∃ b', <[i := t1]> (threads x) !! j = Some (MkThread KFcgi Up b')).
  { intros i t0 t1 Hi Hne. exists b'. by rewrite list_lookup_insert_ne. }
  assert (Hph : ∀ i t0, threads x !! i = Some t0 → t_phase t0 ≠ Up → i ≠ j).
  { intros i t0 Hi Hp ->. rewrite Hj in Hi. by injection Hi as <-. }
  destruct a as [i r|i|i e|i| |]; simpl in He.
  - unfold listen in He. destruct (threads x !! i) as [t0|] eqn:E; [|done]. simpl in He.
    destruct (t_phase t0) eqn:Ep; try done. injection He as <-. assert (i ≠ j) by (eapply Hph; [done|congruence]).
    destruct r; [unfold report; destruct (_ <? _)%nat|]; by eapply Hset.
  - unfold enter in He. destruct (threads x !! i) as [t0|] eqn:E; [|done]. simpl in He.
    destruct (t_phase t0) eqn:Ep; try done. injection He as <-. eapply Hset; [done|]. eapply Hph; [done|congruence].
  - unfold fail in He. destruct (threads x !! i) as [t0|] eqn:E; [|done]. simpl in He.
    destruct (t_phase t0) eqn:Ep; try done. injection He as <-.
    assert (i ≠ j) by (intros ->; by apply (Ha e)). unfold report; destruct (_ <? _)%nat; by eapply Hset.
  - unfold send in He. destruct (threads x !! i) as [t0|] eqn:E; [|done]. simpl in He.
    destruct (t_phase t0) eqn:Ep; try done. destruct (_ <? _)%nat; [|done]. injection He as <-.
    eapply Hset; [done|]. eapply Hph; [done|congruence].
  - unfold receive in He. destruct (errCh x); [done|]. injection He as <-. by exists b'.
  - injection He as <-. exists true. simpl. by rewrite list_lookup_fmap, Hj.
Qed.

(** When all three servers fail before anybody receives an error, the goroutine
    of the third one never ends. *)
Lemma third_error_waits e1 e2 e3 s' :
  let s := MkState [MkThread KHttp Down false; MkThread KHttps Down false; MkThread KFcgi Fresh false] [e1; e2] in
  listen 2 (Some e3) s = Some s' →
  threads s' !! 2%nat = Some (MkThread KFcgi (Full (EOp "serveFCGI" e3)) false) ∧ send 2 s' = None.
Proof. intros s. by intros [= <-]. Qed.

Definition w_up : state := MkState [MkThread KHttp Fresh false; MkThread KFcgi Up false] [].

Lemma http_stop_final_witness : ∃ t', threads (Stop w_up) !! 0%nat = Some t' ∧ t_phase t' ≠ Up.
Proof. apply (http_stop_final w_up (Stop w_up) 0 (MkThread KHttp Fresh false)); [done|done|apply rtc_refl]. Defined.

Lemma fcgi_outlives_stop_witness : ∃ b', threads (Stop w_up) !! 1%nat = Some (MkThread KFcgi Up b').
Proof. apply (fcgi_outlives_stop w_up (Stop w_up) 1 false); [done|apply rtc_refl]. Defined.
End Servers.
