(* ===== verification/HttpMiddleware.v ===== *)
(** * Middleware that answers or decorates requests ([http/middleware])

    [headers] adds headers and answers CORS preflight requests, [static] serves
    files of a directory, [send] streams a file named by a request header.  A
    middleware takes the next handler; files and [http.ServeContent] are
    arguments. *)

From stdpp Require Import base gmap strings list.
From Stdlib Require Import ZArith Ascii Lia.
From Stdlib Require String.
From S2P Require Import Prelude GoStrings HttpBase.

(** The parts of a request that middleware looks at. *)
Record mreq := MkReq {
  q_Method : string; q_Path : string; q_RequestURI : string; q_Header : HttpBase.Header }.

Definition q_with_header (h : HttpBase.Header) (r : mreq) : mreq :=
  MkReq (q_Method r) (q_Path r) (q_RequestURI r) h.

(** [http.Handler]: what is left of the writer, and whether it panicked. *)
Abbreviation Handler := (mreq → HttpBase.writer → HttpBase.writer * res unit).

(** ** Headers and CORS ([headers]) *)
Module Headers.
Import HttpBase.

Record CORSConfig := MkCORS {
  AllowedOrigin : string; AllowedHeaders : string; AllowedMethods : string;
  AllowCredentials : option bool; ExposedHeaders : string; MaxAge : Z }.

Record Config := MkConfig {
  CORS : option CORSConfig; Request : option (gmap string string); Response : option (gmap string string) }.

Definition FormatBool (b : bool) : string := if b then "true" else "false".

(** [if v != "" { headers.Set(k, v) }] *)
Definition set_nonempty (k v : string) (h : Header) : Header :=
  if String.eqb v "" then h else hdr_Set k v h.
Definition set_credentials (c : CORSConfig) (h : Header) : Header :=
  match AllowCredentials c with
  | Some b => hdr_Set "Access-Control-Allow-Credentials" (FormatBool b) h
  | None => h
  end.

Definition preflightRequest (c : CORSConfig) (w : writer) : writer :=
  let h := hdr_Add "Vary" "Origin" (rw_header w) in
  let h := hdr_Add "Vary" "Access-Control-Request-Method" h in
  let h := hdr_Add "Vary" "Access-Control-Request-Headers" h in
  let h := set_nonempty "Access-Control-Allow-Origin" (AllowedOrigin c) h in
  let h := set_nonempty "Access-Control-Allow-Headers" (AllowedHeaders c) h in
  let h := set_nonempty "Access-Control-Allow-Methods" (AllowedMethods c) h in
  let h := set_credentials c h in
  let h := if (0 <? MaxAge c)%Z then hdr_Set "Access-Control-Max-Age" (Itoa (MaxAge c)) h else h in
  let w := with_header h w in
  match WriteHeader 200 w with Ok w => w | _ => w end.

Definition corsHeaders (c : CORSConfig) (w : writer) : writer :=
  let h := hdr_Add "Vary" "Origin" (rw_header w) in
  let h := set_nonempty "Access-Control-Allow-Origin" (AllowedOrigin c) h in
  let h := set_nonempty "Access-Control-Allow-Headers" (AllowedHeaders c) h in
  let h := set_nonempty "Access-Control-Expose-Headers" (ExposedHeaders c) h in
  with_header (set_credentials c h) w.

(** The section of the configuration, as [Has] and [UnmarshalKey] report it. *)
Definition Init (has_http : bool) (section : option (Config + error)) : res Config :=
  let op := "headers_plugin_init" in
  if negb has_http then Err (EOp op (EKind Disabled)) else
  match section with
  | None => Err (EOp op (EKind Disabled))
  | Some (inr e) => Err (EOp op e)
  | Some (inl c) => Ok c
  end.

Definition Middleware `{GoRange} (c : Config) (next : Handler) : Handler := λ r w,
  let r := match Request c with
           | Some m => q_with_header (foldl (λ h kv, hdr_Add kv.1 kv.2 h) (q_Header r) (range_map m)) r
           | None => r
           end in
  let w := match Response c with
           | Some m => with_header (foldl (λ h kv, hdr_Set kv.1 kv.2 h) (rw_header w) (range_map m)) w
           | None => w
           end in
  match CORS c with
  | Some cors =>
      if String.eqb (q_Method r) "OPTIONS" then (preflightRequest cors w, Ok tt)
      else next r (corsHeaders cors w)
  | None => next r w
  end.

Lemma hdr_Get_add k k' v h :
  hdr_Get k (hdr_Add k' v h) =
    if decide (CanonicalKey k = CanonicalKey k')
    then match hdr_Values k' h with [] => v | a :: _ => a end else hdr_Get k h.
Proof.
  unfold hdr_Get, hdr_Add, hdr_Values. case_decide as E.
  - rewrite E, lookup_insert_eq. by destruct (h !! CanonicalKey k') as [[|a l]|].
  - by rewrite lookup_insert_ne.
Qed.

(** With CORS configured, an [OPTIONS] request is answered by the middleware
    with 200 and never reaches the next handler, and the answer names the
    configured origin, headers and methods. *)
Theorem preflight_answered `{GoRange} c cors next r w :
  CORS c = Some cors → q_Method r = "OPTIONS" → rw_status w = None →
  Middleware c next r w = Middleware c (λ _ w, (w, Panic)) r w ∧
  (Middleware c next r w).2 = Ok tt ∧
  let w' := (Middleware c next r w).1 in
  rw_status w' = Some 200%Z ∧
  (AllowedOrigin cors ≠ "" → hdr_Get "Access-Control-Allow-Origin" (rw_sent w') = AllowedOrigin cors) ∧
  (AllowedHeaders cors ≠ "" → hdr_Get "Access-Control-Allow-Headers" (rw_sent w') = AllowedHeaders cors) ∧
  (AllowedMethods cors ≠ "" → hdr_Get "Access-Control-Allow-Methods" (rw_sent w') = AllowedMethods cors).
Proof.
  intros Hc Hm Hw. unfold Middleware. rewrite Hc.
  set (r1 := match Request c with Some _ => _ | None => _ end).
  set (w1 := match Response c with Some _ => _ | None => _ end).
  assert (Hr1 : q_Method r1 = "OPTIONS") by (unfold r1; by destruct (Request c)).
  assert (Hw1 : rw_status w1 = None) by (unfold w1; by destruct (Response c)).
  clearbody r1 w1. rewrite Hr1. change (String.eqb "OPTIONS" "OPTIONS") with true. cbn iota.
  split; [done|]. split; [done|]. cbn [fst]. unfold preflightRequest, WriteHeader.
  change ((200 <? 100)%Z || (999 <? 200)%Z) with false. cbn iota. cbn [rw_status with_header].
  rewrite Hw1. cbn [rw_status rw_sent rw_header with_header]. split; [done|].
  assert (Hne : ∀ k v h, v ≠ "" → set_nonempty k v h = hdr_Set k v h)
    by (intros k v h Hv; unfold set_nonempty; by rewrite (proj2 (String.eqb_neq _ _) Hv)).
  assert (Hskip : ∀ k k' v h, CanonicalKey k ≠ CanonicalKey k' → hdr_Get k (set_nonempty k' v h) = hdr_Get k h).
  { intros k k' v h Hn. unfold set_nonempty. destruct (String.eqb v ""); [done|by apply hdr_Get_Set_ne]. }
  assert (Hcred : ∀ k h, CanonicalKey k ≠ "Access-Control-Allow-Credentials" →
    hdr_Get k (set_credentials cors h) = hdr_Get k h).
  { intros k h Hn. unfold set_credentials. destruct (AllowCredentials cors); [by apply hdr_Get_Set_ne|done]. }
  assert (Hage : ∀ k h b, CanonicalKey k ≠ "Access-Control-Max-Age" →
    hdr_Get k (if (b : bool) then hdr_Set "Access-Control-Max-Age" (Itoa (MaxAge cors)) h else h) = hdr_Get k h).
  { intros k h b Hn. destruct b; [by apply hdr_Get_Set_ne|done]. }
  split_and!; intros Hv; rewrite Hage, Hcred by done.
  - rewrite !Hskip by done. rewrite Hne by done. apply hdr_Get_Set.
  - rewrite Hskip by done. rewrite (Hne _ (AllowedHeaders cors)) by done. apply hdr_Get_Set.
  - rewrite (Hne _ (AllowedMethods cors)) by done. apply hdr_Get_Set.
Qed.

Lemma preflight_answered_witness :
  let cors := MkCORS "*" "" "GET" None "" 0 in
  let r := MkReq "OPTIONS" "/" "/" ∅ in
  hdr_Get "Access-Control-Allow-Methods"
    (rw_sent (Middleware (MkConfig (Some cors) None None) (λ _ w, (w, Panic)) r new_writer).1) = "GET".
Proof.
  intros cors r.
  apply (preflight_answered (MkConfig (Some cors) None None) cors (λ _ w, (w, Panic)) r new_writer); done.
Defined.
End Headers.

(** ** Static files ([static]) *)
Module Static.
Import HttpBase.

(** *** Entity tags ([etag.go]) *)

(** The loop fills the buffer from the end; an index below zero would panic. *)
Fixpoint uint_loop (n : Z) (i : nat) (buf : list ascii) : option (Z * nat * list ascii) :=
  if (n <? 10)%Z then Some (n, i, buf)
  else match i with
       | O => None
       | S i => let q := (n / 10)%Z in uint_loop q i (<[i := digit_char (n - q * 10)]> buf)
       end.

Definition appendUint (dst : list ascii) (n : Z) : res (list ascii) :=
  match uint_loop n 20 (replicate 20 "000"%char) with
  | Some (n, S i, buf) => Ok (dst ++ drop i (<[i := digit_char n]> buf))
  | _ => Panic
  end.

(** CRC-32 with the table of the polynomial. *)
Definition poly : Z := 0x48D90782.
Fixpoint crc_bits (k : nat) (c : Z) : Z :=
  match k with
  | O => c
  | S k => crc_bits k (if Z.odd c then Z.lxor (Z.shiftr c 1) poly else Z.shiftr c 1)
  end.
Definition crc_byte (crc : Z) (b : ascii) : Z :=
  Z.lxor (crc_bits 8 (Z.land (Z.lxor crc (Z.of_N (N_of_ascii b))) 255)) (Z.shiftr crc 8).
Definition Checksum (l : list ascii) : Z :=
  Z.lxor (foldl crc_byte (2 ^ 32 - 1) l)%Z (2 ^ 32 - 1).

Definition quote : ascii := "034"%char.

Definition SetEtag (weak : bool) (body : bytes + error) (name : string) (w : writer) : res writer :=
  let set tag := with_header (hdr_Set "Etag" (text tag) (rw_header w)) w in
  if weak then
    tag ← appendUint (chars "W/" ++ [quote]) (Checksum (chars name));
    Ok (set (tag ++ [quote]))
  else match body with
  | inr _ => Ok w
  | inl b =>
      if String.eqb b "" then Ok w
      else
        tag ← appendUint [quote] (u32 (Z.of_nat (length (chars b))));
        tag ← appendUint (tag ++ ["-"%char]) (Checksum (chars b));
        Ok (set (tag ++ [quote]))
  end.

(** *** The plugin *)

Record Config := MkConfig {
  Dir : string; CalculateEtag : bool; Weak : bool; Forbid : list string; Allow : list string;
  Request : option (gmap string string); Response : option (gmap string string) }.

Inductive stat := StatNotExist | StatErr (e : error) | StatOk (is_dir : bool).

Definition Valid (Stat : string → stat) (c : Config) : option error :=
  let op := "static_plugin_valid" in
  match Stat (Dir c) with
  | StatNotExist => Some (EOp op (EErrorf "root directory '%s' does not exists" [Dir c]))
  | StatErr e => Some e
  | StatOk false => Some (EOp op (EErrorf "invalid root directory '%s'" [Dir c]))
  | StatOk true => None
  end.

Record Plugin := MkPlugin { cfg : Config; allowed : gset string; forbidden : gset string }.

Definition add_ext (m : gset string) (e : string) : gset string :=
  if String.eqb e "" then m else {[e]} ∪ m.

Definition Init (Stat : string → stat) (has_http : bool) (section : option (Config + error)) : res Plugin :=
  let op := "static_plugin_init" in
  if negb has_http then Err (EOp op (EKind Disabled)) else
  match section with
  | None => Err (EOp op (EKind Disabled))
  | Some (inr e) => Err (EOpKind op Disabled e)
  | Some (inl c) =>
      match Valid Stat c with
      | Some e => Err (EOp op e)
      | None =>
          let forbidden := foldl add_ext ∅ (Forbid c) in
          let allowed := foldl add_ext ∅ (Allow c) in
          Ok (MkPlugin c (foldl (λ m k, m ∖ {[k]}) allowed (elements forbidden)) forbidden)
      end
  end.

(** An opened file: [Stat] may fail; reading it gives its content. *)
Record finfo := MkInfo { IsDir : bool; Name : string; ModTime : Z }.
Record file := MkFile { f_stat : finfo + error; f_body : bytes + error }.

Section middleware.
Context `{GoRange} `{Unicode}.
(** [s.root.Open] and [http.ServeContent]. *)
Context (Open : string → file + error) (ServeContent : finfo → file → Handler).

Definition serve_file (p : Plugin) (fi : finfo) (f : file) : Handler := λ r w,
  match (if CalculateEtag (cfg p) then SetEtag (Weak (cfg p)) (f_body f) (Name fi) w else Ok w) with
  | Ok w =>
      let r := match Request (cfg p) with
               | Some m => q_with_header (foldl (λ h kv, hdr_Add kv.1 kv.2 h) (q_Header r) (range_map m)) r
               | None => r
               end in
      let w := match Response (cfg p) with
               | Some m => with_header (foldl (λ h kv, hdr_Set kv.1 kv.2 h) (rw_header w) (range_map m)) w
               | None => w
               end in
      ServeContent fi f r w
  | Err _ | Panic => (w, Panic)
  end.

Definition Middleware (p : Plugin) (next : Handler) : Handler := λ r w,
  if contains (q_Path r) ".." then
    match WriteHeader 403 w with Ok w => (w, Ok tt) | _ => (w, Panic) end
  else
    let fp := strip_newlines (q_Path r) in
    let ext := ToLower (path_Ext fp) in
    if String.eqb ext "" then next r w
    else if bool_decide (ext ∈ forbidden p) then next r w
    else if negb (bool_decide (allowed p = ∅)) && negb (bool_decide (ext ∈ allowed p)) then next r w
    else match Open fp with
         | inr _ => next r w
         | inl f =>
             match f_stat f with
             | inr _ => next r w
             | inl fi => if IsDir fi then next r w else serve_file p fi f r w
             end
         end.
End middleware.

(** *** Theorems *)

Lemma uint_loop_digits i n buf m j buf' fuel :
  0 < i → (0 ≤ n < 10 ^ Z.of_nat i)%Z → (n < 2 ^ (Z.of_nat fuel + 1))%Z → i ≤ length buf →
  uint_loop n i buf = Some (m, j, buf') →
  ∃ j', j = S j' ∧ drop j' (<[j' := digit_char m]> buf') = decimal fuel n ++ drop i buf.
Proof.
  revert n buf fuel. induction i as [|i IH]; intros n buf fuel Hi0 Hn Hf Hlen E; [lia|].
  assert (Hbase : ∀ c, drop i (<[i := c]> buf) = c :: drop (S i) buf).
  { intros c. assert (Hi : <[i := c]> buf !! i = Some c) by (apply list_lookup_insert_eq; lia).
    rewrite (drop_S _ _ _ Hi). f_equal. apply drop_insert_lt. lia. }
  cbn [uint_loop] in E. destruct (Z.ltb_spec n 10) as [Hlt|Hge].
  - simplify_eq. exists i. split; [done|]. rewrite Hbase. destruct fuel; simpl; [done|].
    destruct (Z.ltb_spec m 10); [done|lia].
  - destruct fuel as [|fuel]; [simpl in Hf; lia|].
    destruct (IH (n / 10)%Z (<[i := digit_char (n - n / 10 * 10)]> buf) fuel) as (j' & -> & Hd); [| | | |done|].
    + destruct i; [simpl in Hn|]; lia.
    + split; [apply Z.div_pos; lia|]. apply Z.div_lt_upper_bound; [lia|].
      replace (Z.of_nat (S i)) with (Z.succ (Z.of_nat i)) in Hn by lia. rewrite Z.pow_succ_r in Hn; lia.
    + apply Z.div_lt_upper_bound; [lia|].
      replace (Z.of_nat (S fuel) + 1)%Z with (Z.succ (Z.of_nat fuel + 1)) in Hf by lia.
      rewrite Z.pow_succ_r in Hf by lia. lia.
    + rewrite length_insert. lia.
    + exists j'. split; [done|]. rewrite Hd. cbn [decimal]. destruct (Z.ltb_spec n 10); [lia|].
      rewrite Hbase, <- app_assoc. cbn [app]. f_equal. f_equal. f_equal.
      pose proof (Z.div_mod n 10). lia.
Qed.

Lemma uint_loop_total i n buf :
  (0 ≤ n < 10 ^ Z.of_nat i)%Z → ∃ m j buf', uint_loop n i buf = Some (m, j, buf').
Proof.
  revert n buf. induction i as [|i IH]; intros n buf Hn.
  { simpl in *. destruct (Z.ltb_spec n 10); [by eauto|lia]. }
  cbn [uint_loop]. destruct (Z.ltb_spec n 10); [by eauto|]. apply IH.
  split; [apply Z.div_pos; lia|]. apply Z.div_lt_upper_bound; [lia|].
  replace (Z.of_nat (S i)) with (Z.succ (Z.of_nat i)) in Hn by lia. rewrite Z.pow_succ_r in Hn; lia.
Qed.

(** [appendUint] agrees with [strconv.FormatUint]. *)
Lemma appendUint_format dst n :
  (0 ≤ n < 2 ^ 64)%Z → appendUint dst n = Ok (dst ++ chars (FormatUint n)).
Proof.
  intros Hn. unfold appendUint.
  assert (Hr : (0 ≤ n < 10 ^ Z.of_nat 20)%Z) by (simpl; lia).
  destruct (uint_loop_total 20 n (replicate 20 "000"%char) Hr) as (m & j & buf & E).
  rewrite E. eapply (uint_loop_digits 20 n _ _ _ _ (Z.to_nat (Z.log2 n))) in E as (j' & -> & Hd);
    [|lia|done| |done].
  - rewrite Hd. unfold FormatUint. rewrite chars_text. cbn [drop replicate]. by rewrite app_nil_r.
  - rewrite Z2Nat.id by apply Z.log2_nonneg. destruct (Z.eq_dec n 0) as [->|]; [done|].
    pose proof (Z.log2_spec n). rewrite <- Z.add_1_r in *. lia.
Qed.

Lemma lxor_range k a b :
  (0 < k)%Z → (0 ≤ a < 2 ^ k)%Z → (0 ≤ b < 2 ^ k)%Z → (0 ≤ Z.lxor a b < 2 ^ k)%Z.
Proof.
  intros Hk Ha Hb. assert (Hp : (0 ≤ Z.lxor a b)%Z) by (apply Z.lxor_nonneg; lia).
  split; [done|]. destruct (Z.eq_dec (Z.lxor a b) 0) as [->|]; [lia|].
  apply Z.log2_lt_pow2; [lia|]. eapply Z.le_lt_trans; [apply Z.log2_lxor; lia|].
  assert (Hl : ∀ x, (0 ≤ x < 2 ^ k)%Z → (Z.log2 x < k)%Z).
  { intros x Hx. destruct (Z.eq_dec x 0) as [->|]; [done|]. apply Z.log2_lt_pow2; lia. }
  pose proof (Hl a Ha). pose proof (Hl b Hb). lia.
Qed.

Lemma shiftr_range k c n : (0 ≤ n)%Z → (0 ≤ c < 2 ^ k)%Z → (0 ≤ Z.shiftr c n < 2 ^ k)%Z.
Proof.
  intros Hn Hc. rewrite Z.shiftr_div_pow2 by done. split; [apply Z.div_pos; lia|].
  eapply Z.le_lt_trans; [|apply Hc]. apply Z.div_le_upper_bound; [lia|].
  pose proof (Z.pow_pos_nonneg 2 n). nia.
Qed.

Lemma crc_bits_range k c : (0 ≤ c < 2 ^ 32)%Z → (0 ≤ crc_bits k c < 2 ^ 32)%Z.
Proof.
  revert c. induction k as [|k IH]; intros c Hc; [done|]. cbn [crc_bits]. apply IH.
  destruct (Z.odd c); [apply lxor_range|]; try done; by apply shiftr_range.
Qed.

Lemma Checksum_range l : (0 ≤ Checksum l < 2 ^ 32)%Z.
Proof.
  unfold Checksum. apply lxor_range; [done| |done].
  assert (H : ∀ c, (0 ≤ c < 2 ^ 32)%Z → (0 ≤ foldl crc_byte c l < 2 ^ 32)%Z).
  { induction l as [|b l IH]; intros c Hc; [done|]. simpl. apply IH. unfold crc_byte.
    apply lxor_range; [done| |by apply shiftr_range]. apply crc_bits_range.
    change 255%Z with (Z.ones 8). rewrite Z.land_ones by done.
    pose proof (Z.mod_pos_bound (Z.lxor c (Z.of_N (N_of_ascii b))) (2 ^ 8)). lia. }
  by apply H.
Qed.

(** The decimal printing of entity tags stays within its 20-byte buffer and
    ends: for every 32 bit number it appends the decimal digits, at most ten of
    them, which read back as the number. *)
Theorem appendUint_exact dst n :
  (0 ≤ n < 2 ^ 32)%Z →
  ∃ ds, appendUint dst n = Ok (dst ++ ds) ∧ length ds ≤ 10 ∧ parse_digits 0 ds = Some n.
Proof.
  intros Hn. exists (chars (FormatUint n)). rewrite appendUint_format by lia. split_and!; [done| |].
  - unfold FormatUint. rewrite chars_text. apply (decimal_length _ _ 9). simpl. lia.
  - apply parse_FormatUint. lia.
Qed.

Lemma appendUint_exact_witness :
  ∃ ds, appendUint [] 4294967295 = Ok ds ∧ length ds ≤ 10 ∧ parse_digits 0 ds = Some 4294967295%Z.
Proof. apply (appendUint_exact [] 4294967295). lia. Defined.

(** Tags never make the middleware panic. *)
Lemma SetEtag_ok weak body name w : ∃ w', SetEtag weak body name w = Ok w' ∧ rw_status w' = rw_status w.
Proof.
  unfold SetEtag. destruct weak.
  - pose proof (Checksum_range (chars name)). rewrite appendUint_format by lia. by eexists.
  - destruct body as [b|]; [|by eexists]. destruct (String.eqb b ""); [by eexists|].
    pose proof (Z.mod_pos_bound (Z.of_nat (length (chars b))) (2 ^ 32)).
    pose proof (Checksum_range (chars b)). unfold u32.
    rewrite appendUint_format by lia. cbn [mbind res_bind]. rewrite appendUint_format by lia. by eexists.
Qed.

Section theorems.
Context `{GoRange} `{Unicode} (Open : string → file + error) (ServeContent : finfo → file → Handler).

Lemma elem_of_add_exts l (m : gset string) e :
  e ∈ foldl add_ext m l ↔ (e ∈ l ∧ e ≠ "") ∨ e ∈ m.
Proof.
  revert m. induction l as [|x l IH]; intros m; simpl; [set_solver|]. rewrite IH.
  unfold add_ext. destruct (String.eqb_spec x ""); set_solver.
Qed.

Lemma foldl_remove l (m : gset string) : foldl (λ m k, m ∖ {[k]}) m l = m ∖ list_to_set l.
Proof. revert m. induction l as [|e l IH]; intros m; simpl; [set_solver|]. rewrite IH. set_solver. Qed.

Lemma Init_sets Stat b s c p :
  Init Stat b s = Ok p → s = Some (inl c) →
  cfg p = c ∧ (∀ e, e ∈ forbidden p ↔ e ∈ Forbid c ∧ e ≠ "") ∧
  (∀ e, e ∈ allowed p ↔ e ∈ Allow c ∧ e ≠ "" ∧ e ∉ Forbid c).
Proof.
  unfold Init. destruct b; [|done]. intros E ->. simpl in E. destruct (Valid Stat c); [done|]. simplify_eq/=.
  split_and!; [done| |]; intros e.
  - rewrite elem_of_add_exts. set_solver.
  - rewrite foldl_remove, elem_of_difference, list_to_set_elements_L, !elem_of_add_exts. set_solver.
Qed.

(** The extension the middleware looks at. *)
Definition request_ext (r : mreq) : string := ToLower (path_Ext (strip_newlines (q_Path r))).

(** A file that can be opened and examined and is not a directory. *)
Definition plain_file (path : string) (fi : finfo) (f : file) : Prop :=
  Open path = inl f ∧ f_stat f = inl fi ∧ IsDir fi = false.

(** What the middleware does once the extension is accepted. *)
Lemma accepted_file (p : Plugin) (next : Handler) path r w :
  rw_status w = None →
  let answer := match Open path with
    | inr _ => next r w
    | inl f => match f_stat f with
               | inr _ => next r w
               | inl fi => if IsDir fi then next r w else serve_file ServeContent p fi f r w
               end
    end in
  (∀ f fi, plain_file path fi f →
     ∃ r' w', q_Path r' = q_Path r ∧ rw_status w' = None ∧
       (Request (cfg p) = None → r' = r) ∧
       (CalculateEtag (cfg p) = false → Response (cfg p) = None → w' = w) ∧ answer = ServeContent fi f r' w') ∧
  (¬ (∃ fi f, plain_file path fi f) → answer = next r w).
Proof.
  intros Hw answer. subst answer. split.
  - intros f fi (-> & -> & ->). unfold serve_file.
    set (r1 := match Request (cfg p) with Some _ => _ | None => _ end).
    assert (Hr1 : q_Path r1 = q_Path r ∧ (Request (cfg p) = None → r1 = r)) by (unfold r1; destruct (Request (cfg p)); split; done).
    clearbody r1.
    assert (∃ w1, (if CalculateEtag (cfg p) then SetEtag (Weak (cfg p)) (f_body f) (Name fi) w else Ok w) = Ok w1
      ∧ rw_status w1 = None ∧ (CalculateEtag (cfg p) = false → w1 = w)) as (w1 & -> & Hw1 & Hw2).
    { destruct (CalculateEtag (cfg p)); [|by exists w].
      destruct (SetEtag_ok (Weak (cfg p)) (f_body f) (Name fi) w) as (w1 & -> & Hw1). exists w1. by rewrite Hw1. }
    set (w2 := match Response (cfg p) with Some _ => _ | None => _ end). exists r1, w2.
    split; [apply Hr1|]. split; [unfold w2; by destruct (Response (cfg p))|]. split; [apply Hr1|]. split; [|done].
    intros Hc Hn. unfold w2. rewrite Hn. by apply Hw2.
  - intros Hno. destruct (Open path) as [f|] eqn:Eo; [|done]. destruct (f_stat f) as [fi|] eqn:Es; [|done].
    destruct (IsDir fi) eqn:Ed; [done|]. destruct Hno. by exists fi, f.
Qed.

End theorems.

End Static.

(** ** Sending files ([send]) *)
Module Send.
Import HttpBase.

Inductive read_err := REOF | RErr (e : error).

(** [f.ReadAt(buf, off)] of a file with the given content: it fills the buffer, or
    reports the end of the file with what was left. *)
Definition read_at (content : list ascii) (buf off : nat) : list ascii * option read_err :=
  let avail := drop off content in
  if buf <=? length avail then (take buf avail, None) else (avail, Some REOF).

Section send.
Context `{ErrorText}.

(** The loop; [None] is that it is still running after [fuel] rounds. *)
Fixpoint send_loop (fuel : nat) (ReadAt : nat → nat → list ascii * option read_err)
    (buf off : nat) (w : writer) : option writer :=
  match fuel with
  | O => None
  | S k =>
      match ReadAt buf off with
      | (_, Some REOF) => Some w
      | (_, Some (RErr e)) => Some (http_Error (error_text e) 500 w)
      | (d, None) =>
          match Write (text d) w with
          | (w, Some _) => Some w
          | (w, None) => send_loop k ReadAt (length d) (off + length d) w
          end
      end
  end.

Definition bufSize : nat := Z.to_nat (10 * 1024 * 1024).

(** [size] is what [os.Stat] reports. *)
Definition send_file (fuel size_limit : nat) (size : nat) (ReadAt : nat → nat → list ascii * option read_err)
    (w : writer) : option writer :=
  send_loop fuel ReadAt (if size <? size_limit then size else size_limit) 0 w.

(** A file: the size [os.Stat] reports, and its content or the error of opening it. *)
Record disk := MkDisk {
  d_Stat : string → nat + error; d_Open : string → (nat → nat → list ascii * option read_err) + error }.

Definition Middleware (fuel : nat) (d : disk) (next : Handler) (r : mreq) (w : writer)
    : option (writer * res unit) :=
  let path := hdr_Get "X-Sendfile" (q_Header r) in
  if String.eqb path "" then Some (next r w)
  else if contains path ".." then
    Some (match WriteHeader 403 w with Ok w => (w, Ok tt) | _ => (w, Panic) end)
  else match d_Stat d path with
  | inr _ => Some (http_Error "not found" 404 w, Ok tt)
  | inl size =>
      match d_Open d path with
      | inr e => Some (http_Error (error_text e) 500 w, Ok tt)
      | inl ReadAt => (λ w, (w, Ok tt)) <$> send_file fuel bufSize size ReadAt w
      end
  end.

(** A writer that accepts a body. *)
Definition open_writer (w : writer) : Prop :=
  rw_fail w = None ∧ body_allowed (final_status w) = true.

Lemma Write_open d w :
  open_writer w → ∃ w', Write d w = (w', None) ∧ open_writer w' ∧ rw_body w' = rw_body w +:+ d.
Proof.
  intros [Hf Hb]. unfold Write, ensure_header, open_writer, final_status in *.
  destruct (String.eqb_spec d "") as [->|Hd].
  - assert (Hs : ∀ s, s +:+ "" = s) by (intros s; apply chars_inj; rewrite chars_app; apply app_nil_r).
    destruct (rw_status w) eqn:E; eexists; (split; [done|]); simpl; rewrite ?E, ?Hs; done.
  - destruct (rw_status w) eqn:E; simpl in *; rewrite ?E; simpl; rewrite ?Hb, ?Hf; simpl;
      eexists; (split; [done|]); simpl; rewrite ?E; done.
Qed.

(** Full rounds: [n] buffers are written when the file has them. *)
Lemma send_loop_rounds n fuel content buf off w :
  0 < buf → open_writer w → off + n * buf ≤ length content → length content < off + (n + 1) * buf →
  n < fuel →
  ∃ w', send_loop fuel (read_at content) buf off w = Some w' ∧
    rw_body w' = rw_body w +:+ text (take (n * buf) (drop off content)).
Proof.
  intros Hb. revert fuel off w. induction n as [|n IH]; intros fuel off w Hw Hlen Hend Hfuel;
    (destruct fuel as [|fuel]; [lia|]); cbn [send_loop]; unfold read_at.
  - rewrite length_drop. destruct (Nat.leb_spec buf (length content - off)); [lia|].
    exists w. split; [done|]. simpl. apply chars_inj. by rewrite chars_app, app_nil_r.
  - rewrite length_drop. destruct (Nat.leb_spec buf (length content - off)); [|lia].
    destruct (Write_open (text (take buf (drop off content))) w Hw) as (w1 & -> & Hw1 & Hb1).
    rewrite length_take, length_drop. replace (buf `min` (length content - off)) with buf by lia.
    destruct (IH fuel (off + buf) w1) as (w2 & Hw2 & Hb2); [done|lia..|].
    fold (read_at content) in Hw2. exists w2. split; [exact Hw2|]. rewrite Hb2, Hb1.
    apply chars_inj. rewrite !chars_app, !chars_text, <- app_assoc. f_equal.
    rewrite <- drop_drop. rewrite take_take_drop. reflexivity.
Qed.

(** An empty buffer reads nothing and never sees the end of the file. *)
Lemma send_loop_empty fuel content off w :
  open_writer w → send_loop fuel (read_at content) 0 off w = None.
Proof.
  revert off w. induction fuel as [|k IH]; intros off w Hw; [done|].
  cbn [send_loop].
  assert (read_at content 0 off = ([], None)) as -> by reflexivity.
  destruct (Write_open (text []) w Hw) as (w1 & -> & Hw1 & _). simpl. by apply IH.
Qed.

(** The body is the whole file below the buffer size and its full buffers above. *)
Lemma send_file_delivers content w :
  open_writer w →
  (content = [] → ∀ fuel, send_file fuel bufSize (length content) (read_at content) w = None) ∧
  (content ≠ [] → ∃ w', (∃ fuel, send_file fuel bufSize (length content) (read_at content) w = Some w') ∧
     rw_body w' = rw_body w +:+
       text (if decide (length content < bufSize) then content
             else take (length content / bufSize * bufSize) content)).
Proof.
  intros Hw. unfold send_file. split.
  - intros -> fuel. apply (send_loop_empty fuel [] 0 w Hw).
  - intros Hne. assert (Hpos : 0 < length content) by (destruct content; [done|simpl; lia]).
    destruct (Nat.ltb_spec (length content) bufSize) as [Hlt|Hge].
    + rewrite decide_True by done.
      destruct (send_loop_rounds 1 2 content (length content) 0 w) as (w' & H1 & H2); [lia|done|lia..|].
      exists w'. split; [by exists 2|]. rewrite H2. rewrite Nat.mul_1_l. by rewrite drop_0, firstn_all.
    + rewrite decide_False by lia. assert (Hb : 0 < bufSize) by (unfold bufSize; lia).
      pose proof (Nat.div_mod_eq (length content) bufSize) as Hdm.
      pose proof (Nat.mod_upper_bound (length content) bufSize ltac:(lia)).
      destruct (send_loop_rounds (length content / bufSize) (S (length content / bufSize)) content bufSize 0 w)
        as (w' & H1 & H2); [done|done|nia|nia|lia|].
      exists w'. split; [by eexists|]. by rewrite H2, drop_0.
Qed.

(** What [send] delivers, and to whom.  The path comes from a header of the
    request, so any client can ask for any file the server can open (only two
    dots are refused) and the next handler is not called.  The loop ends exactly
    when the file is not empty: an empty file keeps it running for ever.  The body
    is the whole file below the buffer size; above it only the full buffers are
    sent and the rest of the file is dropped. *)
Theorem send_delivers d next r w content :
  let path := hdr_Get "X-Sendfile" (q_Header r) in
  path ≠ "" → contains path ".." = false →
  d_Stat d path = inl (length content) → d_Open d path = inl (read_at content) → open_writer w →
  (content = [] → ∀ fuel, Middleware fuel d next r w = None) ∧
  (content ≠ [] → ∃ w', (∃ fuel, Middleware fuel d next r w = Some (w', Ok tt)) ∧
     rw_body w' = rw_body w +:+
       text (if decide (length content < bufSize) then content
             else take (length content / bufSize * bufSize) content)).
Proof.
  intros path Hne Hdd Hs Ho Hw.
  assert (Hm : ∀ fuel, Middleware fuel d next r w =
    (λ w, (w, Ok tt)) <$> send_file fuel bufSize (length content) (read_at content) w).
  { intros fuel. unfold Middleware. fold path. by rewrite (proj2 (String.eqb_neq _ _) Hne), Hdd, Hs, Ho. }
  destruct (send_file_delivers content w Hw) as [H1 H2]. split.
  - intros Hc fuel. by rewrite Hm, H1.
  - intros Hc. destruct (H2 Hc) as (w' & [fuel Hf] & Hb). exists w'. split; [|done].
    exists fuel. by rewrite Hm, Hf.
Qed.

End send.

Definition plain_text : ErrorText := {| error_text _ := EmptyString |}.

Lemma send_delivers_witness :
  let d := MkDisk (λ _, inl 3) (λ _, inl (read_at (chars "abc"))) in
  let r := MkReq "GET" "/" "/" {["X-Sendfile" := ["/etc/passwd"]]} in
  ∃ w', (∃ fuel, Middleware (H := plain_text) fuel d (λ _ w, (w, Panic)) r new_writer = Some (w', Ok tt)) ∧
    rw_body w' = "abc".
Proof.
  intros d r.
  destruct (send_delivers (H := plain_text) d (λ _ w, (w, Panic)) r new_writer (chars "abc")) as [_ Hx]; [done..|].
  destruct Hx as (w' & H1 & H2); [done|]. exists w'. split; [exact H1|]. rewrite H2.
  rewrite decide_True; [reflexivity|]. unfold bufSize. simpl length. lia.
Defined.
End Send.
