(* ===== verification/HttpCache.v ===== *)
(** * The HTTP cache ([http/middleware/cache], [memory/memoryhttpcache])

    Parsing of the [Cache-Control] request header, the in-memory store, and the
    middleware that answers GET requests from the store.  The next handler is a
    function from requests to the calls it makes on a response writer, since it
    runs against the writer of the server or against the recording writer of the
    cache.  The protobuf codec is a class with its round trip as law. *)

From stdpp Require Import base gmap strings list.
From Stdlib Require Import ZArith Ascii Lia.
From Stdlib Require String.
From S2P Require Import Prelude GoStrings Rfc3339 HttpBase HttpMiddleware.

(** ** [directives] *)
Module Directives.
Import HttpBase.

Record Req := MkReq {
  MaxAge : option Z; MaxStale : option Z; MinFresh : option Z;
  NoCache : bool; NoStore : bool; NoTransform : bool; OnlyIfCached : bool }.

Definition Reset (r : Req) : Req := MkReq None None None false false false false.
Definition zero_req : Req := MkReq None None None false false false false.

Definition set_MaxAge v (r : Req) : Req :=
  MkReq (Some v) (MaxStale r) (MinFresh r) (NoCache r) (NoStore r) (NoTransform r) (OnlyIfCached r).
Definition set_MaxStale v (r : Req) : Req :=
  MkReq (MaxAge r) (Some v) (MinFresh r) (NoCache r) (NoStore r) (NoTransform r) (OnlyIfCached r).
Definition set_MinFresh v (r : Req) : Req :=
  MkReq (MaxAge r) (MaxStale r) (Some v) (NoCache r) (NoStore r) (NoTransform r) (OnlyIfCached r).

(** One part between commas; a bad value is logged and skipped. *)
Definition parse_part (r : Req) (part : list ascii) : Req :=
  match cut "=" part with
  | Some (t, v) =>
      let token := Trim (text t) " " in
      let val := Trim (text v) " " in
      if String.eqb val "" || String.eqb token "" then r
      else if String.eqb token "max-age" then
        match ParseUint val with Some n => set_MaxAge n r | None => r end
      else if String.eqb token "max-stale" then
        match ParseUint val with Some n => set_MaxStale n r | None => r end
      else if String.eqb token "min-fresh" then
        match ParseUint val with Some n => set_MinFresh n r | None => r end
      else r
  | None =>
      let token := Trim (text part) " " in
      if String.eqb token "no-cache" then
        MkReq (MaxAge r) (MaxStale r) (MinFresh r) true (NoStore r) (NoTransform r) (OnlyIfCached r)
      else if String.eqb token "no-store" then
        MkReq (MaxAge r) (MaxStale r) (MinFresh r) (NoCache r) true (NoTransform r) (OnlyIfCached r)
      else if String.eqb token "no-transform" then
        MkReq (MaxAge r) (MaxStale r) (MinFresh r) (NoCache r) (NoStore r) true (OnlyIfCached r)
      else if String.eqb token "only-if-cached" then
        MkReq (MaxAge r) (MaxStale r) (MinFresh r) (NoCache r) (NoStore r) (NoTransform r) true
      else r
  end.

Definition ParseRequestCacheControl (directives : string) (r : Req) : Req :=
  foldl parse_part r (split_on "," (chars directives)).

Example parse_all :
  ParseRequestCacheControl
    "max-age=100, max-stale=100, min-fresh=100, no-cache, no-transform, no-store, only-if-cached" zero_req
  = MkReq (Some 100%Z) (Some 100%Z) (Some 100%Z) true true true true.
Proof. reflexivity. Qed.
Example parse_bad : ParseRequestCacheControl "max-age=" zero_req = zero_req.
Proof. reflexivity. Qed.

(** A header with the given directives. *)
Definition print_num (name : string) (v : option Z) : list (list ascii) :=
  match v with Some n => [chars name ++ "="%char :: chars (FormatUint n)] | None => [] end.
Definition print_flag (name : string) (b : bool) : list (list ascii) := if b then [chars name] else [].

Definition print_req (r : Req) : list (list ascii) :=
  print_num "max-age" (MaxAge r) ++ print_num "max-stale" (MaxStale r) ++ print_num "min-fresh" (MinFresh r)
  ++ print_flag "no-cache" (NoCache r) ++ print_flag "no-store" (NoStore r)
  ++ print_flag "no-transform" (NoTransform r) ++ print_flag "only-if-cached" (OnlyIfCached r).

Definition in_u64 (v : option Z) : Prop := match v with Some n => (0 ≤ n < 2 ^ 64)%Z | None => True end.

(** A digit is not trimmed and not a separator. *)
Lemma digit_char_plain a : is_Some (digit_of a) → mem_char " " a = false ∧ a ≠ ","%char ∧ a ≠ "="%char.
Proof.
  intros [d Hd]. assert (Hn : (48 <= N_of_ascii a)%N).
  { unfold digit_of in Hd. cbv zeta in Hd. by destruct (N.leb_spec 48 (N_of_ascii a)). }
  split_and!; [|intros ->; vm_compute in Hn; done..].
  unfold mem_char. simpl. destruct (Ascii.eqb_spec a " "); [|done]. subst. vm_compute in Hn. done.
Qed.

Lemma drop_while_none f l : Forall (λ a, f a = false) l → drop_while f l = l.
Proof. destruct 1 as [|a l Ha _]; [done|]. simpl. by rewrite Ha. Qed.

Lemma Trim_plain s : Forall (λ a, mem_char " " a = false) (chars s) → Trim s " " = s.
Proof.
  intros H. unfold Trim. rewrite (drop_while_none _ (chars s)) by done. rewrite drop_while_none.
  - by rewrite rev_involutive, text_chars.
  - by apply Forall_rev.
Qed.

Lemma FormatUint_plain n : (0 ≤ n)%Z → Forall (λ a, mem_char " " a = false) (chars (FormatUint n)).
Proof.
  intros Hn. eapply list.Forall_impl; [by apply FormatUint_digits|].
  intros a Ha. by destruct (digit_char_plain a Ha).
Qed.

Lemma FormatUint_ne n : FormatUint n ≠ "".
Proof.
  unfold FormatUint. intros E. apply (f_equal chars) in E. rewrite chars_text in E.
  by apply (decimal_ne _ _ E).
Qed.

Lemma parse_num name n r :
  "="%char ∉ chars name → Forall (λ a, mem_char " " a = false) (chars name) → name ≠ "" →
  (0 ≤ n < 2 ^ 64)%Z →
  parse_part r (chars name ++ "="%char :: chars (FormatUint n)) =
    if String.eqb name "max-age" then set_MaxAge n r
    else if String.eqb name "max-stale" then set_MaxStale n r
    else if String.eqb name "min-fresh" then set_MinFresh n r else r.
Proof.
  intros Heq Hsp Hne Hn. unfold parse_part. rewrite cut_app by done. cbn zeta.
  rewrite !text_chars, !Trim_plain by (done || (apply FormatUint_plain; lia)).
  rewrite (proj2 (String.eqb_neq _ _) (FormatUint_ne n)), (proj2 (String.eqb_neq _ _) Hne). cbn [orb].
  by rewrite ParseUint_Format.
Qed.

Lemma fold_num name v r :
  Forall (λ a, a ≠ "="%char ∧ mem_char " " a = false) (chars name) → name ≠ "" → in_u64 v →
  foldl parse_part r (print_num name v) =
    match v with
    | Some n => if String.eqb name "max-age" then set_MaxAge n r
                else if String.eqb name "max-stale" then set_MaxStale n r
                else if String.eqb name "min-fresh" then set_MinFresh n r else r
    | None => r
    end.
Proof.
  intros Hc Hne Hv. destruct v as [n|]; [|done]. cbn [print_num foldl].
  rewrite list.Forall_forall in Hc. apply parse_num; [|apply list.Forall_forall|done..]; naive_solver.
Qed.

Lemma print_req_commas r :
  in_u64 (MaxAge r) → in_u64 (MaxStale r) → in_u64 (MinFresh r) →
  Forall (Forall (λ b, b ≠ ","%char)) (print_req r).
Proof.
  intros H1 H2 H3.
  assert (Hnum : ∀ name v, in_u64 v → Forall (λ b, b ≠ ","%char) (chars name) →
    Forall (Forall (λ b, b ≠ ","%char)) (print_num name v)).
  { intros name [n|] Hv Hname; [|constructor]. simpl in *. constructor; [|constructor].
    apply Forall_app. split; [done|]. constructor; [done|].
    eapply list.Forall_impl; [apply FormatUint_digits; lia|]. intros a Ha. by destruct (digit_char_plain a Ha) as (_ & ? & _). }
  assert (Hflag : ∀ name b, Forall (λ b, b ≠ ","%char) (chars name) →
    Forall (Forall (λ b, b ≠ ","%char)) (print_flag name b)).
  { intros name [] Hname; simpl; [by constructor|constructor]. }
  unfold print_req. rewrite !Forall_app. split_and!; (apply Hnum || apply Hflag); try done; by repeat constructor.
Qed.

(** The directives of a request are read back: parsing the header that names
    the values and flags of a [Req] gives this [Req]. *)
Theorem cache_control_roundtrip r :
  in_u64 (MaxAge r) → in_u64 (MaxStale r) → in_u64 (MinFresh r) → print_req r ≠ [] →
  ParseRequestCacheControl (text (join_with "," (print_req r))) zero_req = r.
Proof.
  intros H1 H2 H3 Hne. unfold ParseRequestCacheControl. rewrite chars_text, split_join by (done || apply print_req_commas; done).
  unfold print_req. rewrite !foldl_app, !fold_num by (done || (by repeat constructor)).
  destruct r as [[ma|] [ms|] [mf|] [] [] [] []]; reflexivity.
Qed.
End Directives.

Lemma cache_control_roundtrip_witness :
  Directives.ParseRequestCacheControl "max-age=15,no-store" Directives.zero_req =
    Directives.MkReq (Some 15%Z) None None false true false false.
Proof.
  apply (Directives.cache_control_roundtrip (Directives.MkReq (Some 15%Z) None None false true false false)); done.
Defined.

(** ** The store ([memoryhttpcache]) *)
Module MemoryHttpCache.

Abbreviation Cache := (gmap Z bytes).

Definition NewCacheDriver : Cache := ∅.
Definition Get (id : Z) (c : Cache) : bytes + error :=
  match c !! id with Some d => inl d | None => inr (EKind EmptyItem) end.
Definition Set_ (id : Z) (value : bytes) (c : Cache) : Cache := <[id := value]> c.
Definition Delete (id : Z) (c : Cache) : Cache := delete id c.
End MemoryHttpCache.

(** ** The middleware *)
Module HttpCache.
Import HttpBase Directives.

(** The calls a handler makes on its writer, and whether it panics then. *)
Inductive wcall := WAdd (k v : string) | WSet (k v : string) | WDel (k : string) | WCode (c : Z) | WData (d : string).
Abbreviation script := (list wcall * bool)%type.

(** The handler against the writer of the server. *)
Fixpoint run_writer (l : list wcall) (w : writer) : writer * res unit :=
  match l with
  | [] => (w, Ok tt)
  | WAdd k v :: l => run_writer l (with_header (hdr_Add k v (rw_header w)) w)
  | WSet k v :: l => run_writer l (with_header (hdr_Set k v (rw_header w)) w)
  | WDel k :: l => run_writer l (with_header (hdr_Del k (rw_header w)) w)
  | WCode c :: l => match WriteHeader c w with Ok w => run_writer l w | _ => (w, Panic) end
  | WData d :: l => run_writer l (Write d w).1
  end.

Definition serve_plain (s : script) (w : writer) : writer * res unit :=
  match run_writer s.1 w with
  | (w, Ok _) => (w, if s.2 then Panic else Ok tt)
  | (w, o) => (w, o)
  end.

(** The recording writer ([writer.go]). *)
Record cwriter := MkCWriter { Code : Z; Data : bytes; HdrToSend : Header }.
Definition new_cwriter : cwriter := MkCWriter (-1) "" ∅.

Definition cw_WriteHeader (code : Z) (w : cwriter) : cwriter := MkCWriter code (Data w) (HdrToSend w).
(** A second write replaces the data of the first. *)
Definition cw_Write (b : bytes) (w : cwriter) : cwriter := MkCWriter (Code w) b (HdrToSend w).
Definition cw_Header (h : Header) (w : cwriter) : cwriter := MkCWriter (Code w) (Data w) h.

Definition record_call (w : cwriter) (c : wcall) : cwriter :=
  match c with
  | WAdd k v => cw_Header (hdr_Add k v (HdrToSend w)) w
  | WSet k v => cw_Header (hdr_Set k v (HdrToSend w)) w
  | WDel k => cw_Header (hdr_Del k (HdrToSend w)) w
  | WCode c => cw_WriteHeader c w
  | WData d => cw_Write d w
  end.

Definition record (s : script) (w : cwriter) : cwriter * res unit :=
  (foldl record_call w s.1, if s.2 then Panic else Ok tt).

(** [cacheV1beta.Response] and its encoding. *)
Record Response := MkResponse {
  rsp_Headers : Header; rsp_Code : Z; rsp_Data : bytes; rsp_Timestamp : string }.

Class Proto := {
  Marshal : Response → bytes + error;
  Unmarshal : bytes → Response + error;
  Unmarshal_Marshal r b : Marshal r = inl b → Unmarshal b = inl r
}.

(** FNV-1a with 64 bits ([hash/fnv]). *)
Definition fnv_offset : Z := 14695981039346656037.
Definition fnv_prime : Z := 1099511628211.
Definition fnv_write (h : Z) (s : string) : Z :=
  foldl (λ h b, u64 (Z.lxor h (Z.of_N (N_of_ascii b)) * fnv_prime)) h (chars s).

Record Config := MkConfig { Driver : string; CacheMethods : list string }.
Definition cfg_InitDefaults (c : Config) : Config :=
  MkConfig (if String.eqb (Driver c) "" then "memory" else Driver c)
    (match CacheMethods c with [] => ["GET"] | l => l end).

(** The pools hold a reset hash, writers, responses and parsed directives. *)
Record Plugin := MkPlugin {
  hashPool : list Z; writersPool : list cwriter; rspPool : list Response; rqPool : list Req;
  store : MemoryHttpCache.Cache }.

Definition nil_rsp : Response := MkResponse ∅ 0 "" "".

Definition with_store c (p : Plugin) : Plugin :=
  MkPlugin (hashPool p) (writersPool p) (rspPool p) (rqPool p) c.

(** [Init]; the section is what the configurer has for [http.cache]. *)
Definition Init (section : option (Config + error)) : res Config :=
  let op := "cache_middleware_init" in
  match section with
  | None => Err (EOp op (EKind Disabled))
  | Some (inr e) => Err (EOp op e)
  | Some (inl c) => Ok (cfg_InitDefaults c)
  end.

(** [Serve] with the drivers that were collected. *)
Definition Serve (collected : gmap string (MemoryHttpCache.Cache)) (c : Config) : Plugin + error :=
  match collected !! Driver c with
  | Some d => inl (MkPlugin [] [] [] [] d)
  | None => inr (EStr "no cache drivers registered")
  end.

Definition getHash pick (p : Plugin) : Z * Plugin :=
  let '(h, pool) := pool_get fnv_offset pick (hashPool p) in
  (h, MkPlugin pool (writersPool p) (rspPool p) (rqPool p) (store p)).
Definition putHash (h : Z) (p : Plugin) : Plugin :=
  MkPlugin (fnv_offset :: hashPool p) (writersPool p) (rspPool p) (rqPool p) (store p).
Definition getWriter pick (p : Plugin) : cwriter * Plugin :=
  let '(w, pool) := pool_get new_cwriter pick (writersPool p) in
  (w, MkPlugin (hashPool p) pool (rspPool p) (rqPool p) (store p)).
(** The keys of the header map are deleted one by one. *)
Definition putWriter `{GoRange} (w : cwriter) (p : Plugin) : Plugin :=
  let h := foldl (λ m k, delete k m) (HdrToSend w) (range_map (HdrToSend w)).*1 in
  MkPlugin (hashPool p) (MkCWriter (-1) "" h :: writersPool p) (rspPool p) (rqPool p) (store p).
Definition getRsp pick (p : Plugin) : Response * Plugin :=
  let '(r, pool) := pool_get nil_rsp pick (rspPool p) in
  (r, MkPlugin (hashPool p) (writersPool p) pool (rqPool p) (store p)).
Definition putRsp (r : Response) (p : Plugin) : Plugin :=
  MkPlugin (hashPool p) (writersPool p) (nil_rsp :: rspPool p) (rqPool p) (store p).
Definition getRq pick (p : Plugin) : Req * Plugin :=
  let '(r, pool) := pool_get zero_req pick (rqPool p) in
  (r, MkPlugin (hashPool p) (writersPool p) (rspPool p) pool (store p)).
Definition putRq (r : Req) (p : Plugin) : Plugin :=
  MkPlugin (hashPool p) (writersPool p) (rspPool p) (Reset r :: rqPool p) (store p).

Section middleware.
Context `{GoRange} `{Proto}.
Context (next : mreq → script).

(** Which pooled objects are handed out, and the time in nanoseconds. *)
Record cenv := MkEnv {
  pk_hash : option nat; pk_writer : option nat; pk_rsp : option nat; pk_store : option nat;
  pk_rq : option nat; now : Z }.

Definition add_values (w : writer) (kv : string * list string) : writer :=
  with_header (foldl (λ h v, hdr_Add kv.1 v h) (rw_header w) kv.2) w.

Definition writeResponse (w : writer) (wr : cwriter) : writer * res unit :=
  let w := foldl add_values w (range_map (HdrToSend wr)) in
  match WriteHeader (Code wr) w with
  | Ok w => ((Write (Data wr) w).1, Ok tt)
  | _ => (w, Panic)
  end.

(** The map of the payload is new and empty, so that the assignment to a field of
    one of its (nil) entries panics as soon as there is a header value. *)
Definition writeCache (env : cenv) (wr : cwriter) (id : Z) (p : Plugin) : Plugin * res unit :=
  if (Code wr =? 200)%Z then
    let '(payload, p) := getRsp (pk_store env) p in
    if existsb (λ kv, negb (Nat.eqb (length kv.2) 0)) (range_map (HdrToSend wr))
    then (putRsp payload p, Panic)
    else
      let payload := MkResponse ∅ (Code wr) (Data wr) (Format (now env)) in
      match Marshal payload with
      | inr _ => (putRsp payload p, Ok tt)
      | inl data => (putRsp payload (with_store (MemoryHttpCache.Set_ id data (store p)) p), Ok tt)
      end
  else (p, Ok tt).

(** Forward the request, send the recorded answer, decide about storing it. *)
Definition forward (env : cenv) (r : mreq) (w : writer) (wr : cwriter) (id : Z) (p : Plugin)
    : Plugin * cwriter * writer * res unit :=
  match record (next r) wr with
  | (wr, Ok _) =>
      match writeResponse w wr with
      | (w, Ok _) => let '(p, o) := writeCache env wr id p in (p, wr, w, o)
      | (w, o) => (p, wr, w, o)
      end
  | (wr, o) => (p, wr, w, o)
  end.

Definition second : Z := 10 ^ 9.

(** [%.0f]: to the nearest second, halves to even. *)
Definition round_seconds (ns : Z) : Z :=
  let q := (ns / second)%Z in
  let r := (ns mod second)%Z in
  if (2 * r <? second)%Z then q else if (second <? 2 * r)%Z then (q + 1)%Z
  else if Z.even q then q else (q + 1)%Z.

Definition handle_hit (env : cenv) (r : mreq) (rq : Req) (out : bytes) (wr : cwriter) (id : Z)
    (w : writer) (p : Plugin) : Plugin * cwriter * writer * res unit :=
  let '(msg, p) := getRsp (pk_rsp env) p in
  match Unmarshal out with
  | inr _ => (putRsp msg p, wr, http_Error "cache data unpack" 500 w, Ok tt)
  | inl msg =>
      match Parse (rsp_Timestamp msg) with
      | None => (putRsp msg p, wr, http_Error "timestamp parse" 500 w, Ok tt)
      | Some ts =>
          let age := (now env - ts)%Z in
          let stale := match MaxAge rq with
                       | Some m => (m <? u64 (Z.quot age second))%Z
                       | None => false
                       end in
          if stale then
            let p := with_store (MemoryHttpCache.Delete id (store p)) p in
            let '(p, wr, w, o) := forward env r w wr id p in (putRsp msg p, wr, w, o)
          else
            let w := with_header (hdr_Add "Age" (Itoa (round_seconds age)) (rw_header w)) w in
            let w := foldl add_values w (range_map (rsp_Headers msg)) in
            match WriteHeader (i64 (rsp_Code msg)) w with
            | Ok w => (putRsp msg p, wr, (Write (rsp_Data msg) w).1, Ok tt)
            | _ => (putRsp msg p, wr, w, Panic)
            end
      end
  end.

Definition handleGET (env : cenv) (r : mreq) (rq : Req) (w : writer) (p : Plugin)
    : Plugin * writer * res unit :=
  let '(h, p) := getHash (pk_hash env) p in
  let '(wr, p) := getWriter (pk_writer env) p in
  let id := fnv_write h (q_RequestURI r) in
  let '(p, wr, w, o) :=
    match MemoryHttpCache.Get id (store p) with
    | inr e => if errors_Is EmptyItem e then forward env r w wr id p
               else (p, wr, http_Error "get hash" 500 w, Ok tt)
    | inl out => handle_hit env r rq out wr id w p
    end in
  (putHash h (putWriter wr p), w, o).

Definition Middleware (env : cenv) (r : mreq) (w : writer) (p : Plugin) : Plugin * writer * res unit :=
  if negb (String.eqb (hdr_Get "Authorization" (rw_header w)) "") then
    let '(w, o) := serve_plain (next r) w in (p, w, o)
  else
    let '(rq, p) := getRq (pk_rq env) p in
    let rq := ParseRequestCacheControl (strip_newlines (hdr_Get "Cache-Control" (q_Header r))) rq in
    if NoCache rq then
      let '(w, o) := serve_plain (next r) w in (putRq rq p, w, o)
    else if String.eqb (q_Method r) "GET" then
      let '(p, w, o) := handleGET env r rq w p in (putRq rq p, w, o)
    else
      let '(w, o) := serve_plain (next r) w in (putRq rq p, w, o).
End middleware.

(** ** Theorems *)

Section theorems.
Context `{GoRange} `{Proto}.

Definition clean (p : Plugin) : Prop :=
  Forall (eq fnv_offset) (hashPool p) ∧ Forall (eq new_cwriter) (writersPool p) ∧
  Forall (eq nil_rsp) (rspPool p) ∧ Forall (eq zero_req) (rqPool p).

Lemma getHash_clean pick p : clean p →
  ∃ p', getHash pick p = (fnv_offset, p') ∧ clean p' ∧ store p' = store p.
Proof.
  intros (H1 & H2 & H3 & H4). unfold getHash. destruct (pool_get _ _ _) as [x pool] eqn:E.
  destruct (Forall_pool_get _ _ _ _ _ _ eq_refl H1 E) as [<- ?]. eexists. split; [done|]. by split_and!.
Qed.
Lemma getWriter_clean pick p : clean p →
  ∃ p', getWriter pick p = (new_cwriter, p') ∧ clean p' ∧ store p' = store p.
Proof.
  intros (H1 & H2 & H3 & H4). unfold getWriter. destruct (pool_get _ _ _) as [x pool] eqn:E.
  destruct (Forall_pool_get _ _ _ _ _ _ eq_refl H2 E) as [<- ?]. eexists. split; [done|]. by split_and!.
Qed.
Lemma cache_getRsp_clean pick p : clean p →
  ∃ p', getRsp pick p = (nil_rsp, p') ∧ clean p' ∧ store p' = store p.
Proof.
  intros (H1 & H2 & H3 & H4). unfold getRsp. destruct (pool_get _ _ _) as [x pool] eqn:E.
  destruct (Forall_pool_get _ _ _ _ _ _ eq_refl H3 E) as [<- ?]. eexists. split; [done|]. by split_and!.
Qed.
Lemma getRq_clean pick p : clean p →
  ∃ p', getRq pick p = (zero_req, p') ∧ clean p' ∧ store p' = store p.
Proof.
  intros (H1 & H2 & H3 & H4). unfold getRq. destruct (pool_get _ _ _) as [x pool] eqn:E.
  destruct (Forall_pool_get _ _ _ _ _ _ eq_refl H4 E) as [<- ?]. eexists. split; [done|]. by split_and!.
Qed.

Lemma putHash_clean h p : clean p → clean (putHash h p).
Proof. intros (? & ? & ? & ?). split_and!; try done. by constructor. Qed.
Lemma putRsp_clean r p : clean p → clean (putRsp r p).
Proof. intros (? & ? & ? & ?). split_and!; try done. by constructor. Qed.
Lemma putRq_clean r p : clean p → clean (putRq r p).
Proof. intros (? & ? & ? & ?). split_and!; try done. by constructor. Qed.
Lemma putWriter_clean w p : clean p → clean (putWriter w p).
Proof.
  intros (? & ? & ? & ?). split_and!; try done. constructor; [|done]. unfold new_cwriter. f_equal.
  apply map_eq. intros k. rewrite lookup_empty, lookup_foldl_delete. case_decide as Hk; [done|].
  destruct (HdrToSend w !! k) as [v|] eqn:E; [|done]. exfalso. apply Hk.
  apply elem_of_range_map in E. by apply (list_elem_of_fmap_2 fst) in E.
Qed.

Lemma writeCache_clean env wr id p p' o :
  clean p → writeCache env wr id p = (p', o) → clean p'.
Proof.
  intros Hp. unfold writeCache. destruct (Code wr =? 200)%Z; [|by intros [= <- _]].
  destruct (cache_getRsp_clean (pk_store env) p Hp) as (p1 & -> & Hp1 & _).
  destruct (existsb _ _); [intros [= <- _]; by apply putRsp_clean|].
  destruct (Marshal _); intros [= <- _]; by apply putRsp_clean.
Qed.

Lemma forward_clean nx env r w wr id p p' wr' w' o :
  clean p → forward nx env r w wr id p = (p', wr', w', o) → clean p'.
Proof.
  intros Hp. unfold forward. destruct (record _ _) as [wr1 [[]|e|]]; [|by intros [= <- _ _ _]..].
  destruct (writeResponse w wr1) as [w1 [[]|e|]]; [|by intros [= <- _ _ _]..].
  destruct (writeCache _ _ _ _) as [p1 o1] eqn:E. intros [= <- _ _ _]. by eapply writeCache_clean.
Qed.

Lemma handle_hit_clean nx env r rq out wr id w p p' wr' w' o :
  clean p → handle_hit nx env r rq out wr id w p = (p', wr', w', o) → clean p'.
Proof.
  intros Hp. unfold handle_hit. destruct (cache_getRsp_clean (pk_rsp env) p Hp) as (p1 & -> & Hp1 & _).
  destruct (Unmarshal out) as [msg|]; [|intros [= <- _ _ _]; by apply putRsp_clean].
  destruct (Parse _) as [ts|]; [|intros [= <- _ _ _]; by apply putRsp_clean]. cbn zeta.
  destruct (match MaxAge rq with Some _ => _ | None => _ end).
  - destruct (forward _ _ _ _ _ _ _) as [[[p2 wr2] w2] o2] eqn:E. intros [= <- _ _ _].
    apply putRsp_clean. eapply forward_clean; [|exact E]. exact Hp1.
  - destruct (WriteHeader _ _); intros [= <- _ _ _]; by apply putRsp_clean.
Qed.

Lemma Middleware_clean nx env r w p : clean p → clean (Middleware nx env r w p).1.1.
Proof.
  intros Hp. unfold Middleware. destruct (negb _); [by destruct (serve_plain _ _)|].
  destruct (getRq_clean (pk_rq env) p Hp) as (p1 & -> & Hp1 & _). cbn zeta.
  destruct (NoCache _); [destruct (serve_plain _ _); by apply putRq_clean|].
  destruct (String.eqb (q_Method r) "GET"); [|destruct (serve_plain _ _); by apply putRq_clean].
  unfold handleGET. destruct (getHash_clean (pk_hash env) p1 Hp1) as (p2 & -> & Hp2 & _).
  destruct (getWriter_clean (pk_writer env) p2 Hp2) as (p3 & -> & Hp3 & _). cbn zeta.
  destruct (MemoryHttpCache.Get _ _) as [out|e].
  - destruct (handle_hit _ _ _ _ _ _ _ _ _) as [[[p4 wr4] w4] o4] eqn:E. simpl.
    apply putRq_clean, putHash_clean, putWriter_clean. by eapply handle_hit_clean.
  - destruct (errors_Is EmptyItem e).
    + destruct (forward _ _ _ _ _ _ _) as [[[p4 wr4] w4] o4] eqn:E. simpl.
      apply putRq_clean, putHash_clean, putWriter_clean. by eapply forward_clean.
    + simpl. by apply putRq_clean, putHash_clean, putWriter_clean.
Qed.

(** A request the cache handles: its writer and directives let it. *)
Definition cacheable (r : mreq) : Prop :=
  q_Method r = "GET" ∧
  NoCache (ParseRequestCacheControl (strip_newlines (hdr_Get "Cache-Control" (q_Header r))) zero_req) = false.

Definition max_age (r : mreq) : option Z :=
  MaxAge (ParseRequestCacheControl (strip_newlines (hdr_Get "Cache-Control" (q_Header r))) zero_req).

Definition cache_id (r : mreq) : Z := fnv_write fnv_offset (q_RequestURI r).

(** What the next handler answers, as the cache records it. *)
Definition recorded (nx : mreq → script) (r : mreq) : cwriter := foldl record_call new_cwriter (nx r).1.

Lemma Middleware_GET nx env r w p :
  clean p → cacheable r → hdr_Get "Authorization" (rw_header w) = "" →
  ∃ p1, clean p1 ∧ store p1 = store p ∧
    Middleware nx env r w p =
      (let '(p', wr, w', o) :=
         match store p !! cache_id r with
         | None => forward nx env r w new_cwriter (cache_id r) p1
         | Some out => handle_hit nx env r
             (ParseRequestCacheControl (strip_newlines (hdr_Get "Cache-Control" (q_Header r))) zero_req)
             out new_cwriter (cache_id r) w p1
         end in
       (putRq (ParseRequestCacheControl (strip_newlines (hdr_Get "Cache-Control" (q_Header r))) zero_req)
          (putHash fnv_offset (putWriter wr p')), w', o)).
Proof.
  intros Hp [Hm Hn] Ha. unfold Middleware. rewrite Ha. cbn [negb String.eqb].
  destruct (getRq_clean (pk_rq env) p Hp) as (p1 & -> & Hp1 & Hs1). cbn zeta. rewrite Hn, Hm.
  change (String.eqb "GET" "GET") with true. cbn iota. unfold handleGET.
  destruct (getHash_clean (pk_hash env) p1 Hp1) as (p2 & -> & Hp2 & Hs2).
  destruct (getWriter_clean (pk_writer env) p2 Hp2) as (p3 & -> & Hp3 & Hs3).
  exists p3. split; [done|]. assert (Hs : store p3 = store p) by congruence. split; [done|].
  fold (cache_id r). unfold MemoryHttpCache.Get. rewrite Hs. cbn zeta.
  destruct (store p !! cache_id r) as [out|].
  - by destruct (handle_hit _ _ _ _ _ _ _ _ _) as [[[? ?] ?] ?].
  - cbn [errors_Is]. rewrite bool_decide_eq_true_2 by done. by destruct (forward _ _ _ _ _ _ _) as [[[? ?] ?] ?].
Qed.

(** A response is cached only when it has no headers.  When a worker answers a
    GET request with 200 and at least one header value, the middleware panics
    after it has written the response, and nothing is stored. *)
Theorem cache_header_panics nx env r w p :
  clean p → cacheable r → hdr_Get "Authorization" (rw_header w) = "" → store p !! cache_id r = None →
  (nx r).2 = false → Code (recorded nx r) = 200%Z →
  (∃ k v vs, HdrToSend (recorded nx r) !! k = Some (v :: vs)) →
  (Middleware nx env r w p).2 = Panic ∧ store (Middleware nx env r w p).1.1 = store p.
Proof.
  intros Hp Hr Ha Hmiss Hnp Hcode (k & v & vs & Hk).
  destruct (Middleware_GET nx env r w p Hp Hr Ha) as (p1 & Hp1 & Hs1 & ->). rewrite Hmiss.
  unfold forward, record. rewrite Hnp. fold (recorded nx r). unfold writeResponse. rewrite Hcode.
  match goal with |- context [WriteHeader 200 ?x] =>
    destruct (WriteHeader_ok 200 x ltac:(lia)) as (w1 & -> & _) end.
  unfold writeCache. rewrite Hcode. cbn [Z.eqb Pos.eqb].
  destruct (cache_getRsp_clean (pk_store env) p1 Hp1) as (p2 & -> & Hp2 & Hs2).
  assert (Hex : existsb (λ kv, negb (Nat.eqb (length kv.2) 0)) (range_map (HdrToSend (recorded nx r))) = true).
  { apply existsb_exists. exists (k, v :: vs). split; [|done].
    apply list_elem_of_In. by apply elem_of_range_map. }
  rewrite Hex. simpl. split; [done|]. congruence.
Qed.

Lemma range_map_empty {A} : range_map (∅ : gmap string A) = [].
Proof. apply Permutation_nil_r. by rewrite range_map_perm, map_to_list_empty. Qed.

Lemma Write_fresh d h :
  rw_body (Write d (MkWriter h (Some 200%Z) h "" None None)).1 = d ∧
  final_status (Write d (MkWriter h (Some 200%Z) h "" None None)).1 = 200%Z.
Proof. unfold Write. simpl. destruct (String.eqb_spec d ""); by subst. Qed.

Lemma first_call nx env r p d b :
  clean p → cacheable r → store p !! cache_id r = None → nx r = ([WCode 200; WData d], false) →
  Marshal (MkResponse ∅ 200 d (Format (now env))) = inl b →
  (Middleware nx env r new_writer p).2 = Ok tt ∧
  store (Middleware nx env r new_writer p).1.1 = <[cache_id r := b]> (store p) ∧
  final_status (Middleware nx env r new_writer p).1.2 = 200%Z ∧ rw_body (Middleware nx env r new_writer p).1.2 = d.
Proof.
  intros Hp Hr Hmiss Hnx Hb.
  destruct (Middleware_GET nx env r new_writer p Hp Hr eq_refl) as (p1 & Hp1 & Hs1 & ->).
  rewrite Hmiss. unfold forward, record. rewrite Hnx. cbn [fst snd foldl record_call].
  unfold writeResponse. cbn [HdrToSend cw_Write cw_WriteHeader new_cwriter Code Data]. rewrite range_map_empty.
  cbn [foldl]. change (WriteHeader 200 new_writer) with (Ok (MkWriter ∅ (Some 200%Z) ∅ "" None None)).
  destruct (Write_fresh d ∅) as [Hwb Hws].
  unfold writeCache. cbn [HdrToSend cw_Write cw_WriteHeader new_cwriter Code Data]. cbn [Z.eqb Pos.eqb].
  destruct (cache_getRsp_clean (pk_store env) p1 Hp1) as (p2 & -> & Hp2 & Hs2).
  rewrite range_map_empty. cbn [existsb]. rewrite Hb. split; [done|]. split; [simpl; unfold MemoryHttpCache.Set_; congruence|]. by split.
Qed.

(** A request that asks for nothing to be kept, or identifies the user, is not
    meant. *)
Definition storable (r : mreq) : Prop :=
  cacheable r ∧ hdr_Get "Authorization" (q_Header r) = "" ∧
  NoStore (ParseRequestCacheControl (strip_newlines (hdr_Get "Cache-Control" (q_Header r))) zero_req) = false.

(** C36: two GET requests for the same URI, neither with [Authorization] nor with
    [no-cache] or [no-store].  When nothing is stored for the first and the
    worker answers it with status 200, without headers and with one body, it
    gets status and body; the second, while its age limit is met, gets the same
    status and body from the store, whatever the next handler would say. *)
Theorem cache_serves_stored nx1 nx2 env1 env2 r1 r2 p d b :
  clean p → storable r1 → storable r2 → q_RequestURI r2 = q_RequestURI r1 →
  store p !! cache_id r1 = None → nx1 r1 = ([WCode 200; WData d], false) →
  Marshal (MkResponse ∅ 200 d (Format (now env1))) = inl b → four_digit_year (now env1) →
  (0 ≤ now env2 - now env1 / 10 ^ 9 * 10 ^ 9 < 2 ^ 63)%Z →
  (∀ m, max_age r2 = Some m → (now env2 - now env1 / 10 ^ 9 * 10 ^ 9) / 10 ^ 9 ≤ m)%Z →
  let p1 := (Middleware nx1 env1 r1 new_writer p).1.1 in
  (Middleware nx1 env1 r1 new_writer p).2 = Ok tt ∧
  final_status (Middleware nx1 env1 r1 new_writer p).1.2 = 200%Z ∧
  rw_body (Middleware nx1 env1 r1 new_writer p).1.2 = d ∧
  (Middleware nx2 env2 r2 new_writer p1).2 = Ok tt ∧
  final_status (Middleware nx2 env2 r2 new_writer p1).1.2 = 200%Z ∧
  rw_body (Middleware nx2 env2 r2 new_writer p1).1.2 = d ∧
  store (Middleware nx2 env2 r2 new_writer p1).1.1 = store p1.
Proof.
  intros Hp [Hr1 _] [Hr2 _] Huri Hmiss Hnx Hb Hy Hage Hmax p1.
  destruct (first_call nx1 env1 r1 p d b Hp Hr1 Hmiss Hnx Hb) as (Hok1 & Hst1 & Hf1 & Hf2). fold p1 in Hst1.
  assert (Hp1 : clean p1) by (by apply Middleware_clean). clearbody p1. do 3 (split; [done|]).
  destruct (Middleware_GET nx2 env2 r2 new_writer p1 Hp1 Hr2 eq_refl) as (p2 & Hp2 & Hs2 & ->).
  assert (Hid : cache_id r2 = cache_id r1) by (unfold cache_id; by rewrite Huri).
  assert (Hlk : store p1 !! cache_id r2 = Some b) by (by rewrite Hst1, Hid, lookup_insert_eq).
  rewrite Hlk. unfold handle_hit.
  destruct (cache_getRsp_clean (pk_rsp env2) p2 Hp2) as (p3 & -> & Hp3 & Hs3).
  rewrite (Unmarshal_Marshal _ _ Hb). cbn [rsp_Timestamp rsp_Headers rsp_Code rsp_Data].
  rewrite Parse_Format by done. cbn zeta. fold (max_age r2).
  assert (Hstale : match max_age r2 with
                   | Some m => (m <? u64 (Z.quot (now env2 - now env1 / 10 ^ 9 * 10 ^ 9) second))%Z
                   | None => false
                   end = false).
  { destruct (max_age r2) as [m|]; [|done]. specialize (Hmax m eq_refl). unfold second.
    rewrite Z.quot_div_nonneg by lia. rewrite u64_id.
    - destruct (Z.ltb_spec m ((now env2 - now env1 / 10 ^ 9 * 10 ^ 9) / 10 ^ 9)); [lia|done].
    - split; [apply Z.div_pos; lia|]. apply Z.div_lt_upper_bound; lia. }
  rewrite Hstale, range_map_empty. cbn [foldl]. rewrite i64_id by lia.
  unfold WriteHeader. change ((200 <? 100)%Z || (999 <? 200)%Z) with false. cbn iota. cbn [rw_status with_header new_writer].
  destruct (Write_fresh d (hdr_Add "Age" (Itoa (round_seconds (now env2 - now env1 / 10 ^ 9 * 10 ^ 9))) (rw_header new_writer)))
    as [Hwb Hws].
  split_and!; [done|exact Hws|exact Hwb|]. simpl. congruence.
Qed.
End theorems.

(** ** A concrete codec: the time in 20 bytes, then the data of a plain 200. *)

Definition small_marshal (r : Response) : bytes + error :=
  if bool_decide (rsp_Headers r = ∅) && (rsp_Code r =? 200)%Z && (length (chars (rsp_Timestamp r)) =? 20)
  then inl (rsp_Timestamp r +:+ rsp_Data r) else inr (EStr "unsupported").
Definition small_unmarshal (b : bytes) : Response + error :=
  inl (MkResponse ∅ 200 (text (drop 20 (chars b))) (text (take 20 (chars b)))).

Program Definition small_proto : Proto := {| Marshal := small_marshal; Unmarshal := small_unmarshal |}.
Next Obligation.
  intros [hs c d ts] b. unfold small_marshal, small_unmarshal. simpl.
  case_bool_decide as Hh; [|done]. destruct (Z.eqb_spec c 200); [|done].
  destruct (Nat.eqb_spec (length (chars ts)) 20) as [Hl|]; [|done]. intros [= <-].
  rewrite chars_app, <- Hl, drop_app_length, take_app_length, !text_chars. by subst.
Qed.

Definition example_env (t : Z) : cenv := MkEnv None None None None None t.
Definition example_get : mreq := HttpMiddleware.MkReq "GET" "/" "/page" ∅.

Lemma example_cache_clean : clean (MkPlugin [] [] [] [] ∅).
Proof. split_and!; constructor. Qed.

Lemma cache_header_panics_witness :
  (Middleware (H0 := small_proto) (λ _, ([WSet "Content-Type" "text/html"; WCode 200; WData "x"], false))
    (example_env 0) example_get new_writer (MkPlugin [] [] [] [] ∅)).2 = Panic.
Proof.
  apply (cache_header_panics (H0 := small_proto) (λ _, ([WSet "Content-Type" "text/html"; WCode 200; WData "x"], false))
    (example_env 0) example_get new_writer (MkPlugin [] [] [] [] ∅)).
  - apply example_cache_clean.
  - by split.
  - reflexivity.
  - reflexivity.
  - reflexivity.
  - reflexivity.
  - exists "Content-Type", "text/html", []. reflexivity.
Defined.

Lemma cache_serves_stored_witness :
  let nx1 := λ _ : mreq, ([WCode 200; WData "page"], false) in
  let nx2 := λ _ : mreq, ([WCode 500], true) in
  let p1 := (Middleware (H0 := small_proto) nx1 (example_env 0) example_get new_writer (MkPlugin [] [] [] [] ∅)).1.1 in
  rw_body (Middleware (H0 := small_proto) nx2 (example_env (5 * 10 ^ 9)) example_get new_writer p1).1.2 = "page".
Proof.
  intros nx1 nx2 p1.
  eapply (cache_serves_stored (H0 := small_proto) nx1 nx2 (example_env 0) (example_env (5 * 10 ^ 9)) example_get
    example_get (MkPlugin [] [] [] [] ∅) "page");
    [apply example_cache_clean|by repeat split|by repeat split|reflexivity..| | |].
  - split; by vm_compute.
  - split; by vm_compute.
  - intros m Hm. discriminate Hm.
Defined.
End HttpCache.
