(* ===== verification/HttpObserve.v ===== *)
(** * Middleware that observes requests: New Relic and Prometheus
      ([http/middleware/new_relic], [http/middleware/prometheus])

    What the wrapped handler does with its writer is the sequence of its calls.
    New Relic collects the calls in a writer of its own and replays them; what
    it tells the agent is the list of calls on the transaction.  Prometheus
    counts requests that run concurrently: entering and leaving are separate
    actions. *)

From stdpp Require Import base gmap strings list relations.
From Stdlib Require Import ZArith Ascii Lia.
From S2P Require Import Prelude GoStrings HttpBase.
Import HttpBase.
Local Open Scope Z_scope.

(** ** The calls of a handler *)

Module Calls.
Inductive call := CSet (k v : string) | CAdd (k v : string) | CDel (k : string) | CStatus (code : Z) | CWrite (b : bytes) | CPanic.

Definition on_header (c : call) (h : Header) : Header :=
  match c with CSet k v => hdr_Set k v h | CAdd k v => hdr_Add k v h | CDel k => hdr_Del k h | _ => h end.

Definition header_call (c : call) : Prop := match c with CSet _ _ | CAdd _ _ | CDel _ => True | _ => False end.

(** The calls on the writer of the server. *)
Fixpoint plain (l : list call) (w : HttpBase.writer) : res HttpBase.writer :=
  match l with
  | [] => Ok w
  | CStatus code :: l => w ← WriteHeader code w; plain l w
  | CWrite b :: l => plain l (HttpBase.Write b w).1
  | CPanic :: _ => Panic
  | c :: l => plain l (with_header (on_header c (rw_header w)) w)
  end.

(** *** Canonical names *)

Lemma upper_upper a : HttpBase.upper_ascii (HttpBase.upper_ascii a) = HttpBase.upper_ascii a.
Proof. by destruct a as [[] [] [] [] [] [] [] []]. Qed.
Lemma lower_lower a : lower_ascii (lower_ascii a) = lower_ascii a.
Proof. by destruct a as [[] [] [] [] [] [] [] []]. Qed.
Lemma upper_dash a : Ascii.eqb (HttpBase.upper_ascii a) "-" = Ascii.eqb a "-".
Proof. by destruct a as [[] [] [] [] [] [] [] []]. Qed.
Lemma lower_dash a : Ascii.eqb (lower_ascii a) "-" = Ascii.eqb a "-".
Proof. by destruct a as [[] [] [] [] [] [] [] []]. Qed.
Lemma upper_token a : token_char (HttpBase.upper_ascii a) = token_char a.
Proof. by destruct a as [[] [] [] [] [] [] [] []]. Qed.
Lemma lower_token a : token_char (lower_ascii a) = token_char a.
Proof. by destruct a as [[] [] [] [] [] [] [] []]. Qed.

Lemma canonical_chars_twice l u : canonical_chars u (canonical_chars u l) = canonical_chars u l.
Proof.
  revert u. induction l as [|a l IH]; intros u; [done|]. cbn [canonical_chars].
  destruct u; rewrite ?upper_upper, ?lower_lower, ?upper_dash, ?lower_dash; by rewrite IH.
Qed.
Lemma canonical_chars_token l u : forallb token_char (canonical_chars u l) = forallb token_char l.
Proof.
  revert u. induction l as [|a l IH]; intros u; [done|]. cbn [canonical_chars forallb].
  destruct u; by rewrite ?upper_token, ?lower_token, IH.
Qed.
Lemma CanonicalKey_twice k : CanonicalKey (CanonicalKey k) = CanonicalKey k.
Proof.
  unfold CanonicalKey. destruct (forallb token_char (chars k)) eqn:E; [|by rewrite E].
  by rewrite chars_text, canonical_chars_token, E, canonical_chars_twice.
Qed.

(** All names of a header are canonical. *)
Definition canonical (h : Header) : Prop := ∀ k, is_Some (h !! k) → CanonicalKey k = k.

Lemma canonical_empty : canonical ∅.
Proof. intros k [v Hv]. by rewrite lookup_empty in Hv. Qed.
Lemma on_header_canonical c h : canonical h → canonical (on_header c h).
Proof.
  intros Hh k Hk. destruct c as [k0 v|k0 v|k0| | |]; cbn [on_header] in Hk; try by apply Hh.
  - unfold hdr_Set in Hk. destruct (decide (CanonicalKey k0 = k)) as [<-|Hne]; [apply CanonicalKey_twice|].
    rewrite lookup_insert_ne in Hk by done. by apply Hh.
  - unfold hdr_Add in Hk. destruct (decide (CanonicalKey k0 = k)) as [<-|Hne]; [apply CanonicalKey_twice|].
    rewrite lookup_insert_ne in Hk by done. by apply Hh.
  - unfold hdr_Del in Hk. apply Hh. destruct Hk as [v [_ Hv]%lookup_delete_Some]. by exists v.
Qed.
End Calls.

(** ** New Relic *)

Module NewRelic.
Import Calls.

Record Config := MkConfig { AppName : string; LicenseKey : string }.

Definition InitDefaults (getenv : string → string) (c : Config) : res Config :=
  key ← (if String.eqb (LicenseKey c) "" then
           let lc := getenv "NEW_RELIC_LICENSE_KEY" in
           if String.eqb lc "" then Err (EStr "license key should not be empty") else Ok lc
         else Ok (LicenseKey c));
  name ← (if String.eqb (AppName c) "" then
            let an := getenv "NEW_RELIC_APP_NAME" in
            if String.eqb an "" then Err (EStr "application name should not be empty") else Ok an
          else Ok (AppName c));
  Ok (MkConfig name key).

(** [NewApplication]: the agent of the library. *)
Definition Init (has : string → bool) (unmarshal : string → res (option Config)) (getenv : string → string)
    (NewApplication : Config → option error) : res Config :=
  if negb (has "http.new_relic") then Err (EOp "new_relic_mdw_init" (EKind Disabled)) else
  match unmarshal "http.new_relic" with
  | Err e => Err e
  | Panic | Ok None => Panic
  | Ok (Some c) =>
      c ← InitDefaults getenv c;
      match NewApplication c with Some e => Err e | None => Ok c end
  end.

Definition rrNewRelicKey : string := "Rr_newrelic".
Definition rrNewRelicErr : string := "Rr_newrelic_error".
Definition newRelicTransactionKey : string := "transaction_name".

(** The parts around the first colon; [None]: both are nil. *)
Definition split (target : bytes) : option (bytes * bytes) :=
  match cut ":" (chars target) with
  | None => None
  | Some ([], _) => None
  | Some (k, v) => Some (text k, text v)
  end.

(** [strings.EqualFold] with a text of small ASCII letters: two letters outside
    ASCII fold to [s] and to [k]. *)
Definition folds_to (c : ascii) (r : list ascii) : bool :=
  match r with
  | [a] => Ascii.eqb (lower_ascii a) c
  | _ => (Ascii.eqb c "s" && bool_decide (r = map ascii_of_nat [197; 191]%nat)) ||
         (Ascii.eqb c "k" && bool_decide (r = map ascii_of_nat [226; 132; 170]%nat))
  end.
Definition EqualFold (s t : string) : bool :=
  let rs := runes s in
  (length rs =? length (chars t))%nat && forallb (λ x, folds_to x.2 x.1) (zip rs (chars t)).

Record nr_error := MkError { Message : string; Class_ : string; Attributes : option string }.

Definition err_header (e : nr_error) (h : string) : nr_error :=
  let '(key, value) := default ("", "") (split h) in
  if EqualFold key "message" then MkError value (Class_ e) (Attributes e)
  else if EqualFold key "class" then MkError (Message e) value (Attributes e)
  else if EqualFold key "attributes" then MkError (Message e) (Class_ e) (Some value)
  else e.
Definition handleErr (headers : list string) : nr_error := foldl err_header (MkError "" "" None) headers.

(** The writer the next handler gets. *)
Record writer := MkWriter { code : Z; data : bytes; hdrToSend : Header }.
Definition fresh : writer := MkWriter (-1) "" ∅.

Definition WriteHeader (c : Z) (w : writer) : writer := MkWriter c (data w) (hdrToSend w).
Definition Write (b : bytes) (w : writer) : writer := MkWriter (code w) b (hdrToSend w).

Fixpoint collect (l : list call) (w : writer) : res writer :=
  match l with
  | [] => Ok w
  | CStatus c :: l => collect l (WriteHeader c w)
  | CWrite b :: l => collect l (Write b w)
  | CPanic :: _ => Panic
  | c :: l => collect l (MkWriter (code w) (data w) (on_header c (hdrToSend w)))
  end.

Section Middleware.
Context `{GoRange}.

(** What the agent is told. *)
Inductive event := NoticeError (e : nr_error) | SetName (s : string) | AddAttribute (k v : string).

Definition tell (h : string) : list event :=
  match split h with
  | None => []
  | Some (k, v) => if String.eqb k newRelicTransactionKey then [SetName v] else [AddAttribute k v]
  end.

Definition add_values (w : Header) (kv : string * list string) : Header := foldl (λ h v, hdr_Add kv.1 v h) w kv.2.
Definition copy_headers (h : Header) (w : Header) : Header := foldl add_values w (range_map h).

(** The headers that are sent, and what the agent is told. *)
Definition forward (h : Header) (w : Header) : Header * list event :=
  let errs := default [] (h !! rrNewRelicErr) in
  let hdr := default [] (h !! rrNewRelicKey) in
  if decide (errs ≠ []) then
    (copy_headers (delete rrNewRelicErr (delete rrNewRelicKey h)) w, [NoticeError (handleErr errs)])
  else (copy_headers (delete rrNewRelicKey h) w, hdr ≫= tell).

Definition getWriter (n : option nat) (pool : list writer) : writer * list writer := pool_get fresh n pool.
Definition putWriter (w : writer) (pool : list writer) : list writer := MkWriter (-1) "" ∅ :: pool.

(** The deferred function sends the status first; when that panics the writer
    is not put back. *)
Definition Middleware (next : list call) (n : option nat) (pool : list writer) (w : HttpBase.writer)
    : list writer * list event * res HttpBase.writer :=
  let '(rr, pool) := getWriter n pool in
  match collect next rr with
  | Ok rr =>
      let '(h, evs) := forward (hdrToSend rr) (rw_header w) in
      match HttpBase.WriteHeader (code rr) (with_header h w) with
      | Ok w => (putWriter rr pool, evs, Ok (HttpBase.Write (data rr) w).1)
      | _ => (pool, evs, Panic)
      end
  | _ => (pool, [], Panic)
  end.

(** *** Theorems *)

Definition clean (pool : list writer) : Prop := Forall (eq fresh) pool.

Lemma hdr_Values_Add k k' v h : CanonicalKey k' = k' →
  hdr_Values k (hdr_Add k' v h) = hdr_Values k h ++ (if decide (CanonicalKey k = k') then [v] else []).
Proof.
  intros Hk. unfold hdr_Values, hdr_Add. rewrite Hk. case_decide as E.
  - subst k'. rewrite lookup_insert_eq. simpl. unfold hdr_Values. by rewrite Hk.
  - by rewrite lookup_insert_ne, app_nil_r by done.
Qed.

Lemma add_values_spec k kv w : CanonicalKey kv.1 = kv.1 →
  hdr_Values k (add_values w kv) = hdr_Values k w ++ (if decide (CanonicalKey k = kv.1) then kv.2 else []).
Proof.
  intros Hk. unfold add_values. destruct kv as [k' vs]. simpl in *. revert w.
  induction vs as [|v vs IH]; intros w; [by destruct (decide _); rewrite app_nil_r|]. simpl.
  rewrite IH, hdr_Values_Add by done. rewrite <- (assoc_L (++)). by destruct (decide _).
Qed.

Lemma copy_headers_spec h w k : canonical h →
  hdr_Values k (copy_headers h w) = hdr_Values k w ++ default [] (h !! CanonicalKey k).
Proof.
  intros Hh. unfold copy_headers.
  assert (G : ∀ l w, NoDup l.*1 → (∀ kv, kv ∈ l → CanonicalKey kv.1 = kv.1) →
    hdr_Values k (foldl add_values w l) = hdr_Values k w ++ default [] ((list_to_map l : Header) !! CanonicalKey k)).
  { induction l as [|kv l IH]; intros w0 Hnd Hl; [by rewrite app_nil_r|]. apply NoDup_cons in Hnd as [Hn Hnd].
    cbn [foldl]. rewrite IH; [|done|intros; apply Hl; by right]. rewrite add_values_spec by (apply Hl; left).
    rewrite <- (assoc_L (++)). f_equal. destruct kv as [k' vs]. cbn [list_to_map foldr].
    simpl in *. case_decide as E.
    - rewrite E, lookup_insert_eq. simpl. apply not_elem_of_list_to_map in Hn.
      rewrite Hn. apply app_nil_r.
    - by rewrite lookup_insert_ne by done. }
  rewrite G; [|apply range_map_NoDup|].
  - f_equal. f_equal. transitivity ((list_to_map (map_to_list h) : Header) !! CanonicalKey k);
      [|by rewrite list_to_map_to_list]. f_equal.
    apply list_to_map_proper; [apply range_map_NoDup|apply range_map_perm].
  - intros [k' vs] Hin%elem_of_range_map. apply Hh. by exists vs.
Qed.

Lemma canonical_delete k h : canonical h → canonical (delete k h).
Proof. intros Hh k' [v [_ Hv]%lookup_delete_Some]. apply Hh. by exists v. Qed.

Definition sensitive (k : string) : bool := String.eqb k rrNewRelicKey || String.eqb k rrNewRelicErr.

(** The values that are sent of a name. *)
Lemma forward_spec h w k : canonical h →
  hdr_Values k (forward h w).1 =
    hdr_Values k w ++ (if sensitive (CanonicalKey k) then [] else default [] (h !! CanonicalKey k)).
Proof.
  intros Hh. unfold forward, sensitive. destruct (decide _) as [He|He]; simpl.
  - rewrite copy_headers_spec by (by repeat apply canonical_delete). f_equal.
    destruct (String.eqb_spec (CanonicalKey k) rrNewRelicKey) as [->|H1]; [by rewrite lookup_delete_ne, lookup_delete_eq|].
    destruct (String.eqb_spec (CanonicalKey k) rrNewRelicErr) as [->|H2]; [by rewrite lookup_delete_eq|].
    by rewrite !lookup_delete_ne.
  - rewrite copy_headers_spec by (by apply canonical_delete). f_equal.
    destruct (String.eqb_spec (CanonicalKey k) rrNewRelicKey) as [->|H1]; [by rewrite lookup_delete_eq|].
    rewrite lookup_delete_ne by done.
    destruct (String.eqb_spec (CanonicalKey k) rrNewRelicErr) as [->|H2]; [|done].
    by apply dec_stable in He.
Qed.

Lemma collect_headers hs rest w : Forall header_call hs →
  collect (hs ++ rest) w = collect rest (MkWriter (code w) (data w) (foldl (λ h c, on_header c h) (hdrToSend w) hs)).
Proof.
  intros Hh. revert w. induction Hh as [|c hs Hc _ IH]; intros w; [by destruct w|].
  destruct c; try done; cbn [app collect foldl]; by rewrite IH.
Qed.

Lemma plain_headers hs rest w : Forall header_call hs →
  plain (hs ++ rest) w = plain rest (with_header (foldl (λ h c, on_header c h) (rw_header w) hs) w).
Proof.
  intros Hh. revert w. induction Hh as [|c hs Hc _ IH]; intros w; [by destruct w|].
  destruct c; try done; cbn [app plain foldl]; by rewrite IH.
Qed.

Lemma collect_writes bs w :
  collect (CWrite <$> bs) w = Ok (MkWriter (code w) (default (data w) (last bs)) (hdrToSend w)).
Proof.
  revert w. induction bs as [|b bs IH]; intros w; [by destruct w|]. rewrite fmap_cons. cbn [collect].
  rewrite IH, last_cons. by destruct (last bs).
Qed.

Lemma headers_canonical hs h : canonical h → canonical (foldl (λ h c, on_header c h) h hs).
Proof. revert h. induction hs as [|c hs IH]; intros h Hh; [done|]. apply IH, on_header_canonical, Hh. Qed.

(** The shape of a response: headers, one status, pieces of the body. *)
Definition response (hs : list call) (c : Z) (bs : list bytes) : list call := hs ++ CStatus c :: (CWrite <$> bs).

Lemma Middleware_response hs c bs n pool w :
  Forall header_call hs → (100 ≤ c ≤ 999) → clean pool →
  ∃ pool' w0, clean pool' ∧
    let '(h, evs) := forward (foldl (λ h c, on_header c h) ∅ hs) (rw_header w) in
    HttpBase.WriteHeader c (with_header h w) = Ok w0 ∧
    Middleware (response hs c bs) n pool w = (pool', evs, Ok (HttpBase.Write (default "" (last bs)) w0).1).
Proof.
  intros Hh Hc Hp. unfold Middleware, getWriter.
  destruct (pool_get _ _ _) as [rr pool0] eqn:E.
  destruct (Forall_pool_get (eq fresh) _ _ _ _ _ eq_refl Hp E) as [<- Hp0].
  unfold response. rewrite collect_headers by done. cbn [collect]. rewrite collect_writes.
  cbn [hdrToSend code data WriteHeader fresh].
  destruct (forward _ _) as [h evs]. destruct (WriteHeader_ok c (with_header h w) Hc) as (w0 & Hw & _).
  exists (putWriter fresh pool0), w0. rewrite Hw. split; [by constructor|]. by split.
Qed.

Lemma plain_writes bs w : rw_status w ≠ None → rw_fail w = None → body_allowed (final_status w) = true →
  ∃ w', plain (CWrite <$> bs) w = Ok w' ∧ rw_status w' = rw_status w ∧ rw_sent w' = rw_sent w ∧
    rw_body w' = rw_body w +:+ foldr String.append "" bs.
Proof.
  revert w. induction bs as [|b bs IH]; intros w Hs Hf Hb.
  { exists w. split_and!; try done. simpl. by rewrite append_nil_r. }
  rewrite fmap_cons. cbn [plain]. unfold HttpBase.Write, ensure_header.
  destruct (rw_status w) as [s|] eqn:Es; [|done]. unfold final_status in Hb. rewrite Es in Hb. simpl in Hb.
  destruct (String.eqb_spec b "") as [->|Hne].
  { destruct (IH w) as (w' & H1 & H2 & H3 & H4); [by rewrite Es|done|unfold final_status; by rewrite Es|].
    exists w'. cbn [fst]. split_and!; [done|by rewrite H2, Es|done|by rewrite H4]. }
  rewrite Es. cbn [default from_option id]. rewrite Hb, Hf. cbn [negb fst].
  destruct (IH (HttpBase.MkWriter (rw_header w) (Some s) (rw_sent w) (rw_body w +:+ b) None (rw_push w)))
    as (w' & H1 & H2 & H3 & H4); [done|done|done|].
  exists w'. split_and!; [done|done|done|]. rewrite H4. cbn [rw_body foldr]. by rewrite append_assoc.
Qed.

(** For a handler that sends headers, one status and one piece of body the
    client gets what it would get without the middleware, except for the
    headers with the data for the agent, which are never sent; and nothing of
    the request stays in the pool. *)
Theorem newrelic_transparent hs c b n pool w :
  Forall header_call hs → 100 ≤ c ≤ 999 → clean pool → rw_header w = ∅ → rw_status w = None →
  ∃ pool' evs w1 w2,
    Middleware (response hs c [b]) n pool w = (pool', evs, Ok w1) ∧ clean pool' ∧
    plain (response hs c [b]) w = Ok w2 ∧
    rw_status w1 = rw_status w2 ∧ rw_body w1 = rw_body w2 ∧
    ∀ k, hdr_Values k (rw_sent w1) = if sensitive (CanonicalKey k) then [] else hdr_Values k (rw_sent w2).
Proof.
  intros Hh Hc Hp Hw Hs. destruct (Middleware_response hs c [b] n pool w Hh Hc Hp) as (pool' & w0 & Hp' & E).
  pose proof (forward_spec (foldl (λ h c, on_header c h) ∅ hs) (rw_header w)) as F.
  destruct (forward _ _) as [h evs]. destruct E as [E1 E2]. rewrite E2.
  unfold response. rewrite plain_headers by done. cbn [plain fmap list_fmap]. rewrite Hw in *.
  destruct (WriteHeader_ok c (with_header (foldl (λ h c, on_header c h) ∅ hs) w) Hc) as (w2 & E3 & _). rewrite E3.
  eexists _, _, _, _. split; [done|]. split; [done|]. split; [done|].
  unfold HttpBase.WriteHeader in E1, E3. cbn [with_header rw_status rw_header] in E1, E3. rewrite Hs in E1, E3.
  destruct (_ || _); [done|]. injection E1 as <-. injection E3 as <-. cbn [last default from_option id].
  unfold HttpBase.Write, ensure_header. cbn [rw_status rw_body rw_fail rw_sent rw_header default from_option id].
  assert (Hv : ∀ k, hdr_Values k h = if sensitive (CanonicalKey k) then [] else hdr_Values k (foldl (λ h c, on_header c h) ∅ hs)).
  { intros k. specialize (F k (headers_canonical _ _ canonical_empty)). cbn [fst] in F. rewrite F. unfold hdr_Values.
    by rewrite lookup_empty. }
  destruct (String.eqb b ""); [done|]. destruct (negb _); [done|]. by destruct (rw_fail w).
Qed.

(** A body that is written in several pieces: the client gets the last one
    only. *)
Theorem newrelic_last_write hs c bs n pool w :
  Forall header_call hs → 100 ≤ c ≤ 999 → clean pool → rw_status w = None → rw_fail w = None → body_allowed c = true →
  ∃ pool' evs w1 w2,
    Middleware (response hs c bs) n pool w = (pool', evs, Ok w1) ∧ plain (response hs c bs) w = Ok w2 ∧
    rw_body w1 = rw_body w +:+ default "" (last bs) ∧ rw_body w2 = rw_body w +:+ foldr String.append "" bs.
Proof.
  intros Hh Hc Hp Hs Hf Hb. destruct (Middleware_response hs c bs n pool w Hh Hc Hp) as (pool' & w0 & Hp' & E).
  destruct (forward _ _) as [h evs]. destruct E as [E1 E2]. rewrite E2.
  unfold response. rewrite plain_headers by done. cbn [plain].
  unfold HttpBase.WriteHeader in *. cbn [with_header rw_status rw_header] in *. rewrite Hs in *.
  destruct (_ || _); [done|]. injection E1 as <-. cbn [mbind res_bind].
  match goal with |- context [plain (CWrite <$> bs) ?x] => destruct (plain_writes bs x) as (w2 & H1 & _ & _ & H4); [done|done|done|] end.
  rewrite H1. eexists _, _, _, _. split; [done|]. split; [done|]. split; [|done].
  unfold HttpBase.Write, ensure_header. cbn [rw_status rw_body rw_fail rw_sent rw_header default from_option id].
  destruct (String.eqb_spec (default "" (last bs)) "") as [E|E]; cbn [fst rw_body].
  - cbn [default from_option id] in E. rewrite E. by rewrite append_nil_r.
  - cbn [negb]. rewrite Hb, Hf. done.
Qed.

(** A handler that leaves the status to the server makes the middleware panic,
    whatever it has written. *)
Theorem newrelic_no_status_panics next n pool w :
  Forall (λ c, match c with CStatus _ => False | _ => True end) next → clean pool →
  (Middleware next n pool w).2 = Panic.
Proof.
  intros Hn Hp. unfold Middleware, getWriter. destruct (pool_get _ _ _) as [rr pool0] eqn:E.
  destruct (Forall_pool_get (eq fresh) _ _ _ _ _ eq_refl Hp E) as [<- _].
  assert (G : ∀ rr, code rr = -1 → match collect next rr with Ok rr' => code rr' = -1 | _ => True end).
  { clear -Hn. induction Hn as [|c l Hc _ IH]; intros rr Hr; [done|].
    destruct c; cbn [collect]; try done; by apply IH. }
  specialize (G fresh eq_refl). destruct (collect next fresh) as [rr|e|]; [|done..].
  destruct (forward _ _) as [h evs]. by rewrite G.
Qed.
End Middleware.

(** *** Examples *)

Definition w_calls : list call := [CSet "Rr_newrelic" "transaction_name:foo"; CAdd "x-a" "1"].

Lemma newrelic_transparent_witness :
  ∃ pool' evs w1, Middleware (response w_calls 200 ["hi"]) None [] new_writer = (pool', evs, Ok w1) ∧
    evs = [SetName "foo"] ∧ rw_body w1 = "hi" ∧ hdr_Values "rr_newrelic" (rw_sent w1) = [] ∧ hdr_Values "X-A" (rw_sent w1) = ["1"].
Proof.
  destruct (newrelic_transparent w_calls 200 "hi" None [] new_writer) as (pool' & evs & w1 & w2 & E & _ & E2 & _ & Hb & Hk).
  - by repeat constructor.
  - lia.
  - constructor.
  - reflexivity.
  - reflexivity.
  - exists pool', evs, w1. split; [done|]. vm_compute in E2. injection E2 as <-. rewrite Hb, !Hk.
    vm_compute in E. injection E as _ <- _. vm_compute. done.
Defined.

Lemma newrelic_last_write_witness :
  ∃ pool' evs w1 w2, Middleware (response w_calls 200 ["a"; "b"]) None [] new_writer = (pool', evs, Ok w1) ∧
    plain (response w_calls 200 ["a"; "b"]) new_writer = Ok w2 ∧ rw_body w1 = "b" ∧ rw_body w2 = "ab".
Proof.
  apply (newrelic_last_write w_calls 200 ["a"; "b"] None [] new_writer).
  - by repeat constructor.
  - lia.
  - constructor.
  - reflexivity.
  - reflexivity.
  - reflexivity.
Defined.

Lemma newrelic_no_status_panics_witness : (Middleware [CWrite "hello"] None [] new_writer).2 = Panic.
Proof. apply newrelic_no_status_panics; by repeat constructor. Defined.
End NewRelic.

(** ** Prometheus *)

Module Prometheus.
Import Calls.

(** The writer only remembers the last status; the calls go on to the writer of
    the server. *)
Record writer := MkWriter { code : Z }.
Definition fresh : writer := MkWriter (-1).
Definition WriteHeader (c : Z) (_ : writer) : writer := MkWriter c.

Definition seen (l : list call) (w : writer) : writer :=
  foldl (λ w c, match c with CStatus code => WriteHeader code w | _ => w end) w l.

(** The metrics, the writers in the pool, and for each running request the
    writer it holds.  A counter that was never raised is absent.  [stopCh] has
    one place. *)
Record Plugin := MkPlugin {
  queueSize : Z; noFreeWorkers : Z; requestCounter : gmap string Z; requestDuration : gmap string (list Z);
  writersPool : list writer; stopCh : nat; running : gmap nat writer }.

Definition Init : Plugin := MkPlugin 0 0 ∅ ∅ [] 0 ∅.

(** A second stop waits. *)
Definition Stop (p : Plugin) : option Plugin :=
  match stopCh p with
  | O => Some (MkPlugin (queueSize p) (noFreeWorkers p) (requestCounter p) (requestDuration p) (writersPool p) 1 (running p))
  | S _ => None
  end.

Definition getWriter (n : option nat) (pool : list writer) : writer * list writer := pool_get fresh n pool.
Definition putWriter (pool : list writer) : list writer := fresh :: pool.

(** The middleware up to the call of the next handler, for the request [id]. *)
Definition enter (id : nat) (n : option nat) (p : Plugin) : Plugin :=
  let '(w, pool) := getWriter n (writersPool p) in
  MkPlugin (queueSize p + 1) (noFreeWorkers p) (requestCounter p) (requestDuration p) pool (stopCh p) (<[id := w]> (running p)).

(** The middleware after the next handler, which made the calls [l] and left
    the header [h], [elapsed] after the start. *)
Definition leave (id : nat) (l : list call) (h : Header) (elapsed : Z) (p : Plugin) : option Plugin :=
  w ← running p !! id;
  let status := Itoa (code (seen l w)) in
  Some (MkPlugin (queueSize p - 1) (if String.eqb (hdr_Get "No-Workers" h) "true" then noFreeWorkers p + 1 else noFreeWorkers p)
    (<[status := default 0 (requestCounter p !! status) + 1]> (requestCounter p))
    (<[status := default [] (requestDuration p !! status) ++ [elapsed]]> (requestDuration p))
    (putWriter (writersPool p)) (stopCh p) (delete id (running p))).

(** A next handler that panics: only the deferred function runs. *)
Definition unwind (id : nat) (p : Plugin) : option Plugin :=
  _ ← running p !! id;
  Some (MkPlugin (queueSize p) (noFreeWorkers p) (requestCounter p) (requestDuration p)
    (putWriter (writersPool p)) (stopCh p) (delete id (running p))).

(** Requests that interleave; counted are those that returned and those that
    panicked. *)
Inductive step : Plugin * nat * nat → Plugin * nat * nat → Prop :=
  | step_enter id n p r x : running p !! id = None → step (p, r, x) (enter id n p, r, x)
  | step_leave id l h e p p' r x : CPanic ∉ l → leave id l h e p = Some p' → step (p, r, x) (p', S r, x)
  | step_unwind id p p' r x : unwind id p = Some p' → step (p, r, x) (p', r, S x)
  | step_stop p p' r x : Stop p = Some p' → step (p, r, x) (p', r, x).

Definition total (m : gmap string Z) : Z := map_fold (λ _ z acc, z + acc) 0 m.

Lemma total_raise m k : total (<[k := default 0 (m !! k) + 1]> m) = total m + 1.
Proof.
  unfold total. destruct (m !! k) as [z|] eqn:E; cbn [default from_option id].
  - rewrite <- (insert_id m k z E) at 2. rewrite <- (insert_delete_eq m k z), <- (insert_delete_eq m k (z + 1)).
    rewrite !map_fold_insert_L; [lia|lia|apply lookup_delete_eq|lia|apply lookup_delete_eq].
  - rewrite map_fold_insert_L; [lia|lia|done].
Qed.

Definition ok (s : Plugin * nat * nat) : Prop :=
  let '(p, r, x) := s in
  queueSize p = Z.of_nat (size (running p)) + Z.of_nat x ∧ total (requestCounter p) = Z.of_nat r ∧
  Forall (eq fresh) (writersPool p) ∧ map_Forall (λ _ w, w = fresh) (running p).

Lemma step_ok s s' : step s s' → ok s → ok s'.
Proof.
  intros Hs. destruct Hs as [id n p r x Hn|id l h e p p' r x _ Hl|id p p' r x Hl|p p' r x Hl]; intros (Hq & Ht & Hp & Hr).
  - unfold enter, getWriter. destruct (pool_get _ _ _) as [w pool] eqn:E.
    destruct (Forall_pool_get (eq fresh) _ _ _ _ _ eq_refl Hp E) as [<- Hp'].
    split_and!; cbn [queueSize running requestCounter writersPool]; [|done|done|].
    + rewrite map_size_insert_None by done. lia.
    + by apply map_Forall_insert_2.
  - unfold leave in Hl. destruct (running p !! id) as [w|] eqn:E; [|done]. injection Hl as <-.
    split_and!; cbn [queueSize running requestCounter writersPool].
    + rewrite map_size_delete, E. cbn. assert (size (running p) ≠ 0%nat) by (intros Hz%map_size_empty_inv; by rewrite Hz in E). lia.
    + rewrite total_raise. lia.
    + by constructor.
    + by apply map_Forall_delete.
  - unfold unwind in Hl. destruct (running p !! id) as [w|] eqn:E; [|done]. injection Hl as <-.
    split_and!; cbn [queueSize running requestCounter writersPool].
    + rewrite map_size_delete, E. cbn. assert (size (running p) ≠ 0%nat) by (intros Hz%map_size_empty_inv; by rewrite Hz in E). lia.
    + done.
    + by constructor.
    + by apply map_Forall_delete.
  - unfold Stop in Hl. destruct (stopCh p); [|done]. by injection Hl as <-.
Qed.

(** However requests interleave: the counter of requests adds up to those that
    returned, and the queue to those that run and those that panicked, which it
    counts for ever. *)
Theorem prometheus_counts p r x :
  rtc step (Init, 0%nat, 0%nat) (p, r, x) →
  queueSize p = Z.of_nat (size (running p)) + Z.of_nat x ∧ total (requestCounter p) = Z.of_nat r.
Proof.
  intros Hs. assert (G : ok (p, r, x)).
  { assert (G0 : ok (Init, 0%nat, 0%nat)) by done. induction Hs; eauto using step_ok. }
  by destruct G as (? & ? & _).
Qed.

(** In every such state the request is counted under the last status its handler
    set, and under -1 when it left the status to the server. *)
Theorem prometheus_label p r x id l h e p' :
  rtc step (Init, 0%nat, 0%nat) (p, r, x) → leave id l h e p = Some p' →
  let status := Itoa (default (-1) (last (omap (λ c, match c with CStatus s => Some s | _ => None end) l))) in
  requestCounter p' !! status = Some (default 0 (requestCounter p !! status) + 1).
Proof.
  intros Hs Hl. assert (G : ok (p, r, x)).
  { assert (G0 : ok (Init, 0%nat, 0%nat)) by done. clear Hl. induction Hs; eauto using step_ok. }
  destruct G as (_ & _ & _ & Hr). unfold leave in Hl. destruct (running p !! id) as [w|] eqn:E; [|done].
  apply Hr in E. subst w. injection Hl as <-. cbn [requestCounter].
  assert (Hc : ∀ w, code (seen l w) = default (code w) (last (omap (λ c, match c with CStatus s => Some s | _ => None end) l))).
  { clear. induction l as [|c l IH]; intros w; [done|].
    change (seen (c :: l) w) with (seen l (match c with CStatus code => WriteHeader code w | _ => w end)).
    rewrite IH. destruct c; cbn [omap list_omap]; try done. rewrite last_cons. by destruct (last _). }
  rewrite Hc. cbn [fresh code]. apply lookup_insert_eq.
Qed.

(** *** Examples *)

Definition w_entered : Plugin := enter 0 None Init.

Lemma prometheus_counts_witness : queueSize w_entered = 1 ∧ total (requestCounter w_entered) = 0.
Proof.
  destruct (prometheus_counts w_entered 0 0) as [H1 H2].
  - apply rtc_once. by constructor.
  - split; [rewrite H1; vm_compute; reflexivity|exact H2].
Defined.

Lemma prometheus_label_witness :
  ∃ p', leave 0 [CWrite "hi"] ∅ 5 w_entered = Some p' ∧ requestCounter p' !! "-1" = Some 1.
Proof.
  eexists. split; [vm_compute; reflexivity|].
  refine (prometheus_label w_entered 0 0 0 [CWrite "hi"] ∅ 5 _ _ _); [|vm_compute; reflexivity].
  apply rtc_once. by constructor.
Defined.
End Prometheus.
