(* ===== verification/Websockets.v ===== *)
(** * Websockets ([http/middleware/websockets])

    Origins ([config.go], [origin.go], [wildcard.go]), the command loop of a
    connection ([executor]), the delivery of messages ([pool]), access validation
    ([validator]) and the middleware that ties them together.  The subscriber is
    an interface (class [Subscriber]); the websocket library, JSON and the workers
    are arguments: an event of a session carries what they answer. *)

From stdpp Require Import base gmap strings list.
From Stdlib Require Import ZArith Ascii Lia.
From Stdlib Require String.
From S2P Require Import Prelude GoStrings HttpBase HttpForm HttpRequest.

(** ** Origins *)
Module Origin.

Record wildcard := MkWildcard { prefix : string; suffix : string }.

Definition match_ (w : wildcard) (s : string) : bool :=
  (length (chars (prefix w)) + length (chars (suffix w)) <=? length (chars s))
  && HasPrefix s (prefix w) && HasSuffix s (suffix w).

Record Pool := MkPool { NumWorkers : Z; AllocateTimeout : Z; DestroyTimeout : Z }.

Record Config := MkConfig {
  Path : string; AllowedOrigin : string; Broker : string; allowedWOrigins : list wildcard;
  allowedOrigins : list string; allowedAll : bool; cfg_Pool : option Pool }.

Section config.
Context `{Unicode}.

(** Times in seconds; a pool that is configured is left as it is. *)
Definition InitDefault (c : Config) : res Config :=
  let path := if String.eqb (Path c) "" then "/ws" else Path c in
  if String.eqb (Broker c) "" then Err (EStr "broker key should be specified") else
  let pool := match cfg_Pool c with None => MkPool 2 60 60 | Some p => p end in
  let allowed := if String.eqb (AllowedOrigin c) "" then "*" else AllowedOrigin c in
  let origin := ToLower allowed in
  if String.eqb origin "*" then
    Ok (MkConfig path allowed (Broker c) (allowedWOrigins c) (allowedOrigins c) true (Some pool))
  else match HttpBase.cut "*" (chars origin) with
  | Some (p, s) =>
      Ok (MkConfig path allowed (Broker c) (allowedWOrigins c ++ [MkWildcard (text p) (text s)])
            (allowedOrigins c) (allowedAll c) (Some pool))
  | None =>
      Ok (MkConfig path allowed (Broker c) (allowedWOrigins c) (allowedOrigins c ++ [origin])
            (allowedAll c) (Some pool))
  end.

Definition isOriginAllowed (origin : string) (cfg : Config) : bool :=
  if allowedAll cfg then true
  else
    let origin := ToLower (ToLower origin) in
    if existsb (λ o, String.eqb o origin) (allowedOrigins cfg) then true
    else existsb (λ w, match_ w origin) (allowedWOrigins cfg).

Lemma match_spec p s o : match_ (MkWildcard p s) o = true ↔ ∃ m, o = p +:+ m +:+ s.
Proof.
  unfold match_. cbn [prefix suffix]. rewrite !andb_true_iff, Nat.leb_le, HasPrefix_spec, HasSuffix_spec. split.
  - intros [[Hl [t ->]] [t' Ht']].
    assert (Hc : chars p ++ chars t = chars t' ++ chars s) by (by rewrite <- !chars_app, Ht').
    rewrite chars_app, length_app in Hl.
    assert (∃ m, chars t = m ++ chars s) as [m Hm].
    { exists (drop (length (chars p)) (chars t')).
      apply (f_equal (drop (length (chars p)))) in Hc. rewrite drop_app_length in Hc. rewrite Hc.
      apply drop_app_le. apply (f_equal length) in Hc.
      assert (length (chars p) + length (chars t) = length (chars t') + length (chars s))
        by (rewrite <- !length_app, <- !chars_app, Ht'; done). lia. }
    exists (text m). f_equal. apply chars_inj. by rewrite chars_app, chars_text, Hm.
  - intros [m ->]. split_and!.
    + rewrite !chars_app, !length_app. lia.
    + by eexists.
    + exists (p +:+ m). apply chars_inj. by rewrite !chars_app, app_assoc.
Qed.

(** The configuration as the user writes it. *)
Definition fresh_config (broker origin : string) : Config := MkConfig "" origin broker [] [] false None.

(** The origin check, from configuration to decision.  Everything is allowed
    for [*] and for an empty setting; a setting without a star allows the origin
    that is equal to it; otherwise the part before the first star must begin the
    origin and the part after it end it, without overlap.  Letters are compared
    in lower case. *)
Theorem origin_allowed broker allowed origin c :
  InitDefault (fresh_config broker allowed) = Ok c →
  let pat := ToLower (if String.eqb allowed "" then "*" else allowed) in
  isOriginAllowed origin c = true ↔
    pat = "*" ∨ ToLower (ToLower origin) = pat ∧ "*"%char ∉ chars pat ∨
    ∃ p s m, chars pat = chars p ++ "*"%char :: chars s ∧ "*"%char ∉ chars p ∧
      ToLower (ToLower origin) = p +:+ m +:+ s.
Proof.
  intros E pat. unfold InitDefault, fresh_config in E.
  cbn [Path AllowedOrigin Broker allowedWOrigins allowedOrigins allowedAll cfg_Pool] in E. cbn zeta in E.
  destruct (String.eqb broker ""); [done|]. fold pat in E. unfold isOriginAllowed.
  set (o := ToLower (ToLower origin)).
  destruct (String.eqb_spec pat "*") as [Hp|Hp].
  { injection E as <-. cbn. split; [by left|done]. }
  pose proof (HttpBase.cut_inv "*" (chars pat)) as Hcut.
  destruct (HttpBase.cut "*" (chars pat)) as [[x y]|]; injection E as <-; cbn.
  - destruct Hcut as [Hl Hx]. rewrite orb_false_r, match_spec. split.
    + intros [m Hm]. right. right. exists (text x), (text y), m. by rewrite !chars_text.
    + intros [?|[[_ Hn]|(p & s & m & Hps & Hnp & Hm)]]; [done| |].
      { exfalso. apply Hn. rewrite Hl. apply elem_of_app. right. left. }
      rewrite Hps in Hl. pose proof (HttpBase.cut_app "*" (chars p) (chars s) Hnp) as H1.
      rewrite Hl, HttpBase.cut_app in H1 by done. injection H1 as -> ->. rewrite !text_chars. by exists m.
  - rewrite orb_false_r. split.
    + destruct (String.eqb_spec pat o) as [Heq|]; [|done]. intros _. right. left. by split.
    + intros [?|[[Heq _]|(p & s & m & Hps & _)]]; [done| |].
      { rewrite Heq. by rewrite String.eqb_refl. }
      exfalso. apply Hcut. rewrite Hps. apply elem_of_app. right. left.
Qed.
End config.
End Origin.

Lemma origin_allowed_witness :
  Origin.isOriginAllowed (H := ascii_unicode) "https://API.example.com"
    (Origin.MkConfig "/ws" "https://*.example.com" "b" [Origin.MkWildcard "https://" ".example.com"] [] false
      (Some (Origin.MkPool 2 60 60))) = true.
Proof.
  apply (Origin.origin_allowed (H := ascii_unicode) "b" "https://*.example.com"); [reflexivity|].
  right. right. exists "https://", ".example.com", "api". split_and!; [reflexivity| |reflexivity].
  intros Hin. apply HttpBase.has_char_spec in Hin. discriminate Hin.
Defined.

(** ** The command loop of a connection ([executor/executor.go]) *)
Module Executor.

(** The subscriber of a pub/sub driver; [connections] is what its method
    [Connections] reports for a topic. *)
Class Subscriber (S : Type) := {
  Subscribe : string → list string → S → S * option error;
  Unsubscribe : string → list string → S → S * option error;
  connections : string → S → gset string
}.

(** What the memory driver promises (file BroadcastSystem): calls do not fail; a
    connection is added to topics, and taken away from topics it is in. *)
Class SubscriberLaws (S : Type) `{Subscriber S} := {
  Subscribe_ok c ts s s' e t : Subscribe c ts s = (s', e) →
    e = None ∧ connections t s' = if decide (t ∈ ts) then {[c]} ∪ connections t s else connections t s;
  Unsubscribe_ok c ts s s' e t : NoDup ts → (∀ t, t ∈ ts → c ∈ connections t s) → Unsubscribe c ts s = (s', e) →
    e = None ∧ connections t s' = if decide (t ∈ ts) then connections t s ∖ {[c]} else connections t s
}.

Inductive opcode := OpContinuation | OpText | OpBinary | OpClose | OpOther.

(** *** Frames ([connection/connection.go]) *)

(** The header of a frame and its text after unmasking, as the library reads them. *)
Record frame := MkFrame { fr_op : opcode; fr_payload : bytes + error }.

Definition Read (r : frame + (string * error)) : (bytes * opcode) + error :=
  let op := "websocket_read" in
  match r with
  | inr (text_, e) => if String.eqb text_ "EOF" then inl ("", OpClose) else inr (EOp op e)
  | inl f =>
      match fr_op f with
      | OpClose => inl ("", OpClose)
      | _ => match fr_payload f with
             | inr e => inr (EOp op e)
             | inl b => inl (b, fr_op f)
             end
      end
  end.

(** The packets a connection has been sent. *)
Inductive packet := PJoin (topics : list string) | PRefuse (topics : list string) | PLeave (topics : list string).

Record message := MkMsg { Command : string; Topics : list string }.

Section executor.
Context {S : Type} `{Subscriber S}.

Record Executor := MkExecutor { connID : string; actualTopics : gset string }.

(** One turn of the loop: what is read, what the JSON decoder, the encoder, the
    access validator and the connection answer. *)
Record event := MkEvent {
  ev_read : frame + (string * error); ev_json : bytes → message + error;
  ev_valid : list string → option error; ev_marshal : option error; ev_write : option error }.

Definition Set_ (topics : list string) (e : Executor) (s : S) : Executor * S * option error :=
  match Subscribe (connID e) topics s with
  | (s, Some err) => let '(s, _) := Unsubscribe (connID e) topics s in (e, s, Some err)
  | (s, None) => (MkExecutor (connID e) (actualTopics e ∪ list_to_set topics), s, None)
  end.

Definition Leave (topics : list string) (e : Executor) (s : S) : Executor * S * option error :=
  match Unsubscribe (connID e) topics s with
  | (s, Some err) => (e, s, Some err)
  | (s, None) => (MkExecutor (connID e) (actualTopics e ∖ list_to_set topics), s, None)
  end.

Fixpoint unsubscribe_all (c : string) (topics : list string) (s : S) : S :=
  match topics with
  | [] => s
  | t :: l => unsubscribe_all c l (Unsubscribe c [t] s).1
  end.

(** The set of topics is visited in some order. *)
Definition CleanUp (e : Executor) (s : S) : Executor * S :=
  (MkExecutor (connID e) ∅, unsubscribe_all (connID e) (elements (actualTopics e)) s).

(** How a turn ends: the loop goes on, or it returns. *)
Inductive turn := TContinue | TReturn (e : option error).

Definition op : string := "executor_command_loop".

(** Send a packet, then do the rest. *)
Definition reply (ev : event) (p : packet) (out : list packet) : list packet * option error :=
  match ev_marshal ev with
  | Some e => (out, Some e)
  | None => match ev_write ev with
            | Some e => (out, Some e)
            | None => (out ++ [p], None)
            end
  end.

(** A failed encoding of the join packet is reported without its cause: the code
    wraps another variable, which is nil. *)
Definition command (ev : event) (m : message) (e : Executor) (s : S) (out : list packet)
    : Executor * S * list packet * turn :=
  if String.eqb (Command m) "join" then
    match ev_valid ev (Topics m) with
    | Some _ =>
        match reply ev (PRefuse (Topics m)) out with
        | (out, Some err) => (e, s, out, TReturn (Some (EOp op err)))
        | (out, None) => (e, s, out, TContinue)
        end
    | None =>
        match reply ev (PJoin (Topics m)) out with
        | (out, Some err) =>
            (e, s, out, TReturn (Some (EOp op (match ev_marshal ev with Some _ => EStr "" | None => err end))))
        | (out, None) =>
            match Set_ (Topics m) e s with
            | (e, s, Some err) => (e, s, out, TReturn (Some (EOp op err)))
            | (e, s, None) => (e, s, out, TContinue)
            end
        end
    end
  else if String.eqb (Command m) "leave" then
    match reply ev (PLeave (Topics m)) out with
    | (out, Some err) => (e, s, out, TReturn (Some (EOp op err)))
    | (out, None) =>
        match Leave (Topics m) e s with
        | (e, s, Some err) => (e, s, out, TReturn (Some (EOp op err)))
        | (e, s, None) => (e, s, out, TContinue)
        end
    end
  else (e, s, out, TContinue).

Definition turn_of (ev : event) (e : Executor) (s : S) (out : list packet)
    : Executor * S * list packet * turn :=
  match Read (ev_read ev) with
  | inr err => (e, s, out, TReturn (Some (EOp op err)))
  | inl (_, OpClose) => (e, s, out, TReturn None)
  | inl (data, _) =>
      match ev_json ev data with
      | inr _ => (e, s, out, TContinue)
      | inl m => command ev m e s out
      end
  end.

(** [None]: the loop waits for the next frame. *)
Fixpoint StartCommandLoop (evs : list event) (e : Executor) (s : S) (out : list packet)
    : Executor * S * list packet * option (option error) :=
  match evs with
  | [] => (e, s, out, None)
  | ev :: l =>
      match turn_of ev e s out with
      | (e, s, out, TContinue) => StartCommandLoop l e s out
      | (e, s, out, TReturn r) => (e, s, out, Some r)
      end
  end.

(** *** A session

    The part of the middleware after the upgrade: the connection is stored, the
    loop runs, and only a loop that ends without an error is cleaned up. *)
Record world := MkWorld { conns : gset string; subs : S; closed : gset string }.

Definition session (evs : list event) (id : string) (w : world) : world * list packet * option (option error) :=
  let w := MkWorld ({[id]} ∪ conns w) (subs w) (closed w) in
  match StartCommandLoop evs (MkExecutor id ∅) (subs w) [] with
  | (e, s, out, None) => (MkWorld (conns w) s (closed w), out, None)
  | (e, s, out, Some (Some err)) => (MkWorld (conns w) s (closed w), out, Some (Some err))
  | (e, s, out, Some None) =>
      let '(_, s) := CleanUp e s in
      (MkWorld (conns w ∖ {[id]}) s ({[id]} ∪ closed w), out, Some None)
  end.
End executor.

Section theorems.
Context {S : Type} `{SubscriberLaws S}.

(** The executor knows the topics its connection listens to, and the other
    connections listen to what they listened to in [s0]. *)
Record tracks (id : string) (s0 : S) (e : Executor) (s : S) : Prop := MkTracks {
  tracks_id : connID e = id;
  tracks_topics t : id ∈ connections t s ↔ t ∈ actualTopics e;
  tracks_others t : connections t s ∖ {[id]} = connections t s0 ∖ {[id]}
}.

(** The client leaves only topics it is in, each once. *)
Definition leaves_joined (ev : event) (e : Executor) : Prop :=
  ∀ data oc m, Read (ev_read ev) = inl (data, oc) → ev_json ev data = inl m → Command m = "leave" →
    NoDup (Topics m) ∧ ∀ t, t ∈ Topics m → t ∈ actualTopics e.
Fixpoint polite (evs : list event) (e : Executor) (s : S) (out : list packet) : Prop :=
  match evs with
  | [] => True
  | ev :: l => leaves_joined ev e ∧
      match turn_of ev e s out with
      | (e, s, out, TContinue) => polite l e s out
      | _ => True
      end
  end.

Lemma Set_tracks id s0 ts e s :
  tracks id s0 e s → ∃ e' s', Set_ ts e s = (e', s', None) ∧ tracks id s0 e' s'.
Proof.
  intros [Hid Ht Ho]. unfold Set_. rewrite Hid. destruct (Subscribe id ts s) as [s1 r] eqn:E.
  destruct (Subscribe_ok _ _ _ _ _ "" E) as [-> _]. eexists _, _. split; [done|].
  split; simpl; [done|..]; intros t; destruct (Subscribe_ok _ _ _ _ _ t E) as [_ ->]; specialize (Ht t);
    specialize (Ho t); case_decide; set_solver.
Qed.

Lemma Leave_tracks id s0 ts e s :
  tracks id s0 e s → NoDup ts → (∀ t, t ∈ ts → t ∈ actualTopics e) →
  ∃ e' s', Leave ts e s = (e', s', None) ∧ tracks id s0 e' s'.
Proof.
  intros [Hid Ht Ho] Hn Hts. unfold Leave. rewrite Hid. destruct (Unsubscribe id ts s) as [s1 r] eqn:E.
  assert (Hin : ∀ t, t ∈ ts → id ∈ connections t s) by (intros t Hx; by apply Ht, Hts).
  destruct (Unsubscribe_ok _ _ _ _ _ "" Hn Hin E) as [-> _]. eexists _, _. split; [done|].
  split; simpl; [done|..]; intros t; destruct (Unsubscribe_ok _ _ _ _ _ t Hn Hin E) as [_ ->]; specialize (Ht t);
    specialize (Ho t); case_decide; set_solver.
Qed.

Lemma turn_tracks id s0 ev e s out e' s' out' r :
  tracks id s0 e s → leaves_joined ev e → turn_of ev e s out = (e', s', out', r) → tracks id s0 e' s'.
Proof.
  intros Hs Hl. unfold turn_of, leaves_joined in *. destruct (Read (ev_read ev)) as [[data oc]|err]; [|by intros [= <- <- _ _]].
  assert (Hcmd : ∀ m, ev_json ev data = inl m → command ev m e s out = (e', s', out', r) → tracks id s0 e' s').
  { intros m Hm. unfold command. destruct (String.eqb (Command m) "join").
    - destruct (ev_valid ev (Topics m)); [by destruct (reply _ _ _) as [? [?|]]; intros [= <- <- _ _]|].
      destruct (reply _ _ _) as [? [?|]]; [by intros [= <- <- _ _]|].
      destruct (Set_tracks _ _ (Topics m) _ _ Hs) as (e1 & s1 & -> & H1). by intros [= <- <- _ _].
    - destruct (String.eqb_spec (Command m) "leave") as [Hc|]; [|by intros [= <- <- _ _]].
      destruct (reply _ _ _) as [? [?|]]; [by intros [= <- <- _ _]|].
      destruct (Hl data oc m eq_refl Hm Hc) as [Hn Ht].
      destruct (Leave_tracks _ _ (Topics m) _ _ Hs Hn Ht) as (e1 & s1 & -> & H1). by intros [= <- <- _ _]. }
  destruct oc; try (destruct (ev_json ev data) as [m|] eqn:Ej; [by apply Hcmd|by intros [= <- <- _ _]]).
  by intros [= <- <- _ _].
Qed.

Lemma loop_tracks id s0 evs e s out e' s' out' r :
  tracks id s0 e s → polite evs e s out → StartCommandLoop evs e s out = (e', s', out', r) → tracks id s0 e' s'.
Proof.
  revert e s out. induction evs as [|ev l IH]; intros e s out Hs Hp E; simpl in *; [by simplify_eq|].
  destruct Hp as [Hl Hp]. destruct (turn_of ev e s out) as [[[e1 s1] out1] [|r1]] eqn:Et;
    pose proof (turn_tracks _ _ _ _ _ _ _ _ _ _ Hs Hl Et) as H1; [by eapply IH|]. by simplify_eq.
Qed.

Lemma start_tracks id (s : S) : (∀ t, id ∉ connections t s) → tracks id s (MkExecutor id ∅) s.
Proof. intros Hf. split; simpl; [done| |done]. intros t. specialize (Hf t). set_solver. Qed.

Lemma unsubscribe_all_spec c l (s : S) t :
  NoDup l → (∀ t, t ∈ l → c ∈ connections t s) →
  connections t (unsubscribe_all c l s) = if decide (t ∈ l) then connections t s ∖ {[c]} else connections t s.
Proof.
  intros Hn. revert s. induction Hn as [|t0 l Ht0 Hn IH]; intros s Hin; [done|]. cbn [unsubscribe_all].
  destruct (Unsubscribe c [t0] s) as [s1 e] eqn:E.
  assert (Hm : ∀ x, x ∈ [t0] → c ∈ connections x s) by (intros x ->%list_elem_of_singleton; apply Hin; by left).
  assert (Hu := λ x, Unsubscribe_ok c [t0] s s1 e x (NoDup_singleton t0) Hm E). simpl.
  rewrite IH.
  - destruct (Hu t) as [_ ->]. repeat case_decide; set_solver.
  - intros x Hx. destruct (Hu x) as [_ ->]. rewrite decide_False by set_solver. apply Hin. by right.
Qed.

(** C16: a session that ends with a close leaves nothing behind: whatever the
    client sent before, as long as it left only topics it was in, each once, the
    connection is not stored any more, it is closed, and it listens to no topic,
    while connections of others keep their topics.  The subscriber is one whose
    calls do not fail, as those of the memory driver. *)
Theorem session_closes evs id (w : world (S := S)) w' out :
  (∀ t, id ∉ connections t (subs w)) → polite evs (MkExecutor id ∅) (subs w) [] →
  session evs id w = (w', out, Some None) →
  id ∉ conns w' ∧ id ∈ closed w' ∧ ∀ t, connections t (subs w') = connections t (subs w).
Proof.
  intros Hfresh Hp. unfold session. cbn [conns subs closed].
  destruct (StartCommandLoop evs (MkExecutor id ∅) (subs w) []) as [[[e s] o] [[err|]|]] eqn:E; [done| |done].
  destruct (loop_tracks _ _ _ _ _ _ _ _ _ _ (start_tracks _ _ Hfresh) Hp E) as [Hc Ht Ho].
  unfold CleanUp. intros [= <- <-]. simpl. split_and!; [set_solver|set_solver|]. intros t.
  rewrite Hc, unsubscribe_all_spec by (first [apply NoDup_elements|intros t1 H1%elem_of_elements; by apply Ht]).
  specialize (Ht t). specialize (Ho t). specialize (Hfresh t).
  case_decide as Hd; rewrite elem_of_elements in Hd; set_solver.
Qed.

(** A session whose connection breaks is not cleaned up: the connection stays
    stored and open, and it keeps listening to every topic it had joined, so that
    later messages are still sent to it. *)
Theorem session_error_leaks evs bad id (w : world (S := S)) e s out err :
  (∀ t, id ∉ connections t (subs w)) → polite evs (MkExecutor id ∅) (subs w) [] →
  StartCommandLoop evs (MkExecutor id ∅) (subs w) [] = (e, s, out, None) →
  Read (ev_read bad) = inr err →
  ∃ w', session (evs ++ [bad]) id w = (w', out, Some (Some (EOp op err))) ∧
    id ∈ conns w' ∧ closed w' = closed w ∧
    ∀ t, t ∈ actualTopics e → id ∈ connections t (subs w').
Proof.
  intros Hfresh Hp E Hbad.
  assert (Happ : ∀ l (e0 : Executor) (s0 : S) o0, StartCommandLoop l e0 s0 o0 = (e, s, out, None) →
    StartCommandLoop (l ++ [bad]) e0 s0 o0 = (e, s, out, Some (Some (EOp op err)))).
  { induction l as [|ev l IH]; intros e0 s0 o0 El; simpl in *.
    - simplify_eq. unfold turn_of. by rewrite Hbad.
    - destruct (turn_of ev e0 s0 o0) as [[[e1 s1] o1] [|r]]; [by apply IH|done]. }
  destruct (loop_tracks _ _ _ _ _ _ _ _ _ _ (start_tracks _ _ Hfresh) Hp E) as [Hc Ht Ho].
  unfold session. cbn [conns subs closed]. rewrite (Happ _ _ _ _ E).
  eexists. split; [done|]. simpl. split_and!; [set_solver|done|]. intros t. by apply Ht.
Qed.
End theorems.

(** *** A concrete subscriber: the listeners of every topic *)

#[local] Instance table_sub : Subscriber (string → gset string) := {|
  Subscribe c ts s := (λ t, if decide (t ∈ ts) then {[c]} ∪ s t else s t, None);
  Unsubscribe c ts s := (λ t, if decide (t ∈ ts) then s t ∖ {[c]} else s t, None);
  connections t s := s t |}.

#[local] Instance table_laws : SubscriberLaws (string → gset string).
Proof. split; simpl; [by intros c ts s s' e t [= <- <-]|by intros c ts s s' e t _ _ [= <- <-]]. Qed.

Definition say (m : message) : event :=
  MkEvent (inl (MkFrame OpText (inl ""))) (λ _, inl m) (λ _, None) None None.
Definition hang_up : event := MkEvent (inl (MkFrame OpClose (inl ""))) (λ _, inr (EStr "")) (λ _, None) None None.
Definition broken : event := MkEvent (inr ("reset", EStr "reset")) (λ _, inr (EStr "")) (λ _, None) None None.

Definition quiet : world (S := string → gset string) := MkWorld ∅ (λ _, ∅) ∅.

Lemma session_closes_witness :
  ∃ w' out, session [say (MkMsg "join" ["news"]); hang_up] "c" quiet = (w', out, Some None) ∧
    "c" ∉ conns w' ∧ connections "news" (subs w') = ∅.
Proof.
  eexists _, _. split; [reflexivity|].
  edestruct (session_closes [say (MkMsg "join" ["news"]); hang_up] "c" quiet) as (H1 & _ & H3);
    [intros t; simpl; set_solver| |reflexivity|split; [exact H1|exact (H3 "news")]].
  simpl. split; [|done]. intros data oc m _ [= <-]. discriminate.
Defined.

Lemma session_error_leaks_witness :
  ∃ w' out err, session ([say (MkMsg "join" ["news"])] ++ [broken]) "c" quiet = (w', out, Some (Some err)) ∧
    "c" ∈ conns w' ∧ "c" ∈ connections "news" (subs w').
Proof.
  edestruct (session_error_leaks [say (MkMsg "join" ["news"])] broken "c" quiet) as (w' & H1 & H2 & _ & H4);
    [intros t; simpl; set_solver| |reflexivity|reflexivity|].
  { simpl. split; [|done]. intros data oc m _ [= <-]. discriminate. }
  eexists w', _, _. split; [exact H1|]. split; [exact H2|]. apply H4. simpl. set_solver.
Defined.
End Executor.

(** ** Delivery ([pool/workers_pool.go]) *)
Module WsPool.

Record Message := MkMessage { Topic : string; Payload : bytes }.

(** What a write to a connection does: it is not stored any more, the encoding
    fails, the write fails, or it is sent. *)
Inductive outcome := ONotFound | OMarshal | OWrite | OSent.

(** The loop over the map [res].  Every failure clears the map ([wp.put]); entries
    removed during a [range] are not visited, so the loop ends there. *)
Fixpoint send_all (outcome_of : string → outcome) (res : list string) : list string :=
  match res with
  | [] => []
  | c :: l => match outcome_of c with
              | OSent => c :: send_all outcome_of l
              | _ => []
              end
  end.

(** One message of the queue; [order] is the order in which the map is visited.
    The answer lists the connections that got it. *)
Definition do_message (outcome_of : string → outcome) (conns : string → gset string)
    (order : gset string → list string) (msg : option Message) : list string :=
  match msg with
  | None => []
  | Some m =>
      if String.eqb (Topic m) "" then []
      else
        let res := conns (Topic m) in
        if bool_decide (res = ∅) then [] else send_all outcome_of (order res)
  end.

(** Who gets a message.  If every connection of the topic can be written to,
    all of them get it, once.  Otherwise exactly the connections that the map
    yields before the first one that fails: a connection that is gone costs the
    others their message. *)
Theorem pool_delivers outcome_of conns order m :
  (∀ s, order s ≡ₚ elements s) → Topic m ≠ "" →
  ((∀ c, c ∈ conns (Topic m) → outcome_of c = OSent) →
     do_message outcome_of conns order (Some m) ≡ₚ elements (conns (Topic m))) ∧
  (∀ pre c post, order (conns (Topic m)) = pre ++ c :: post → Forall (λ x, outcome_of x = OSent) pre →
     outcome_of c ≠ OSent → do_message outcome_of conns order (Some m) = pre).
Proof.
  intros Hord Hne. unfold do_message. rewrite (proj2 (String.eqb_neq _ _) Hne). cbn zeta. split.
  - intros Hall. case_bool_decide as He; [by rewrite He, elements_empty|].
    assert (Hs : ∀ l, Forall (λ c, outcome_of c = OSent) l → send_all outcome_of l = l).
    { induction 1 as [|c l Hc _ IH]; [done|]. simpl. by rewrite Hc, IH. }
    rewrite Hs; [apply Hord|]. apply list.Forall_forall. intros c Hc. apply Hall.
    rewrite Hord in Hc. by apply elem_of_elements.
  - intros pre c post Hl Hpre Hc. case_bool_decide as He.
    { exfalso. pose proof (Hord (conns (Topic m))) as Hp. rewrite Hl, He, elements_empty in Hp.
      symmetry in Hp. apply Permutation_nil in Hp. by destruct pre. }
    rewrite Hl. clear -Hpre Hc. induction Hpre as [|x pre Hx _ IH]; simpl.
    + by destruct (outcome_of c).
    + by rewrite Hx, IH.
Qed.

Lemma pool_delivers_witness :
  do_message (λ c, if String.eqb c "gone" then ONotFound else OSent) (λ _, {["gone"; "alive"]})
    elements (Some (MkMessage "news" "x")) = [].
Proof.
  apply (pool_delivers (λ c, if String.eqb c "gone" then ONotFound else OSent) (λ _, {["gone"; "alive"]})
    elements (MkMessage "news" "x")) with (c := "gone") (post := ["alive"]).
  - done.
  - done.
  - vm_compute. reflexivity.
  - constructor.
  - done.
Defined.
End WsPool.

(** ** Locks

    [sync.RWMutex]: a writer announces itself and waits for the readers; from then
    on new readers wait for the writer.  Threads run sequences of lock calls. *)
Module RWLock.

Inductive lock_op := RLock | RUnlock | LockWait | LockGo | Unlock.

#[global] Instance lock_op_eq_dec : EqDecision lock_op.
Proof. solve_decision. Defined.

Record mutex := MkMutex { readers : nat; pending : bool }.

Definition lock_step (o : lock_op) (m : mutex) : option mutex :=
  match o with
  | RLock => if pending m then None else Some (MkMutex (S (readers m)) false)
  | RUnlock => match readers m with O => None | S n => Some (MkMutex n (pending m)) end
  | LockWait => if pending m then None else Some (MkMutex (readers m) true)
  | LockGo => match readers m with O => Some m | S _ => None end
  | Unlock => Some (MkMutex (readers m) false)
  end.

Record config := MkConfig { threads : list (list lock_op); lock : mutex }.

Inductive step : config → config → Prop :=
  | step_thread ts i o rest m m' :
      ts !! i = Some (o :: rest) → lock_step o m = Some m' →
      step (MkConfig ts m) (MkConfig (<[i := rest]> ts) m').

Definition finished (c : config) : Prop := Forall (eq []) (threads c).
Definition stuck (c : config) : Prop := ¬ finished c ∧ ∀ c', ¬ step c c'.

Definition start (ts : list (list lock_op)) : config := MkConfig ts (MkMutex 0 false).

(** [Plugin.Reset] of the websockets plugin. *)
Definition reset_thread : list lock_op := [LockWait; LockGo; Unlock].
(** The middleware takes the read lock around the access validator, which takes it
    again in [exec]. *)
Definition exec_thread : list lock_op := [RLock; RUnlock].
Definition request_thread : list lock_op := [RLock] ++ exec_thread ++ [RUnlock].
(** An origin that is refused returns with the read lock held. *)
Definition refused_thread : list lock_op := [RLock].

(** A reset during a handshake can deadlock: between the two read locks of the
    request, the reset announces its write lock; then the request waits for the
    reset and the reset for the request, and nothing else can happen. *)
Theorem handshake_reset_deadlock :
  ∃ c, rtc step (start [request_thread; reset_thread]) c ∧ stuck c ∧
    threads c = [exec_thread ++ [RUnlock]; [LockGo; Unlock]].
Proof.
  eexists. split_and!.
  - eapply rtc_l; [by eapply (step_thread [request_thread; reset_thread] 0 RLock)|].
    eapply rtc_l; [by eapply (step_thread _ 1 LockWait [LockGo; Unlock])|]. apply rtc_refl.
  - split.
    + intros Hf. by apply Forall_cons in Hf as [? _].
    + intros c' Hs. inversion Hs as [ts i o rest m m' Hi Hl]. subst. simpl in *.
      destruct i as [|[|i]]; simplify_eq/=; done.
  - reflexivity.
Qed.

(** The locks a thread holds, from the calls it has left. *)
Definition held (t : list lock_op) : nat :=
  length (filter (eq RUnlock) t) - length (filter (eq RLock) t).

(** What is left of a request, a refused request or a reset. *)
Definition suffixes : list (list lock_op) :=
  [request_thread; [RLock; RUnlock; RUnlock]; [RUnlock; RUnlock]; [RUnlock]; [];
   refused_thread; reset_thread; [LockGo; Unlock]; [Unlock]].

Ltac in_suffixes := apply (bool_decide_unpack _); vm_compute; exact I.

Definition busy (c : config) : Prop :=
  Forall (λ t, t ∈ suffixes ∧ t ≠ [Unlock]) (threads c) ∧
  S (sum_list (held <$> threads c)) ≤ readers (lock c).

Lemma sum_list_insert (l : list nat) i x y :
  l !! i = Some x → sum_list (<[i := y]> l) + x = sum_list l + y.
Proof.
  revert i. induction l as [|z l IH]; intros [|i] Hi; simplify_eq/=; [lia|].
  specialize (IH i Hi). lia.
Qed.

Lemma busy_step c c' : busy c → step c c' → busy c'.
Proof.
  intros [Ht Hr] Hs. destruct Hs as [ts i o rest m m' Hi Hl]. simpl in *.
  destruct (Forall_lookup_1 _ _ _ _ Ht Hi) as [Hsuf Hne].
  assert (Hsum : sum_list (held <$> <[i := rest]> ts) + held (o :: rest) = sum_list (held <$> ts) + held rest).
  { rewrite list_fmap_insert. apply sum_list_insert. by rewrite list_lookup_fmap, Hi. }
  assert (Hall : rest ∈ suffixes ∧ (o = LockGo ∨ rest ≠ [Unlock]) ∧
    match o with
    | RLock => held rest ≤ S (held (o :: rest))
    | RUnlock => S (held rest) = held (o :: rest)
    | _ => held rest = held (o :: rest)
    end).
  { unfold suffixes, request_thread, refused_thread, reset_thread, exec_thread in Hsuf. simpl in Hsuf.
    repeat (apply elem_of_cons in Hsuf as [Hsuf|Hsuf]);
      [..|by apply elem_of_nil in Hsuf]; simplify_eq/=; split_and!; try (by vm_compute; lia);
      try (by left); try (by right); in_suffixes. }
  destruct Hall as (Hrest & Hgo & Hheld).
  assert (o ≠ LockGo).
  { intros ->. simpl in Hl. destruct (readers m); [lia|done]. }
  split; simpl.
  - apply Forall_insert; [done|]. split; [done|]. by destruct Hgo.
  - destruct o; simpl in Hl; [destruct (pending m); [done|]|destruct (readers m) eqn:Em; [done|]| | |];
      simplify_eq/=; try lia. destruct (pending m); simplify_eq/=; lia.
Qed.

(** A request whose origin is refused blocks every later reset.  It returns
    with the read lock; afterwards, whatever requests, refusals and resets run
    and however they interleave, no reset gets its write lock. *)
Theorem refused_origin_blocks_reset ts :
  Forall (λ t, t = request_thread ∨ t = refused_thread ∨ t = reset_thread) ts →
  ∃ c0, step (start (refused_thread :: ts)) c0 ∧ threads c0 = [] :: ts ∧
    ∀ c i, rtc step c0 c → threads c !! i ≠ Some [Unlock].
Proof.
  intros Hts. exists (MkConfig ([] :: ts) (MkMutex 1 false)). split_and!; [|done|].
  - by apply (step_thread (refused_thread :: ts) 0 RLock []).
  - intros c i Hc.
    assert (Hb : busy (MkConfig ([] :: ts) (MkMutex 1 false))).
    { split; cbn [threads lock readers].
      - constructor; [split; [in_suffixes|done]|]. eapply list.Forall_impl; [exact Hts|].
        intros t [-> | [-> | ->]]; (split; [in_suffixes|done]).
      - change (sum_list (held <$> [] :: ts)) with (0 + sum_list (held <$> ts)).
        assert (sum_list (held <$> ts) = 0) as ->; [|done]. clear Hc.
        induction Hts as [|t ts Ht _ IH]; [done|].
        change (held t + sum_list (held <$> ts) = 0). rewrite IH. by destruct Ht as [-> | [-> | ->]]. }
    assert (Hbc : busy c) by (clear -Hb Hc; induction Hc; [done|]; eauto using busy_step).
    intros Hi. destruct Hbc as [Hf _]. by destruct (Forall_lookup_1 _ _ _ _ Hf Hi).
Qed.

Lemma refused_origin_blocks_reset_witness :
  ∃ c0, step (start [refused_thread; request_thread; reset_thread]) c0 ∧
    ∀ c i, rtc step c0 c → threads c !! i ≠ Some [Unlock].
Proof.
  destruct (refused_origin_blocks_reset [request_thread; reset_thread]) as (c0 & H1 & _ & H3).
  - constructor; [by left|]. constructor; [by right; right|constructor].
  - exists c0. split; [exact H1|exact H3].
Defined.
End RWLock.

(** ** Access validation and the handshake ([validator], [plugin.go]) *)
Module WsPlugin.
Import HttpBase HttpRequest Origin RWLock.

Record AccessValidator := MkValidator { av_Header : Header; av_Status : Z; av_Body : bytes }.

(** The request that is sent to the worker: no body, no uploads, no cookies. *)
Definition validator_request (r : hreq) (attrs : Attributes.attrs) : Request :=
  MkRequest (FetchIP (r_RemoteAddr r)) (r_Proto r) (r_Method r) (URI r) (r_Header r) ∅
    (strip_newlines (r_RawQuery r)) false None attrs BNil.

Section plugin.
Context `{Unicode} `{Marshal}.

(** [attributes.Set], the encoding, and the deferred [delete] of the attribute. *)
Definition with_attribute (op key : string) (v : Attributes.attr) (r : hreq)
    : res bytes * Attributes.context :=
  match Attributes.Set_ (r_Context r) key v with
  | Ok ctx =>
      let answer := match marshal_request (validator_request r (Attributes.All ctx)) with
                    | inl b => Ok b
                    | inr e => Err (EOp op e)
                    end in
      (answer, (λ a, Attributes.del a key) <$> ctx)
  | Err e => (Err (EOp op e), r_Context r)
  | Panic => (Panic, r_Context r)
  end.

Definition ServerAccessValidator (r : hreq) : res bytes * Attributes.context :=
  with_attribute "server_access_validator" "ws:joinServer" (Attributes.ABool true) r.
Definition TopicsAccessValidator (r : hreq) (topics : list string) : res bytes * Attributes.context :=
  with_attribute "topic_access_validator" "ws:joinTopics" (Attributes.AStr (String.concat "," topics)) r.

(** A worker: its answer to a context, and what the JSON decoder finds in it. *)
Record php := MkPhp {
  php_exec : bytes → (bytes * bytes) + error;
  php_decode : bytes → (option Header * option Z) + error }.

(** Fields the answer does not have keep their zero value. *)
Definition exec (w : php) (ctx : bytes) : AccessValidator + error :=
  match php_exec w ctx with
  | inr e => inr (EOp "exec" e)
  | inl (rsp_ctx, rsp_body) =>
      match php_decode w rsp_ctx with
      | inr e => inr (EOp "exec" e)
      | inl (h, st) => inl (MkValidator (default ∅ h) (default 0%Z st) rsp_body)
      end
  end.

Definition with_ctx (c : Attributes.context) (r : hreq) : hreq :=
  MkHReq (r_Header r) (r_RemoteAddr r) (r_Proto r) (r_Method r) (r_URL r) (r_URLHost r) (r_RawQuery r)
    (r_TLS r) (r_Host r) (r_Cookies r) c (r_Body r) (r_ParseMultipart r) (r_Files r) (r_ParseForm r) (r_Form r).

(** The validator with the lock calls it makes.  The code returns a value together
    with an error when a topic is forbidden; only the error is looked at. *)
Definition accessValidator (w : php) (r : hreq) (topics : list string)
    : res AccessValidator * list lock_op :=
  let op := "access_validator" in
  let r := with_ctx (Attributes.Init (r_Context r)) r in
  match topics with
  | [] =>
      match (ServerAccessValidator r).1 with
      | Ok ctx => (match exec w ctx with inl v => Ok v | inr e => Err e end, exec_thread)
      | Err e => (Err (EOp op e), [])
      | Panic => (Panic, [])
      end
  | _ =>
      match (TopicsAccessValidator r topics).1 with
      | Ok ctx =>
          (match exec w ctx with
           | inl v => if (av_Status v =? 200)%Z then Ok v
                      else Err (EOp op (EErrorf "access forbidden, code: %d" [Itoa (av_Status v)]))
           | inr _ => Err (EOp op (EStr ""))
           end, exec_thread)
      | Err e => (Err (EOp op e), [])
      | Panic => (Panic, [])
      end
  end.

(** What the handshake ends in: the next handler, an answer, or an upgrade. *)
Inductive handshake := HNext | HAnswer (w : writer) | HPanic (w : writer) | HUpgrade.

Definition answer (code : Z) (w : writer) : handshake :=
  match WriteHeader code w with Ok w => HAnswer w | _ => HPanic w end.

Definition add_header (h : Header) (kv : string * list string) : Header :=
  foldl (λ h v, hdr_Add kv.1 v h) h kv.2.

Definition Middleware `{GoRange} (cfg : Config) (worker : php) (path : string) (r : hreq) (w : writer)
    : handshake * list lock_op :=
  if negb (String.eqb path (Path cfg)) then (HNext, [])
  else if negb (isOriginAllowed (hdr_Get "Origin" (r_Header r)) cfg) then (answer 405 w, [RLock])
  else
    let '(val, locks) := accessValidator worker r [] in
    match val with
    | Panic => (HPanic w, [RLock] ++ locks)
    | Err _ => (answer 400 w, [RLock] ++ locks ++ [RUnlock])
    | Ok val =>
        (if (av_Status val =? 200)%Z then HUpgrade
         else
           let w := with_header (foldl add_header (rw_header w) (range_map (av_Header val))) w in
           match WriteHeader (av_Status val) w with
           | Ok w => HAnswer (Write (av_Body val) w).1
           | _ => HPanic w
           end, [RLock] ++ locks ++ [RUnlock])
    end.

(** The worker lets a request in. *)
Definition admits (worker : php) (ctx : bytes) : Prop := ∃ v, exec worker ctx = inl v ∧ av_Status v = 200%Z.

(** The attributes middleware left on the request. *)
Definition attrs_of (r : hreq) : gmap string Attributes.attr :=
  match r_Context r with Some (Some m) => m | _ => ∅ end.

(** What the worker is asked when a client connects. *)
Definition join_request (r : hreq) : Request :=
  validator_request r (Some (<["ws:joinServer" := Attributes.ABool true]> (attrs_of r))).

Lemma accessValidator_server worker r :
  r_Context r ≠ Some None →
  accessValidator worker r [] =
    match marshal_request (join_request r) with
    | inl ctx => (match exec worker ctx with inl v => Ok v | inr e => Err e end, exec_thread)
    | inr e => (Err (EOp "access_validator" (EOp "server_access_validator" e)), [])
    end.
Proof.
  intros Hctx. unfold accessValidator, ServerAccessValidator, with_attribute, join_request, attrs_of.
  cbn [r_Context with_ctx]. destruct (r_Context r) as [[m|]|]; [|done|];
    cbn [Attributes.Init Attributes.Set_ Attributes.set mbind res_bind fst Attributes.All];
    match goal with |- context [validator_request (with_ctx ?c r)] =>
      change (validator_request (with_ctx c r)) with (validator_request r) end;
    by destruct (marshal_request _).
Qed.

(** A connection is upgraded only for the configured path, an allowed origin
    and a worker that answered 200 to the request marked with [ws:joinServer];
    such a handshake takes the read lock twice.  A refused origin takes it once
    and never releases it ([refused_origin_blocks_reset]). *)
Theorem upgrade_only_if_allowed `{GoRange} cfg worker path r w locks :
  r_Context r ≠ Some None →
  (Middleware cfg worker path r w = (HUpgrade, locks) ↔
     path = Path cfg ∧ isOriginAllowed (hdr_Get "Origin" (r_Header r)) cfg = true ∧ locks = request_thread ∧
     ∃ ctx, marshal_request (join_request r) = inl ctx ∧ admits worker ctx) ∧
  (path = Path cfg → isOriginAllowed (hdr_Get "Origin" (r_Header r)) cfg = false →
     (Middleware cfg worker path r w).2 = refused_thread).
Proof.
  intros Hctx. unfold Middleware. rewrite accessValidator_server by done.
  assert (Hans : ∀ c (l l' : list lock_op), (answer c w, l) = (HUpgrade, l') → False)
    by (intros c l l'; unfold answer; by destruct (WriteHeader c w)).
  split; [|intros -> Ho; by rewrite String.eqb_refl, Ho].
  destruct (String.eqb_spec path (Path cfg)) as [->|Hp]; cbn [negb].
  2: { split; [done|by intros (? & _)]. }
  destruct (isOriginAllowed _ cfg); cbn [negb].
  2: { split; [intros Hx; by destruct (Hans _ _ _ Hx)|by intros (_ & ? & _)]. }
  unfold admits. destruct (marshal_request (join_request r)) as [ctx|e].
  2: { split; [intros Hx; by destruct (Hans _ _ _ Hx)|by intros (_ & _ & _ & ? & ? & _)]. }
  destruct (exec worker ctx) as [v|e] eqn:Ee.
  2: { split; [intros Hx; by destruct (Hans _ _ _ Hx)|].
       intros (_ & _ & _ & c & [= <-] & v & Hv & _). congruence. }
  destruct (Z.eqb_spec (av_Status v) 200) as [Hs|Hs].
  - split; [intros [= <-]|intros (_ & _ & -> & _); done]. split_and!; try done. exists ctx. eauto.
  - split; [by destruct (WriteHeader _ _)|].
    intros (_ & _ & _ & c & [= <-] & v' & Hv & Hs'). congruence.
Qed.

(** Joining topics needs a worker that answers 200; a join without topics is asked
    like a new connection, and any status is accepted. *)
Lemma join_topics_status worker r t ts v locks :
  accessValidator worker r (t :: ts) = (Ok v, locks) → av_Status v = 200%Z.
Proof.
  unfold accessValidator. destruct (TopicsAccessValidator _ _).1 as [ctx| |]; [|done..].
  destruct (exec worker ctx) as [v'|]; [|done]. destruct (Z.eqb_spec (av_Status v') 200); [|done].
  by intros [= <- _].
Qed.
End plugin.

Definition ws_marshal : Marshal := {| marshal_request _ := inl "ctx"; marshal_body _ := inl "" |}.
Definition friendly : php := MkPhp (λ _, inl ("", "")) (λ _, inl (None, Some 200%Z)).

Lemma upgrade_only_if_allowed_witness :
  let r := MkHReq ∅ "" "" "GET" "/ws" "" "" false "" [] None ("", None) None ∅ None (HttpForm.HttpForm.MkForm None None) in
  Middleware (H := ascii_unicode) (H0 := ws_marshal) (Origin.MkConfig "/ws" "*" "b" [] [] true None) friendly "/ws" r new_writer
    = (HUpgrade, request_thread).
Proof.
  intros r. apply (upgrade_only_if_allowed (H := ascii_unicode) (H0 := ws_marshal)); [done|].
  split_and!; try done. exists "ctx". split; [done|]. by eexists.
Defined.
End WsPlugin.
