(* ===== verification/WsServe.v ===== *)
(** * The life of the websockets plugin ([http/middleware/websockets])

    [Serve] starts a goroutine that builds the workers' pool and the access
    validator, a goroutine that pumps messages from the pub/sub driver into a
    queue, and ten goroutines that take them out ([pool/workers_pool.go]); [Stop]
    ends them.  The goroutines interleave as steps of a transition system. *)

From stdpp Require Import base gmap strings list relations.
From Stdlib Require Import ZArith Ascii Lia.
From S2P Require Import Prelude GoStrings HttpBase HttpForm HttpRequest Websockets.
Import HttpBase HttpForm HttpRequest.

(** ** Writing to a connection ([connection/connection.go]) *)

Module WsConnection.

(** What the two writes of a message answer: the header and the data; [None]: the
    call panics, which happens on a closed connection. *)
Definition Write (header body : option (option error)) : option error :=
  match header with
  | None => None
  | Some (Some e) => Some (EOp "websocket_write" e)
  | Some None =>
      match body with
      | None => None
      | Some (Some e) => Some (EOp "websocket_write" e)
      | Some None => None
      end
  end.

Definition Close (close : option error) : option error := EOp "websocket_close" <$> close.
End WsConnection.

(** ** Payloads

    [exec] of the plugin takes the payload it sends to a worker from a pool and
    gives it back; concurrent calls share the pool. *)
Module WsPayload.

Record payload := MkPayload { Context : bytes; Body : bytes }.
Definition new_payload : payload := MkPayload "" "".

Definition putPld (pld : payload) (pool : list payload) : list payload := pool ++ [MkPayload "" ""].

(** [sync.Pool]: some object of the pool, or a new one, also when the pool is not
    empty; [None]: there is no such object. *)
Definition getPld (k : option nat) (pool : list payload) : option (payload * list payload) :=
  match k with
  | None => Some (new_payload, pool)
  | Some k => pld ← pool !! k; Some (pld, delete k pool)
  end.

(** The pool and the calls that wait for their worker, with what they were asked
    to send and what they send. *)
Record shared := MkShared { pool : list payload; calls : gmap nat (bytes * payload) }.

Definition begin_exec (i : nat) (k : option nat) (ctx : bytes) (s : shared) : option shared :=
  match calls s !! i with
  | Some _ => None
  | None => '(pd, l) ← getPld k (pool s); Some (MkShared l (<[i := (ctx, MkPayload ctx (Body pd))]> (calls s)))
  end.
Definition end_exec (i : nat) (s : shared) : option shared :=
  '(_, pd) ← calls s !! i; Some (MkShared (putPld pd (pool s)) (delete i (calls s))).

Inductive step : shared → shared → Prop :=
  | step_begin i k ctx s s' : begin_exec i k ctx s = Some s' → step s s'
  | step_end i s s' : end_exec i s = Some s' → step s s'.

(** Whatever calls run at the same time, the payload of each has its context and
    no body: nothing of an earlier call reaches a worker. *)
Theorem ws_payload_fresh s i ctx pd :
  rtc step (MkShared [] ∅) s → calls s !! i = Some (ctx, pd) → pd = MkPayload ctx "".
Proof.
  intros Hs. revert i ctx pd.
  assert (G : Forall (eq new_payload) (pool s) ∧ map_Forall (λ _ c, c.2 = MkPayload c.1 "") (calls s)).
  { apply (rtc_ind_r (R := step) (λ s, Forall (eq new_payload) (pool s) ∧ map_Forall (λ _ c, c.2 = MkPayload c.1 "") (calls s))
      (MkShared [] ∅)); [by split| |done].
    intros x y _ Hxy [Hp Hc]. destruct Hxy as [i k ctx x y Hb|i x y He].
    - unfold begin_exec in Hb. destruct (calls x !! i) eqn:Ei; [done|]. destruct k as [k|]; simpl in Hb.
      + destruct (pool x !! k) as [pd|] eqn:Ek; [|done]. simpl in Hb. injection Hb as <-.
        split; [by apply Forall_delete|]. apply map_Forall_insert_2; [|done]. simpl.
        by rewrite <- (Forall_lookup_1 _ _ _ _ Hp Ek).
      + injection Hb as <-. split; [done|]. by apply map_Forall_insert_2.
    - unfold end_exec in He. destruct (calls x !! i) as [[c pd]|] eqn:Ei; [|done]. simpl in He. injection He as <-.
      split; [apply Forall_app; by repeat constructor|by apply map_Forall_delete]. }
  intros i ctx pd Hi. apply (map_Forall_lookup_1 _ _ _ _ (proj2 G) Hi).
Qed.
End WsPayload.

Module WsServe.
Import WsPool.

(** ** Start *)

Record Plugin := MkPlugin { cfg : Origin.Config; reader : bool; validator : option WsPlugin.php }.

Section start.
Context `{Unicode} `{Marshal}.

Definition Init (has : string → bool) (unmarshal : string → res (option Origin.Config)) : res Plugin :=
  if negb (has "websockets") then Err (EOp "websockets_plugin_init" (EKind Disabled)) else
  match wrap_err "websockets_plugin_init" (unmarshal "websockets") with
  | Ok None => Panic
  | Ok (Some c) => c ← wrap_err "websockets_plugin_init" (Origin.InitDefault c); Ok (MkPlugin c false None)
  | Err e => Err e
  | Panic => Panic
  end.

(** The part of [Serve] before it returns. *)
Definition Serve (GetDriver : string → option error) (p : Plugin) : Plugin * option error :=
  match GetDriver (Origin.Broker (cfg p)) with
  | Some e => (p, Some (EOp "websockets_plugin_serve" e))
  | None => (MkPlugin (cfg p) true (validator p), None)
  end.

(** The goroutine that makes the pool, under the lock. *)
Definition make_pool (NewWorkerPool : WsPlugin.php + error) (p : Plugin) : Plugin * option error :=
  match NewWorkerPool with
  | inr e => (p, Some (EOp "websockets_plugin_serve" e))
  | inl w => (MkPlugin (cfg p) (reader p) (Some w), None)
  end.

(** A request; without a validator the call goes through a nil function. *)
Definition request `{GoRange} (path : string) (r : hreq) (w : writer) (p : Plugin)
    : WsPlugin.handshake * list RWLock.lock_op :=
  match validator p with
  | Some worker => WsPlugin.Middleware (cfg p) worker path r w
  | None =>
      if negb (String.eqb path (Origin.Path (cfg p))) then (WsPlugin.HNext, [])
      else if negb (Origin.isOriginAllowed (hdr_Get "Origin" (r_Header r)) (cfg p)) then (WsPlugin.answer 405 w, [RWLock.RLock])
      else (WsPlugin.HPanic w, [RWLock.RLock])
  end.

Definition Workers {S} (states : list (S + error)) : option (list S) :=
  mapM (λ s, match s with inl x => Some x | inr _ => None end) states.
Definition Reset (e : option error) : option error := EOp "ws_plugin_reset" <$> e.

(** A request for the path with an allowed origin that comes before the pool of
    workers is there, or after it could not be made, panics and keeps the read
    lock: the lock that should make it wait does not. *)
Theorem ws_early_request_panics `{GoRange} has unmarshal GetDriver p p' r w :
  Init has unmarshal = Ok p → Serve GetDriver p = (p', None) →
  Origin.isOriginAllowed (hdr_Get "Origin" (r_Header r)) (cfg p') = true →
  request (Origin.Path (cfg p')) r w p' = (WsPlugin.HPanic w, [RWLock.RLock]) ∧
  ∀ e, request (Origin.Path (cfg p')) r w (make_pool (inr e) p').1 = (WsPlugin.HPanic w, [RWLock.RLock]).
Proof.
  intros Hi Hs Ho. assert (Hv : validator p' = None).
  { unfold Init in Hi. destruct (negb _); [done|]. destruct (wrap_err _ (unmarshal "websockets")) as [[c|]|e|]; try done.
    destruct (wrap_err _ (Origin.InitDefault c)) as [c'|e|]; try done. injection Hi as <-.
    unfold Serve in Hs. destruct (GetDriver _); [done|]. by injection Hs as <-. }
  assert (G : request (Origin.Path (cfg p')) r w p' = (WsPlugin.HPanic w, [RWLock.RLock])).
  { unfold request. by rewrite Hv, String.eqb_refl, Ho. }
  split; [exact G|]. intros e. exact G.
Qed.
End start.

(** ** Delivery *)

(** A message, or nil, which the driver answers for a topic without subscribers. *)
Abbreviation data := (option Message).

Definition workersNum : nat := 10.
Definition queue_cap : nat := 100.

(** The pump asks the driver, waits for a place in the queue, or has ended. *)
Inductive pump := PNext | PQueue (m : data) | PGone.
Inductive worker := Idle | Busy (m : data) | WGone.

(** [stopping]: how many workers [Stop] has still to end; [got], [taken]: the
    messages the pump got and those workers took out, in order. *)
Record state := MkState {
  queue : list data; workers : list worker; pm : pump; stopping : option nat; cancelled : bool;
  got : list data; taken : list data }.

Definition NewWorkersPool : state := MkState [] (replicate workersNum Idle) PNext None false [] [].

Definition with_queue q s := MkState q (workers s) (pm s) (stopping s) (cancelled s) (got s) (taken s).
Definition with_workers l s := MkState (queue s) l (pm s) (stopping s) (cancelled s) (got s) (taken s).
Definition with_pump p s := MkState (queue s) (workers s) p (stopping s) (cancelled s) (got s) (taken s).

(** [Queue]: a full queue makes it wait. *)
Definition Queue (s : state) : option state :=
  match pm s with
  | PQueue m => if (length (queue s) <? queue_cap)%nat then Some (with_pump PNext (with_queue (queue s ++ [m]) s)) else None
  | _ => None
  end.

(** The answer of [Next]: a message, the end of the context or another error. *)
Definition next (r : data + error) (s : state) : option state :=
  match pm s, r with
  | PNext, inl m => Some (MkState (queue s) (workers s) (PQueue m) (stopping s) (cancelled s) (got s ++ [m]) (taken s))
  | PNext, inr _ => Some (with_pump PGone s)
  | _, _ => None
  end.

Definition take (i : nat) (s : state) : option state :=
  match workers s !! i, queue s with
  | Some Idle, m :: q => Some (MkState q (<[i := Busy m]> (workers s)) (pm s) (stopping s) (cancelled s) (got s) (taken s ++ [m]))
  | _, _ => None
  end.
Definition finish (i : nat) (s : state) : option state :=
  match workers s !! i with Some (Busy _) => Some (with_workers (<[i := Idle]> (workers s)) s) | _ => None end.

(** [Stop]: the pool first, one signal per worker, then the context. *)
Definition Stop (s : state) : option state :=
  match stopping s, cancelled s with
  | None, false => Some (MkState (queue s) (workers s) (pm s) (Some workersNum) false (got s) (taken s))
  | _, _ => None
  end.
Definition stop_one (i : nat) (s : state) : option state :=
  match stopping s, workers s !! i with
  | Some (S k), Some Idle => Some (MkState (queue s) (<[i := WGone]> (workers s)) (pm s) (Some k) (cancelled s) (got s) (taken s))
  | _, _ => None
  end.
Definition cancel (s : state) : option state :=
  match stopping s with
  | Some O => Some (MkState (queue s) (workers s) (pm s) None true (got s) (taken s))
  | _ => None
  end.

Inductive action := AQueue | ANext (r : data + error) | ATake (i : nat) | AFinish (i : nat) | AStop | AStopOne (i : nat) | ACancel.
Definition exec (a : action) : state → option state :=
  match a with
  | AQueue => Queue | ANext r => next r | ATake i => take i | AFinish i => finish i
  | AStop => Stop | AStopOne i => stop_one i | ACancel => cancel
  end.
Definition step (s s' : state) : Prop := ∃ a, exec a s = Some s'.

Definition waiting (s : state) : list data := match pm s with PQueue m => [m] | _ => [] end.

(** *** Order *)

Lemma step_order s s' : step s s' → got s = taken s ++ queue s ++ waiting s → got s' = taken s' ++ queue s' ++ waiting s'.
Proof.
  intros [a Ha] Hg. destruct a as [|r|i|i| |i|]; simpl in Ha.
  - unfold Queue in Ha. destruct (pm s) as [|m|] eqn:E; try done. destruct (_ <? _)%nat; [|done]. injection Ha as <-.
    unfold waiting in *. simpl. rewrite Hg, E. by rewrite app_nil_r.
  - unfold next in Ha. unfold waiting in *. destruct (pm s) as [|m1|] eqn:E, r as [m|e]; try done; injection Ha as <-; simpl.
    + rewrite Hg, app_nil_r. by rewrite <- (assoc_L (++)).
    + done.
  - unfold take in Ha. destruct (workers s !! i) as [[]|]; try done. destruct (queue s) as [|m q] eqn:E; [done|].
    injection Ha as <-. unfold waiting in *. simpl. rewrite Hg. by rewrite <- (assoc_L (++)).
  - unfold finish in Ha. destruct (workers s !! i) as [[]|]; try done. by injection Ha as <-.
  - unfold Stop in Ha. destruct (stopping s), (cancelled s); try done. by injection Ha as <-.
  - unfold stop_one in Ha. destruct (stopping s) as [[]|], (workers s !! i) as [[]|]; try done. by injection Ha as <-.
  - unfold cancel in Ha. destruct (stopping s) as [[]|]; try done. by injection Ha as <-.
Qed.

(** Every message the driver hands out is taken by exactly one worker, in the
    order of the driver, or still waits in the queue or before it, through
    every interleaving, the stop included. *)
Theorem ws_messages_in_order s :
  rtc step NewWorkersPool s → got s = taken s ++ queue s ++ waiting s.
Proof.
  intros Hs. assert (G : got NewWorkersPool = taken NewWorkersPool ++ queue NewWorkersPool ++ waiting NewWorkersPool) by done.
  induction Hs; eauto using step_order.
Qed.

(** *** Stop *)

Definition is_gone (w : worker) : bool := match w with WGone => true | _ => false end.
Definition gone (l : list worker) : nat := length (List.filter is_gone l).

Lemma gone_insert i w l x : l !! i = Some x → is_gone x = false →
  gone (<[i := w]> l) = gone l + (if is_gone w then 1 else 0).
Proof.
  unfold gone. revert i. induction l as [|y l IH]; intros i; [done|]. destruct i as [|i]; simpl.
  - intros [= ->] ->. destruct (is_gone w); simpl; lia.
  - intros Hi Hx. specialize (IH i Hi Hx). destruct (is_gone y); simpl; lia.
Qed.

(** Workers are ended one per signal. *)
Definition counted (s : state) : Prop :=
  length (workers s) = workersNum ∧
  match stopping s, cancelled s with
  | Some k, false => gone (workers s) + k = workersNum
  | None, false => gone (workers s) = 0
  | None, true => gone (workers s) = workersNum
  | Some _, true => False
  end.

Lemma step_counted s s' : step s s' → counted s → counted s'.
Proof.
  intros [a Ha] [Hl Hc]. destruct a as [|r|i|i| |i|]; simpl in Ha.
  - unfold Queue in Ha. destruct (pm s); try done. destruct (_ <? _)%nat; [|done]. by injection Ha as <-.
  - unfold next in Ha. by destruct (pm s), r; try done; injection Ha as <-.
  - unfold take in Ha. destruct (workers s !! i) as [[]|] eqn:E; try done. destruct (queue s); [done|]. injection Ha as <-.
    split; cbn [workers stopping cancelled]; [by rewrite length_insert|]. rewrite (gone_insert _ _ _ _ E) by done. by rewrite Nat.add_0_r.
  - unfold finish in Ha. destruct (workers s !! i) as [[]|] eqn:E; try done. injection Ha as <-.
    split; cbn [workers stopping cancelled with_workers]; [by rewrite length_insert|]. rewrite (gone_insert _ _ _ _ E) by done. by rewrite Nat.add_0_r.
  - unfold Stop in Ha. destruct (stopping s), (cancelled s); try done. injection Ha as <-. split; [done|]. simpl. by rewrite Hc.
  - unfold stop_one in Ha. destruct (stopping s) as [[|k]|], (workers s !! i) as [[]|] eqn:E; try done. injection Ha as <-.
    split; cbn [workers stopping cancelled]; [by rewrite length_insert|]. rewrite (gone_insert _ _ _ _ E) by done.
    destruct (cancelled s); simpl; [done|lia].
  - unfold cancel in Ha. destruct (stopping s) as [[]|]; try done. injection Ha as <-. split; [done|]. simpl.
    destruct (cancelled s); [done|lia].
Qed.

Lemma all_gone l i x : gone l = length l → l !! i = Some x → x = WGone.
Proof.
  unfold gone. revert i. induction l as [|y l IH]; intros i Hg; [done|]. simpl in Hg.
  pose proof (List.filter_length_le is_gone l). destruct i as [|i]; simpl; intros Hi.
  - injection Hi as ->. destruct x; simpl in Hg; try lia; done.
  - apply (IH i); [|done]. destruct (is_gone y); simpl in Hg; lia.
Qed.

(** When [Stop] has returned all workers have ended and no message is taken any
    more.  A pump that waits for a place in the full queue is never woken: the
    context it listens to is not looked at there. *)
Theorem ws_stop_strands_pump s s' m :
  rtc step NewWorkersPool s → cancelled s = true → pm s = PQueue m → length (queue s) = queue_cap → rtc step s s' →
  pm s' = PQueue m ∧ taken s' = taken s.
Proof.
  intros Hs Hc Hp Hq Hs'.
  assert (Hcount : counted s).
  { assert (G : counted NewWorkersPool) by done. clear -Hs G. induction Hs; eauto using step_counted. }
  assert (G : pm s' = PQueue m ∧ taken s' = taken s ∧ cancelled s' = true ∧ length (queue s') = queue_cap ∧ counted s');
    [|by destruct G as (? & ? & _)].
  clear Hs. induction Hs' as [s|s s1 s2 Hst Hs' IH]; [done|].
  enough (H1 : pm s1 = PQueue m ∧ taken s1 = taken s ∧ cancelled s1 = true ∧ length (queue s1) = queue_cap ∧ counted s1).
  { destruct H1 as (A1 & A2 & A3 & A4 & A5). destruct (IH A3 A1 A4 A5) as (B1 & B2 & B3). split; [done|]. split; [congruence|done]. }
  pose proof (step_counted _ _ Hst Hcount) as Hc1. destruct Hcount as [Hl Hg]. rewrite Hc in Hg.
  destruct (stopping s) eqn:Es; [done|].
  assert (Hall : ∀ i x, workers s !! i = Some x → x = WGone) by (intros i x; apply all_gone; congruence).
  destruct Hst as [a Ha]. destruct a as [|r|i|i| |i|]; simpl in Ha.
  - unfold Queue in Ha. rewrite Hp, Hq in Ha. done.
  - unfold next in Ha. by rewrite Hp in Ha.
  - unfold take in Ha. destruct (workers s !! i) as [w|] eqn:E; [|done]. by rewrite (Hall _ _ E) in Ha.
  - unfold finish in Ha. destruct (workers s !! i) as [w|] eqn:E; [|done]. by rewrite (Hall _ _ E) in Ha.
  - unfold Stop in Ha. by rewrite Es, Hc in Ha.
  - unfold stop_one in Ha. by rewrite Es in Ha.
  - unfold cancel in Ha. by rewrite Es in Ha.
Qed.

(** ** Examples *)

(** A list of actions, as a run. *)
Fixpoint run (l : list action) (s : state) : option state :=
  match l with [] => Some s | a :: l => s ← exec a s; run l s end.
Lemma run_rtc l s s' : run l s = Some s' → rtc step s s'.
Proof.
  revert s. induction l as [|a l IH]; intros s; simpl; [by intros [= ->]|].
  destruct (exec a s) as [s1|] eqn:E; [|done]. simpl. intros Hr. eapply rtc_l; [by exists a|]. by apply IH.
Qed.

Definition w_config : Origin.Config := Origin.MkConfig "/ws" "*" "b" [] [] false None.
Definition w_loaded : Origin.Config := Origin.MkConfig "/ws" "*" "b" [] [] true (Some (Origin.MkPool 2 60 60)).

Lemma ws_early_request_panics_witness :
  let r := MkHReq ∅ "" "" "GET" "/ws" "" "" false "" [] None ("", None) None ∅ None (HttpForm.MkForm None None) in
  request (H := ascii_unicode) (H0 := WsPlugin.ws_marshal) "/ws" r new_writer (MkPlugin w_loaded true None)
    = (WsPlugin.HPanic new_writer, [RWLock.RLock]).
Proof.
  intros r.
  apply (ws_early_request_panics (H := ascii_unicode) (H0 := WsPlugin.ws_marshal) (λ _, true) (λ _, Ok (Some w_config)) (λ _, None)
    (MkPlugin w_loaded false None) (MkPlugin w_loaded true None) r new_writer); vm_compute; reflexivity.
Defined.

Definition w_msg : data := Some (MkMessage "t" "x").
Definition w_fill : list action :=
  concat (replicate queue_cap [ANext (inl w_msg); AQueue]) ++ [ANext (inl w_msg); AStop] ++ (AStopOne <$> seq 0 workersNum) ++ [ACancel].
Definition w_stopped : state :=
  MkState (replicate queue_cap w_msg) (replicate workersNum WGone) (PQueue w_msg) None true (replicate (S queue_cap) w_msg) [].

Lemma w_run : run w_fill NewWorkersPool = Some w_stopped.
Proof. vm_compute. reflexivity. Qed.

Lemma ws_messages_in_order_witness : got w_stopped = taken w_stopped ++ queue w_stopped ++ waiting w_stopped.
Proof. apply ws_messages_in_order. exact (run_rtc _ _ _ w_run). Defined.

Lemma ws_stop_strands_pump_witness : pm w_stopped = PQueue w_msg ∧ taken w_stopped = [].
Proof.
  apply (ws_stop_strands_pump w_stopped w_stopped w_msg).
  - exact (run_rtc _ _ _ w_run).
  - reflexivity.
  - reflexivity.
  - reflexivity.
  - apply rtc_refl.
Defined.
End WsServe.
