(* ===== verification/BroadcastSystem.v ===== *)
(** * From a publish request to a websocket

    The memory pub/sub driver, the sessions of the websockets plugin, the
    goroutine that pumps messages and the ten workers that deliver them, put
    together: the broadcast plugin publishes into the driver that the websockets
    plugin got from it ([GetDriver]).  [exec] runs one action of one of them;
    their interleavings are the sequences of actions. *)

From stdpp Require Import base gmap strings list relations fin_sets.
From Stdlib Require Import ZArith Lia.
From S2P Require Import Prelude PubSub Websockets WsServe.

Module BroadcastSystem.

Section system.
Context `{BS : MemPubSub.Bst}.

(** The driver as the sessions call it; its calls do not fail. *)
#[export] Instance memory_subscriber : Executor.Subscriber MemPubSub.driver := {
  Subscribe c ts d := (MemPubSub.Subscribe c ts d, None);
  Unsubscribe c ts d := (MemPubSub.Unsubscribe c ts d, None);
  connections t d := MemPubSub.Connections t ∅ d }.

(** It keeps the contract of the sessions. *)
#[export] Instance memory_subscriber_laws {BL : MemPubSub.BstLaws} : Executor.SubscriberLaws MemPubSub.driver.
Proof.
  split; simpl; unfold MemPubSub.Connections.
  - intros c ts d d' e t [= <- <-]. split; [done|]. unfold MemPubSub.Subscribe. simpl. rewrite !(left_id_L ∅ (∪)).
    generalize (MemPubSub.storage d). induction ts as [|t0 ts IH]; intros st; simpl; [done|].
    rewrite IH, MemPubSub.Get_Insert. repeat case_decide; set_solver.
  - intros c ts d d' e t Hn Hin [= <- <-]. split; [done|]. unfold MemPubSub.Unsubscribe. simpl.
    rewrite !(left_id_L ∅ (∪)). setoid_rewrite (left_id_L ∅ (∪)) in Hin. revert Hin. generalize (MemPubSub.storage d).
    induction Hn as [|t0 ts Ht Hn IH]; intros st Hin; simpl; [done|].
    rewrite IH; [|intros t1 H1]; rewrite MemPubSub.Get_Remove by (apply Hin; by left); repeat case_decide; set_solver.
Qed.

(** A message of the driver as the workers see it. *)
Definition to_ws (m : MemPubSub.Message) : WsPool.Message :=
  WsPool.MkMessage (MemPubSub.Topic m) (MemPubSub.Payload m).

(** [sessions]: the open connections, [None] when the loop of one has ended with an
    error, which leaves it stored and subscribed; [reading]: workers that have looked up the
    connections of their message.  For the statements: [published] lists what
    the channel of the driver has taken, [number] says which of them a worker
    holds, and [sent] to which connections it was written. *)
Record state := MkState {
  drv : MemPubSub.driver; sessions : gmap string (option Executor.Executor); pool : WsServe.state;
  reading : gmap nat (gset string);
  published : list MemPubSub.Message; number : gmap nat nat; sent : gmap nat (list string) }.

Definition start : state := MkState MemPubSub.NewPubSubDriver ∅ WsServe.NewWorkersPool ∅ [] ∅ ∅.

Definition with_drv d s := MkState d (sessions s) (pool s) (reading s) (published s) (number s) (sent s).
Definition with_sessions m s := MkState (drv s) m (pool s) (reading s) (published s) (number s) (sent s).
Definition with_pool x s := MkState (drv s) (sessions s) x (reading s) (published s) (number s) (sent s).
Definition with_published l s := MkState (drv s) (sessions s) (pool s) (reading s) l (number s) (sent s).

Inductive action :=
  | APublish (m : MemPubSub.Message)                  (* the broadcast plugin *)
  | AAsync (m : MemPubSub.Message) | ASendAsync (k : nat)
  | AOpen (c : string) | ATurn (c : string) (ev : Executor.event)     (* a session *)
  | ANext | ANextDone | AQueue                         (* the pump *)
  | ATake (i : nat) | ALookup (i : nat)                (* the workers *)
  | AFinish (i : nat) (outcome_of : string → WsPool.outcome) (order : gset string → list string)
  | AStop | AStopOne (i : nat) | ACancel.

(** A turn of a session; only a close cleans up. *)
Definition session_turn (c : string) (ev : Executor.event) (s : state) : option state :=
  e ← mjoin (sessions s !! c);
  let '(e, d, _, r) := Executor.turn_of ev e (drv s) [] in
  match r with
  | Executor.TReturn None =>
      let '(_, d) := Executor.CleanUp e d in Some (with_sessions (delete c (sessions s)) (with_drv d s))
  | Executor.TReturn (Some _) => Some (with_sessions (<[c := None]> (sessions s)) (with_drv d s))
  | Executor.TContinue => Some (with_sessions (<[c := Some e]> (sessions s)) (with_drv d s))
  end.

(** A worker that holds nil or a message without a topic goes on at once. *)
Definition skipped (o : option WsPool.Message) : bool :=
  match o with None => true | Some m => String.eqb (WsPool.Topic m) "" end.

(** What a write to the connection [x] gives: [outcome_of] says so for a stored
    connection, one that is not stored is not found. *)
Definition outcome (s : state) (outcome_of : string → WsPool.outcome) (x : string) : WsPool.outcome :=
  match sessions s !! x with None => WsPool.ONotFound | Some _ => outcome_of x end.

Definition finish_one (i : nat) (outcome_of : string → WsPool.outcome) (order : gset string → list string)
    (s : state) : option state :=
  match WsServe.workers (pool s) !! i, number s !! i with
  | Some (WsServe.Busy o), Some n =>
      p ← WsServe.finish i (pool s);
      if skipped o || bool_decide (is_Some (reading s !! i)) then
        let res := default ∅ (reading s !! i) in
        Some (MkState (drv s) (sessions s) p (delete i (reading s)) (published s) (delete i (number s))
                (<[n := WsPool.do_message (outcome s outcome_of) (λ _, res) order o]> (sent s)))
      else None
  | _, _ => None
  end.

Definition exec (a : action) (s : state) : option state :=
  match a with
  | APublish m => d ← MemPubSub.Publish m (drv s); Some (with_published (published s ++ [m]) (with_drv d s))
  | AAsync m => Some (with_drv (MemPubSub.PublishAsync m (drv s)) s)
  | ASendAsync k =>
      m ← MemPubSub.pending (drv s) !! k;
      d ← MemPubSub.send_pending k (drv s); Some (with_published (published s ++ [m]) (with_drv d s))
  | AOpen c => match sessions s !! c with
               | Some _ => None
               | None => Some (with_sessions (<[c := Some (Executor.MkExecutor c ∅)]> (sessions s)) s)
               end
  | ATurn c ev => session_turn c ev s
  | ANext => match MemPubSub.Next false (drv s) with
             | Some (d, Ok o) => p ← WsServe.next (inl (to_ws <$> o)) (pool s); Some (with_pool p (with_drv d s))
             | _ => None
             end
  | ANextDone =>
      if WsServe.cancelled (pool s) then
        match MemPubSub.Next true (drv s) with
        | Some (d, Err e) => p ← WsServe.next (inr e) (pool s); Some (with_pool p (with_drv d s))
        | _ => None
        end
      else None
  | AQueue => p ← WsServe.Queue (pool s); Some (with_pool p s)
  | ATake i =>
      p ← WsServe.take i (pool s);
      Some (MkState (drv s) (sessions s) p (reading s) (published s)
              (<[i := length (WsServe.taken (pool s))]> (number s)) (sent s))
  | ALookup i =>
      match WsServe.workers (pool s) !! i, reading s !! i with
      | Some (WsServe.Busy (Some m)), None =>
          Some (MkState (drv s) (sessions s) (pool s)
                  (<[i := MemPubSub.Connections (WsPool.Topic m) ∅ (drv s)]> (reading s))
                  (published s) (number s) (sent s))
      | _, _ => None
      end
  | AFinish i outcome_of order => finish_one i outcome_of order s
  | AStop => p ← WsServe.Stop (pool s); Some (with_pool p s)
  | AStopOne i => p ← WsServe.stop_one i (pool s); Some (with_pool p s)
  | ACancel => p ← WsServe.cancel (pool s); Some (with_pool p s)
  end.

Definition step (s s' : state) : Prop := ∃ a, exec a s = Some s'.

(** Every action of the pool in the system is one of the pool alone. *)
Lemma exec_pool a s s' :
  exec a s = Some s' → pool s' = pool s ∨ WsServe.step (pool s) (pool s').
Proof.
  destruct a; simpl; intros He.
  - destruct (MemPubSub.Publish _ _); [|done]. injection He as <-. by left.
  - injection He as <-. by left.
  - destruct (_ !! k); [|done]. simpl in He. destruct (MemPubSub.send_pending _ _); [|done]. injection He as <-. by left.
  - destruct (sessions s !! c); [done|]. injection He as <-. by left.
  - unfold session_turn in He. destruct (mjoin (sessions s !! c)); [|done]. simpl in He.
    destruct (Executor.turn_of _ _ _ _) as [[[e' d'] o'] [|[r|]]]; injection He as <-; by left.
  - destruct (MemPubSub.Next _ _) as [[d [o|e|]]|]; try done. destruct (WsServe.next _ _) as [p|] eqn:E; [|done].
    injection He as <-. right. by exists (WsServe.ANext (inl (to_ws <$> o))).
  - destruct (WsServe.cancelled _); [|done]. destruct (MemPubSub.Next _ _) as [[d [o|e|]]|]; try done.
    destruct (WsServe.next _ _) as [p|] eqn:E; [|done]. injection He as <-. right. by exists (WsServe.ANext (inr e)).
  - destruct (WsServe.Queue _) as [p|] eqn:E; [|done]. injection He as <-. right. by exists WsServe.AQueue.
  - destruct (WsServe.take _ _) as [p|] eqn:E; [|done]. injection He as <-. right. by exists (WsServe.ATake i).
  - repeat (case_match; try done). injection He as <-. by left.
  - unfold finish_one in He. destruct (_ !! i) as [[|o|]|], (number s !! i) as [n|]; try done.
    destruct (WsServe.finish _ _) as [p|] eqn:E; [|done]. simpl in He. destruct (_ || _); [|done].
    injection He as <-. right. by exists (WsServe.AFinish i).
  - destruct (WsServe.Stop _) as [p|] eqn:E; [|done]. injection He as <-. right. by exists WsServe.AStop.
  - destruct (WsServe.stop_one _ _) as [p|] eqn:E; [|done]. injection He as <-. right. by exists (WsServe.AStopOne i).
  - destruct (WsServe.cancel _) as [p|] eqn:E; [|done]. injection He as <-. right. by exists WsServe.ACancel.
Qed.

Lemma reach_pool s s' : rtc step s s' → rtc WsServe.step (pool s) (pool s').
Proof.
  induction 1 as [s|s1 s2 s3 [a [Ha|Ha]%exec_pool] _ IH]; [done|by rewrite <- Ha|by eapply rtc_l].
Qed.

(** *** Who holds which message *)

(** Busy workers hold different messages, none of them sent; a message that was
    taken is with a worker or sent. *)
Record work (p : WsServe.state) (num : gmap nat nat) (snt : gmap nat (list string)) : Prop := MkWork {
  work_busy i o : WsServe.workers p !! i = Some (WsServe.Busy o) → is_Some (num !! i);
  work_number i n : num !! i = Some n →
    ∃ o, WsServe.workers p !! i = Some (WsServe.Busy o) ∧ WsServe.taken p !! n = Some o;
  work_unique i j n : num !! i = Some n → num !! j = Some n → i = j;
  work_fresh i n : num !! i = Some n → snt !! n = None;
  work_done n : (n < length (WsServe.taken p))%nat → is_Some (snt !! n) ∨ ∃ i, num !! i = Some n;
  work_sent n : is_Some (snt !! n) → (n < length (WsServe.taken p))%nat;
  work_pump : WsServe.pm p = WsServe.PGone → WsServe.cancelled p = true
}.

Lemma number_lt p num snt i n : work p num snt → num !! i = Some n → (n < length (WsServe.taken p))%nat.
Proof. intros Hw Hn. destruct (work_number _ _ _ Hw i n Hn) as (o & _ & Ht). by eapply lookup_lt_Some. Qed.

(** The pool changes neither its workers nor what they took. *)
Lemma work_same p p' num snt :
  work p num snt → WsServe.workers p' = WsServe.workers p → WsServe.taken p' = WsServe.taken p →
  (WsServe.pm p' = WsServe.PGone → WsServe.cancelled p' = true) → work p' num snt.
Proof. intros [] Hw Ht Hp. split; rewrite ?Hw, ?Ht; done. Qed.

Lemma work_take i p p' num snt :
  work p num snt → WsServe.take i p = Some p' → work p' (<[i := length (WsServe.taken p)]> num) snt.
Proof.
  intros Hw Ht. unfold WsServe.take in Ht.
  destruct (WsServe.workers p !! i) as [[]|] eqn:Ei; try done.
  destruct (WsServe.queue p) as [|m q] eqn:Eq; [done|]. injection Ht as <-.
  assert (Hi : num !! i = None).
  { destruct (num !! i) as [n|] eqn:E; [|done]. destruct (work_number _ _ _ Hw i n E) as (o & Ho & _). congruence. }
  assert (Hlt := λ j n, number_lt _ _ _ j n Hw).
  split; simpl.
  - intros j o Hj. destruct (decide (i = j)) as [<-|Hne]; [rewrite lookup_insert_eq; eauto|].
    rewrite lookup_insert_ne by done. rewrite list_lookup_insert_ne in Hj by done. by eapply work_busy.
  - intros j n [[<- <-]|[Hne Hj]]%lookup_insert_Some.
    + exists m. rewrite list_lookup_insert_eq by (by eapply lookup_lt_Some). split; [done|].
      by rewrite lookup_app_r, Nat.sub_diag.
    + destruct (work_number _ _ _ Hw j n Hj) as (o & Ho & Hn). exists o. rewrite list_lookup_insert_ne by done.
      split; [done|]. by apply lookup_app_l_Some.
  - intros j k n [[<- <-]|[Hne Hj]]%lookup_insert_Some [[<- Hk]|[Hne' Hk]]%lookup_insert_Some.
    + done.
    + apply Hlt in Hk. lia.
    + subst n. apply Hlt in Hj. lia.
    + by eapply work_unique.
  - intros j n [[<- <-]|[Hne Hj]]%lookup_insert_Some; [|by eapply work_fresh].
    apply eq_None_not_Some. intros Hs%(work_sent _ _ _ Hw). lia.
  - intros n. rewrite length_app. simpl. intros Hn. destruct (decide (n = length (WsServe.taken p))) as [->|Hne].
    + right. exists i. apply lookup_insert_eq.
    + destruct (work_done _ _ _ Hw n) as [?|[j Hj]]; [lia|by left|]. right. exists j.
      rewrite lookup_insert_ne; [done|]. intros <-. congruence.
  - intros n Hn%(work_sent _ _ _ Hw). rewrite length_app. simpl. lia.
  - apply (work_pump _ _ _ Hw).
Qed.

Lemma work_finish i n l p p' num snt :
  work p num snt → num !! i = Some n → WsServe.finish i p = Some p' → work p' (delete i num) (<[n := l]> snt).
Proof.
  intros Hw Hi Hf. pose proof (number_lt _ _ _ i n Hw Hi) as Hlt. unfold WsServe.finish in Hf.
  destruct (WsServe.workers p !! i) as [[]|] eqn:Ei; try done. injection Hf as <-. split; simpl.
  - intros j o Hj. destruct (decide (i = j)) as [<-|Hne].
    + rewrite list_lookup_insert_eq in Hj by (by eapply lookup_lt_Some). done.
    + rewrite lookup_delete_ne by done. rewrite list_lookup_insert_ne in Hj by done. by eapply work_busy.
  - intros j k [Hne Hj]%lookup_delete_Some. destruct (work_number _ _ _ Hw j k Hj) as (o & Ho & Hn). exists o.
    by rewrite list_lookup_insert_ne.
  - intros j k x [_ Hj]%lookup_delete_Some [_ Hk]%lookup_delete_Some. by eapply work_unique.
  - intros j k [Hne Hj]%lookup_delete_Some. rewrite lookup_insert_ne; [by eapply work_fresh|].
    intros <-. apply Hne. by eapply work_unique.
  - intros k Hk. destruct (decide (n = k)) as [<-|Hne]; [left; rewrite lookup_insert_eq; eauto|].
    rewrite lookup_insert_ne by done. destruct (work_done _ _ _ Hw k Hk) as [?|[j Hj]]; [by left|].
    right. exists j. rewrite lookup_delete_ne; [done|]. intros <-. congruence.
  - intros k. destruct (decide (n = k)) as [<-|Hne]; [done|]. rewrite lookup_insert_ne by done. apply (work_sent _ _ _ Hw).
  - apply (work_pump _ _ _ Hw).
Qed.

Lemma work_stop_one i p p' num snt : work p num snt → WsServe.stop_one i p = Some p' → work p' num snt.
Proof.
  intros Hw Hs. unfold WsServe.stop_one in Hs. destruct (WsServe.stopping p) as [[|k]|]; try done.
  destruct (WsServe.workers p !! i) as [[]|] eqn:Ei; try done. injection Hs as <-. split; simpl; try apply Hw.
  - intros j o Hj. destruct (decide (i = j)) as [<-|Hne].
    + rewrite list_lookup_insert_eq in Hj by (by eapply lookup_lt_Some). done.
    + rewrite list_lookup_insert_ne in Hj by done. by eapply work_busy.
  - intros j n Hj. destruct (work_number _ _ _ Hw j n Hj) as (o & Ho & Hn). exists o. split; [|done].
    rewrite list_lookup_insert_ne; [done|]. intros <-. congruence.
Qed.

(** A session changes the subscriptions of the driver and nothing else of it. *)
Definition same_channel (d d' : MemPubSub.driver) : Prop := MemPubSub.pushCh d' = MemPubSub.pushCh d.

Lemma unsubscribe_all_channel c l d : same_channel d (Executor.unsubscribe_all c l d).
Proof. unfold same_channel. revert d. induction l as [|t l IH]; intros d; [done|]. cbn [Executor.unsubscribe_all]. by rewrite IH. Qed.

Lemma turn_channel ev e d out : same_channel d (Executor.turn_of ev e d out).1.1.2.
Proof.
  unfold same_channel, Executor.turn_of, Executor.command, Executor.Set_, Executor.Leave.
  repeat (case_match; simplify_eq/=); done.
Qed.

Lemma session_turn_frame c ev s s' :
  session_turn c ev s = Some s' →
  same_channel (drv s) (drv s') ∧ pool s' = pool s ∧ reading s' = reading s ∧
  published s' = published s ∧ number s' = number s ∧ sent s' = sent s.
Proof.
  unfold session_turn. destruct (mjoin (sessions s !! c)) as [e|]; [|done]. simpl.
  pose proof (turn_channel ev e (drv s) []) as Hd.
  destruct (Executor.turn_of ev e (drv s) []) as [[[e' d'] o'] [|[r|]]]; simpl in Hd; intros [= <-]; split_and!; try done.
  simpl. unfold same_channel in *. by rewrite unsubscribe_all_channel.
Qed.

Definition inv (s : state) : Prop := work (pool s) (number s) (sent s).

Lemma exec_inv a s s' : exec a s = Some s' → inv s → inv s'.
Proof.
  unfold inv. destruct a; simpl; intros He Hw.
  - destruct (MemPubSub.Publish _ _); [|done]. by injection He as <-.
  - by injection He as <-.
  - destruct (_ !! k); [|done]. simpl in He. destruct (MemPubSub.send_pending _ _); [|done]. by injection He as <-.
  - destruct (sessions s !! c); [done|]. by injection He as <-.
  - by apply session_turn_frame in He as (_ & -> & _ & _ & -> & ->).
  - destruct (MemPubSub.Next _ _) as [[d [o|e|]]|]; try done. destruct (WsServe.next _ _) as [p|] eqn:E; [|done].
    injection He as <-. simpl. unfold WsServe.next in E. destruct (WsServe.pm (pool s)); try done. injection E as <-.
    by eapply work_same.
  - destruct (WsServe.cancelled _) eqn:Ec; [|done]. destruct (MemPubSub.Next _ _) as [[d [o|e|]]|]; try done.
    destruct (WsServe.next _ _) as [p|] eqn:E; [|done]. injection He as <-. simpl.
    unfold WsServe.next in E. destruct (WsServe.pm (pool s)); try done. injection E as <-. by eapply work_same.
  - destruct (WsServe.Queue _) as [p|] eqn:E; [|done]. injection He as <-. simpl.
    unfold WsServe.Queue in E. destruct (WsServe.pm (pool s)); try done. destruct (_ <? _)%nat; [|done]. injection E as <-.
    by eapply work_same.
  - destruct (WsServe.take _ _) as [p|] eqn:E; [|done]. injection He as <-. by eapply work_take.
  - repeat (case_match; try done). by injection He as <-.
  - unfold finish_one in He. destruct (_ !! i) as [[|o|]|], (number s !! i) as [n|] eqn:En; try done.
    destruct (WsServe.finish _ _) as [p|] eqn:E; [|done]. simpl in He. destruct (_ || _); [|done].
    injection He as <-. by eapply work_finish.
  - destruct (WsServe.Stop _) as [p|] eqn:E; [|done]. injection He as <-. simpl. unfold WsServe.Stop in E.
    destruct (WsServe.stopping (pool s)); [done|]. destruct (WsServe.cancelled (pool s)) eqn:Ec; [done|]. injection E as <-.
    eapply work_same; try done. simpl. intros Hp. pose proof (work_pump _ _ _ Hw Hp). congruence.
  - destruct (WsServe.stop_one _ _) as [p|] eqn:E; [|done]. injection He as <-. by eapply work_stop_one.
  - destruct (WsServe.cancel _) as [p|] eqn:E; [|done]. injection He as <-. simpl. unfold WsServe.cancel in E.
    destruct (WsServe.stopping _) as [[]|]; try done. injection E as <-. by eapply work_same.
Qed.

Lemma start_inv : inv start.
Proof.
  split; simpl; try done.
  - intros i o Hi. change (replicate WsServe.workersNum WsServe.Idle !! i = Some (WsServe.Busy o)) in Hi.
    apply lookup_replicate in Hi as [? _]. done.
  - intros n Hn. lia.
  - intros n [x Hx]. by rewrite lookup_empty in Hx.
Qed.

(** *** What was handed out *)

(** The pump has got the first published messages, nil in place of those without
    a subscriber at that time; the others are in the channel. *)
Definition handed (s : state) : Prop :=
  ∃ l, published s = l ++ MemPubSub.pushCh (drv s) ∧
    Forall2 (λ m o, o = None ∨ o = Some (to_ws m)) l (WsServe.got (pool s)).

Lemma Publish_channel m d d' : MemPubSub.Publish m d = Some d' → MemPubSub.pushCh d' = MemPubSub.pushCh d ++ [m].
Proof. unfold MemPubSub.Publish. destruct (_ <? _)%nat; [|done]. by intros [= <-]. Qed.

(** The pump is the only one that gets messages. *)
Lemma exec_got a s s' : exec a s = Some s' → a ≠ ANext → WsServe.got (pool s') = WsServe.got (pool s).
Proof.
  destruct a; simpl; intros He Hne; try done.
  - destruct (MemPubSub.Publish _ _); [|done]. by injection He as <-.
  - by injection He as <-.
  - destruct (_ !! k); [|done]. simpl in He. destruct (MemPubSub.send_pending _ _); [|done]. by injection He as <-.
  - destruct (sessions s !! c); [done|]. by injection He as <-.
  - by apply session_turn_frame in He as (_ & -> & _).
  - destruct (WsServe.cancelled _); [|done]. destruct (MemPubSub.Next _ _) as [[d [o|e|]]|]; try done.
    destruct (WsServe.next _ _) as [p|] eqn:E; [|done]. injection He as <-. simpl.
    unfold WsServe.next in E. destruct (WsServe.pm (pool s)); try done. by injection E as <-.
  - destruct (WsServe.Queue _) as [p|] eqn:E; [|done]. injection He as <-. simpl.
    unfold WsServe.Queue in E. destruct (WsServe.pm (pool s)); try done. destruct (_ <? _)%nat; [|done]. by injection E as <-.
  - destruct (WsServe.take _ _) as [p|] eqn:E; [|done]. injection He as <-. simpl. unfold WsServe.take in E.
    by repeat (case_match; try done); injection E as <-.
  - repeat (case_match; try done). by injection He as <-.
  - unfold finish_one in He. destruct (_ !! i) as [[|o|]|], (number s !! i) as [n|] eqn:En; try done.
    destruct (WsServe.finish _ _) as [p|] eqn:E; [|done]. simpl in He. destruct (_ || _); [|done].
    injection He as <-. simpl. unfold WsServe.finish in E. by repeat (case_match; try done); injection E as <-.
  - destruct (WsServe.Stop _) as [p|] eqn:E; [|done]. injection He as <-. simpl. unfold WsServe.Stop in E.
    by repeat (case_match; try done); injection E as <-.
  - destruct (WsServe.stop_one _ _) as [p|] eqn:E; [|done]. injection He as <-. simpl. unfold WsServe.stop_one in E.
    by repeat (case_match; try done); injection E as <-.
  - destruct (WsServe.cancel _) as [p|] eqn:E; [|done]. injection He as <-. simpl. unfold WsServe.cancel in E.
    by repeat (case_match; try done); injection E as <-.
Qed.

(** Publishing actions add their message, the others leave the channel and what
    was published alone. *)
Definition adds (a : action) (s : state) : list MemPubSub.Message :=
  match a with
  | APublish m => [m]
  | ASendAsync k => option_list (MemPubSub.pending (drv s) !! k)
  | _ => []
  end.

Lemma exec_published a s s' :
  exec a s = Some s' → published s' = published s ++ adds a s ∧
  (a ≠ ANext → MemPubSub.pushCh (drv s') = MemPubSub.pushCh (drv s) ++ adds a s).
Proof.
  destruct a; simpl; intros He; rewrite ?app_nil_r.
  - destruct (MemPubSub.Publish _ _) eqn:E; [|done]. injection He as <-. split; [done|]. intros _. by apply Publish_channel.
  - by injection He as <-.
  - destruct (_ !! k) as [m|] eqn:Em; [|done]. simpl in He. unfold MemPubSub.send_pending in He. rewrite Em in He.
    simpl in He. destruct (MemPubSub.Publish _ _) eqn:E; [|done]. injection He as <-. split; [done|].
    intros _. by apply Publish_channel in E.
  - destruct (sessions s !! c); [done|]. by injection He as <-.
  - apply session_turn_frame in He as (Hd & _ & _ & -> & _). done.
  - destruct (MemPubSub.Next _ _) as [[d [o|e|]]|]; try done. destruct (WsServe.next _ _) as [p|] eqn:E; [|done].
    by injection He as <-.
  - destruct (WsServe.cancelled _); [|done]. destruct (MemPubSub.Next _ _) as [[d [o|e|]]|] eqn:En; try done.
    destruct (WsServe.next _ _) as [p|] eqn:E; [|done]. injection He as <-. split; [done|]. intros _. simpl.
    assert (d = drv s) as -> by (unfold MemPubSub.Next in En; destruct (MemPubSub.pushCh (drv s)); congruence). done.
  - destruct (WsServe.Queue _) as [p|] eqn:E; [|done]. by injection He as <-.
  - destruct (WsServe.take _ _) as [p|] eqn:E; [|done]. by injection He as <-.
  - repeat (case_match; try done). by injection He as <-.
  - unfold finish_one in He. destruct (_ !! i) as [[|o|]|], (number s !! i) as [n|] eqn:En; try done.
    destruct (WsServe.finish _ _) as [p|] eqn:E; [|done]. simpl in He. destruct (_ || _); [|done]. by injection He as <-.
  - destruct (WsServe.Stop _) as [p|] eqn:E; [|done]. by injection He as <-.
  - destruct (WsServe.stop_one _ _) as [p|] eqn:E; [|done]. by injection He as <-.
  - destruct (WsServe.cancel _) as [p|] eqn:E; [|done]. by injection He as <-.
Qed.

(** [Next] hands out the oldest message, or nil without a subscriber. *)
Lemma next_spec s s' :
  exec ANext s = Some s' → ∃ m l, MemPubSub.pushCh (drv s) = m :: l ∧ MemPubSub.pushCh (drv s') = l ∧
    let o := if MemPubSub.Contains (MemPubSub.Topic m) (MemPubSub.storage (drv s)) then Some (to_ws m) else None in
    WsServe.pm (pool s) = WsServe.PNext ∧
    pool s' = WsServe.MkState (WsServe.queue (pool s)) (WsServe.workers (pool s)) (WsServe.PQueue o)
      (WsServe.stopping (pool s)) (WsServe.cancelled (pool s)) (WsServe.got (pool s) ++ [o]) (WsServe.taken (pool s)).
Proof.
  simpl. destruct (MemPubSub.Next false (drv s)) as [[d [o|e|]]|] eqn:En; try done.
  destruct (WsServe.next _ _) as [p|] eqn:E; [|done]. intros [= <-]. unfold MemPubSub.Next in En.
  destruct (MemPubSub.pushCh (drv s)) as [|m l] eqn:Ech; [done|]. injection En as <- <-. exists m, l.
  unfold WsServe.next in E. destruct (WsServe.pm (pool s)); try done. injection E as <-. split_and!; try done.
  simpl. by destruct (MemPubSub.Contains _ _).
Qed.

Lemma exec_handed a s s' : exec a s = Some s' → handed s → handed s'.
Proof.
  intros He Hh. destruct (exec_published _ _ _ He) as [Hp Hc].
  assert (a = ANext ∨ a ≠ ANext) as [->|Hne] by (destruct a; auto; by right).
  - destruct Hh as (l & Hl & Hf). destruct (next_spec _ _ He) as (m & ch & H1 & H2 & _ & H3).
    exists (l ++ [m]). rewrite Hp, H2, H3, Hl, H1. simpl. rewrite app_nil_r, <- app_assoc. split; [done|].
    apply Forall2_app; [done|]. constructor; [|done]. simpl. destruct (MemPubSub.Contains _ _); auto.
  - destruct Hh as (l & Hl & Hf). exists l. rewrite Hp, Hc, (exec_got _ _ _ He) by done. by rewrite Hl, app_assoc.
Qed.

(** *** What an action does to the workers' books *)

Inductive effect (s : state) (a : action) (s' : state) : Prop :=
  | EffNone : reading s' = reading s → number s' = number s → sent s' = sent s →
      WsServe.taken (pool s') = WsServe.taken (pool s) → effect s a s'
  | EffTake i : a = ATake i → WsServe.workers (pool s) !! i = Some WsServe.Idle →
      reading s' = reading s → number s' = <[i := length (WsServe.taken (pool s))]> (number s) → sent s' = sent s →
      effect s a s'
  | EffLookup i m : a = ALookup i → WsServe.workers (pool s) !! i = Some (WsServe.Busy (Some m)) → reading s !! i = None →
      reading s' = <[i := MemPubSub.Get (WsPool.Topic m) (MemPubSub.storage (drv s))]> (reading s) →
      number s' = number s → sent s' = sent s → WsServe.taken (pool s') = WsServe.taken (pool s) → effect s a s'
  | EffFinish i n o f order : a = AFinish i f order → WsServe.workers (pool s) !! i = Some (WsServe.Busy o) →
      number s !! i = Some n → skipped o = true ∨ is_Some (reading s !! i) →
      reading s' = delete i (reading s) → number s' = delete i (number s) →
      sent s' = <[n := WsPool.do_message (outcome s f) (λ _, default ∅ (reading s !! i)) order o]> (sent s) →
      WsServe.taken (pool s') = WsServe.taken (pool s) → effect s a s'.

Lemma exec_effect a s s' : exec a s = Some s' → effect s a s'.
Proof.
  destruct a; simpl; intros He.
  - destruct (MemPubSub.Publish _ _); [|done]. injection He as <-. by apply EffNone.
  - injection He as <-. by apply EffNone.
  - destruct (_ !! k); [|done]. simpl in He. destruct (MemPubSub.send_pending _ _); [|done]. injection He as <-. by apply EffNone.
  - destruct (sessions s !! c); [done|]. injection He as <-. by apply EffNone.
  - apply session_turn_frame in He as (_ & Hp & Hr & _ & Hn & Hs). apply EffNone; [done..|]. by rewrite Hp.
  - destruct (MemPubSub.Next _ _) as [[d [o|e|]]|]; try done. destruct (WsServe.next _ _) as [p|] eqn:E; [|done].
    injection He as <-. apply EffNone; try done. simpl. unfold WsServe.next in E.
    destruct (WsServe.pm (pool s)); try done. by injection E as <-.
  - destruct (WsServe.cancelled _); [|done]. destruct (MemPubSub.Next _ _) as [[d [o|e|]]|]; try done.
    destruct (WsServe.next _ _) as [p|] eqn:E; [|done]. injection He as <-. apply EffNone; try done. simpl.
    unfold WsServe.next in E. destruct (WsServe.pm (pool s)); try done. by injection E as <-.
  - destruct (WsServe.Queue _) as [p|] eqn:E; [|done]. injection He as <-. apply EffNone; try done. simpl.
    unfold WsServe.Queue in E. destruct (WsServe.pm (pool s)); try done. destruct (_ <? _)%nat; [|done]. by injection E as <-.
  - destruct (WsServe.take _ _) as [p|] eqn:E; [|done]. injection He as <-. unfold WsServe.take in E.
    destruct (WsServe.workers (pool s) !! i) as [[]|] eqn:Ei; try done. by eapply EffTake.
  - destruct (WsServe.workers (pool s) !! i) as [[|[m|]|]|] eqn:Ei; try done.
    destruct (reading s !! i) eqn:Er; [done|]. injection He as <-. eapply EffLookup; try done. simpl.
    unfold MemPubSub.Connections. by rewrite (left_id_L ∅ (∪)).
  - unfold finish_one in He. destruct (_ !! i) as [[|o|]|] eqn:Ei, (number s !! i) as [n|] eqn:En; try done.
    destruct (WsServe.finish _ _) as [p|] eqn:E; [|done]. simpl in He. destruct (_ || _) eqn:Eb; [|done].
    injection He as <-. eapply EffFinish; try done; simpl.
    + apply orb_true_iff in Eb as [?|?%bool_decide_eq_true]; auto.
    + unfold WsServe.finish in E. rewrite Ei in E. by injection E as <-.
  - destruct (WsServe.Stop _) as [p|] eqn:E; [|done]. injection He as <-. apply EffNone; try done. simpl.
    unfold WsServe.Stop in E. by repeat (case_match; try done); injection E as <-.
  - destruct (WsServe.stop_one _ _) as [p|] eqn:E; [|done]. injection He as <-. apply EffNone; try done. simpl.
    unfold WsServe.stop_one in E. by repeat (case_match; try done); injection E as <-.
  - destruct (WsServe.cancel _) as [p|] eqn:E; [|done]. injection He as <-. apply EffNone; try done. simpl.
    unfold WsServe.cancel in E. by repeat (case_match; try done); injection E as <-.
Qed.

(** A worker that reads connections holds a message. *)
Definition reads (s : state) : Prop := ∀ i, is_Some (reading s !! i) → is_Some (number s !! i).

Lemma exec_reads a s s' : exec a s = Some s' → inv s → reads s → reads s'.
Proof.
  intros He Hi Hr j. unfold reads in Hr.
  destruct (exec_effect _ _ _ He) as [-> -> _ _|i _ _ -> -> _|i m _ Hb _ -> -> _ _|i n o f order _ _ _ _ -> -> _ _].
  - apply Hr.
  - intros [x Hx]%Hr. destruct (decide (i = j)) as [<-|Hne]; [rewrite lookup_insert_eq; eauto|].
    rewrite lookup_insert_ne by done. eauto.
  - destruct (decide (i = j)) as [<-|Hne]; [intros _; by eapply work_busy|]. rewrite lookup_insert_ne by done. apply Hr.
  - destruct (decide (i = j)) as [<-|Hne]; [rewrite lookup_delete_eq; by intros [? ?]|]. rewrite !lookup_delete_ne by done. apply Hr.
Qed.

Record good (s : state) : Prop := MkGood {
  good_inv : inv s; good_handed : handed s; good_reads : reads s;
  good_order : WsServe.got (pool s) = WsServe.taken (pool s) ++ WsServe.queue (pool s) ++ WsServe.waiting (pool s);
  good_counted : WsServe.counted (pool s)
}.

Lemma exec_good a s s' : exec a s = Some s' → good s → good s'.
Proof.
  intros He []. split; [by eapply exec_inv|by eapply exec_handed|by eapply exec_reads|..];
    destruct (exec_pool _ _ _ He) as [->|Hs]; try done; [by apply WsServe.step_order in Hs|by apply WsServe.step_counted in Hs].
Qed.

Lemma reach_good s s' : rtc step s s' → good s → good s'.
Proof. induction 1 as [|s1 s2 s3 [a Ha] _ IH]; [done|]. intros Hg. by apply IH, (exec_good a s1). Qed.

Lemma start_good : good start.
Proof.
  split; try done; [apply start_inv| |].
  - by exists [].
  - intros i [x Hx]. simpl in Hx. by rewrite lookup_empty in Hx.
Qed.
(** *** A message on its way *)

(** The worker that writes message [n] visits the map of its connections in some
    order, and the writes to [c] and to those it visits before [c] succeed. *)
Definition reliable (n : nat) (c : string) (s : state) (a : action) : Prop :=
  match a with
  | AFinish i f order => number s !! i = Some n → ∀ S, reading s !! i = Some S → c ∈ S →
      order S ≡ₚ elements S ∧ ∃ pre post, order S = pre ++ c :: post ∧
        Forall (λ x, outcome s f x = WsPool.OSent) (pre ++ [c])
  | _ => True
  end.

(** The message that was published as number [n] has not been lost for [c]. *)
Record watch (n : nat) (m : MemPubSub.Message) (c : string) (s : state) : Prop := MkWatch {
  watch_published : published s !! n = Some m;
  watch_got : (n < length (WsServe.got (pool s)))%nat → WsServe.got (pool s) !! n = Some (Some (to_ws m));
  watch_reading i S : number s !! i = Some n → reading s !! i = Some S → c ∈ S;
  watch_sent l : sent s !! n = Some l → c ∈ l ∧ NoDup l
}.

Section watch.
Context {BL : MemPubSub.BstLaws} (n : nat) (m : MemPubSub.Message) (c : string).
Hypothesis Htopic : MemPubSub.Topic m ≠ "".

(** The pump does not skip a message with a subscriber. *)
Lemma next_watch s s' :
  exec ANext s = Some s' → good s → published s !! n = Some m → c ∈ MemPubSub.Get (MemPubSub.Topic m) (MemPubSub.storage (drv s)) →
  ((n < length (WsServe.got (pool s)))%nat → WsServe.got (pool s) !! n = Some (Some (to_ws m))) →
  (n < length (WsServe.got (pool s')))%nat → WsServe.got (pool s') !! n = Some (Some (to_ws m)).
Proof.
  intros He Hg Hp Hc Hw. destruct (good_handed _ Hg) as (l & Hl & Hf). apply Forall2_length in Hf.
  destruct (next_spec _ _ He) as (m' & ch & Hch & _ & _ & ->). simpl. rewrite length_app. simpl. intros Hn.
  destruct (decide (n < length (WsServe.got (pool s)))%nat) as [Hlt|Hge].
  { rewrite lookup_app_l by done. by apply Hw. }
  assert (Hx : n = length l) by lia. rewrite lookup_app_r by lia. rewrite Hl, Hch, lookup_app_r, Hx, Nat.sub_diag in Hp by lia.
  injection Hp as ->. replace (n - length (WsServe.got (pool s)))%nat with 0%nat by lia. simpl.
  rewrite (proj2 (MemPubSub.Contains_Get _ _)); [done|]. intros He'. rewrite He' in Hc. by apply not_elem_of_empty in Hc.
Qed.

Lemma exec_got_watch a s s' :
  exec a s = Some s' → good s → watch n m c s → c ∈ MemPubSub.Get (MemPubSub.Topic m) (MemPubSub.storage (drv s)) →
  (n < length (WsServe.got (pool s')))%nat → WsServe.got (pool s') !! n = Some (Some (to_ws m)).
Proof.
  intros He Hg [Hp Hgot _ _] Hc. assert (a = ANext ∨ a ≠ ANext) as [->|Hne] by (destruct a; auto; by right).
  - by eapply next_watch.
  - rewrite (exec_got _ _ _ He Hne). done.
Qed.

(** A worker that holds the message holds it whole. *)
Lemma watch_held s i o :
  good s → watch n m c s → number s !! i = Some n → WsServe.workers (pool s) !! i = Some (WsServe.Busy o) → o = Some (to_ws m).
Proof.
  intros Hg Hw Hi Ho. destruct (work_number _ _ _ (good_inv _ Hg) i n Hi) as (o' & Ho' & Ht).
  assert (o' = o) as -> by congruence. assert (Hgot : WsServe.got (pool s) !! n = Some o).
  { rewrite (good_order _ Hg). by apply lookup_app_l_Some. }
  rewrite (watch_got _ _ _ _ Hw) in Hgot by (by eapply lookup_lt_Some). congruence.
Qed.

Lemma send_all_prefix f l : WsPool.send_all f l `prefix_of` l.
Proof.
  induction l as [|x l IH]; simpl; [done|]. destruct (f x); try apply prefix_nil. by apply prefix_cons.
Qed.

Lemma send_all_upto f pre post :
  Forall (λ x, f x = WsPool.OSent) (pre ++ [c]) → c ∈ WsPool.send_all f (pre ++ c :: post).
Proof.
  induction pre as [|x pre IH]; simpl; intros [Hx Hf]%Forall_cons; rewrite Hx; [by left|]. right. by apply IH.
Qed.

Lemma do_message_upto f order S pre post :
  order S ≡ₚ elements S → order S = pre ++ c :: post → Forall (λ x, f x = WsPool.OSent) (pre ++ [c]) → c ∈ S →
  c ∈ WsPool.do_message f (λ _, S) order (Some (to_ws m)) ∧ NoDup (WsPool.do_message f (λ _, S) order (Some (to_ws m))).
Proof.
  intros Hp Ho Hf Hc. unfold WsPool.do_message. simpl. rewrite (proj2 (String.eqb_neq _ _) Htopic).
  rewrite bool_decide_eq_false_2 by set_solver. split; [rewrite Ho; by apply send_all_upto|].
  destruct (send_all_prefix f (order S)) as [k Hk]. assert (Hn : NoDup (order S)) by (rewrite Hp; apply NoDup_elements).
  rewrite Hk in Hn. by apply NoDup_app in Hn as [? _].
Qed.

Lemma exec_watch a s s' :
  exec a s = Some s' → reliable n c s a → good s → watch n m c s →
  c ∈ MemPubSub.Get (MemPubSub.Topic m) (MemPubSub.storage (drv s)) → watch n m c s'.
Proof.
  intros He Hrel Hg Hw Hc. pose proof (exec_got_watch _ _ _ He Hg Hw Hc) as Hgot.
  assert (Hpub : published s' !! n = Some m).
  { rewrite (proj1 (exec_published _ _ _ He)). apply lookup_app_l_Some, Hw. }
  destruct (exec_effect _ _ _ He) as [Hr Hn Hs _|i _ Hidle Hr Hn Hs|i o _ Hb _ Hr Hn Hs _|i k o f order -> Hb Hk Hsk Hr Hn Hs _].
  - split; rewrite ?Hr, ?Hn, ?Hs; try done; apply Hw.
  - split; rewrite ?Hr, ?Hn, ?Hs; try done; [|apply Hw]. intros j S [[<- _]|[Hne Hj]]%lookup_insert_Some Hj'; [|by eapply Hw].
    exfalso. destruct (good_reads _ Hg i (mk_is_Some _ _ Hj')) as [k Hk].
    destruct (work_number _ _ _ (good_inv _ Hg) i k Hk) as (x & Hx & _). congruence.
  - split; rewrite ?Hr, ?Hn, ?Hs; try done; [|apply Hw].
    intros j S Hj [[<- <-]|[Hne Hj']]%lookup_insert_Some; [|by eapply Hw].
    pose proof (watch_held _ _ _ Hg Hw Hj Hb) as [= ->]. done.
  - split; rewrite ?Hr, ?Hn, ?Hs; try done.
    + intros j S [_ Hj]%lookup_delete_Some [_ Hj']%lookup_delete_Some. by eapply Hw.
    + intros l [[-> <-]|[Hne Hl]]%lookup_insert_Some; [|by eapply Hw].
      pose proof (watch_held _ _ _ Hg Hw Hk Hb) as ->.
      destruct Hsk as [Hsk|[S HS]].
      { simpl in Hsk. by apply String.eqb_eq in Hsk. }
      assert (HcS : c ∈ S) by (by eapply Hw).
      destruct (Hrel Hk S HS HcS) as (Hp & pre & post & Ho & Hf). rewrite HS. simpl. by eapply do_message_upto.
Qed.
End watch.

(** *** Progress *)

(** The pump and the workers at work; the writes of message [n] to [c] and to the
    connections visited before succeed, any other write may fail. *)
Definition internal_action (a : action) : Prop :=
  match a with ANext | AQueue | ATake _ | ALookup _ | AFinish _ _ _ => True | _ => False end.
Definition internal (n : nat) (c : string) (s s' : state) : Prop :=
  ∃ a, internal_action a ∧ reliable n c s a ∧ exec a s = Some s'.

Definition running (s : state) : Prop := WsServe.stopping (pool s) = None ∧ WsServe.cancelled (pool s) = false.

Definition measure (s : state) : nat :=
  (6 * length (MemPubSub.pushCh (drv s)) + 5 * length (WsServe.waiting (pool s)) + 4 * length (WsServe.queue (pool s))
   + 3 * size (number s) - size (reading s))%nat.

Lemma reads_size s : reads s → (size (reading s) ≤ size (number s))%nat.
Proof.
  intros Hr. rewrite <- !size_dom. apply subseteq_size. intros i Hi. apply elem_of_dom, Hr, elem_of_dom, Hi.
Qed.

(** Sessions and publishers aside, nothing else of the system changes. *)
Lemma internal_frame n c s s' :
  internal n c s s' → sessions s' = sessions s ∧
  MemPubSub.storage (drv s') = MemPubSub.storage (drv s) ∧ published s' = published s ∧
  WsServe.stopping (pool s') = WsServe.stopping (pool s) ∧ WsServe.cancelled (pool s') = WsServe.cancelled (pool s).
Proof.
  intros (a & Hi & _ & He). assert (Hpub : published s' = published s).
  { rewrite (proj1 (exec_published _ _ _ He)). destruct a; simpl; rewrite ?app_nil_r; done. }
  split.
  { destruct a; try done; simpl in He; unfold finish_one in He;
      repeat (case_match; simplify_option_eq; try done); by simplify_option_eq. }
  split; [|split; [exact Hpub|]]; destruct a as [| | | | | | | |i|i|i f order| | |]; try done.
  1,6: destruct (next_spec _ _ He) as (m & l & _ & _ & _ & Hp).
  2: by rewrite Hp.
  all: simpl in He.
  - destruct (MemPubSub.Next false (drv s)) as [[d [o|e|]]|] eqn:En; try done. destruct (WsServe.next _ _); [|done].
    injection He as <-. unfold MemPubSub.Next in En. destruct (MemPubSub.pushCh (drv s)); [done|]. by injection En as <- _.
  - destruct (WsServe.Queue _); [|done]. by injection He as <-.
  - destruct (WsServe.take _ _); [|done]. by injection He as <-.
  - repeat (case_match; try done). by injection He as <-.
  - unfold finish_one in He. destruct (_ !! i) as [[|o|]|], (number s !! i) as [k|]; try done.
    destruct (WsServe.finish _ _) as [p|]; [|done]. simpl in He. destruct (_ || _); [|done]. by injection He as <-.
  - destruct (WsServe.Queue _) as [p|] eqn:E; [|done]. injection He as <-. unfold WsServe.Queue in E.
    destruct (WsServe.pm (pool s)); try done. destruct (_ <? _)%nat; [|done]. by injection E as <-.
  - destruct (WsServe.take _ _) as [p|] eqn:E; [|done]. injection He as <-. unfold WsServe.take in E.
    by repeat (case_match; try done); injection E as <-.
  - repeat (case_match; try done). by injection He as <-.
  - unfold finish_one in He. destruct (_ !! i) as [[|o|]|] eqn:Ei, (number s !! i) as [k|]; try done.
    destruct (WsServe.finish _ _) as [p|] eqn:E; [|done]. simpl in He. destruct (_ || _); [|done]. injection He as <-.
    unfold WsServe.finish in E. rewrite Ei in E. by injection E as <-.
Qed.

Lemma internal_good n c s s' : internal n c s s' → good s → good s'.
Proof. intros (a & _ & _ & He). by eapply exec_good. Qed.

Lemma internal_running n c s s' : internal n c s s' → running s → running s'.
Proof. intros (_ & _ & _ & H1 & H2)%internal_frame [? ?]. split; congruence. Qed.

Lemma internal_measure n c s s' : internal n c s s' → good s → (measure s' < measure s)%nat.
Proof.
  intros Hint Hg. pose proof (reads_size _ (good_reads _ Hg)) as Hle.
  pose proof (reads_size _ (good_reads _ (internal_good _ _ _ _ Hint Hg))) as Hle'. unfold measure.
  destruct Hint as (a & Hi & _ & He). destruct a as [| | | | | | | |i|i|i f order| | |]; try done.
  - destruct (exec_effect _ _ _ He) as [Hr Hn _ _|? [=]|? ? [=]|? ? ? ? ? [=]]. rewrite Hr, Hn in *.
    destruct (next_spec _ _ He) as (m & l & H1 & H2 & H3 & ->). rewrite H1, H2. unfold WsServe.waiting. rewrite H3. simpl. lia.
  - simpl in He. destruct (WsServe.Queue _) as [p|] eqn:E; [|done]. injection He as <-. unfold WsServe.Queue in E. simpl in *.
    unfold WsServe.waiting. destruct (WsServe.pm (pool s)); try done. destruct (_ <? _)%nat; [|done]. injection E as <-.
    simpl. rewrite length_app. simpl. lia.
  - simpl in He. destruct (WsServe.take _ _) as [p|] eqn:E; [|done]. injection He as <-. unfold WsServe.take in E. simpl in *.
    destruct (WsServe.workers (pool s) !! i) as [[]|] eqn:Ei; try done. destruct (WsServe.queue (pool s)) as [|m q]; [done|].
    injection E as <-. unfold WsServe.waiting. simpl. assert (Hni : number s !! i = None).
    { destruct (number s !! i) as [k|] eqn:Ek; [|done].
      destruct (work_number _ _ _ (good_inv _ Hg) i k Ek) as (o & Ho & _). congruence. }
    rewrite map_size_insert_None in * by done. lia.
  - destruct (exec_effect _ _ _ He) as [Hr Hn _ _|? [=]|j m [= <-] Hb Hnone Hr Hn _ _|? ? ? ? ? [=]]; simpl in He;
      repeat (case_match; try done); injection He as <-; simpl in *.
    + rewrite map_size_insert_None in * by done. lia.
    + rewrite map_size_insert_None in * by done. lia.
  - destruct (exec_effect _ _ _ He) as [Hr Hn _ _|? [=]|? ? [=]|j k o ? ? [= <- <- <-] Hb Hk _ Hr Hn _ _]; simpl in He;
      unfold finish_one in He; destruct (_ !! i) as [[|o'|]|] eqn:Ei, (number s !! i) as [k'|] eqn:Ek; try done;
      destruct (WsServe.finish _ _) as [p|] eqn:E; try done; simpl in He; destruct (_ || _); try done; injection He as <-;
      unfold WsServe.finish in E; rewrite Ei in E; injection E as <-; unfold WsServe.waiting; simpl in *;
      pose proof (map_size_delete i (number s)) as Hsz; rewrite Ek in Hsz; pose proof (map_size_delete i (reading s)) as Hsr;
      assert (size (number s) ≠ 0)%nat by (intros E0%map_size_empty_inv; rewrite E0 in Ek; by rewrite lookup_empty in Ek).
    all: clear Hr Hn Hle'; rewrite Hsz, Hsr; unfold id; destruct (reading s !! i); lia.
Qed.

(** An order that visits [c] first. *)
Definition first_of (c : string) (S : gset string) : list string := c :: elements (S ∖ {[c]}).

Lemma first_of_reliable c s S :
  is_Some (sessions s !! c) → c ∈ S →
  first_of c S ≡ₚ elements S ∧ ∃ pre post, first_of c S = pre ++ c :: post ∧
    Forall (λ x, outcome s (λ _, WsPool.OSent) x = WsPool.OSent) (pre ++ [c]).
Proof.
  intros [x Hx] Hc. split.
  - unfold first_of. rewrite <- (elements_union_singleton (S ∖ {[c]}) c) by set_solver.
    replace ({[c]} ∪ S ∖ {[c]}) with S; [done|]. by apply union_difference_singleton_L.
  - eexists [], _. split; [done|]. apply Forall_singleton. unfold outcome. by rewrite Hx.
Qed.

(** Nothing is left to do only when every message has been written. *)
Lemma idle_all_sent s n k c :
  good s → running s → is_Some (sessions s !! c) → nf (internal k c) s → (n < length (published s))%nat →
  is_Some (sent s !! n).
Proof.
  intros Hg [Hst Hca] Hopen Hnf Hn. pose proof (good_inv _ Hg) as Hw.
  assert (Hbusy : number s = ∅).
  { apply map_empty. intros i. destruct (number s !! i) as [j|] eqn:Ek; [|done]. exfalso.
    destruct (work_number _ _ _ Hw i j Ek) as (o & Ho & _). apply Hnf. unfold red.
    destruct (skipped o || bool_decide (is_Some (reading s !! i))) eqn:Eb.
    - eexists. exists (AFinish i (λ _, WsPool.OSent) (first_of c)). split; [done|].
      split; [intros _ S _ HcS; by apply first_of_reliable|]. simpl. unfold finish_one.
      rewrite Ho, Ek. unfold WsServe.finish. rewrite Ho. simpl. by rewrite Eb.
    - apply orb_false_iff in Eb as [Eo Er%bool_decide_eq_false]. destruct o as [m|]; [|done].
      eexists. exists (ALookup i). split; [done|]. split; [done|]. simpl. rewrite Ho. by rewrite (proj2 (eq_None_not_Some _) Er). }
  destruct (good_counted _ Hg) as [Hlen Hgone]. rewrite Hst, Hca in Hgone.
  assert (Hidle : WsServe.workers (pool s) !! 0%nat = Some WsServe.Idle).
  { destruct (WsServe.workers (pool s)) as [|w l] eqn:El; [done|]. simpl. destruct w as [|o|]; [done| |done].
    destruct (work_busy _ _ _ Hw 0%nat o) as [k0 Hk]; [by rewrite El|]. rewrite Hbusy in Hk. by rewrite lookup_empty in Hk. }
  assert (Hq : WsServe.queue (pool s) = []).
  { destruct (WsServe.queue (pool s)) as [|o q] eqn:Eq; [done|]. exfalso. apply Hnf. eexists. exists (ATake 0).
    split; [done|]. split; [done|]. simpl. unfold WsServe.take. by rewrite Hidle, Eq. }
  assert (Hp : WsServe.pm (pool s) = WsServe.PNext).
  { destruct (WsServe.pm (pool s)) as [|o|] eqn:Ep; [done| |].
    - exfalso. apply Hnf. eexists. exists AQueue. split; [done|]. split; [done|]. simpl. unfold WsServe.Queue. by rewrite Ep, Hq.
    - pose proof (work_pump _ _ _ Hw Ep). congruence. }
  assert (Hch : MemPubSub.pushCh (drv s) = []).
  { destruct (MemPubSub.pushCh (drv s)) as [|m l] eqn:Ec; [done|]. exfalso. apply Hnf. eexists. exists ANext.
    split; [done|]. split; [done|]. simpl. unfold MemPubSub.Next. rewrite Ec. unfold WsServe.next. by rewrite Hp. }
  destruct (good_handed _ Hg) as (l & Hl & Hf). apply Forall2_length in Hf. rewrite Hl, Hch, app_nil_r in Hn.
  rewrite (good_order _ Hg), Hq in Hf. unfold WsServe.waiting in Hf. rewrite Hp, app_nil_r in Hf.
  destruct (work_done _ _ _ Hw n) as [?|[i Hi]]; [lia|done|]. rewrite Hbusy in Hi. by rewrite lookup_empty in Hi.
Qed.

Lemma internal_terminates n c s : good s → sn (internal n c) s.
Proof.
  remember (measure s) as k eqn:Ek. revert s Ek. induction (lt_wf k) as [k _ IH]. intros s -> Hg.
  constructor. intros s' Hs. apply (IH (measure s')); [by eapply internal_measure|done|by eapply internal_good].
Qed.

(** *** The property *)

(** [c] stays connected and subscribed to [t] while the system runs, and the
    writes of message [n] to it and to the connections visited before succeed. *)
Definition path (n : nat) (t c : string) (s s' : state) : Prop :=
  c ∈ MemPubSub.Get t (MemPubSub.storage (drv s)) ∧ ∃ a, reliable n c s a ∧ exec a s = Some s'.

Lemma internal_run n c s s' :
  rtc (internal n c) s s' → good s → running s → good s' ∧ running s' ∧ sessions s' = sessions s ∧
  MemPubSub.storage (drv s') = MemPubSub.storage (drv s) ∧ published s' = published s.
Proof.
  induction 1 as [|s1 s2 s3 Hs _ IH]; [done|]. intros Hg Hr. destruct (internal_frame _ _ _ _ Hs) as (H0 & H1 & H2 & _).
  destruct (IH (internal_good _ _ _ _ Hs Hg) (internal_running _ _ _ _ Hs Hr)) as (? & ? & ? & ? & ?). split_and!; try done; congruence.
Qed.

Section delivery.
Context {BL : MemPubSub.BstLaws}.

Lemma path_watch n m c s s' :
  MemPubSub.Topic m ≠ "" → rtc (path n (MemPubSub.Topic m) c) s s' → good s → watch n m c s → good s' ∧ watch n m c s'.
Proof.
  intros Ht. induction 1 as [|s1 s2 s3 (Hc & a & Hr & He) _ IH]; [done|]. intros Hg Hw.
  apply IH; [by eapply exec_good|by eapply exec_watch].
Qed.

Lemma internal_watch n m c s s' :
  MemPubSub.Topic m ≠ "" → rtc (internal n c) s s' → good s → watch n m c s →
  c ∈ MemPubSub.Get (MemPubSub.Topic m) (MemPubSub.storage (drv s)) → watch n m c s'.
Proof.
  intros Ht. induction 1 as [|s1 s2 s3 Hs _ IH]; [done|]. intros Hg Hw Hc.
  pose proof (proj1 (proj2 (internal_frame _ _ _ _ Hs))) as Hst. destruct Hs as (a & _ & Hr & He).
  apply IH; [by eapply exec_good|by eapply exec_watch|]. by rewrite Hst.
Qed.

(** A message that was just published has not been lost. *)
Lemma publish_watch m c s s' : exec (APublish m) s = Some s' → good s → watch (length (published s)) m c s'.
Proof.
  intros He Hg. pose proof (good_handed _ Hg) as (l & Hl & Hf%Forall2_length).
  pose proof (exec_got _ _ _ He ltac:(done)) as Hgot. pose proof (proj1 (exec_published _ _ _ He)) as Hp.
  assert (Hlen : (length (WsServe.taken (pool s)) ≤ length (published s))%nat).
  { rewrite Hl, length_app, Hf, (good_order _ Hg), length_app. lia. }
  destruct (exec_effect _ _ _ He) as [Hr Hn Hs _|? [=]|? ? [=]|? ? ? ? ? [=]]. split.
  - by rewrite Hp, lookup_app_r, Nat.sub_diag.
  - rewrite Hgot. intros Hlt. rewrite Hl, length_app in Hlt. lia.
  - rewrite Hn. intros i S Hi _. pose proof (number_lt _ _ _ _ _ (good_inv _ Hg) Hi). lia.
  - rewrite Hs. intros x Hx. pose proof (work_sent _ _ _ (good_inv _ Hg) _ (mk_is_Some _ _ Hx)). lia.
Qed.

(** C6: a message with a topic that the broadcast plugin publishes reaches a
    websocket that is connected and subscribed to the topic from then on,
    whatever the other sessions, publishers, the pump and the workers do in
    between, provided that the worker's writes of this message to it and to the
    connections visited before it succeed -- a failed one, or a connection that
    is gone, cuts off the rest -- and that the plugin is not stopped: once the
    pump and the workers have nothing left to do, which happens after finitely
    many of their steps in any order, one worker has taken the message and
    written it to the connection, once; and at no time has it been handled
    without that. *)
Theorem broadcast_reaches_subscribers s0 s1 s2 m c :
  let n := length (published s0) in
  rtc step start s0 → exec (APublish m) s0 = Some s1 → MemPubSub.Topic m ≠ "" →
  rtc (path n (MemPubSub.Topic m) c) s1 s2 →
  c ∈ MemPubSub.Get (MemPubSub.Topic m) (MemPubSub.storage (drv s2)) → is_Some (sessions s2 !! c) → running s2 →
  (∀ l, sent s2 !! n = Some l → c ∈ l ∧ NoDup l) ∧ sn (internal n c) s2 ∧
  ∀ s3, rtc (internal n c) s2 s3 → nf (internal n c) s3 →
    WsServe.taken (pool s3) !! n = Some (Some (to_ws m)) ∧ ∃ l, sent s3 !! n = Some l ∧ c ∈ l ∧ NoDup l.
Proof.
  intros n Hs0 He Ht Hp Hc Hopen Hr. assert (Hg0 : good s0) by (eapply reach_good; [done|apply start_good]).
  assert (Hg1 : good s1) by (by eapply exec_good).
  destruct (path_watch _ _ _ _ _ Ht Hp Hg1 (publish_watch _ c _ _ He Hg0)) as [Hg2 Hw2].
  split; [exact (watch_sent _ _ _ _ Hw2)|]. split; [by apply internal_terminates|]. intros s3 Hs3 Hnf.
  destruct (internal_run _ _ _ _ Hs3 Hg2 Hr) as (Hg3 & Hr3 & Hse3 & _ & Hpub3).
  pose proof (internal_watch _ _ _ _ _ Ht Hs3 Hg2 Hw2 Hc) as Hw3. rewrite <- Hse3 in Hopen.
  destruct (idle_all_sent s3 n n c Hg3 Hr3 Hopen Hnf) as [l Hl]; [by eapply lookup_lt_Some, watch_published|].
  pose proof (work_sent _ _ _ (good_inv _ Hg3) n (mk_is_Some _ _ Hl)) as Hlt.
  split; [|exists l; split; [done|by eapply watch_sent]].
  assert (Hgt := good_order _ Hg3). rewrite <- (watch_got _ _ _ _ Hw3); rewrite Hgt; [by rewrite lookup_app_l|].
  rewrite length_app. lia.
Qed.
End delivery.

(** ** Example *)

Fixpoint run (l : list action) (s : state) : option state :=
  match l with [] => Some s | a :: l => s ← exec a s; run l s end.
Lemma system_run_rtc l s s' : run l s = Some s' → rtc step s s'.
Proof.
  revert s. induction l as [|a l IH]; intros s; simpl; [by intros [= ->]|].
  destruct (exec a s) as [s1|] eqn:E; [|done]. simpl. intros Hr. eapply rtc_l; [by exists a|]. by apply IH.
Qed.

(** Idle workers, an empty queue and an empty channel leave nothing to do. *)
Lemma quiet_nf n c s :
  MemPubSub.pushCh (drv s) = [] → WsServe.queue (pool s) = [] → WsServe.pm (pool s) = WsServe.PNext →
  Forall (λ w, w = WsServe.Idle) (WsServe.workers (pool s)) → nf (internal n c) s.
Proof.
  intros Hc Hq Hp Hw (s' & a & Hi & _ & He).
  assert (Hidle : ∀ i w, WsServe.workers (pool s) !! i = Some w → w = WsServe.Idle) by (by apply Forall_lookup).
  destruct a as [| | | | | | | |i|i|i f order| | |]; try done; simpl in He.
  - unfold MemPubSub.Next in He. by rewrite Hc in He.
  - unfold WsServe.Queue in He. by rewrite Hp in He.
  - unfold WsServe.take in He. rewrite Hq in He. by destruct (_ !! i) as [[]|].
  - destruct (WsServe.workers (pool s) !! i) as [w|] eqn:Ei; [|done]. by rewrite (Hidle _ _ Ei) in He.
  - unfold finish_one in He. destruct (WsServe.workers (pool s) !! i) as [w|] eqn:Ei; [|done]. by rewrite (Hidle _ _ Ei) in He.
Qed.
End system.

#[local] Existing Instance MemPubSub.map_bst.

Definition w_join : Executor.event :=
  Executor.MkEvent (inl (Executor.MkFrame Executor.OpText (inl "{}"))) (λ _, inl (Executor.MkMsg "join" ["news"])) (λ _, None) None None.
Definition w_msg : MemPubSub.Message := MemPubSub.MkMessage "news" "hello".

(** A websocket joins, a message is published, pumped, taken and written. *)
Definition w_s0 : state := default start (run [AOpen "c1"; ATurn "c1" w_join] start).
Definition w_s1 : state := default start (exec (APublish w_msg) w_s0).
Definition w_s2 : state := default start (run [ANext; AQueue; AOpen "c2"; ATake 3] w_s1).
Definition w_s3 : state := default start (run [ALookup 3; AFinish 3 (λ _, WsPool.OSent) elements] w_s2).

Lemma w_s2_path : rtc (path 0 "news" "c1") w_s1 w_s2.
Proof.
  eapply rtc_l; [split; [vm_compute; tauto|exists ANext; split; [done|reflexivity]]|].
  eapply rtc_l; [split; [vm_compute; tauto|exists AQueue; split; [done|reflexivity]]|].
  eapply rtc_l; [split; [vm_compute; tauto|exists (AOpen "c2"); split; [done|reflexivity]]|].
  eapply rtc_l; [split; [vm_compute; tauto|exists (ATake 3); split; [done|reflexivity]]|].
  apply rtc_refl.
Qed.
Lemma w_s3_internal : rtc (internal 0 "c1") w_s2 w_s3.
Proof.
  eapply rtc_l; [exists (ALookup 3); split; [done|]; split; [done|]; reflexivity|].
  eapply rtc_l; [exists (AFinish 3 (λ _, WsPool.OSent) elements); split; [done|]; split; [|reflexivity]|apply rtc_refl].
  intros _ S HS _. vm_compute in HS. injection HS as <-. split; [done|]. exists [], []. split; [reflexivity|].
  apply Forall_singleton. reflexivity.
Qed.

Lemma broadcast_reaches_subscribers_witness :
  WsServe.taken (pool w_s3) !! 0%nat = Some (Some (WsPool.MkMessage "news" "hello")) ∧
  ∃ l, sent w_s3 !! 0%nat = Some l ∧ "c1" ∈ l ∧ NoDup l.
Proof.
  apply (broadcast_reaches_subscribers (BL := MemPubSub.map_bst_laws) w_s0 w_s1 w_s2 w_msg "c1").
  - apply (system_run_rtc [AOpen "c1"; ATurn "c1" w_join]). reflexivity.
  - reflexivity.
  - done.
  - exact w_s2_path.
  - vm_compute; tauto.
  - eexists. vm_compute. reflexivity.
  - split; reflexivity.
  - exact w_s3_internal.
  - apply quiet_nf; [reflexivity..|]. repeat constructor.
Defined.
End BroadcastSystem.
