(* ===== verification/Metrics.v ===== *)
(** * Application metrics ([metrics])

    Collectors are declared in the configuration or through RPC, and changed
    through RPC.  The prometheus client is a class: what a collector holds, its
    constructors, its methods (which may panic) and the registry. *)

From stdpp Require Import base gmap strings list relations.
From Stdlib Require Import ZArith Ascii Lia.
From Stdlib Require String.
From S2P Require Import Prelude HttpPlugin.

Module Metrics.

Inductive CollectorType := Histogram | Gauge | Counter | Summary | OtherType (s : string).

(** The methods of a collector that RPC reaches. *)
Inductive method := MAdd | MSub | MSet | MObserve.

(** Buckets and objectives are kept as the source passes them. *)
Record opts (F : Type) := MkOpts {
  o_Name : string; o_Namespace : string; o_Subsystem : string; o_Help : string;
  o_Buckets : list F; o_Objectives : list (F * F) }.
Arguments MkOpts {F}.
Arguments o_Name {F}.
Arguments o_Namespace {F}.
Arguments o_Subsystem {F}.
Arguments o_Help {F}.
Arguments o_Buckets {F}.
Arguments o_Objectives {F}.

(** The four collector types with and without labels, as the type switches of the
    code see them. *)
Inductive kind := KHistogram | KGauge | KCounter | KSummary.

#[global] Instance kind_eq_dec : EqDecision kind.
Proof. solve_decision. Defined.

Class Prometheus := {
  F : Type;                                   (* float64 *)
  C : Type;                                   (* the state of a collector *)
  R : Type;                                   (* the registry *)
  New : kind → opts F → list string → option C;          (* None: panics *)
  call : kind → method → F → C → option C;               (* None: panics *)
  call_with_labels : kind → method → list string → F → C → res C;
  Register : C → R → R + error
}.

(** A counter refuses to decrease with a panic. *)
Class PrometheusLaws `{Prometheus} := {
  negative : F → bool;
  counter_Add_negative v c : negative v = true → call KCounter MAdd v c = None;
  counter_Add_labels_negative ls v c : negative v = true → call_with_labels KCounter MAdd ls v c ≠ Panic →
    ∃ e, call_with_labels KCounter MAdd ls v c = Err e
}.

Section metrics.
Context `{Prometheus}.

Record Collector := MkCollector {
  Namespace : string; Subsystem : string; Type_ : CollectorType; Help : string;
  Labels : list string; Buckets : list F; Objectives : list (F * F) }.

(** A stored collector: its type, whether it has labels, and its state. *)
Record stored := MkStored { s_kind : kind; s_vec : bool; s_state : C }.

Definition construct (k : kind) (o : opts F) (labels : list string) : res stored :=
  match New k o labels with
  | None => Panic
  | Some c => Ok (MkStored k (negb (Nat.eqb (length labels) 0)) c)
  end.

(** *** Configuration ([config.go]) *)

Definition getCollector (name : string) (m : Collector) : res stored :=
  let base b ob := MkOpts name (Namespace m) (Subsystem m) (Help m) b ob in
  match Type_ m with
  | Histogram => construct KHistogram (base (Buckets m) []) (Labels m)
  | Gauge => construct KGauge (base [] []) (Labels m)
  | Counter => construct KCounter (base [] []) (Labels m)
  | Summary => construct KSummary (base [] (Objectives m)) (Labels m)
  | OtherType t => Err (EErrorf "invalid metric type `%s` for `%s`" [t; name])
  end.

Fixpoint get_loop (l : list (string * Collector)) (acc : gmap string stored) : res (gmap string stored) :=
  match l with
  | [] => Ok acc
  | (name, m) :: l' => c ← getCollector name m; get_loop l' (<[name := c]> acc)
  end.

Definition getCollectors `{GoRange} (collect : option (gmap string Collector)) : res (gmap string stored) :=
  match collect with None => Ok ∅ | Some m => get_loop (range_map m) ∅ end.

Definition InitDefaults (address : string) : string :=
  if String.eqb address "" then "127.0.0.1:2112" else address.

(** *** The plugin ([plugin.go]) *)

Record Plugin := MkPlugin { address : string; collectors : gmap string stored; registry : R }.

Definition with_collectors c (p : Plugin) : Plugin := MkPlugin (address p) c (registry p).
Definition with_registry r (p : Plugin) : Plugin := MkPlugin (address p) (collectors p) r.

Definition register (c : C) (p : Plugin) : Plugin * option error :=
  match Register c (registry p) with
  | inl r => (with_registry r p, None)
  | inr e => (p, Some e)
  end.

Fixpoint register_all (l : list C) (p : Plugin) : Plugin * option error :=
  match l with
  | [] => (p, None)
  | c :: l' => match register c p with
               | (p, Some e) => (p, Some e)
               | (p, None) => register_all l' p
               end
  end.

(** [builtin] are the process and Go collectors. *)
Definition Init `{GoRange} (section : option ((string * option (gmap string Collector)) + error))
    (builtin : list C) (r : R) : res Plugin :=
  let op := "metrics_plugin_init" in
  match section with
  | None => Err (EOp op (EKind Disabled))
  | Some (inr e) => Err (EOpKind op Disabled e)
  | Some (inl (addr, collect)) =>
      match register_all builtin (MkPlugin (InitDefaults addr) ∅ r) with
      | (_, Some e) => Err (EOp op e)
      | (p, None) =>
          match getCollectors collect with
          | Ok cl => Ok (with_collectors (foldl insert_pair (collectors p) (range_map cl)) p)
          | Err e => Err (EOp op e)
          | Panic => Panic
          end
      end
  end.

(** The registrations of [Serve]: the collectors of other plugins, then the stored
    ones; the first error stops and is sent to the channel. *)
Definition Serve `{GoRange} (providers : list C) (p : Plugin) : Plugin * option error :=
  match register_all providers p with
  | (p, Some e) => (p, Some e)
  | (p, None) => register_all (s_state ∘ snd <$> range_map (collectors p)) p
  end.

(** *** RPC ([rpc.go]) *)

Record Metric := MkMetric { m_Name : string; m_Value : F; m_Labels : list string }.

(** The cases of a type switch: which types the method supports. *)
Definition supports (m : method) (k : kind) : bool :=
  match m, k with
  | MAdd, (KGauge | KCounter) => true
  | (MSub | MSet), KGauge => true
  | MObserve, (KHistogram | KSummary) => true
  | _, _ => false
  end.

Definition op_of (m : method) : string :=
  match m with
  | MAdd => "metrics_plugin_add" | MSub => "metrics_plugin_sub"
  | MSet => "metrics_plugin_set" | MObserve => "metrics_plugin_observe"
  end.

Definition undefined (m : method) (name : string) : error :=
  EErrorf (match m with
           | MAdd => "undefined collector %s, try first Declare the desired collector"
           | _ => "undefined collector %s"
           end) [name].
Definition need_labels (m : method) (k : kind) (name : string) : error :=
  EErrorf (match m, k with
           | MAdd, KCounter | MObserve, _ => "required labels for collector `%s`"
           | _, _ => "required labels for collector %s"
           end) [name].
Definition unsupported (m : method) (name : string) : error :=
  EErrorf (match m with
           | MAdd => "collector %s does not support method `Add`"
           | MSub => "collector `%s` does not support method `Sub`"
           | MSet => "collector `%s` does not support method Set"
           | MObserve => "collector `%s` does not support method `Observe`"
           end) [name].

(** The answer is the reply [ok]. *)
Definition rpc_call (me : method) (m : Metric) (p : Plugin) : Plugin * res bool :=
  let op := op_of me in
  match collectors p !! m_Name m with
  | None => (p, Err (EOp op (undefined me (m_Name m))))
  | Some s =>
      let put c := with_collectors (<[m_Name m := MkStored (s_kind s) (s_vec s) c]> (collectors p)) p in
      if negb (supports me (s_kind s)) then (p, Err (EOp op (unsupported me (m_Name m))))
      else if s_vec s then
        if Nat.eqb (length (m_Labels m)) 0
        then (p, Err (EOp op (need_labels me (s_kind s) (m_Name m))))
        else match call_with_labels (s_kind s) me (m_Labels m) (m_Value m) (s_state s) with
             | Ok c => (put c, Ok true)
             | Err e => (p, Err (EOp op e))
             | Panic => (p, Panic)
             end
      else match call (s_kind s) me (m_Value m) (s_state s) with
           | Some c => (put c, Ok true)
           | None => (p, Panic)
           end
  end.

Definition Add : Metric → Plugin → Plugin * res bool := rpc_call MAdd.
Definition Sub : Metric → Plugin → Plugin * res bool := rpc_call MSub.
Definition Set_ : Metric → Plugin → Plugin * res bool := rpc_call MSet.
Definition Observe : Metric → Plugin → Plugin * res bool := rpc_call MObserve.

(** The options of a summary have no objectives here. *)
Definition declared (name : string) (m : Collector) : res stored :=
  let base b := MkOpts name (Namespace m) (Subsystem m) (Help m) b [] in
  match Type_ m with
  | Histogram => construct KHistogram (base (Buckets m)) (Labels m)
  | Gauge => construct KGauge (base []) (Labels m)
  | Counter => construct KCounter (base []) (Labels m)
  | Summary => construct KSummary (base []) (Labels m)
  | OtherType t => Err (EErrorf "unknown collector type %s" [t])
  end.

Definition Declare_ (name : string) (m : Collector) (p : Plugin) : Plugin * res bool :=
  let op := "metrics_plugin_declare" in
  match collectors p !! name with
  | Some _ => (p, Err (EOp op (EErrorf "tried to register existing collector with the name `%s`" [name])))
  | None =>
      match declared name m with
      | Panic => (p, Panic)
      | Err e => (p, Err (EOp op e))
      | Ok s =>
          let p := with_collectors (<[name := s]> (collectors p)) p in
          match register (s_state s) p with
          | (p, Some e) => (p, Err (EOp op e))
          | (p, None) => (p, Ok true)
          end
      end
  end.

(** ** Theorems *)

(** A collector the call is meant for. *)
Definition accepts (me : method) (m : Metric) (s : stored) : Prop :=
  supports me (s_kind s) = true ∧ (s_vec s = true → m_Labels m ≠ []).

(** A metrics call answers [true] exactly when the named collector exists, has
    a type that supports the method, gets labels if it has labels, and the client
    library accepts the value; then only this collector changes.  A call that
    answers with an error changes nothing. *)
Theorem metrics_call_exact me m p p' :
  (rpc_call me m p = (p', Ok true) ↔
     ∃ s c, collectors p !! m_Name m = Some s ∧ accepts me m s ∧
       (if s_vec s then call_with_labels (s_kind s) me (m_Labels m) (m_Value m) (s_state s) = Ok c
        else call (s_kind s) me (m_Value m) (s_state s) = Some c) ∧
       p' = with_collectors (<[m_Name m := MkStored (s_kind s) (s_vec s) c]> (collectors p)) p) ∧
  (∀ e, rpc_call me m p = (p', Err e) → p' = p).
Proof.
  assert (Hno : ∀ e, ((p, Err e) = (p', Ok true) ↔ False) ∧ (∀ e', (p, @Err bool e) = (p', Err e') → p' = p)).
  { intros e. split; [by split|]. by intros e' [= <- _]. }
  unfold rpc_call, accepts. destruct (collectors p !! m_Name m) as [s|].
  2: { split; [|apply Hno]. rewrite (proj1 (Hno _)). split; [done|]. by intros (s & c & ? & _). }
  destruct (supports me (s_kind s)) eqn:Es; cbn [negb].
  2: { split; [|apply Hno]. rewrite (proj1 (Hno _)). split; [done|].
       intros (s' & c & [= <-] & (Hx & _) & _). congruence. }
  destruct (s_vec s) eqn:Ev.
  - destruct (m_Labels m) as [|l ls] eqn:El; cbn [length Nat.eqb].
    { split; [|apply Hno]. rewrite (proj1 (Hno _)). split; [done|].
      intros (s' & c & [= <-] & (_ & Hx) & _). by apply (Hx Ev). }
    destruct (call_with_labels (s_kind s) me (l :: ls) (m_Value m) (s_state s)) as [c|e|] eqn:Ec.
    + split; [|done]. split; [intros [= <-]; exists s, c; rewrite Ev; split_and!; done|].
      intros (s' & c' & [= <-] & _ & Hc & ->). rewrite Ev, Ec in Hc. injection Hc as ->. by rewrite ?Ev.
    + split; [|apply Hno]. rewrite (proj1 (Hno _)). split; [done|].
      intros (s' & c & [= <-] & _ & Hc & _). rewrite Ev in Hc. congruence.
    + split; [|done]. split; [done|]. intros (s' & c & [= <-] & _ & Hc & _). rewrite Ev in Hc. congruence.
  - destruct (call (s_kind s) me (m_Value m) (s_state s)) as [c|] eqn:Ec.
    + split; [|done]. split; [intros [= <-]; exists s, c; rewrite Ev; split_and!; done|].
      intros (s' & c' & [= <-] & _ & Hc & ->). rewrite Ev, Ec in Hc. injection Hc as ->. by rewrite ?Ev.
    + split; [|done]. split; [done|]. intros (s' & c & [= <-] & _ & Hc & _). rewrite Ev in Hc. congruence.
Qed.

(** A collector that could not be registered stays declared: [Declare] reports
    the error, a second [Declare] of the name is refused, and calls on it answer
    [true] although it is not in the registry. *)
Theorem metrics_failed_declare_stays name m s p e v c :
  collectors p !! name = None → declared name m = Ok s → Labels m = [] →
  Register (s_state s) (registry p) = inr e →
  supports MAdd (s_kind s) = true → call (s_kind s) MAdd v (s_state s) = Some c → s_vec s = false →
  let p1 := (Declare_ name m p).1 in
  (Declare_ name m p).2 = Err (EOp "metrics_plugin_declare" e) ∧ registry p1 = registry p ∧
  (∃ e', (Declare_ name m p1).2 = Err e') ∧
  (Add (MkMetric name v []) p1).2 = Ok true.
Proof.
  intros Hn Hd Hl Hr Hs Hc Hv. unfold Declare_. rewrite Hn, Hd. unfold register.
  cbn [registry with_collectors]. rewrite Hr. cbn [fst snd registry with_collectors collectors].
  rewrite !lookup_insert_eq. split_and!; [done..|by eexists|].
  unfold Add, rpc_call. cbn [m_Name m_Value m_Labels collectors with_collectors].
  rewrite lookup_insert_eq, Hs, Hv. cbn [negb]. by rewrite Hc.
Qed.

(** The two ways to declare a collector agree except for the objectives of a
    summary, which RPC drops. *)
Lemma declared_config name m :
  Type_ m ≠ Summary ∨ Objectives m = [] → (∀ t, Type_ m ≠ OtherType t) →
  declared name m = getCollector name m.
Proof. intros [Ht|Ho] Hn; unfold declared, getCollector; destruct (Type_ m); rewrite ?Ho; try done; by destruct (Hn s). Qed.

(** A negative value crashes the RPC server: [Add] on a counter without labels
    panics, and the code has no recovery. *)
Theorem metrics_counter_negative_panics `{!PrometheusLaws} m p s :
  collectors p !! m_Name m = Some s → s_kind s = KCounter → s_vec s = false →
  negative (m_Value m) = true → rpc_call MAdd m p = (p, Panic).
Proof.
  intros Hs Hk Hv Hn. unfold rpc_call. rewrite Hs, Hk, Hv. cbn [supports negb].
  by rewrite counter_Add_negative.
Qed.
End metrics.

(** ** A concrete client: integers, and one number per collector *)

#[local] Instance int_client : Prometheus := {|
  F := Z; C := Z; R := list Z;
  New _ _ _ := Some 0%Z;
  call k me v c := match me with
                   | MAdd | MObserve => if bool_decide (k = KCounter) && (v <? 0)%Z then None else Some (c + v)%Z
                   | MSub => Some (c - v)%Z
                   | MSet => Some v
                   end;
  call_with_labels k me _ v c := if (v <? 0)%Z then Panic else Ok (c + v)%Z;
  Register c r := if (length r <? 2)%nat then inl (c :: r) else inr (EStr "duplicate") |}.

#[local] Program Instance int_laws : PrometheusLaws := {| negative v := (v <? 0)%Z |}.
Next Obligation. intros v c Hv. simpl in *. by rewrite Hv. Qed.
Next Obligation. intros ls v c Hv Hp. simpl in *. by rewrite Hv in Hp. Qed.

Definition counter_def : Collector := MkCollector "" "" Counter "" [] [] [].

Lemma metrics_failed_declare_stays_witness :
  let p := @MkPlugin int_client "" ∅ [1; 2]%Z in
  (Add (@MkMetric int_client "jobs" 5%Z []) (Declare_ "jobs" counter_def p).1).2 = Ok true.
Proof.
  intros p.
  eapply (metrics_failed_declare_stays "jobs" counter_def (@MkStored int_client KCounter false 0%Z) p); reflexivity.
Defined.

Lemma metrics_counter_negative_panics_witness :
  (rpc_call MAdd (@MkMetric int_client "jobs" (-1)%Z []) (@MkPlugin int_client "" {["jobs" := @MkStored int_client KCounter false 0%Z]} [])).2 = Panic.
Proof.
  rewrite (metrics_counter_negative_panics (@MkMetric int_client "jobs" (-1)%Z [])
    (@MkPlugin int_client "" {["jobs" := @MkStored int_client KCounter false 0%Z]} []) (@MkStored int_client KCounter false 0%Z)); reflexivity.
Defined.
End Metrics.

(** ** The server of the exporter ([plugin.go]) *)

Module MetricsServer.
Import Metrics.

Definition maxHeaderSize : Z := 2 ^ 20.
Definition minute : Z := 60 * 10 ^ 9.

(** [http.Server] as the code fills it in; its handler exports a registry. *)
Record http_server (R : Type) := MkServer {
  Addr : string; exported : R; IdleTimeout : Z; ReadTimeout : Z; MaxHeaderBytes : Z;
  ReadHeaderTimeout : Z; WriteTimeout : Z; CipherSuites : list HttpPlugin.suite; MinVersion : Z }.
Arguments MkServer {R}.
Arguments exported {R}.

Section server.
Context `{PM : Prometheus} `{GR : GoRange}.

Definition new_server (hasGCMAsm : bool) (p : Plugin) : http_server R :=
  MkServer (address p) (registry p) (24 * 60 * minute) (60 * minute) maxHeaderSize (60 * minute) (60 * minute)
    (HttpPlugin.suites hasGCMAsm) HttpPlugin.VersionTLS12.

(** A collector of another plugin that cannot be registered ends [Serve]; a
    stored one only ends the loop over the stored ones.  The last component is
    the content of the channel. *)
Definition Serve_ (hasGCMAsm : bool) (providers : list C) (p : Plugin)
    : Plugin * option (http_server R) * list error :=
  match register_all providers p with
  | (p, Some e) => (p, None, [e])
  | (p, None) =>
      let '(p, e) := register_all (s_state ∘ snd <$> range_map (collectors p)) p in
      (p, Some (new_server hasGCMAsm p), option_list e)
  end.
End server.

(** The goroutine that listens: not yet, serving, ended, or waiting for a place
    in the channel, which has one. *)
Inductive phase := Fresh | Up | Down | Full (e : error).
Record state := MkState { ph : phase; shut : bool; errCh : list error }.

Definition report (e : error) (s : state) : state :=
  match errCh s with [] => MkState Down (shut s) [e] | l => MkState (Full e) (shut s) l end.

(** [ListenAndServe] of a server that was shut down returns
    [http.ErrServerClosed], which is not reported. *)
Definition listen (r : option error) (s : state) : option state :=
  match ph s with
  | Fresh => Some (if shut s then MkState Down true (errCh s)
                   else match r with Some e => report e s | None => MkState Up false (errCh s) end)
  | _ => None
  end.
Definition fail (e : error) (s : state) : option state :=
  match ph s with Up => Some (report e s) | _ => None end.

(** An error of [Shutdown] is only logged; it closes the listener first. *)
Definition Stop (s : state) : state := MkState (match ph s with Up => Down | x => x end) true (errCh s).

Inductive step : state → state → Prop :=
  | step_listen r s s' : listen r s = Some s' → step s s'
  | step_fail e s s' : fail e s = Some s' → step s s'
  | step_stop s : step s (Stop s).

(** A server is started exactly if the collectors of the other plugins could be
    registered, and it exports the registry with all of them; a stored
    collector that is refused leaves its error in the channel, and then an error
    of listening is reported nowhere: the goroutine waits for ever. *)
Theorem metrics_serve_partial `{PM : Prometheus} `{GR : GoRange} gcm providers p p' srv errs :
  Serve_ gcm providers p = (p', srv, errs) →
  (is_Some srv ↔ (register_all providers p).2 = None) ∧
  (∀ s, srv = Some s → exported s = registry p') ∧
  (errs = [] ↔ (Metrics.Serve providers p).2 = None) ∧
  (∀ s e s', srv = Some s → errs ≠ [] → listen (Some e) (MkState Fresh false errs) = Some s' →
     ∀ s'', rtc step s' s'' → ph s'' = Full e ∧ errCh s'' = errs).
Proof.
  unfold Serve_, Metrics.Serve. destruct (register_all providers p) as [p1 [e1|]].
  { intros [= <- <- <-]. split_and!; [split; [by intros []|done]|done|split; done|done]. }
  destruct (register_all _ p1) as [p2 e2]. intros [= <- <- <-].
  split_and!; [by split|by intros s [= <-]|destruct e2; split; done|].
  intros s e s' _ Hne Hl. destruct e2 as [e2|]; [|done]. injection Hl as <-. intros s'' Hs.
  assert (H0 : ph (report e (MkState Fresh false [e2])) = Full e ∧ errCh (report e (MkState Fresh false [e2])) = [e2]) by done.
  simpl. induction Hs as [x|x y z Hxy _ IH]; [done|]. destruct H0 as [H1 H2]. apply IH.
  destruct Hxy as [r x x' Hx|e' x x' Hx|x].
  - unfold listen in Hx. by rewrite H1 in Hx.
  - unfold fail in Hx. by rewrite H1 in Hx.
  - simpl. by rewrite H1.
Qed.

(** After [Stop] the server does not serve, also when the goroutine had not
    listened yet. *)
Theorem metrics_stop_final s s' : rtc step (Stop s) s' → ph s' ≠ Up.
Proof.
  intros Hs. assert (H : ph s' ≠ Up ∧ shut s' = true); [|by destruct H].
  assert (H0 : ph (Stop s) ≠ Up ∧ shut (Stop s) = true) by (by destruct s as [[] ? ?]).
  induction Hs as [x|x y z Hxy _ IH]; [done|]. destruct H0 as [H1 H2]. apply IH.
  destruct Hxy as [r x x' Hx|e x x' Hx|x].
  - unfold listen in Hx. destruct (ph x); try done. injection Hx as <-. by rewrite H2.
  - unfold fail in Hx. by destruct (ph x).
  - by destruct x as [[] ? ?].
Qed.
End MetricsServer.
