(* ===== verification/Tcp.v ===== *)
(** * The TCP server ([tcp], [tcp/handler])

    Every connection has a handler that tells the worker of the connection, of
    each piece of data and of the end, and does what the worker answers.  The
    handler is a function from what the connection delivers to the sequence of
    calls it makes: requests to the worker, writes and the close.  The answers
    to these calls are an oracle over the calls made so far. *)

From stdpp Require Import base gmap strings list.
From Stdlib Require Import Ascii ZArith.
From S2P Require Import Prelude GoStrings.

Module Tcp.

Definition CLOSE : bytes := "CLOSE".
Definition CONTINUE : bytes := "CONTINUE".
Definition WRITECLOSE : bytes := "WRITECLOSE".
Definition WRITE : bytes := "WRITE".
Definition EventConnected : string := "CONNECTED".
Definition EventIncomingData : string := "DATA".
Definition EventClose : string := "CLOSE".

Record ServerInfo := MkInfo { RemoteAddr : string; Server : string; UUID : string; Event : string }.

(** [payload.Payload]; a nil slice is the empty one. *)
Record Payload := MkPayload { pld_Context : bytes; pld_Body : bytes }.
Definition nil_payload : Payload := MkPayload "" "".

Inductive call := Exec (p : Payload) | Write (b : bytes) | CloseConn.
Definition log := list call.

(** What the handler calls: the JSON library, the worker pool, the connection
    and [sync.Pool.Get], which returns any object that was put back. *)
Class Peer := {
  marshal : ServerInfo → bytes + error;
  wPool : log → Payload → Payload + error;
  write_answer : log → bytes → option error;
  pick : log → option nat
}.

Record handler := MkHandler { remote : string; serverName : string; delim : bytes; uuid : string }.

(** The pools and the map of connections are shared by all handlers; [made] are
    the calls of this one. *)
Record state := MkState {
  made : log; pldPool : list Payload; resBufPool : list bytes; connections : gset string }.

(** What a read answers once the chunks are used up: the end of the stream at
    every further read, an error, or nothing. *)
Inductive ending := AtEof | AtError | Silent.
Inductive outcome := Returned | Waiting.

Section Handler.
Context `{PE : Peer}.

Definition do_ (x : call) (s : state) : state :=
  MkState (made s ++ [x]) (pldPool s) (resBufPool s) (connections s).
Definition with_pld (l : list Payload) (s : state) : state := MkState (made s) l (resBufPool s) (connections s).
Definition with_res (l : list bytes) (s : state) : state := MkState (made s) (pldPool s) l (connections s).
Definition with_conns (c : gset string) (s : state) : state := MkState (made s) (pldPool s) (resBufPool s) c.

(** Every field of the pooled record is set. *)
Definition getServInfo (event : string) (h : handler) : ServerInfo :=
  MkInfo (remote h) (serverName h) (uuid h) event.

Definition generate (event : string) (h : handler) : bytes + error := marshal (getServInfo event h).

Definition getPayload (s : state) : Payload * state :=
  let '(p, l) := pool_get nil_payload (pick (made s)) (pldPool s) in (p, with_pld l s).
Definition putPayload (s : state) : state := with_pld (nil_payload :: pldPool s) s.

Definition getResBuf (s : state) : bytes * state :=
  let '(b, l) := pool_get "" (pick (made s)) (resBufPool s) in (b, with_res l s).
Definition putResBuf (s : state) : state := with_res ("" :: resBufPool s) s.

(** The request is logged before the worker answers it. *)
Definition exec_ (p : Payload) (s : state) : state * (Payload + error) :=
  (do_ (Exec p) s, wPool (made s) p).

Definition sendClose (h : handler) (s : state) : state :=
  match generate EventClose h with
  | inr _ => s
  | inl c =>
      let '(p, s) := getPayload s in
      putPayload (exec_ (MkPayload c (pld_Body p)) s).1
  end.

(** True: go on reading.  The error of a close is logged only. *)
Definition handleAndContinue (rsp : Payload) (h : handler) (s : state) : state * bool :=
  let written (k : state → state * bool) : state * bool :=
    match write_answer (made s) (pld_Body rsp) with
    | Some _ => (sendClose h (do_ CloseConn (do_ (Write (pld_Body rsp)) s)), false)
    | None => k (do_ (Write (pld_Body rsp)) s)
    end in
  let closed s := (sendClose h (do_ CloseConn s), false) in
  if String.eqb (pld_Context rsp) CONTINUE then (s, true)
  else if String.eqb (pld_Context rsp) WRITE then written (λ s, (s, true))
  else if String.eqb (pld_Context rsp) WRITECLOSE then written closed
  else closed s.

(** The part of the read loop after the inner loop, for a buffer that is not
    empty. *)
Definition deliver (ctx buf : bytes) (h : handler) (s : state) : state * bool :=
  let '(p, s) := getPayload s in
  match exec_ (MkPayload ctx buf) s with
  | (s, inr _) => (putPayload (do_ CloseConn s), false)
  | (s, inl rsp) => let '(s, b) := handleAndContinue rsp h s in (putPayload s, b)
  end.

(** The end of the stream: what is in the buffer is sent after the close, and
    the next read finds the end again. *)
Definition at_eof (ctx buf : bytes) (h : handler) (s : state) : state :=
  let s := sendClose h s in
  if String.eqb buf "" then s else
  match deliver ctx buf h s with
  | (s, true) => sendClose h s
  | (s, false) => s
  end.

(** [chunks]: what the reads return, each at most as long as the read buffer,
    of which only the bytes read are used. *)
Fixpoint read_loop (ctx : bytes) (chunks : list bytes) (fin : ending) (buf : bytes) (h : handler) (s : state)
    : state * outcome :=
  match chunks with
  | [] =>
      match fin with
      | Silent => (s, Waiting)
      | AtError => (sendClose h (do_ CloseConn s), Returned)
      | AtEof => (at_eof ctx buf h s, Returned)
      end
  | c :: rest =>
      if (String.length c <? String.length (delim h))%nat
      then (sendClose h (do_ CloseConn s), Returned)
      else
        let buf := buf +:+ c in
        if HasSuffix c (delim h) then
          if String.eqb buf "" then (s, Returned) else
          match deliver ctx buf h s with
          | (s, true) => read_loop ctx rest fin "" h s
          | (s, false) => (s, Returned)
          end
        else read_loop ctx rest fin buf h s
  end.

(** The buffers go back to their pools on return. *)
Definition readLoop (chunks : list bytes) (fin : ending) (h : handler) (s : state) : state * outcome :=
  let '(buf, s) := getResBuf s in
  match generate EventIncomingData h with
  | inr _ => (putResBuf s, Returned)
  | inl ctx =>
      match read_loop ctx chunks fin buf h s with
      | (s, Returned) => (putResBuf s, Returned)
      | (s, Waiting) => (s, Waiting)
      end
  end.

Definition serve_conn (chunks : list bytes) (fin : ending) (h : handler) (s : state) : state * outcome :=
  match generate EventConnected h with
  | inr _ => (s, Returned)
  | inl c =>
      let '(p, s) := getPayload s in
      match exec_ (MkPayload c (pld_Body p)) s with
      | (s, inr _) => (putPayload (do_ CloseConn s), Returned)
      | (s, inl rsp) =>
          match handleAndContinue rsp h (putPayload s) with
          | (s, true) => readLoop chunks fin h s
          | (s, false) => (s, Returned)
          end
      end
  end.

Definition Start (chunks : list bytes) (fin : ending) (h : handler) (s : state) : state * outcome :=
  match serve_conn chunks fin h (with_conns ({[uuid h]} ∪ connections s) s) with
  | (s, Returned) => (with_conns (connections s ∖ {[uuid h]}) s, Returned)
  | (s, Waiting) => (s, Waiting)
  end.
End Handler.

(** ** What the worker is told *)

Section Spec.
Context `{PE : Peer}.

(** The requests among the calls. *)
Definition execs (l : log) : list Payload := omap (λ x, match x with Exec p => Some p | _ => None end) l.

Lemma execs_app l1 l2 : execs (l1 ++ l2) = execs l1 ++ execs l2.
Proof. apply omap_app. Qed.

(** Objects in the pools hold nothing of earlier requests. *)
Definition clean (s : state) : Prop := Forall (eq nil_payload) (pldPool s) ∧ Forall (eq "") (resBufPool s).

(** [s'] has made the calls [l] more, on the same connections. *)
Definition after (s : state) (l : log) (s' : state) : Prop :=
  made s' = made s ++ l ∧ connections s' = connections s ∧ (clean s → clean s').

Lemma after_refl s : after s [] s.
Proof. split_and!; [by rewrite app_nil_r|done|done]. Qed.
Lemma after_trans s l1 s1 l2 s2 : after s l1 s1 → after s1 l2 s2 → after s (l1 ++ l2) s2.
Proof. intros (E1 & E2 & E3) (F1 & F2 & F3). split_and!; [by rewrite F1, E1, (assoc_L (++))|congruence|auto]. Qed.
Lemma after_do x s : after s [x] (do_ x s).
Proof. by split_and!. Qed.
Lemma after_put s : after s [] (putPayload s).
Proof. split_and!; [by rewrite app_nil_r|done|]. intros []. split; [by constructor|done]. Qed.
Lemma after_put_res s : after s [] (putResBuf s).
Proof. split_and!; [by rewrite app_nil_r|done|]. intros []. split; [done|by constructor]. Qed.

Lemma getPayload_spec s p s' : getPayload s = (p, s') → after s [] s' ∧ (clean s → p = nil_payload).
Proof.
  unfold getPayload. destruct (pool_get _ _ _) as [q l] eqn:E. intros [= <- <-]. split.
  - split_and!; [simpl; by rewrite app_nil_r|done|]. intros [H1 H2].
    destruct (Forall_pool_get (eq nil_payload) _ _ _ _ _ eq_refl H1 E) as [_ Hl]. by split.
  - intros [H1 _]. by destruct (Forall_pool_get (eq nil_payload) _ _ _ _ _ eq_refl H1 E) as [<- _].
Qed.

Lemma getResBuf_spec s b s' : getResBuf s = (b, s') → after s [] s' ∧ (clean s → b = "").
Proof.
  unfold getResBuf. destruct (pool_get _ _ _) as [q l] eqn:E. intros [= <- <-]. split.
  - split_and!; [simpl; by rewrite app_nil_r|done|]. intros [H1 H2].
    destruct (Forall_pool_get (eq "") _ _ _ _ _ eq_refl H2 E) as [_ Hl]. by split.
  - intros [_ H2]. by destruct (Forall_pool_get (eq "") _ _ _ _ _ eq_refl H2 E) as [<- _].
Qed.

Variable h : handler.
Variables connected data closed : bytes.
Hypothesis marshal_connected : generate EventConnected h = inl connected.
Hypothesis marshal_data : generate EventIncomingData h = inl data.
Hypothesis marshal_close : generate EventClose h = inl closed.

Definition close_request : call := Exec (MkPayload closed "").

Lemma sendClose_spec s : clean s → after s [close_request] (sendClose h s).
Proof.
  intros Hc. unfold sendClose. rewrite marshal_close. destruct (getPayload s) as [p s1] eqn:E.
  destruct (getPayload_spec _ _ _ E) as [A1 ->]; [|done]. unfold exec_. cbn [fst].
  apply (after_trans s [] s1 [close_request]); [done|].
  apply (after_trans s1 [close_request] (do_ close_request s1) []); [apply after_do|apply after_put].
Qed.

Lemma close_and_tell s : clean s → after s [CloseConn; close_request] (sendClose h (do_ CloseConn s)).
Proof. intros Hc. apply (after_trans s [CloseConn] (do_ CloseConn s) [close_request]); [apply after_do|by apply sendClose_spec]. Qed.

(** How the handling of a connection ends: with the close request, or with a
    request that the worker could not answer and the close of the connection. *)
Definition ended (s s' : state) : Prop :=
  ∃ l, after s l s' ∧
    ((∃ l', l = l' ++ [close_request]) ∨
     (∃ l' p e, l = l' ++ [Exec p; CloseConn] ∧ wPool (made s ++ l') p = inr e)).

Lemma ended_after s l s1 s' : after s l s1 → ended s1 s' → ended s s'.
Proof.
  intros A (l1 & A1 & H). exists (l ++ l1). split; [by eapply after_trans|].
  destruct H as [[l' ->]|(l' & p & e & -> & He)].
  - left. exists (l ++ l'). by rewrite (assoc_L (++)).
  - right. exists (l ++ l'), p, e. rewrite (assoc_L (++)). split; [done|].
    destruct A as (E & _). by rewrite E, <- (assoc_L (++)) in He.
Qed.

Lemma ended_close s s' l : after s (l ++ [close_request]) s' → ended s s'.
Proof. intros A. eexists. split; [exact A|]. left. by eexists. Qed.

Lemma ended_put s s' : ended s s' → ended s (putPayload s').
Proof. intros (l & A & H). exists l. split; [|done]. rewrite <- (app_nil_r l). eapply after_trans; [done|apply after_put]. Qed.
Lemma ended_put_res s s' : ended s s' → ended s (putResBuf s').
Proof. intros (l & A & H). exists l. split; [|done]. rewrite <- (app_nil_r l). eapply after_trans; [done|apply after_put_res]. Qed.

(** The worker's answer decides: go on after the write it asked for, or end. *)
Lemma handleAndContinue_spec rsp s s' b :
  clean s → handleAndContinue rsp h s = (s', b) →
  if b then ∃ l, after s l s' ∧ execs l = [] ∧
              (l = [] ∧ pld_Context rsp = CONTINUE ∨ l = [Write (pld_Body rsp)] ∧ pld_Context rsp = WRITE)
  else ended s s'.
Proof.
  intros Hc. unfold handleAndContinue.
  assert (W : clean (do_ (Write (pld_Body rsp)) s)) by (by apply after_do).
  destruct (String.eqb_spec (pld_Context rsp) CONTINUE) as [E1|_].
  { intros [= <- <-]. exists []. split_and!; [apply after_refl|done|by left]. }
  destruct (String.eqb_spec (pld_Context rsp) WRITE) as [E2|_].
  { destruct (write_answer _ _); intros [= <- <-].
    - apply (ended_after _ [Write (pld_Body rsp)] (do_ (Write (pld_Body rsp)) s)); [apply after_do|].
      apply (ended_close _ _ [CloseConn]). by apply close_and_tell.
    - eexists. split_and!; [apply after_do|done|by right]. }
  destruct (String.eqb (pld_Context rsp) WRITECLOSE).
  { destruct (write_answer _ _); intros [= <- <-];
      (apply (ended_after _ [Write (pld_Body rsp)] (do_ (Write (pld_Body rsp)) s)); [apply after_do|]);
      apply (ended_close _ _ [CloseConn]); by apply close_and_tell. }
  intros [= <- <-]. apply (ended_close _ _ [CloseConn]). by apply close_and_tell.
Qed.

Lemma deliver_spec ctx buf s s' b :
  clean s → deliver ctx buf h s = (s', b) →
  if b then ∃ l, after s (Exec (MkPayload ctx buf) :: l) s' ∧ execs l = [] else ended s s'.
Proof.
  intros Hc. unfold deliver. destruct (getPayload s) as [p s1] eqn:E.
  destruct (getPayload_spec _ _ _ E) as [A1 _]. unfold exec_.
  set (s2 := do_ (Exec (MkPayload ctx buf)) s1).
  assert (A2 : after s [Exec (MkPayload ctx buf)] s2).
  { apply (after_trans s [] s1 [_]); [done|apply after_do]. }
  assert (Hc2 : clean s2) by by apply A2.
  destruct (wPool (made s1) (MkPayload ctx buf)) as [rsp|e] eqn:Ew.
  - destruct (handleAndContinue rsp h s2) as [s3 b3] eqn:Eh. intros [= <- <-].
    apply handleAndContinue_spec in Eh; [|done]. destruct b3.
    + destruct Eh as (l & A3 & Hl & _). exists (l ++ []). split; [|by rewrite app_nil_r].
      apply (after_trans s [Exec (MkPayload ctx buf)] s2 (l ++ [])); [done|].
      eapply after_trans; [done|apply after_put].
    + apply ended_put. by eapply ended_after.
  - intros [= <- <-]. apply ended_put. exists [Exec (MkPayload ctx buf); CloseConn]. split.
    + apply (after_trans s [Exec (MkPayload ctx buf)] s2 [CloseConn]); [done|apply after_do].
    + right. exists [], (MkPayload ctx buf), e. split; [done|]. destruct A1 as (E1 & _). by rewrite <- E1.
Qed.

Lemma after_clean s l s' : after s l s' → clean s → clean s'.
Proof. intros (_ & _ & H). exact H. Qed.

Lemma at_eof_ended buf s : clean s → ended s (at_eof data buf h s).
Proof.
  intros Hc. unfold at_eof. pose proof (sendClose_spec s Hc) as A. destruct (String.eqb buf "").
  { apply (ended_close _ _ []). exact A. }
  eapply ended_after; [exact A|]. destruct (deliver data buf h (sendClose h s)) as [s1 b] eqn:E.
  apply deliver_spec in E; [|by eapply after_clean]. destruct b; [|done].
  destruct E as (l & A1 & _). apply (ended_close _ _ (Exec (MkPayload data buf) :: l)).
  eapply after_trans; [exact A1|]. apply sendClose_spec. eapply after_clean; [exact A1|]. by eapply after_clean.
Qed.

Lemma read_loop_ended chunks fin buf s s' o :
  delim h ≠ "" → clean s → read_loop data chunks fin buf h s = (s', o) →
  match o with Returned => ended s s' | Waiting => fin = Silent ∧ ∃ l, after s l s' end.
Proof.
  intros Hd. revert buf s. induction chunks as [|c rest IH]; intros buf s Hc; cbn [read_loop].
  { destruct fin; intros [= <- <-].
    - by apply at_eof_ended.
    - apply (ended_close _ _ [CloseConn]). by apply close_and_tell.
    - split; [done|]. exists []. apply after_refl. }
  destruct (_ <? _)%nat.
  { intros [= <- <-]. apply (ended_close _ _ [CloseConn]). by apply close_and_tell. }
  destruct (HasSuffix c (delim h)) eqn:Es; [|by apply IH].
  destruct (String.eqb_spec (buf +:+ c) "") as [E0|_].
  { apply HasSuffix_spec in Es as [t ->]. apply (f_equal chars) in E0. rewrite !chars_app in E0.
    destruct (delim h); [done|]. simpl in E0. by destruct (chars buf), (chars t). }
  destruct (deliver data (buf +:+ c) h s) as [s1 b] eqn:Ed. apply deliver_spec in Ed; [|done].
  destruct b; [|by intros [= <- <-]]. destruct Ed as (l & A & _). intros Hr.
  apply IH in Hr; [|by eapply after_clean]. destruct o; [by eapply ended_after|].
  destruct Hr as [-> [l2 A2]]. split; [done|]. eexists. by eapply after_trans.
Qed.


(** *** A worker that goes on *)

(** The pieces that end in the delimiter, and what is left. *)
Fixpoint frames (d acc : bytes) (chunks : list bytes) : list bytes * bytes :=
  match chunks with
  | [] => ([], acc)
  | c :: rest =>
      if HasSuffix c d then let '(fs, r) := frames d "" rest in ((acc +:+ c) :: fs, r)
      else frames d (acc +:+ c) rest
  end.

Definition join (l : list bytes) : bytes := foldr String.append "" l.

Lemma frames_join d acc chunks fs r : frames d acc chunks = (fs, r) → join fs +:+ r = acc +:+ join chunks.
Proof.
  revert acc fs r. induction chunks as [|c rest IH]; intros acc fs r; simpl.
  { intros [= <- <-]. apply chars_inj. by rewrite !chars_app, app_nil_r. }
  destruct (HasSuffix c d).
  - destruct (frames d "" rest) as [fs1 r1] eqn:E. intros [= <- <-]. apply IH in E. simpl in *.
    by rewrite append_assoc, E, append_assoc.
  - intros E. rewrite (IH _ _ _ E), append_assoc. done.
Qed.

Definition obliging : Prop := ∀ l p, ∃ rsp, wPool l p = inl rsp ∧
  (pld_Context rsp = CONTINUE ∨ pld_Context rsp = WRITE ∧ ∀ l', write_answer l' (pld_Body rsp) = None).

Lemma handle_obliging rsp s :
  pld_Context rsp = CONTINUE ∨ pld_Context rsp = WRITE ∧ (∀ l', write_answer l' (pld_Body rsp) = None) →
  ∃ s' l, handleAndContinue rsp h s = (s', true) ∧ after s l s' ∧ execs l = [].
Proof.
  unfold handleAndContinue. intros [-> |[-> Hw]]; cbn.
  - exists s, []. split_and!; [done|apply after_refl|done].
  - rewrite Hw. eexists _, _. split_and!; [done|apply after_do|done].
Qed.

Lemma deliver_obliging buf s : obliging → clean s →
  ∃ s' l, deliver data buf h s = (s', true) ∧ after s (Exec (MkPayload data buf) :: l) s' ∧ execs l = [].
Proof.
  intros Ho Hc. unfold deliver. destruct (getPayload s) as [p s1] eqn:E.
  destruct (getPayload_spec _ _ _ E) as [A1 _]. unfold exec_.
  destruct (Ho (made s1) (MkPayload data buf)) as (rsp & -> & Hr).
  destruct (handle_obliging rsp (do_ (Exec (MkPayload data buf)) s1) Hr) as (s2 & l & -> & A2 & Hl).
  exists (putPayload s2), (l ++ []). split; [done|]. split; [|by rewrite app_nil_r].
  apply (after_trans s [] s1 (Exec (MkPayload data buf) :: l ++ [])); [done|].
  apply (after_trans s1 [Exec (MkPayload data buf)] (do_ (Exec (MkPayload data buf)) s1)); [apply after_do|].
  eapply after_trans; [exact A2|apply after_put].
Qed.

(** What the worker is told at the end of the stream. *)
Definition farewell (rest : bytes) : list Payload :=
  MkPayload closed "" :: (if String.eqb rest "" then [] else [MkPayload data rest; MkPayload closed ""]).

Lemma read_loop_obliging chunks buf s fs rest :
  obliging → clean s → delim h ≠ "" → Forall (λ c, String.length (delim h) ≤ String.length c)%nat chunks →
  frames (delim h) buf chunks = (fs, rest) →
  ∃ s' l, read_loop data chunks AtEof buf h s = (s', Returned) ∧ after s l s' ∧
    execs l = (MkPayload data <$> fs) ++ farewell rest.
Proof.
  intros Ho Hc Hd Hl. revert buf s fs Hc. induction Hl as [|c chunks Hlen Hl IH]; intros buf s fs Hc Hf; cbn [read_loop].
  - injection Hf as <- <-. unfold at_eof, farewell. pose proof (sendClose_spec s Hc) as A.
    assert (Hc1 : clean (sendClose h s)) by by eapply after_clean.
    destruct (String.eqb buf ""); [by eexists _, _|].
    destruct (deliver_obliging buf _ Ho Hc1) as (s2 & l & -> & A2 & Hex). eexists _, _. split; [done|].
    split; [eapply after_trans; [exact A|]; eapply after_trans; [exact A2|apply sendClose_spec; by eapply after_clean]|].
    simpl. rewrite execs_app, Hex. done.
  - simpl in Hf. destruct (Nat.ltb_spec (String.length c) (String.length (delim h))); [lia|].
    destruct (HasSuffix c (delim h)) eqn:Es; [|by apply IH].
    destruct (frames (delim h) "" chunks) as [fs1 r1] eqn:E1. injection Hf as <- <-.
    destruct (String.eqb_spec (buf +:+ c) "") as [E0|_].
    { apply HasSuffix_spec in Es as [t ->]. apply (f_equal chars) in E0. rewrite !chars_app in E0.
      destruct (delim h); [done|]. simpl in E0. by destruct (chars buf), (chars t). }
    destruct (deliver_obliging (buf +:+ c) s Ho Hc) as (s1 & l & -> & A & Hex).
    destruct (IH "" s1 fs1 ltac:(by eapply after_clean) E1) as (s2 & l2 & E2 & A2 & Hex2).
    eexists _, _. split; [exact E2|]. split; [eapply after_trans; [exact A|exact A2]|].
    simpl. by rewrite execs_app, Hex, Hex2.
Qed.

(** A worker that always goes on is told of the connection, then of each piece
    up to a read that ends in the delimiter, and of the close; together the
    pieces are what the peer sent.  Data after the last delimiter is sent too,
    between two close requests. *)
Theorem tcp_delivers_stream chunks s fs rest :
  obliging → clean s → delim h ≠ "" → Forall (λ c, String.length (delim h) ≤ String.length c)%nat chunks →
  frames (delim h) "" chunks = (fs, rest) →
  (∃ s', Start chunks AtEof h s = (s', Returned) ∧
    execs (made s') = execs (made s) ++ MkPayload connected "" :: (MkPayload data <$> fs) ++ farewell rest) ∧
  join fs +:+ rest = join chunks.
Proof.
  intros Ho Hc Hd Hl Hf. split; [|by apply frames_join in Hf].
  unfold Start, serve_conn. set (s0 := with_conns _ s). assert (Hc0 : clean s0) by exact Hc.
  rewrite marshal_connected. destruct (getPayload s0) as [p s1] eqn:E.
  destruct (getPayload_spec _ _ _ E) as [A1 ->]; [|done]. unfold exec_.
  destruct (Ho (made s1) (MkPayload connected "")) as (rsp & Hw & Hr). cbn [pld_Body nil_payload]. rewrite Hw.
  set (s2 := do_ (Exec (MkPayload connected "")) s1).
  assert (A2 : after s0 ([Exec (MkPayload connected "")] ++ []) (putPayload s2)).
  { eapply after_trans; [|apply after_put]. apply (after_trans s0 [] s1 [_]); [done|apply after_do]. }
  destruct (handle_obliging rsp (putPayload s2) Hr) as (s3 & l3 & -> & A3 & Hex3).
  unfold readLoop. destruct (getResBuf s3) as [buf s4] eqn:Eb. destruct (getResBuf_spec _ _ _ Eb) as [A4 Hb].
  assert (Hc3 : clean s3) by (eapply after_clean; [exact A3|by eapply after_clean]).
  rewrite Hb by done. rewrite marshal_data.
  destruct (read_loop_obliging chunks "" s4 fs rest Ho) as (s5 & l5 & -> & A5 & Hex5); [by eapply after_clean|done..|].
  eexists. split; [done|]. simpl.
  destruct A2 as (M2 & _), A3 as (M3 & _), A4 as (M4 & _), A5 as (M5 & _).
  rewrite M5, M4, M3, M2, !execs_app, Hex3, Hex5. cbn. by rewrite !app_nil_r, <- (assoc_L (++)).
Qed.

(** A read that is shorter than the delimiter ends the connection: the data
    before it since the last delimiter is not sent to the worker, and nothing
    more is read. *)
Theorem tcp_short_read_closes c rest fin buf s :
  clean s → (String.length c < String.length (delim h))%nat →
  ∃ s', read_loop data (c :: rest) fin buf h s = (s', Returned) ∧ made s' = made s ++ [CloseConn; close_request].
Proof.
  intros Hc Hl. cbn [read_loop]. rewrite (proj2 (Nat.ltb_lt _ _) Hl). eexists. split; [done|].
  by destruct (close_and_tell s Hc) as (-> & _).
Qed.
End Spec.

(** ** The plugin *)

Record ServerConf := MkServer { Addr : string; Delimiter : string; delimBytes : bytes }.

(** [P]: the configuration of the worker pool, a library. *)
Record Config (P : Type) := MkConfig {
  Servers : gmap string (option ServerConf); ReadBufferSize : Z; Pool : option P }.
Arguments MkConfig {P}. Arguments Servers {P}. Arguments ReadBufferSize {P}. Arguments Pool {P}.

Definition CRLF : string := text [Ascii.ascii_of_nat 13; Ascii.ascii_of_nat 10].

(** A section without values is a nil pointer. *)
Definition init_server (k : string) (v : option ServerConf) : res ServerConf :=
  match v with
  | None => Panic
  | Some v =>
      let v := if String.eqb (Delimiter v) "" then MkServer (Addr v) CRLF CRLF else v in
      if String.eqb (Addr v) "" then Err (EErrorf "empty address for the server: %s" [k])
      else if (0 <? String.length (delimBytes v))%nat then Ok v
      else Ok (MkServer (Addr v) (Delimiter v) (Delimiter v))
  end.

Fixpoint init_servers (l : list (string * option ServerConf)) (m : gmap string (option ServerConf))
    : res (gmap string (option ServerConf)) :=
  match l with
  | [] => Ok m
  | (k, v) :: l' => v' ← init_server k v; init_servers l' (<[k := Some v']> m)
  end.

Section Plugin.
Context {P : Type} (new_pool : P) (pool_InitDefaults : P → P) `{GoRange}.

Definition InitDefault (c : Config P) : res (Config P) :=
  if decide (size (Servers c) = 0%nat) then Err (EStr "no servers registered") else
  servers ← init_servers (range_map (Servers c)) (Servers c);
  Ok (MkConfig servers (if (ReadBufferSize c =? 0)%Z then 1024 * 1024 * 1 else ReadBufferSize c)%Z
    (Some (pool_InitDefaults (default new_pool (Pool c))))).

(** Connections and listeners are numbers; [shut] are the ones closed, in
    order. *)
Inductive resource := Conn (n : nat) | Listener (n : nat).
Record Plugin := MkPlugin {
  cfg : Config P; conns : gmap string nat; listeners : gmap string nat; shut : list resource }.

(** [unmarshal] answers nothing for an empty section, which leaves the pointer
    nil. *)
Definition Init (has : string → bool) (unmarshal : string → res (option (Config P))) : res Plugin :=
  let op := "tcp_plugin_init" in
  if negb (has "tcp") then Err (EOp op (EKind Disabled)) else
  c ← wrap_err op (unmarshal "tcp");
  match c with
  | None => Panic
  | Some c => c ← InitDefault c; Ok (MkPlugin c ∅ ∅ [])
  end.

(** The goroutines [Serve] starts: address, delimiter and name of a server; the
    configuration holds no nil pointers after [InitDefault]. *)
Definition Serve (NewWorkerPool : option error) (p : Plugin) : list (string * bytes * string) + error :=
  match NewWorkerPool with
  | Some e => inr e
  | None => inl (omap (λ kv, (λ v, (Addr v, delimBytes v, kv.1)) <$> kv.2) (range_map (Servers (cfg p))))
  end.

Definition NewHandler (remote uuid delim name : string) : handler := MkHandler remote name delim uuid.

(** What one of them does: [accepted] are the peers and the identifiers of the
    connections [Accept] returns until it reports an error. *)
Definition serve_one (g : string * bytes * string) (CreateListener : nat + error) (id : string)
    (accepted : list (string * string)) (p : Plugin) : Plugin * (list handler + error) :=
  match CreateListener with
  | inr e => (p, inr e)
  | inl l =>
      (MkPlugin (cfg p) (conns p) (<[id := l]> (listeners p)) (shut p),
       inl ((λ a, NewHandler a.1 a.2 g.1.2 g.2) <$> accepted))
  end.

Definition Stop (p : Plugin) : Plugin :=
  MkPlugin (cfg p) (conns p) (listeners p)
    (shut p ++ (Conn ∘ snd <$> range_map (conns p)) ++ (Listener ∘ snd <$> range_map (listeners p))).

Definition Reset (e : option error) : option error := EOp "tcp_reset" <$> e.

(** [close]: what closing the connection answers. *)
Definition Close (close : nat → option error) (uuid : string) (p : Plugin) : Plugin * option error :=
  match conns p !! uuid with
  | Some c => (MkPlugin (cfg p) (delete uuid (conns p)) (listeners p) (shut p ++ [Conn c]), close c)
  | None => (p, None)
  end.

Definition rpc_Close (close : nat → option error) (uuid : string) (p : Plugin) : Plugin * bool * option error :=
  let '(p, e) := Close close uuid p in (p, true, e).

(** *** Configuration *)

Definition server_ok (v : ServerConf) : Prop := Addr v ≠ "" ∧ Delimiter v ≠ "" ∧ delimBytes v ≠ "".

Lemma init_server_ok k v v' : init_server k v = Ok v' → server_ok v'.
Proof.
  unfold init_server. destruct v as [[a d b]|]; [|done]. cbn [Delimiter].
  destruct (String.eqb_spec d "") as [_|Hd]; cbn [Addr Delimiter delimBytes];
    (destruct (String.eqb_spec a "") as [|Ha]; [done|]).
  - intros [= <-]. by split_and!.
  - destruct b as [|x b]; cbn; intros [= <-]; by split_and!.
Qed.

Lemma init_servers_ok l m m' :
  init_servers l m = Ok m' → NoDup l.*1 →
  ∀ k, (k ∉ l.*1 → m' !! k = m !! k) ∧ (k ∈ l.*1 → ∃ v, m' !! k = Some (Some v) ∧ server_ok v).
Proof.
  revert m. induction l as [|[k0 v0] l IH]; intros m; simpl.
  { intros [= <-] _ k. split; [done|]. intros []%not_elem_of_nil. }
  destruct (init_server k0 v0) as [v1|e|] eqn:E; try done. intros Hr [Hn Hnd]%NoDup_cons k.
  destruct (IH _ Hr Hnd k) as [H1 H2]. split.
  - intros [Hne Hnin]%not_elem_of_cons. rewrite H1 by done. by rewrite lookup_insert_ne.
  - intros [-> |Hin]%elem_of_cons; [|by apply H2]. exists v1. split; [|by eapply init_server_ok].
    rewrite H1 by done. by rewrite lookup_insert_eq.
Qed.

(** A configuration that [InitDefault] accepts has servers, and every handler
    that [Serve] starts for it has a delimiter. *)
Theorem tcp_config_delims has unmarshal p gs g e l id acc p' hs h :
  Init has unmarshal = Ok p → Serve e p = inl gs → g ∈ gs → serve_one g l id acc p = (p', inl hs) → h ∈ hs →
  delim h ≠ "" ∧ serverName h = g.2 ∧ g.1.1 ≠ "" ∧ ReadBufferSize (cfg p) ≠ 0%Z.
Proof.
  unfold Init. destruct (negb _); [done|]. destruct (unmarshal "tcp") as [[c|]|x|]; simpl; try done.
  unfold InitDefault. destruct (decide _); [done|].
  destruct (init_servers _ _) as [m|x|] eqn:E; simpl; try done. intros [= <-]. unfold Serve. destruct e; [done|].
  intros [= <-] Hg. cbn [cfg Servers] in Hg. apply list_elem_of_omap in Hg as ([k v] & Hin & Hg).
  apply elem_of_range_map in Hin. unfold serve_one. destruct l as [l|]; [|done]. intros [= <- <-] Hh.
  apply list_elem_of_fmap in Hh as (a & -> & _).
  destruct (init_servers_ok _ _ _ E (range_map_NoDup _) k) as [H1 H2].
  destruct (decide (k ∈ (range_map (Servers c)).*1)) as [Hk|Hk].
  - destruct (H2 Hk) as (v' & Hv & Ha & _ & Hd). rewrite Hin in Hv. injection Hv as ->. simpl in Hg.
    injection Hg as <-. split_and!; [done|done|done|]. cbn [cfg ReadBufferSize].
    destruct (Z.eqb_spec (ReadBufferSize c) 0); done.
  - exfalso. apply Hk. rewrite H1 in Hin by done. apply list_elem_of_fmap. exists (k, v). split; [done|].
    by apply elem_of_range_map.
Qed.
End Plugin.

(** ** A worker that answers with the data it got *)

Section examples.
Local Instance echo : Peer := {|
  marshal i := inl (Event i);
  wPool l p := inl (MkPayload (if String.eqb (pld_Context p) "DATA" then WRITE else CONTINUE) (pld_Body p));
  write_answer _ _ := None;
  pick _ := Some 0%nat |}.

Definition w_handler : handler := NewHandler "127.0.0.1:5" "u1" CRLF "server1".
Definition w_state : state := MkState [] [] [] ∅.
Definition w_chunks : list bytes := ["hello "; "world" +:+ CRLF; "bye"].

Lemma echo_obliging : obliging.
Proof.
  intros l p. eexists. split; [done|]. destruct (String.eqb (pld_Context p) "DATA") eqn:E; simpl; rewrite ?E; [by right|by left].
Qed.

Lemma tcp_delivers_stream_witness :
  execs (made (Start w_chunks AtEof w_handler w_state).1) =
    [MkPayload "CONNECTED" ""; MkPayload "DATA" ("hello world" +:+ CRLF); MkPayload "CLOSE" "";
     MkPayload "DATA" "bye"; MkPayload "CLOSE" ""].
Proof.
  destruct (tcp_delivers_stream (PE := echo) w_handler "CONNECTED" "DATA" "CLOSE" eq_refl eq_refl eq_refl w_chunks w_state
    ["hello world" +:+ CRLF] "bye") as [(s' & E1 & E2) _];
    [exact echo_obliging|by split|done|repeat constructor; simpl; lia|reflexivity|].
  rewrite E1. exact E2.
Defined.


Lemma tcp_short_read_closes_witness :
  ∃ s', read_loop "DATA" ["a"; "b"] AtEof "lost" w_handler w_state = (s', Returned) ∧
    made s' = [CloseConn; close_request "CLOSE"].
Proof.
  apply (tcp_short_read_closes (PE := echo) w_handler "DATA" "CLOSE" eq_refl "a" ["b"] AtEof "lost" w_state); [by split|simpl; lia].
Defined.

Local Instance tcp_range : GoRange.
Proof. refine {| range_map A m := map_to_list m |}. done. Defined.

Definition w_config : Config unit :=
  MkConfig {[ "server1" := Some (MkServer "tcp://127.0.0.1:7777" "" "") ]} 0 None.
Definition w_plugin : Plugin :=
  match Init tt id (λ _, true) (λ _, Ok (Some w_config)) with Ok p => p | _ => MkPlugin w_config ∅ ∅ [] end.

Lemma tcp_config_delims_witness :
  ∃ gs g, Serve None w_plugin = inl gs ∧ g ∈ gs ∧ g.1.2 ≠ "".
Proof.
  eexists _, (_, _, _). split; [vm_compute; reflexivity|]. split; [left|].
  destruct (tcp_config_delims tt id (λ _, true) (λ _, Ok (Some w_config)) w_plugin
    [("tcp://127.0.0.1:7777", CRLF, "server1")] ("tcp://127.0.0.1:7777", CRLF, "server1") None (inl 3%nat) "l"
    [("127.0.0.1:5", "u1")] (serve_one ("tcp://127.0.0.1:7777", CRLF, "server1") (inl 3%nat) "l" [] w_plugin).1
    [w_handler] w_handler) as (Hd & _); [vm_compute; reflexivity|vm_compute; reflexivity|left|reflexivity|left|exact Hd].
Defined.
End examples.
End Tcp.
