(* ===== verification/Grpc.v ===== *)
(** * The gRPC server ([grpc], [grpc/codec], [grpc/parser], [grpc/proxy])

    The plugin reads the services of its proto files, registers a proxy for
    each with the gRPC library, and every proxy forwards the raw request to a
    worker.  The proto grammar, the gRPC, TLS and JSON libraries and the
    worker pool are arguments. *)

From stdpp Require Import base gmap strings list.
From Stdlib Require Import Ascii ZArith Lia.
From S2P Require Import Prelude GoStrings.
Local Open Scope Z_scope.

(** ** [path.Dir] *)

Module Path.
(** The components of a cleaned path, the last one first. *)
Definition push (rooted : bool) (st : list string) (c : string) : list string :=
  if String.eqb c "" || String.eqb c "." then st
  else if String.eqb c ".." then
    match st with
    | [] => if rooted then [] else [".."]
    | d :: st' => if String.eqb d ".." then ".." :: st else st'
    end
  else c :: st.

Definition rooted (s : string) : bool := HasPrefix s "/".

Definition Clean (s : string) : string :=
  let parts := rev (foldl (push (rooted s)) [] (Split s "/")) in
  let body := text (join_with "/" (map chars parts)) in
  let p := if rooted s then "/" +:+ body else body in
  if String.eqb p "" then "." else p.

(** Everything up to the last slash. *)
Definition dir_part (s : string) : string :=
  text (rev (drop_while (λ a, negb (Ascii.eqb a "/")) (rev (chars s)))).

Definition Dir (s : string) : string := Clean (dir_part s).

Example Dir_file : Dir "a.proto" = "." ∧ Dir "/etc/proto/x.proto" = "/etc/proto" ∧ Dir "a/../b//x" = "b".
Proof. done. Qed.
End Path.

(** ** Raw messages ([codec.go]) *)

Module Codec.
(** A value the library marshals: a raw message, a pointer to one that is to be
    filled, or another message. *)
Inductive value (A : Type) := Raw (b : bytes) | RawRef (b : bytes) | Other (a : A).
Arguments Raw {A}. Arguments RawRef {A}. Arguments Other {A}.

Definition Marshal {A} (base : value A → bytes + error) (v : value A) : bytes + error :=
  match v with Raw b => inl b | _ => base v end.

(** The new content of [v]. *)
Definition Unmarshal {A} (base : bytes → value A → value A + error) (data : bytes) (v : value A) : value A + error :=
  match v with RawRef _ => inl (RawRef data) | _ => base data v end.
End Codec.

(** ** Configuration *)

Module GrpcConfig.
Inductive stat := StatOk | StatNotExist | StatErr (e : error).

Inductive auth := NoClientCert | RequestClientCert | RequireAnyClientCert | VerifyClientCertIfGiven
  | RequireAndVerifyClientCert.

Record TLS := MkTLS { Key : string; Cert : string; RootCA : string; AuthType : string; tls_auth : auth }.

Record Config (P : Type) := MkConfig {
  Listen : string; Proto : list string; tls : option TLS; Env : option (gmap string string); GrpcPool : option P;
  MaxSendMsgSize : Z; MaxRecvMsgSize : Z; MaxConnectionIdle : Z; MaxConnectionAge : Z;
  MaxConnectionAgeGrace : Z; MaxConcurrentStreams : Z; PingTime : Z; Timeout : Z }.
Arguments MkConfig {P}. Arguments Listen {P}. Arguments Proto {P}. Arguments tls {P}. Arguments Env {P}.
Arguments GrpcPool {P}. Arguments MaxSendMsgSize {P}. Arguments MaxRecvMsgSize {P}. Arguments MaxConnectionIdle {P}.
Arguments MaxConnectionAge {P}. Arguments MaxConnectionAgeGrace {P}. Arguments MaxConcurrentStreams {P}.
Arguments PingTime {P}. Arguments Timeout {P}.

Section Config.
Context {P : Type} (new_pool : P) (pool_InitDefaults : P → P) (Stat : string → stat).

Definition EnableTLS (c : Config P) : bool :=
  match tls c with
  | Some t =>
      let set s := negb (String.eqb s "") in
      (set (RootCA t) && set (Key t) && set (Cert t)) || (set (Key t) && set (Cert t))
  | None => false
  end.

Definition stat_check (op fmt path : string) : res unit :=
  match Stat path with
  | StatOk => Ok tt
  | StatNotExist => Err (EOp op (EErrorf fmt [path]))
  | StatErr e => Err (EOp op e)
  end.

Fixpoint check_protos (op : string) (l : list string) : res unit :=
  match l with
  | [] => Ok tt
  | f :: l' => if String.eqb f "" then check_protos op l' else
               stat_check op "proto file '%s' does not exists" f;; check_protos op l'
  end.

Definition auth_of (s : string) : auth :=
  if String.eqb s "no_client_cert" then NoClientCert
  else if String.eqb s "request_client_cert" then RequestClientCert
  else if String.eqb s "require_any_client_cert" then RequireAnyClientCert
  else if String.eqb s "verify_client_cert_if_given" then VerifyClientCertIfGiven
  else if String.eqb s "require_and_verify_client_cert" then RequireAndVerifyClientCert
  else NoClientCert.

Definition init_tls (op : string) (t : TLS) : res TLS :=
  stat_check op "key file '%s' does not exists" (Key t);;
  stat_check op "cert file '%s' does not exists" (Cert t);;
  if String.eqb (RootCA t) "" then Ok t else
  stat_check op "root ca path provided, but key file '%s' does not exists" (RootCA t);;
  Ok (MkTLS (Key t) (Cert t) (RootCA t) (AuthType t) (auth_of (AuthType t))).

Definition infinity : Z := 2 ^ 63 - 1.
Definition or_default (d z : Z) : Z := if z =? 0 then d else z.

(** Sizes are given in megabytes; the product wraps. *)
Definition megabytes (z : Z) : Z := if z =? 0 then 1024 * 1024 * 50 else i64 (1024 * 1024 * z).

Definition InitDefaults (c : Config P) : res (Config P) :=
  let op := "grpc_plugin_config" in
  let pool := pool_InitDefaults (default new_pool (GrpcPool c)) in
  if negb (contains (Listen c) ":") then Err (EOp op (EErrorf "mailformed grpc address, provided: %s" [Listen c])) else
  check_protos op (Proto c);;
  t ← match tls c with
      | Some t => if EnableTLS c then t ← init_tls op t; Ok (Some t) else Ok (Some t)
      | None => Ok None
      end;
  Ok (MkConfig (Listen c) (Proto c) t (Env c) (Some pool)
    (megabytes (MaxSendMsgSize c)) (megabytes (MaxRecvMsgSize c))
    (or_default infinity (MaxConnectionIdle c)) (or_default infinity (MaxConnectionAge c))
    (or_default infinity (MaxConnectionAgeGrace c)) (or_default 10 (MaxConcurrentStreams c))
    (or_default (2 * 3600 * 10 ^ 9) (PingTime c)) (or_default (20 * 10 ^ 9) (Timeout c))).
End Config.

(** *** Options of the server *)

Inductive creds := CA (cert key rootca : string) (a : auth) | FromFile (cert key : string).
Inductive server_option :=
  | OCreds (c : creds) | OMaxSendMsgSize (z : Z) | OMaxRecvMsgSize (z : Z)
  | OKeepalive (idle age grace time timeout : Z) | OMaxConcurrentStreams (z : Z) | OOther (n : nat) | OInterceptor.

(** What the TLS library and the file system answer. *)
Record tls_env := MkTlsEnv {
  LoadX509KeyPair : string → string → option error; SystemCertPool : option error;
  ReadFile : string → option error; AppendCertsFromPEM : string → bool;
  NewServerTLSFromFile : string → string → option error }.

Definition credentials (e : tls_env) (t : TLS) : creds + error :=
  if String.eqb (RootCA t) "" then
    match NewServerTLSFromFile e (Cert t) (Key t) with
    | Some x => inr x
    | None => inl (FromFile (Cert t) (Key t))
    end
  else
    match LoadX509KeyPair e (Cert t) (Key t), SystemCertPool e, ReadFile e (RootCA t) with
    | Some x, _, _ | None, Some x, _ | None, None, Some x => inr x
    | None, None, None =>
        if AppendCertsFromPEM e (RootCA t) then inl (CA (Cert t) (Key t) (RootCA t) (tls_auth t))
        else inr (EOp "grpc_plugin_server_options" (EStr "could not append Certs from PEM"))
    end.

(** [p_opts]: options of the plugin. *)
Definition serverOptions {P} (e : tls_env) (p_opts : list server_option) (c : Config P) : list server_option + error :=
  match (match tls c with
         | Some t =>
             if EnableTLS c then
               match credentials e t with
               | inr x => inr x
               | inl k => inl [OCreds k; OMaxSendMsgSize (MaxSendMsgSize c); OMaxRecvMsgSize (MaxRecvMsgSize c);
                   OKeepalive (MaxConnectionIdle c) (MaxConnectionAge c) (MaxConnectionAge c) (PingTime c) (Timeout c);
                   OMaxConcurrentStreams (u32 (MaxConcurrentStreams c))]
               end
             else inl []
         | None => inl []
         end) with
  | inr x => inr x
  | inl opts => inl (opts ++ p_opts ++ [OInterceptor])
  end.

(** Without TLS no limit of the configuration reaches the server. *)
Theorem grpc_limits_need_tls {P} (e : tls_env) (c : Config P) :
  EnableTLS c = false → serverOptions e [] c = inl [OInterceptor].
Proof. unfold serverOptions. intros H. destruct (tls c); by rewrite ?H. Qed.

Lemma bind_unit {A B} (m : res A) (k : res B) b : (m;; k) = Ok b → (∃ a, m = Ok a) ∧ k = Ok b.
Proof. destruct m; intros H; by eauto. Qed.

Lemma check_protos_ok Stat op l : check_protos Stat op l = Ok tt → Forall (λ f, f ≠ "" → Stat f = StatOk) l.
Proof.
  induction l as [|f l IH]; simpl; [by constructor|].
  destruct (String.eqb_spec f "") as [->|Hf].
  - intros H. constructor; [by intros []|auto].
  - intros [[[] Hs] H]%bind_unit. constructor; [|auto]. intros _. unfold stat_check in Hs. by destruct (Stat f).
Qed.

(** A configuration that [InitDefaults] accepts: the files it names exist, with
    TLS also the key and the certificate, durations and sizes are set, and a
    size below 2^43 megabytes is that many bytes. *)
Theorem grpc_config_wf {P} (np : P) (pi : P → P) Stat (c c' : Config P) :
  InitDefaults np pi Stat c = Ok c' →
  Forall (λ f, f ≠ "" → Stat f = StatOk) (Proto c') ∧
  (EnableTLS c' = true → ∃ t, tls c' = Some t ∧ Stat (Key t) = StatOk ∧ Stat (Cert t) = StatOk ∧
     (RootCA t ≠ "" → Stat (RootCA t) = StatOk ∧ tls_auth t = auth_of (AuthType t))) ∧
  is_Some (GrpcPool c') ∧ PingTime c' ≠ 0 ∧ Timeout c' ≠ 0 ∧ MaxConcurrentStreams c' ≠ 0 ∧
  (0 < MaxRecvMsgSize c < 2 ^ 43 → MaxRecvMsgSize c' = 1048576 * MaxRecvMsgSize c).
Proof.
  unfold InitDefaults. destruct (negb _); [done|]. intros [[[] Hp] H]%bind_unit.
  destruct (match tls c with Some t => _ | None => _ end) as [t| |] eqn:Et; try done. injection H as <-.
  cbn [Proto GrpcPool PingTime Timeout MaxConcurrentStreams MaxRecvMsgSize tls].
  assert (Hd : ∀ d z, d ≠ 0 → or_default d z ≠ 0).
  { intros d z ?. unfold or_default. by destruct (Z.eqb_spec z 0). }
  split; [by eapply check_protos_ok|]. split; [|split_and!; [done|by apply Hd|by apply Hd|by apply Hd|]].
  - intros He. destruct (tls c) as [t0|] eqn:Ec; [|injection Et as <-; done].
    destruct (EnableTLS c) eqn:Ee.
    + destruct (init_tls Stat "grpc_plugin_config" t0) as [t1| |] eqn:Ei; try done. injection Et as <-.
      exists t1. split; [done|]. unfold init_tls in Ei. apply bind_unit in Ei as [[[] H1] Ei].
      apply bind_unit in Ei as [[[] H2] Ei]. unfold stat_check in H1, H2.
      destruct (Stat (Key t0)) eqn:S1, (Stat (Cert t0)) eqn:S2; try done.
      destruct (String.eqb_spec (RootCA t0) "") as [E0|E0].
      * injection Ei as <-. done.
      * apply bind_unit in Ei as [[[] H3] Ei]. unfold stat_check in H3. destruct (Stat (RootCA t0)) eqn:S3; try done.
        by injection Ei as <-.
    + injection Et as <-. unfold EnableTLS in *. cbn [tls] in He. rewrite Ec in Ee. congruence.
  - intros Hz. unfold megabytes. destruct (Z.eqb_spec (MaxRecvMsgSize c) 0); [lia|]. rewrite i64_id; lia.
Qed.
End GrpcConfig.

(** ** Services of proto files ([parse.go]) *)

Module Parser.
Record Method := MkMethod {
  m_Name : string; StreamsRequest : bool; RequestType : string; StreamsReturns : bool; ReturnsType : string }.
Record Service := MkService { Package : string; s_Name : string; Methods : list Method }.

(** The elements of a parsed file, as far as they are looked at. *)
Inductive selement := SRpc (m : Method) | SOther.
Inductive element := EPackage (name : string) | EService (name : string) (els : list selement)
  | EImport (filename : string) | EOther.

Section Parser.
(** [parse_lib]: the file at a path opened and parsed by the library; nothing
    for a file that is missing or cannot be parsed. *)
Variable parse_lib : string → option (list element).

Fixpoint parsePackage (els : list element) : string :=
  match els with
  | [] => ""
  | EPackage n :: _ => n
  | _ :: els' => parsePackage els'
  end.

Definition parseMethods (els : list selement) : list Method :=
  omap (λ e, match e with SRpc m => Some m | SOther => None end) els.

Definition own_services (els : list element) : list Service :=
  omap (λ e, match e with EService n l => Some (MkService (parsePackage els) n (parseMethods l)) | _ => None end) els.

Definition imports (els : list element) : list string :=
  omap (λ e, match e with EImport f => Some f | _ => None end) els.

Definition import_path (importPath f : string) : string := importPath +:+ "/" +:+ f.

(** An import that cannot be read is skipped. *)
Fixpoint append_imports (rec : string → option (option (list Service))) (fs : list string) : option (list Service) :=
  match fs with
  | [] => Some []
  | f :: fs' =>
      r ← rec f;
      l ← append_imports rec fs';
      Some (default [] r ++ l)
  end.

(** The fuel bounds the depth of imports: [None] is a call that has not
    returned; an error is the inner [None]. *)
Fixpoint File (fuel : nat) (file importPath : string) : option (option (list Service)) :=
  match fuel with
  | O => None
  | S n =>
      match parse_lib file with
      | None => Some None
      | Some els =>
          l ← append_imports (λ f, File n (import_path importPath f) importPath) (imports els);
          Some (Some (own_services els ++ l))
      end
  end.

(** *** What a file and its imports declare *)

Definition is_rpc (e : selement) : bool := match e with SRpc _ => true | _ => false end.
Definition is_service (e : element) : bool := match e with EService _ _ => true | _ => false end.
Definition is_import (e : element) : bool := match e with EImport _ => true | _ => false end.

(** The package of a file: that of its first package statement. *)
Definition packaged (els : list element) (pkg : string) : Prop :=
  (∃ before after, els = before ++ EPackage pkg :: after ∧ ∀ q, EPackage q ∉ before) ∨
  (pkg = "" ∧ ∀ q, EPackage q ∉ els).

(** [s] is the service the element [e] of a file declares: its name, the
    package of the file, and its calls in order. *)
Definition declares (els : list element) (e : element) (s : Service) : Prop :=
  ∃ sels, e = EService (s_Name s) sels ∧ packaged els (Package s) ∧
    List.filter is_rpc sels = SRpc <$> Methods s.

(** The services read from a file, in order: one for each service element, then
    for each import element those read from the imported file, none when that
    cannot be parsed. *)
Inductive lists (importPath : string) : string → list Service → Prop :=
  Lists file els own parts :
    parse_lib file = Some els →
    Forall2 (declares els) (List.filter is_service els) own →
    Forall2 (λ e part, ∃ f, e = EImport f ∧
      (parse_lib (importPath +:+ "/" +:+ f) = None ∧ part = [] ∨ lists importPath (importPath +:+ "/" +:+ f) part))
      (List.filter is_import els) parts →
    lists importPath file (own ++ concat parts).

(** The files that imports lead to. *)
Inductive below (importPath file : string) : string → Prop :=
  | below_self : below importPath file file
  | below_import g els f : below importPath file g → parse_lib g = Some els → EImport f ∈ els →
      below importPath file (importPath +:+ "/" +:+ f).

Definition provides (importPath file : string) (s : Service) : Prop :=
  ∃ g els e, below importPath file g ∧ parse_lib g = Some els ∧ e ∈ els ∧ declares els e s.

(** Imports lead to files of a smaller rank. *)
Definition acyclic (importPath : string) (rank : string → nat) : Prop :=
  ∀ file els f, parse_lib file = Some els → EImport f ∈ els → (rank (importPath +:+ "/" +:+ f) < rank file)%nat.

Lemma parsePackage_spec els : packaged els (parsePackage els).
Proof.
  induction els as [|e els IH]; [right; split; [done|]; intros q; apply not_elem_of_nil|].
  destruct e as [n| | |]; [left; exists [], els; split; [done|intros q; apply not_elem_of_nil]|..].
  all: destruct IH as [(before & after & E & Hb)|[E Hb]]; cbn [parsePackage];
    [left; eexists (_ :: before), after; split; [exact (f_equal (cons _) E)|]|right; split; [done|]];
    intros q; rewrite elem_of_cons; (intros [?|?]; [done|by eapply Hb]).
Qed.

Lemma parseMethods_spec sels : List.filter is_rpc sels = SRpc <$> parseMethods sels.
Proof. induction sels as [|[m|] sels IH]; simpl; [done|by rewrite IH|done]. Qed.

Lemma own_services_spec els : Forall2 (declares els) (List.filter is_service els) (own_services els).
Proof.
  unfold own_services. pose proof (parsePackage_spec els) as Hp. revert Hp. generalize (parsePackage els).
  intros pkg Hp. assert (H : ∀ l, Forall2 (declares els) (List.filter is_service l)
    (omap (λ e, match e with EService n l => Some (MkService pkg n (parseMethods l)) | _ => None end) l)).
  { induction l as [|[| n sels | |] l IH]; simpl; [constructor|done| |done|done]. constructor; [|done].
    exists sels. split; [done|]. split; [done|]. apply parseMethods_spec. }
  apply H.
Qed.

Lemma imports_spec els : List.filter is_import els = EImport <$> imports els.
Proof. induction els as [|[] els IH]; simpl; [done|done|done|by rewrite IH|done]. Qed.

Lemma imports_elem els f : f ∈ imports els ↔ EImport f ∈ els.
Proof.
  unfold imports. rewrite list_elem_of_omap. split.
  - intros (e & He & E). destruct e; try done. by injection E as ->.
  - intros H. by exists (EImport f).
Qed.

Lemma append_imports_spec (Q : string → list Service → Prop) rec fs :
  (∀ f, f ∈ fs → ∃ r, rec f = Some r ∧ Q f (default [] r)) →
  ∃ parts, append_imports rec fs = Some (concat parts) ∧ Forall2 Q fs parts.
Proof.
  induction fs as [|f fs IH]; intros H; simpl; [exists []; split; [done|constructor]|].
  destruct (H f ltac:(left)) as (r & -> & Hr). destruct IH as (ls & -> & Hls); [intros; apply H; by right|].
  simpl. exists (default [] r :: ls). split; [done|]. by constructor.
Qed.

Lemma below_head importPath file g : below importPath file g →
  g = file ∨ ∃ els f, parse_lib file = Some els ∧ EImport f ∈ els ∧ below importPath (importPath +:+ "/" +:+ f) g.
Proof.
  induction 1 as [|g els f _ [->|(els' & f' & H1 & H2 & H3)] Hg Hf]; [by left|right..].
  - exists els, f. split; [done|]. split; [done|constructor].
  - exists els', f'. split; [done|]. split; [done|]. by eapply below_import.
Qed.

Lemma below_tail importPath file els f g : parse_lib file = Some els → EImport f ∈ els →
  below importPath (importPath +:+ "/" +:+ f) g → below importPath file g.
Proof.
  intros H1 H2. induction 1 as [|g els' f' _ IH Hg Hf]; [|by eapply below_import].
  eapply below_import; [constructor|done|done].
Qed.

Lemma packaged_unique els pkg : packaged els pkg → pkg = parsePackage els.
Proof.
  intros [(before & after & -> & Hb)|[-> Hb]].
  - induction before as [|e before IH]; [done|].
    destruct e as [n| | |]; [destruct (Hb n); left|..]; apply IH; intros q ?; apply (Hb q); by right.
  - induction els as [|e els IH]; [done|].
    destruct e as [n| | |]; [destruct (Hb n); left|..]; apply IH; intros q ?; apply (Hb q); by right.
Qed.

Lemma own_services_elem els s : s ∈ own_services els ↔ ∃ e, e ∈ els ∧ declares els e s.
Proof.
  unfold own_services. rewrite list_elem_of_omap. split.
  - intros (e & He & E). exists e. split; [done|]. destruct e as [|n sels| |]; try done. injection E as <-.
    exists sels. split; [done|]. split; [apply parsePackage_spec|apply parseMethods_spec].
  - intros (e & He & sels & -> & Hp%packaged_unique & Hm). eexists. split; [done|].
    rewrite parseMethods_spec in Hm. apply list_fmap_eq_inj in Hm; [|by intros ?? [= ->]].
    destruct s as [pkg n ms]. simpl in *. by subst.
Qed.

Lemma concat_elem {A} (Q : A → Service → Prop) l parts s :
  Forall2 (λ a part, ∀ s, s ∈ part ↔ Q a s) l parts → s ∈ concat parts ↔ ∃ a, a ∈ l ∧ Q a s.
Proof.
  induction 1 as [|a part l parts Ha _ IH]; simpl; [set_solver|]. rewrite elem_of_app, IH, Ha. set_solver.
Qed.

Lemma provides_step importPath file els s : parse_lib file = Some els →
  provides importPath file s ↔ (∃ e, e ∈ els ∧ declares els e s) ∨
    ∃ f, EImport f ∈ els ∧ provides importPath (importPath +:+ "/" +:+ f) s.
Proof.
  intros E. split.
  - intros (g & els' & e & Hg & Eg & He & Hd). apply below_head in Hg as [->|(els2 & f & E2 & Hf & Hg)].
    + left. exists e. by simplify_eq.
    + right. exists f. simplify_eq. split; [done|]. by exists g, els', e.
  - intros [(e & He & Hd)|(f & Hf & g & els' & e & Hg & H)].
    + exists file, els, e. split; [constructor|done].
    + exists g, els', e. split; [by eapply below_tail|done].
Qed.

Lemma provides_nothing importPath file s : parse_lib file = None → ¬ provides importPath file s.
Proof. intros E (g & els' & e & Hg & Eg & _). apply below_head in Hg as [->|(? & ? & ? & _)]; congruence. Qed.

(** What the parser answers, at every depth the imports do not reach. *)
Lemma File_spec importPath rank file n :
  acyclic importPath rank → (rank file < n)%nat →
  match parse_lib file with
  | None => File n file importPath = Some None
  | Some els => ∃ l, File n file importPath = Some (Some l) ∧ lists importPath file l ∧
      ∀ s, s ∈ l ↔ provides importPath file s
  end.
Proof.
  intros Ha. revert file. induction n as [|n IH]; intros file Hn; [lia|]. cbn [File].
  destruct (parse_lib file) as [els|] eqn:E; [|done].
  set (Q f (part : list Service) := let g := importPath +:+ "/" +:+ f in
    (parse_lib g = None ∧ part = [] ∨ lists importPath g part) ∧ ∀ s, s ∈ part ↔ provides importPath g s).
  destruct (append_imports_spec Q (λ f, File n (import_path importPath f) importPath) (imports els))
    as (parts & -> & Hq).
  { intros f Hf%imports_elem. pose proof (Ha file els f E Hf). unfold Q, import_path.
    specialize (IH (importPath +:+ "/" +:+ f)). destruct (parse_lib _) as [els'|] eqn:E'.
    - destruct IH as (l & -> & Hl & Hs); [lia|]. exists (Some l). split; [done|]. split; [by right|done].
    - exists None. split; [apply IH; lia|]. split; [by left|]. intros s. split; [by intros []%not_elem_of_nil|].
      by intros []%provides_nothing. }
  simpl. eexists. split; [done|]. split.
  - econstructor; [done|apply own_services_spec|]. rewrite imports_spec. apply Forall2_fmap_l.
    eapply Forall2_impl; [done|]. intros f part [Hp _]. by exists f.
  - intros s. rewrite elem_of_app, own_services_elem, (provides_step _ _ _ _ E).
    rewrite (concat_elem (λ f s, provides importPath (importPath +:+ "/" +:+ f) s) (imports els)).
    + by setoid_rewrite imports_elem.
    + eapply Forall2_impl; [done|]. by intros f part [_ Hp].
Qed.

(** C35: without cycles among the imports the parser returns: an error exactly
    when the file itself cannot be parsed, else the services that the file and
    the files its imports lead to declare, each with its package and its calls,
    those of the file first and then those of each import in order. *)
Theorem parse_acyclic_terminates importPath rank file n :
  acyclic importPath rank → (rank file < n)%nat →
  match parse_lib file with
  | None => File n file importPath = Some None
  | Some els => ∃ l, File n file importPath = Some (Some l) ∧ lists importPath file l ∧
      ∀ s, s ∈ l ↔ provides importPath file s
  end.
Proof. apply File_spec. Qed.

(** Files that import each other: whatever the depth, the call has not
    returned. *)
Theorem parse_cycle_diverges importPath (cycle : string → Prop) n file :
  (∀ f, cycle f → ∃ els g, parse_lib f = Some els ∧ g ∈ imports els ∧ cycle (import_path importPath g)) →
  cycle file → File n file importPath = None.
Proof.
  intros Hc. revert file. induction n as [|n IH]; intros file Hf; [done|]. cbn [File].
  destruct (Hc file Hf) as (els & g & -> & Hg & Hcg). apply IH in Hcg.
  enough (H : append_imports (λ f, File n (import_path importPath f) importPath) (imports els) = None) by by rewrite H.
  induction (imports els) as [|f fs IHfs]; [by apply not_elem_of_nil in Hg|]. simpl.
  apply elem_of_cons in Hg as [<-|Hg]; [by rewrite Hcg|].
  rewrite (IHfs Hg). by destruct (File n (import_path importPath f) importPath).
Qed.
End Parser.

Definition w_files (f : string) : option (list element) :=
  if String.eqb f "a.proto" then Some [EPackage "app"; EImport "b.proto"; EService "Ping" [SRpc (MkMethod "Ping" false "In" false "Out")]]
  else if String.eqb f "./b.proto" then Some [EService "Pong" []]
  else None.

Definition w_rank (f : string) : nat := if String.eqb f "a.proto" then 1 else 0.

Lemma w_acyclic : acyclic w_files "." w_rank.
Proof.
  intros file els f. unfold w_files. destruct (String.eqb file "a.proto") eqn:E.
  - intros [= <-] Hf. unfold w_rank. rewrite E. repeat (apply elem_of_cons in Hf as [Hf|Hf]; [try discriminate Hf|]).
    + injection Hf as ->. simpl. lia.
    + by apply not_elem_of_nil in Hf.
  - destruct (String.eqb file "./b.proto"); [|done]. intros [= <-] Hf.
    apply list_elem_of_singleton in Hf. discriminate Hf.
Qed.

Lemma parse_acyclic_terminates_witness :
  ∃ l, File w_files 3 "a.proto" "." = Some (Some l) ∧ lists w_files "." "a.proto" l ∧
    provides w_files "." "a.proto" (MkService "" "Pong" []).
Proof.
  destruct (parse_acyclic_terminates w_files "." w_rank "a.proto" 3 w_acyclic) as (l & H1 & H2 & H3);
    [unfold w_rank; simpl; lia|].
  exists l. split; [exact H1|]. split; [exact H2|]. apply H3.
  injection H1 as <-. right. left.
Defined.

Lemma parse_cycle_diverges_witness :
  File (λ f, if String.eqb f "./a.proto" then Some [EImport "a.proto"] else None) 1000 "./a.proto" "." = None.
Proof.
  apply (parse_cycle_diverges _ "." (λ f, f = "./a.proto")); [|done].
  intros f ->. exists [EImport "a.proto"], "a.proto". split; [done|]. split; [left|done].
Defined.
End Parser.

(** ** Proxies ([proxy.go]) *)

Module Proxy.
Definition delimiter : string := "|:|".
Definition peerAddr : string := ":peer.address".
Definition peerAuthType : string := ":peer.auth-type".

Inductive codec := NoCodec | CODEC_JSON.
Record Payload := MkPayload { Codec_ : codec; pl_Context : bytes; pl_Body : bytes }.
Definition new_payload : Payload := MkPayload CODEC_JSON "" "".

Record rpcContext := MkRpcContext { Service : string; Method : string; Context_ : gmap string (list string) }.

(** What the library puts into the context of a call: metadata, and the address
    and the type of authentication of the peer. *)
Record ctx := MkCtx { incoming : option (gmap string (list string)); peer : option (string * option string) }.

(** An error a call ends with: as it is, by its text, or a status. *)
Inductive gerr (Any : Type) := Plain (text : string) | Status (code : Z) (msg : string) (details : list Any).
Arguments Plain {Any}. Arguments Status {Any}.
Inductive reply (Any : Type) := Body (b : bytes) | Fail (e : gerr Any) | Panics.
Arguments Body {Any}. Arguments Fail {Any}. Arguments Panics {Any}.

(** Libraries: JSON, [metadata.New], [grpc.SetHeader], the decoding of [anypb.Any]
    messages, the worker pool and [sync.Pool.Get].  Errors are given by their
    texts. *)
Class Backend := {
  Any : Type;
  marshal_ctx : rpcContext → bytes + string;
  unmarshal_md : bytes → gmap string string + string;
  md_New : gmap string string → gmap string (list string);
  SetHeader : option (gmap string (list string)) → option string;
  any_unmarshal : bytes → option Any;
  Exec : Payload → option Payload + string;
  pick : nat → option nat
}.

Definition Internal : Z := 13.

Section Proxy.
Context `{BE : Backend}.

(** [strconv.ParseUint(s, 10, 32)] *)
Definition ParseUint32 (s : string) : option Z :=
  n ← ParseUint s; if n <? 2 ^ 32 then Some n else None.

Definition wrapError (err : string) : gerr Any :=
  if contains err delimiter then
    match SplitStr err delimiter with
    | c :: msg :: details =>
        match ParseUint32 c with
        | None => Plain err
        | Some phpCode =>
            let code := if (0 <? phpCode) && (phpCode <? 2 ^ 32 - 1) then phpCode else Internal in
            Status code msg (omap any_unmarshal details)
        end
    | _ => Plain err
    end
  else Status Internal err [].

Record proxy := MkProxy { name : string; metadata : string; methods : list string; pldPool : list Payload }.

Definition NewProxy (name metadata : string) : proxy := MkProxy name metadata [] [].

Definition RegisterMethod (m : string) (p : proxy) : proxy :=
  MkProxy (name p) (metadata p) (methods p ++ [m]) (pldPool p).

(** The name, the metadata and the methods; the handler of a method is
    [methodHandler]. *)
Definition ServiceDesc (p : proxy) : string * string * list string := (name p, metadata p, methods p).

Definition with_pool (l : list Payload) (p : proxy) : proxy := MkProxy (name p) (metadata p) (methods p) l.

Definition getPld (n : nat) (p : proxy) : Payload * proxy :=
  let '(d, l) := pool_get new_payload (pick n) (pldPool p) in
  (MkPayload CODEC_JSON (pl_Context d) (pl_Body d), with_pool l p).

Definition putPld (d : Payload) (p : proxy) : proxy :=
  with_pool (MkPayload (Codec_ d) "" "" :: pldPool p) p.

Definition context_md (c : ctx) : gmap string (list string) :=
  let md := default ∅ (incoming c) in
  match peer c with
  | None => md
  | Some (addr, a) =>
      let md := <[peerAddr := [addr]]> md in
      match a with Some t => <[peerAuthType := [t]]> md | None => md end
  end.

Definition makePayload (c : ctx) (method : string) (body : bytes) (d : Payload) (p : proxy) : Payload + string :=
  match marshal_ctx (MkRpcContext (name p) method (context_md c)) with
  | inr e => inr e
  | inl data => inl (MkPayload (Codec_ d) data body)
  end.

(** The metadata may be nil. *)
Definition responseMetadata (resp : option Payload) : option (gmap string (list string)) + string :=
  match resp with
  | None => inl None
  | Some r =>
      if String.eqb (pl_Context r) "" then inl None else
      match unmarshal_md (pl_Context r) with
      | inr e => inr e
      | inl m => inl (if decide (m = ∅) then None else Some (md_New m))
      end
  end.

(** The payload goes back to the pool when the call ends; [n] numbers the
    calls. *)
Definition invoke (n : nat) (c : ctx) (method : string) (body : bytes) (p : proxy) : proxy * reply Any :=
  let '(d, p) := getPld n p in
  match makePayload c method body d p with
  | inr e => (putPld d p, Fail (Plain e))
  | inl d =>
      (putPld d p,
       match Exec d with
       | inr e => Fail (wrapError e)
       | inl resp =>
           match responseMetadata resp with
           | inr e => Fail (Plain e)
           | inl md =>
               match SetHeader md with
               | Some e => Fail (Plain e)
               | None => match resp with Some r => Body (pl_Body r) | None => Panics end
               end
           end
       end)
  end.

(** [interceptor] of [server.go] logs and forwards. *)
Definition interceptor (r : reply Any) : reply Any := r.

(** [dec]: the decoded request, or the text of the error. *)
Definition methodHandler (n : nat) (method : string) (dec : bytes + string) (intercepted : bool) (c : ctx) (p : proxy)
    : proxy * reply Any :=
  match dec with
  | inr e => (p, Fail (wrapError e))
  | inl body =>
      let '(p, r) := invoke n c method body p in (p, if intercepted then interceptor r else r)
  end.

(** *** Requests *)

Definition clean (p : proxy) : Prop := Forall (eq new_payload) (pldPool p).

(** A call sends the worker exactly the service, the method, the metadata of
    the caller with its address, and the body, answers with the body of the
    worker, and leaves nothing of it in the pool. *)
Theorem grpc_invoke_exact n c method body p data r h :
  clean p → marshal_ctx (MkRpcContext (name p) method (context_md c)) = inl data →
  Exec (MkPayload CODEC_JSON data body) = inl (Some r) → responseMetadata (Some r) = inl h → SetHeader h = None →
  ∃ p', methodHandler n method (inl body) true c p = (p', Body (pl_Body r)) ∧ clean p' ∧
    ServiceDesc p' = ServiceDesc p.
Proof.
  intros Hc Hm He Hr Hs. unfold methodHandler, invoke, getPld.
  destruct (pool_get _ _ _) as [d l] eqn:E.
  destruct (Forall_pool_get (eq new_payload) _ _ _ _ _ eq_refl Hc E) as [<- Hl].
  unfold makePayload. cbn [name with_pool Codec_]. rewrite Hm, He, Hr, Hs. eexists. split; [done|].
  split; [|done]. unfold clean. simpl. by constructor.
Qed.

(** *** Errors *)

(** Texts without a vertical bar. *)
Definition barless (s : string) : Prop := Forall (λ a, a ≠ "|"%char) (chars s).

(** The text a worker reports: a code, a message and details. *)
Definition error_text (code : Z) (msg : string) (details : list string) : string :=
  foldl (λ s d, s +:+ delimiter +:+ d) (FormatUint code +:+ delimiter +:+ msg) details.

Lemma no_delimiter a l : a ≠ "|"%char → strip_prefix (chars delimiter) (a :: l) = None.
Proof.
  intros Ha. change (chars delimiter) with ("|" :: chars ":|")%char. cbn [strip_prefix].
  by rewrite (proj2 (Ascii.eqb_neq _ _)) by done.
Qed.

Lemma split_barless l acc rest : Forall (λ a, a ≠ "|"%char) l →
  split_str (chars delimiter) 0 acc (l ++ chars delimiter ++ rest) =
  (rev acc ++ l) :: split_str (chars delimiter) 0 [] rest.
Proof.
  intros Hl. revert acc. induction Hl as [|a l Ha _ IH]; intros acc.
  { rewrite app_nil_r. reflexivity. }
  cbn [app split_str]. rewrite no_delimiter, IH by done. cbn [rev]. by rewrite <- (assoc_L (++)).
Qed.

Lemma split_barless_last l acc : Forall (λ a, a ≠ "|"%char) l →
  split_str (chars delimiter) 0 acc l = [rev acc ++ l].
Proof.
  intros Hl. revert acc. induction Hl as [|a l Ha _ IH]; intros acc; [by rewrite app_nil_r|].
  cbn [split_str]. rewrite no_delimiter, IH by done. cbn [rev]. by rewrite <- (assoc_L (++)).
Qed.

Lemma split_texts p ps : barless p → Forall barless ps →
  SplitStr (foldl (λ s d, s +:+ delimiter +:+ d) p ps) delimiter = p :: ps.
Proof.
  intros Hp Hps. unfold SplitStr.
  assert (E : ∀ q, chars (foldl (λ s d, s +:+ delimiter +:+ d) q ps)
    = chars q ++ concat ((λ d, chars delimiter ++ chars d) <$> ps)).
  { clear. induction ps as [|d ps IH]; intros q; [by rewrite app_nil_r|].
    cbn [foldl]. rewrite IH, !chars_app. cbn [fmap list_fmap concat]. by rewrite <- !(assoc_L (++)). }
  rewrite E. revert p Hp. clear E. induction Hps as [|d ps Hd _ IH]; intros p Hp.
  - rewrite app_nil_r, split_barless_last by done. simpl. by rewrite text_chars.
  - cbn [fmap list_fmap concat]. rewrite <- (assoc_L (++)), split_barless by done. cbn [rev app map].
    by rewrite IH, text_chars.
Qed.

(** An error of a worker arrives at the caller as a status with its code, its
    message and its details; zero and the largest code mean an internal
    error. *)
Theorem grpc_error_status code msg details :
  0 ≤ code < 2 ^ 32 → barless msg → Forall barless details →
  wrapError (error_text code msg details) =
    Status (if (0 <? code) && (code <? 2 ^ 32 - 1) then code else Internal) msg (omap any_unmarshal details).
Proof.
  intros Hc Hm Hd. unfold wrapError.
  assert (Hb : barless (FormatUint code)).
  { unfold barless. eapply Forall_impl; [apply FormatUint_digits; lia|]. intros a [d Ha] ->. done. }
  assert (Hs : SplitStr (error_text code msg details) delimiter = FormatUint code :: msg :: details).
  { apply (split_texts (FormatUint code) (msg :: details)); [done|by constructor]. }
  assert (Hk : contains (error_text code msg details) delimiter = true).
  { assert (H : ∃ t, error_text code msg details = FormatUint code +:+ delimiter +:+ t).
    { unfold error_text. generalize msg. clear. induction details as [|d ds IH]; intros m; [by exists m|].
      cbn [foldl]. destruct (IH (m +:+ delimiter +:+ d)) as [t Ht]. exists t. rewrite <- Ht. f_equal.
      apply chars_inj. by rewrite !chars_app, <- !(assoc_L (++)). }
    destruct H as [t ->]. by apply contains_app. }
  rewrite Hk, Hs. unfold ParseUint32. rewrite ParseUint_Format by lia. simpl.
  by rewrite (proj2 (Z.ltb_lt _ _)) by lia.
Qed.
End Proxy.
End Proxy.

(** ** The server and the plugin ([server.go], [plugin.go]) *)

Module Grpc.
Import GrpcConfig.

(** The services registered with the gRPC library: name, metadata, methods. *)
Definition desc : Type := string * string * list string.

(** A second service of a name ends the process ([None]). *)
Definition RegisterService (d : desc) (l : list desc) : option (list desc) :=
  if decide (d.1.1 ∈ l.*1.*1) then None else Some (l ++ [d]).

(** [fmt.Sprintf] of the package and the name, joined by a dot. *)
Definition full_name (s : Parser.Service) : string := Parser.Package s +:+ "." +:+ Parser.s_Name s.

Definition proxy_of (proto : string) (s : Parser.Service) : Proxy.proxy :=
  foldl (λ px m, Proxy.RegisterMethod (Parser.m_Name m) px) (Proxy.NewProxy (full_name s) proto) (Parser.Methods s).

Fixpoint register_services (proto : string) (ss : list Parser.Service) (st : list desc * list Proxy.proxy)
    : option (list desc * list Proxy.proxy) :=
  match ss with
  | [] => Some st
  | s :: ss' =>
      let px := proxy_of proto s in
      l ← RegisterService (Proxy.ServiceDesc px) st.1;
      register_services proto ss' (l, st.2 ++ [px])
  end.

(** How a call of the server ends: with an answer, with the end of the process,
    or not at all within the depth of the parser. *)
Inductive outcome (A : Type) := Done (a : A) | Fatal | Running.
Arguments Done {A}. Arguments Fatal {A}. Arguments Running {A}.

Section Server.
Context {P : Type}.
(** The proto grammar, and the depth the parser is run to. *)
Variables (parse_lib : string → option (list Parser.element)) (depth : nat).

(** The inner [inr]: an error, with the proxies made before. *)
Fixpoint register_protos (protos : list string) (st : list desc * list Proxy.proxy)
    : outcome ((list desc * list Proxy.proxy) + error * list Proxy.proxy) :=
  match protos with
  | [] => Done (inl st)
  | f :: fs =>
      if String.eqb f "" then register_protos fs st else
      match Parser.File parse_lib depth f (Path.Dir f) with
      | None => Running
      | Some None => Done (inr (EExt "parse", st.2))
      | Some (Some ss) =>
          match register_services f ss st with
          | None => Fatal
          | Some st => register_protos fs st
          end
      end
  end.

(** [native]: services that are registered by functions, after the others. *)
Definition createGRPCserver (opts : list server_option + error) (native : list desc) (c : Config P)
    (proxyList : list Proxy.proxy)
    : outcome ((list server_option * list desc * list Proxy.proxy) + error * list Proxy.proxy) :=
  match opts with
  | inr e => Done (inr (EOp "grpc_plugin_create_server" e, proxyList))
  | inl opts =>
      match register_protos (Proto c) ([], proxyList) with
      | Fatal => Fatal
      | Running => Running
      | Done (inr e) => Done (inr e)
      | Done (inl (l, px)) =>
          match foldl (λ o d, l ← o; RegisterService d l) (Some l) native with
          | None => Fatal
          | Some l => Done (inl (opts, l, px))
          end
      end
  end.

(** *** What is served *)

Definition service_desc (proto : string) (s : Parser.Service) : desc :=
  (full_name s, proto, Parser.m_Name <$> Parser.Methods s).

Lemma proxy_of_desc proto s : Proxy.ServiceDesc (proxy_of proto s) = service_desc proto s.
Proof.
  unfold proxy_of, service_desc, Proxy.ServiceDesc.
  assert (H : ∀ ms px, let q := foldl (λ px m, Proxy.RegisterMethod (Parser.m_Name m) px) px ms in
    Proxy.name q = Proxy.name px ∧ Proxy.metadata q = Proxy.metadata px ∧
    Proxy.methods q = Proxy.methods px ++ (Parser.m_Name <$> ms)).
  { induction ms as [|m ms IH]; intros px; cbn; [by rewrite app_nil_r|].
    destruct (IH (Proxy.RegisterMethod (Parser.m_Name m) px)) as (-> & -> & ->). split_and!; [done|done|].
    cbn. by rewrite <- (assoc_L (++)). }
  destruct (H (Parser.Methods s) (Proxy.NewProxy (full_name s) proto)) as (-> & -> & ->). done.
Qed.

Lemma register_services_spec proto ss st :
  match register_services proto ss st with
  | Some st' => st'.1 = st.1 ++ (service_desc proto <$> ss) ∧ NoDup (full_name <$> ss) ∧
      (∀ s, s ∈ ss → full_name s ∉ st.1.*1.*1)
  | None => ¬ (NoDup (full_name <$> ss) ∧ ∀ s, s ∈ ss → full_name s ∉ st.1.*1.*1)
  end.
Proof.
  revert st. induction ss as [|s ss IH]; intros [l px]; cbn [register_services fst snd].
  { split_and!; [by rewrite app_nil_r|constructor|set_solver]. }
  unfold RegisterService. rewrite proxy_of_desc. cbn [fst snd service_desc].
  destruct (decide (full_name s ∈ l.*1.*1)) as [Hin|Hin]; simpl.
  { intros [_ H]. by apply (H s ltac:(left)). }
  specialize (IH (l ++ [service_desc proto s], px ++ [proxy_of proto s])).
  destruct (register_services proto ss _) as [st'|]; cbn [fst] in *.
  - destruct IH as (E & Hnd & Hfresh). split_and!.
    + rewrite E. by rewrite <- (assoc_L (++)).
    + constructor; [|done]. intros (s' & Hs' & Hin')%list_elem_of_fmap. apply (Hfresh s' Hin').
      rewrite !fmap_app. set_solver.
    + intros s' [->|Hs']%elem_of_cons; [done|]. specialize (Hfresh s' Hs'). rewrite !fmap_app in Hfresh. set_solver.
  - intros [[Hs Hnd]%NoDup_cons Hfresh]. apply IH. split; [done|]. intros s' Hs'. rewrite !fmap_app.
    apply not_elem_of_app. split; [apply Hfresh; by right|]. simpl. intros Heq%list_elem_of_singleton.
    apply Hs. rewrite <- Heq. by apply list_elem_of_fmap_2.
Qed.

(** [ss]: the services of the configured files, each with the file it is read
    from, in order. *)
Inductive configured : list string → list (string * Parser.Service) → Prop :=
  | configured_nil : configured [] []
  | configured_skip fs ss : configured fs ss → configured ("" :: fs) ss
  | configured_file f fs l ss : f ≠ "" → Parser.lists parse_lib (Path.Dir f) f l → configured fs ss →
      configured (f :: fs) (((λ s, (f, s)) <$> l) ++ ss).

(** Every file can be parsed, and the depth exceeds that of its imports. *)
Definition readable (fs : list string) : Prop :=
  ∀ f, f ∈ fs → f ≠ "" → is_Some (parse_lib f) ∧
    ∃ rank, Parser.acyclic parse_lib (Path.Dir f) rank ∧ (rank f < depth)%nat.

Lemma readable_file f fs : readable (f :: fs) → f ≠ "" →
  ∃ l, Parser.File parse_lib depth f (Path.Dir f) = Some (Some l) ∧ Parser.lists parse_lib (Path.Dir f) f l.
Proof.
  intros H Hf. destruct (H f ltac:(left) Hf) as ([els E] & rank & Ha & Hn).
  pose proof (Parser.File_spec parse_lib _ rank f depth Ha Hn) as G. rewrite E in G.
  destruct G as (l & ? & ? & _). by exists l.
Qed.

Lemma register_protos_spec fs st : readable fs →
  ∃ ss, configured fs ss ∧
  match register_protos fs st with
  | Done (inl st') => st'.1 = st.1 ++ ((λ x, service_desc x.1 x.2) <$> ss) ∧
      NoDup (full_name ∘ snd <$> ss) ∧ (∀ x, x ∈ ss → full_name x.2 ∉ st.1.*1.*1)
  | Fatal => ¬ (NoDup (full_name ∘ snd <$> ss) ∧ ∀ x, x ∈ ss → full_name x.2 ∉ st.1.*1.*1)
  | _ => False
  end.
Proof.
  revert st. induction fs as [|f fs IH]; intros st H; cbn [register_protos].
  { exists []. split; [constructor|]. split_and!; [by rewrite app_nil_r|constructor|set_solver]. }
  assert (H' : readable fs) by (intros g Hg; apply H; by right).
  destruct (String.eqb_spec f "") as [->|Hne].
  { destruct (IH st H') as (ss & Hc & G). exists ss. split; [by constructor|done]. }
  destruct (readable_file f fs H Hne) as (l & -> & Hl).
  pose proof (register_services_spec f l st) as R.
  assert (Hmap : full_name ∘ snd <$> ((λ s, (f, s)) <$> l) = full_name <$> l) by (by rewrite <- list_fmap_compose).
  destruct (register_services f l st) as [st1|].
  - destruct R as (E1 & Hnd1 & Hfr1). destruct (IH st1 H') as (ss & Hc & G).
    exists (((λ s, (f, s)) <$> l) ++ ss). split; [by constructor|].
    assert (Hnames : st1.1.*1.*1 = st.1.*1.*1 ++ (full_name <$> l)).
    { rewrite E1, !fmap_app. f_equal. by rewrite <- !list_fmap_compose. }
    destruct (register_protos fs st1) as [[st2|e]| |]; [|done| |done].
    + destruct G as (E2 & Hnd2 & Hfr2). split_and!.
      * rewrite E2, E1, fmap_app, <- (assoc_L (++)). f_equal. f_equal. by rewrite <- list_fmap_compose.
      * rewrite fmap_app, Hmap. apply NoDup_app. split_and!; [done| |done].
        intros n Hn (x & -> & Hx)%list_elem_of_fmap. apply (Hfr2 x Hx). rewrite Hnames. set_solver.
      * intros x [Hx|Hx]%elem_of_app.
        -- apply list_elem_of_fmap in Hx as (s & -> & Hs). by apply Hfr1.
        -- specialize (Hfr2 x Hx). rewrite Hnames in Hfr2. set_solver.
    + intros [Hnd Hfr]. rewrite fmap_app, Hmap in Hnd. apply NoDup_app in Hnd as (_ & Hdis & Hnd2). apply G.
      split; [done|]. intros x Hx. rewrite Hnames. apply not_elem_of_app. split; [apply Hfr, elem_of_app; by right|].
      intros Hin. apply (Hdis _ Hin). by apply (list_elem_of_fmap_2 (full_name ∘ snd)).
  - destruct (IH st H') as (ss & Hc & _). exists (((λ s, (f, s)) <$> l) ++ ss). split; [by constructor|].
    intros [Hnd Hfr]. rewrite fmap_app, Hmap in Hnd. apply NoDup_app in Hnd as (Hnd & _ & _). apply R.
    split; [done|]. intros s Hs. apply (Hfr (f, s)), elem_of_app. left. by apply list_elem_of_fmap_2.
Qed.

(** C18: when every configured file can be parsed, its imports are acyclic, and
    no native service is registered, the services of the files and of their
    imports are served exactly: the server is created if no two of them have the
    same package and name, and serves each under package and name with the names
    of its calls, in order; otherwise the process ends. *)
Theorem grpc_serves_protos opts (c : Config P) :
  readable (Proto c) →
  ∃ ss, configured (Proto c) ss ∧
    (NoDup ((λ x, Parser.Package x.2 +:+ "." +:+ Parser.s_Name x.2) <$> ss) →
       ∃ px, createGRPCserver (inl opts) [] c [] = Done (inl (opts,
         (λ x, (Parser.Package x.2 +:+ "." +:+ Parser.s_Name x.2, x.1, Parser.m_Name <$> Parser.Methods x.2)) <$> ss, px))) ∧
    (¬ NoDup ((λ x, Parser.Package x.2 +:+ "." +:+ Parser.s_Name x.2) <$> ss) →
       createGRPCserver (inl opts) [] c [] = Fatal).
Proof.
  intros Hf. destruct (register_protos_spec (Proto c) ([], []) Hf) as (ss & Hc & G).
  exists ss. split; [done|]. unfold createGRPCserver.
  destruct (register_protos (Proto c) ([], [])) as [[[l px]|e]| |]; [|done| |done].
  - simpl in G. destruct G as (-> & Hnd & _). split; [|done]. intros _. by exists px.
  - split; [|done]. intros Hnd. exfalso. apply G. split; [done|]. intros x _. apply not_elem_of_nil.
Qed.

(** A service without a package is served under a name that starts with a dot,
    not under its own. *)
Theorem grpc_no_package s : Parser.Package s = "" → full_name s = "." +:+ Parser.s_Name s.
Proof. unfold full_name. by intros ->. Qed.
End Server.

Section Plugin.
Context {P : Type} (new_pool : P) (pool_InitDefaults : P → P) (Stat : string → stat).

(** [server]: the created server with its services; [stopped]: [Stop] was
    called on it. *)
Record Plugin := MkPlugin {
  config : Config P; gPool : bool; server : option (list server_option * list desc); stopped : bool;
  proxyList : list Proxy.proxy }.

Definition Init (has : string → bool) (unmarshal : string → res (option (Config P))) : res Plugin :=
  let op := "grpc_plugin_init" in
  if negb (has "grpc") then Err (EKind Disabled) else
  c ← wrap_err op (unmarshal "grpc");
  match c with
  | None => Panic
  | Some c =>
      c ← wrap_err op (InitDefaults new_pool pool_InitDefaults Stat c);
      let env := <["RR_MODE" := "grpc"]> (default ∅ (Env c)) in
      Ok (MkPlugin (MkConfig (Listen c) (Proto c) (tls c) (Some env) (GrpcPool c) (MaxSendMsgSize c)
            (MaxRecvMsgSize c) (MaxConnectionIdle c) (MaxConnectionAge c) (MaxConnectionAgeGrace c)
            (MaxConcurrentStreams c) (PingTime c) (Timeout c)) false None false [])
  end.

(** What [Serve] calls: the worker pool, the TLS library, the proto grammar and
    the listener.  The answer is the error on the channel, if any. *)
Definition Serve (NewWorkerPool : option error) (e : tls_env) (parse_lib : string → option (list Parser.element))
    (depth : nat) (CreateListener : option error) (p : Plugin) : outcome (Plugin * option error) :=
  let op := "grpc_plugin_serve" in
  match NewWorkerPool with
  | Some e => Done (p, Some (EOp op e))
  | None =>
      let p := MkPlugin (config p) true (server p) (stopped p) (proxyList p) in
      match createGRPCserver parse_lib depth (serverOptions e [] (config p)) [] (config p) (proxyList p) with
      | Fatal => Fatal
      | Running => Running
      | Done (inr (e, px)) => Done (MkPlugin (config p) true None (stopped p) px, Some (EOp op e))
      | Done (inl (opts, l, px)) =>
          Done (MkPlugin (config p) true (Some (opts, l)) (stopped p) px, EOp op <$> CreateListener)
      end
  end.

(** The error of the goroutine that serves: that of a stopped server is
    dropped. *)
Definition serve_error (is_stopped : bool) (e : option error) : option error :=
  if is_stopped then None else EOp "grpc_plugin_serve" <$> e.

Definition Stop (p : Plugin) : Plugin :=
  MkPlugin (config p) (gPool p) (server p) (match server p with Some _ => true | None => stopped p end) (proxyList p).

(** Before [Serve] the pool is a nil interface. *)
Definition Reset (e : option error) (p : Plugin) : res unit :=
  if gPool p then match e with Some e => Err (EOp "grpc_plugin_reset" e) | None => Ok tt end else Panic.

(** [states]: the state of every worker of the pool, or an error; a single
    error makes the answer nil. *)
Definition Workers {S} (states : list (S + error)) (p : Plugin) : res (option (list S)) :=
  if gPool p then Ok (mapM (λ s, match s with inl s => Some s | inr _ => None end) states) else Panic.
End Plugin.

(** ** Examples *)

Definition w_stat (f : string) : stat := StatOk.
Definition w_config : Config unit :=
  MkConfig "127.0.0.1:9001" ["a.proto"] None None None 0 3 0 0 0 0 0 0.

Lemma grpc_config_wf_witness :
  ∃ c, InitDefaults tt id w_stat w_config = Ok c ∧ MaxRecvMsgSize c = 3145728 ∧ Timeout c ≠ 0.
Proof.
  eexists. split; [reflexivity|].
  destruct (grpc_config_wf tt id w_stat w_config _ eq_refl) as (_ & _ & _ & _ & H1 & _ & H2).
  split; [rewrite H2; [reflexivity|simpl; lia]|exact H1].
Defined.

Lemma grpc_limits_need_tls_witness :
  serverOptions (MkTlsEnv (λ _ _, None) None (λ _, None) (λ _, true) (λ _ _, None)) [] w_config = inl [OInterceptor].
Proof. apply grpc_limits_need_tls. reflexivity. Defined.

Lemma w_readable : readable Parser.w_files 3 (Proto w_config).
Proof.
  intros f Hf _. apply list_elem_of_singleton in Hf as ->. split; [by eexists|].
  exists Parser.w_rank. split; [apply Parser.w_acyclic|]. unfold Parser.w_rank. simpl. lia.
Qed.

Lemma grpc_serves_protos_witness :
  (∃ px, createGRPCserver Parser.w_files 3 (inl []) [] w_config [] =
    Done (inl ([], [("app.Ping", "a.proto", ["Ping"]); (".Pong", "a.proto", [])], px))) ∧
  ∃ ss, configured Parser.w_files (Proto w_config) ss.
Proof.
  split; [by eexists|].
  destruct (grpc_serves_protos Parser.w_files 3 [] w_config w_readable) as (ss & Hc & _). by exists ss.
Defined.

Lemma grpc_no_package_witness : full_name (Parser.MkService "" "Pong" []) = ".Pong".
Proof. by apply grpc_no_package. Defined.

(** A worker that answers every request with its body, and reports an error
    for a request without one. *)
Definition w_backend : Proxy.Backend := {|
  Proxy.Any := string;
  Proxy.marshal_ctx c := inl (Proxy.Service c +:+ "/" +:+ Proxy.Method c);
  Proxy.unmarshal_md _ := inl ∅;
  Proxy.md_New _ := ∅;
  Proxy.SetHeader _ := None;
  Proxy.any_unmarshal := Some;
  Proxy.Exec d := if String.eqb (Proxy.pl_Body d) "" then inr "3|:|no body" else inl (Some (Proxy.MkPayload Proxy.NoCodec "" (Proxy.pl_Body d)));
  Proxy.pick _ := Some 0%nat |}.

Lemma grpc_invoke_exact_witness :
  let p := Proxy.NewProxy "app.Ping" "a.proto" in
  ∃ p', Proxy.methodHandler (BE := w_backend) 0 "Ping" (inl "hello") true (Proxy.MkCtx None (Some ("1.2.3.4:5", None))) p
    = (p', Proxy.Body "hello").
Proof.
  intros p.
  destruct (Proxy.grpc_invoke_exact (BE := w_backend) 0 (Proxy.MkCtx None (Some ("1.2.3.4:5", None))) "Ping" "hello" p
    "app.Ping/Ping" (Proxy.MkPayload Proxy.NoCodec "" "hello") None) as (p' & H & _);
    [by constructor|reflexivity|reflexivity|reflexivity|reflexivity|]. by exists p'.
Defined.

Lemma grpc_error_status_witness :
  Proxy.wrapError (BE := w_backend) "3|:|no body|:|why" = Proxy.Status 3 "no body" ["why"].
Proof.
  apply (Proxy.grpc_error_status (BE := w_backend) 3 "no body" ["why"]); [lia| |repeat constructor];
    unfold Proxy.barless; simpl; repeat constructor; discriminate.
Defined.
End Grpc.
