(* ===== verification/PhpGen.v ===== *)
(** * The generator of PHP interfaces ([grpc/protoc_plugins/protoc-gen-php-grpc])

    The plugin of the protobuf compiler that prints a PHP interface per service.
    Names are made of runes; the case of letters outside ASCII is a parameter.
    The printed text is that of the template, with the imports in the order of
    their keys, as the template library visits maps. *)

From stdpp Require Import base gmap strings list.
From Stdlib Require Import Ascii ZArith Lia.
From Stdlib Require String.
From S2P Require Import Prelude GoStrings.

Module PhpGen.

(** [unicode.IsUpper], [ToUpper], [ToLower] on the encoding of a rune. *)
Class RuneCase := { uni_IsUpper : list ascii → bool; uni_ToUpper : list ascii → list ascii; uni_ToLower : list ascii → list ascii }.

Definition up_ascii (a : ascii) : ascii := if between 97 122 a then ascii_of_N (N_of_ascii a - 32) else a.

Fixpoint Join (l : list string) (sep : string) : string :=
  match l with [] => "" | [s] => s | s :: l => s +:+ sep +:+ Join l sep end.

Definition backslash : string := "\".

(** ** Identifiers ([keywords.go]) *)

Section Names.
Context `{RC : RuneCase} `{UN : Unicode}.

Definition IsUpper (r : list ascii) : bool := match r with [a] => between 65 90 a | _ => uni_IsUpper r end.
Definition to_upper (r : list ascii) : list ascii := match r with [a] => [up_ascii a] | _ => uni_ToUpper r end.
Definition to_lower (r : list ascii) : list ascii := match r with [a] => [lower_ascii a] | _ => uni_ToLower r end.

Definition reservedKeywords : list string := [
  "abstract"; "and"; "array"; "as"; "break"; "callable"; "case"; "catch"; "class"; "clone";
  "const"; "continue"; "declare"; "default"; "die"; "do"; "echo"; "else"; "elseif"; "empty";
  "enddeclare"; "endfor"; "endforeach"; "endif"; "endswitch"; "endwhile"; "eval"; "exit"; "extends"; "final";
  "for"; "foreach"; "function"; "global"; "goto"; "if"; "implements"; "include"; "include_once"; "instanceof";
  "insteadof"; "interface"; "isset"; "list"; "namespace"; "new"; "or"; "print"; "private"; "protected";
  "public"; "require"; "require_once"; "return"; "static"; "switch"; "throw"; "trait"; "try"; "unset";
  "use"; "var"; "while"; "xor"; "int"; "float"; "bool"; "string"; "true"; "false"; "null"; "void"; "iterable"].

Definition isReserved (name : string) : bool := existsb (String.eqb (ToLower name)) reservedKeywords.

Definition isSpacerChar (r : list ascii) : bool :=
  match r with [a] => Ascii.eqb a "_" || Ascii.eqb a " " || Ascii.eqb a ":" || Ascii.eqb a "-" | _ => false end.

(** The loop: the words so far and the runes of the current one. *)
Definition split_step (st : list string * list (list ascii)) (c : list ascii) : list string * list (list ascii) :=
  let spacer := isSpacerChar c in
  let '(words, word) :=
    match st.2 with
    | [] => st
    | _ => if IsUpper c || spacer then (st.1 ++ [text (concat st.2)], []) else st
    end in
  if spacer then (words, word)
  else (words, word ++ [match word with [] => to_upper c | _ => to_lower c end]).

Definition splitAtCaseChangeWithTitlecase (s : string) : list string :=
  let '(words, word) := foldl split_step ([], []) (runes s) in words ++ [text (concat word)].

Definition Camelize (word : string) : string := Join (splitAtCaseChangeWithTitlecase word) "".

Definition identifier (name suffix : string) : string :=
  if String.eqb suffix "" then Camelize name else Camelize name +:+ Camelize suffix.

Definition resolveReserved (id pkg : string) : string :=
  if isReserved (ToLower id) then (if String.eqb pkg ".google.protobuf" then "GPB" else "PB") +:+ id else id.

(** Every part followed by the separator; [sep] is one byte. *)
Definition parts_text (parts : list string) (sep : string) : string :=
  foldr (λ p acc, identifier p "" +:+ sep +:+ acc) "" parts.

Definition namespace (pkg : option string) (sep : string) : string :=
  match pkg with
  | None => ""
  | Some pkg => Trim (parts_text (Split pkg ".") sep) sep
  end.

(** *** What [Camelize] does *)

(** The reference: a transducer that remembers whether a word is open.  It
    drops the spacers, puts the first letter of a word into capitals and leaves
    capitals alone. *)
Fixpoint camel (open : bool) (l : list ascii) : list ascii :=
  match l with
  | [] => []
  | a :: l => if isSpacerChar [a] then camel false l
              else (if open then a else up_ascii a) :: camel true l
  end.

Definition ascii_only (s : string) : Prop := Forall (λ a, between 0 127 a = true) (chars s).

Lemma join_empty ws : Join ws "" = text (concat (map chars ws)).
Proof.
  induction ws as [|w ws IH]; [done|]. destruct ws as [|w' ws].
  { simpl. by rewrite app_nil_r, text_chars. }
  change (Join (w :: w' :: ws) "") with (w +:+ "" +:+ Join (w' :: ws) ""). rewrite IH. apply chars_inj.
  rewrite !chars_app, !chars_text. done.
Qed.

Lemma runes_ascii_only s : ascii_only s → runes s = (λ a, [a]) <$> chars s.
Proof.
  intros Hs. rewrite <- (text_chars s) at 1.
  replace (chars s) with (concat ((λ a, [a]) <$> chars s)) at 1.
  - apply runes_concat. apply Forall_fmap. eapply Forall_impl; [exact Hs|]. intros a Ha. unfold valid_rune. simpl.
    unfold decode_rune, followers. by rewrite Ha.
  - induction (chars s) as [|a l IH]; [done|]. rewrite fmap_cons. cbn [concat app]. by rewrite IH.
Qed.

Lemma lower_not_upper a : between 65 90 a = false → lower_ascii a = a.
Proof. unfold lower_ascii. by intros ->. Qed.
Lemma up_upper a : between 65 90 a = true → up_ascii a = a.
Proof. by destruct a as [[] [] [] [] [] [] [] []]. Qed.
Lemma up_up a : up_ascii (up_ascii a) = up_ascii a.
Proof. by destruct a as [[] [] [] [] [] [] [] []]. Qed.
Lemma up_spacer a : isSpacerChar [up_ascii a] = isSpacerChar [a].
Proof. by destruct a as [[] [] [] [] [] [] [] []]. Qed.
Lemma upper_spacer a : between 65 90 a = true → isSpacerChar [a] = false.
Proof. by destruct a as [[] [] [] [] [] [] [] []]. Qed.

(** The words and the open word together are what the transducer has printed. *)
Lemma split_camel l words word :
  let '(ws, w) := foldl split_step (words, word) ((λ a, [a]) <$> l) in
  concat (map chars ws) ++ concat w =
    concat (map chars words) ++ concat word ++ camel (negb (bool_decide (word = []))) l.
Proof.
  revert words word. induction l as [|a l IH]; intros words word; [by rewrite app_nil_r|].
  rewrite fmap_cons. cbn [foldl camel]. unfold split_step at 2. cbn [fst snd IsUpper to_upper to_lower].
  destruct word as [|r word]; cbn [bool_decide].
  - rewrite (bool_decide_eq_true_2 (([] : list (list ascii)) = [])) by done.
    destruct (isSpacerChar [a]) eqn:Es; [exact (IH words [])|].
    specialize (IH words ([] ++ [[up_ascii a]])). destruct (foldl _ _ _) as [ws w]. rewrite IH. simpl.
    try rewrite bool_decide_eq_false_2 by done. done.
  - rewrite (bool_decide_eq_false_2 (r :: word = [])) by done. destruct (between 65 90 a) eqn:Eu.
    + rewrite (upper_spacer a Eu). cbn [orb app].
      specialize (IH (words ++ [text (concat (r :: word))]) [[up_ascii a]]). destruct (foldl _ _ _) as [ws w]. rewrite IH.
      try rewrite bool_decide_eq_false_2 by done. rewrite map_app, concat_app. simpl. rewrite chars_text, !app_nil_r.
      rewrite (up_upper a Eu). by rewrite <- !app_assoc.
    + cbn [orb]. destruct (isSpacerChar [a]) eqn:Es.
      * specialize (IH (words ++ [text (concat (r :: word))]) []). destruct (foldl _ _ _) as [ws w]. rewrite IH.
        rewrite (bool_decide_eq_true_2 (([] : list (list ascii)) = [])) by done.
        rewrite map_app, concat_app. simpl. rewrite chars_text, !app_nil_r. by rewrite <- !app_assoc.
      * specialize (IH words ((r :: word) ++ [[lower_ascii a]])). destruct (foldl _ _ _) as [ws w]. rewrite IH.
        try rewrite bool_decide_eq_false_2 by done. rewrite (lower_not_upper a Eu), concat_app. simpl. by rewrite <- !app_assoc.
Qed.

Lemma Camelize_chars s : ascii_only s → chars (Camelize s) = camel false (chars s).
Proof.
  intros Hs. unfold Camelize, splitAtCaseChangeWithTitlecase. rewrite runes_ascii_only by done.
  pose proof (split_camel (chars s) [] []) as G. destruct (foldl _ _ _) as [ws w].
  rewrite join_empty, chars_text, map_app, concat_app. simpl. rewrite chars_text, app_nil_r. exact G.
Qed.

Lemma camel_open l : Forall (λ a, isSpacerChar [a] = false) l → camel true l = l.
Proof. induction 1 as [|a l Ha _ IH]; [done|]. cbn [camel]. by rewrite Ha, IH. Qed.
Lemma camel_no_spacer o l : Forall (λ a, isSpacerChar [a] = false) (camel o l).
Proof.
  revert o. induction l as [|a l IH]; intros o; [constructor|]. cbn [camel].
  destruct (isSpacerChar [a]) eqn:E; [done|]. constructor; [|done]. destruct o; [done|]. by rewrite up_spacer.
Qed.
Lemma camel_twice l : camel false (camel false l) = camel false l.
Proof.
  induction l as [|a l IH]; [done|]. cbn [camel]. destruct (isSpacerChar [a]) eqn:E; [done|].
  cbn [camel]. rewrite up_spacer, E, up_up, camel_open by apply camel_no_spacer. done.
Qed.
Lemma camel_ascii o l : Forall (λ a, between 0 127 a = true) l → Forall (λ a, between 0 127 a = true) (camel o l).
Proof.
  intros Hl. revert o. induction Hl as [|a l Ha _ IH]; intros o; [constructor|]. cbn [camel].
  destruct (isSpacerChar [a]); [done|]. constructor; [|done]. destruct o; [done|].
  revert Ha. clear. by destruct a as [[] [] [] [] [] [] [] []].
Qed.

(** C37: for names of ASCII letters the splitting into words is a single pass over
    the text that drops the spacers and puts the letter after one, or at the
    start, into capitals; the result has no spacer and is kept by a second
    application. *)
Theorem camelize_pass s :
  ascii_only s →
  Camelize s = text (camel false (chars s)) ∧ Camelize (Camelize s) = Camelize s ∧
  Forall (λ a, isSpacerChar [a] = false) (chars (Camelize s)).
Proof.
  intros Hs. assert (E : Camelize s = text (camel false (chars s))) by (apply chars_inj; by rewrite Camelize_chars, chars_text).
  split; [done|]. split.
  - apply chars_inj. rewrite Camelize_chars.
    + by rewrite Camelize_chars, camel_twice.
    + unfold ascii_only. rewrite Camelize_chars by done. by apply camel_ascii.
  - rewrite Camelize_chars by done. apply camel_no_spacer.
Qed.

(** ** Namespaces ([ns.go]) *)

(** The descriptors of the compiler; a file without a package has none. *)
Record Method := MkMethod { m_Name : string; InputType : option string; OutputType : option string }.
Record Service := MkService { s_Name : string; s_Method : list Method }.
Record File := MkFile { f_Name : string; f_Package : option string; PhpNamespace : option string; f_Service : list Service }.
Record Request := MkRequest { FileToGenerate : list string; ProtoFile : list File }.

Record ns := MkNs { Package : string; Namespace : string; Import : gmap string string }.

Definition chunks_of (msg : string) : list string * string :=
  let chunks := Split msg "." in (take (length chunks - 1) chunks, default "" (last chunks)).
Definition pkg_of (msg : string) : string := Join (chunks_of msg).1 ".".

(** The namespace of a package other than the own one, by the files of the
    request; a file without package is a nil pointer. *)
Fixpoint custom_namespace (pkg : string) (files : list File) : res (option string) :=
  match files with
  | [] => Ok None
  | f :: files =>
      match f_Package f with
      | None => Panic
      | Some p => match PhpNamespace f with
                  | Some n => if String.eqb pkg ("." +:+ p) then Ok (Some n) else custom_namespace pkg files
                  | None => custom_namespace pkg files
                  end
      end
  end.

Definition add_import (k v : string) (n : ns) : ns := MkNs (Package n) (Namespace n) (<[k := v]> (Import n)).

Definition importMessage (req : Request) (msg : option string) (n : ns) : res ns :=
  match msg with
  | None => Ok n
  | Some msg =>
      let pkg := pkg_of msg in
      if String.eqb pkg ("." +:+ Package n) then Ok n else
      c ← custom_namespace pkg (ProtoFile req);
      Ok (add_import pkg (match c with
                          | Some v => v
                          | None => Trim (parts_text (chunks_of msg).1 backslash) backslash
                          end) n)
  end.

Fixpoint import_all (req : Request) (msgs : list (option string)) (n : ns) : res ns :=
  match msgs with
  | [] => Ok n
  | msg :: msgs => n ← importMessage req msg n; import_all req msgs n
  end.

Definition types_of (s : Service) : list (option string) := s_Method s ≫= (λ m, [InputType m; OutputType m]).

Definition newNamespace (req : Request) (file : File) (s : Service) : res ns :=
  match f_Package file with
  | None => Panic
  | Some p =>
      import_all req (types_of s)
        (MkNs p (match PhpNamespace file with Some n => n | None => namespace (Some p) backslash end) ∅)
  end.

Definition last_chunk (n : string) : string := default "" (last (Split n "\")).

Definition resolve (msg : string) (n : ns) : string :=
  let pkg := pkg_of msg in
  let id := identifier (chunks_of msg).2 "" in
  if String.eqb pkg ("." +:+ Package n) then id else
  match Import n !! pkg with
  | Some v => last_chunk v +:+ backslash +:+ resolveReserved id pkg
  | None => backslash +:+ namespace (Some msg) backslash
  end.

(** ** The printed interface ([template.go], [generate.go]) *)

(** A text with a backslash for a slash. *)
Definition to_path (s : string) : string := text (map (λ a, if Ascii.eqb a "\" then "/"%char else a) (chars s)).

Definition filename (file : File) (name : string) : string :=
  let n := match PhpNamespace file with Some n => to_path n | None => namespace (f_Package file) "/" end in
  n +:+ "/" +:+ identifier name "interface" +:+ ".php".

(** Insertion by the key. *)
Fixpoint insert_sorted (x : string * string) (l : list (string * string)) : list (string * string) :=
  match l with
  | [] => [x]
  | y :: l' => if String.leb x.1 y.1 then x :: l else y :: insert_sorted x l'
  end.
Definition sorted_imports (n : ns) : list (string * string) := foldr insert_sorted [] (map_to_list (Import n)).

Definition nl : string := text [ascii_of_nat 10].
Definition quote : string := text [ascii_of_nat 34].
Definition lines (l : list string) : string := foldr (λ s acc, s +:+ nl +:+ acc) "" l.

Definition grpc_use : string := "Spiral\RoadRunner\GRPC".
Definition uses (n : ns) : list string := grpc_use :: (snd <$> sorted_imports n).

Definition method_body (n : ns) (m : Method) : res string :=
  match InputType m, OutputType m with
  | Some i, Some o =>
      Ok (lines ["";
        "    /**";
        "    * @param GRPC\ContextInterface $ctx";
        "    * @param " +:+ resolve i n +:+ " $in";
        "    * @return " +:+ resolve o n;
        "    *";
        "    * @throws GRPC\Exception\InvokeException";
        "    */";
        "    public function " +:+ m_Name m +:+ "(GRPC\ContextInterface $ctx, " +:+ resolve i n +:+ " $in): " +:+ resolve o n +:+ ";"])
  | _, _ => Panic
  end.

Definition body (req : Request) (file : File) (s : Service) : res string :=
  n ← newNamespace req file s;
  ms ← mapM (method_body n) (s_Method s);
  Ok (lines ["<?php"; "# Generated by the protocol buffer compiler (spiral/php-grpc). DO NOT EDIT!"; "# source: " +:+ f_Name file] +:+
      (if String.eqb (Namespace n) "" then "" else lines [""; "namespace " +:+ Namespace n +:+ ";"]) +:+ nl +:+
      lines ((λ u, "use " +:+ u +:+ ";") <$> uses n) +:+ nl +:+
      lines ["interface " +:+ identifier (s_Name s) "interface" +:+ " extends GRPC\ServiceInterface"; "{";
             "    // GRPC specific service name.";
             "    public const NAME = " +:+ quote +:+ default "" (f_Package file) +:+ "." +:+ s_Name s +:+ quote +:+ ";"] +:+
      Join ms "" +:+ lines ["}"]).

Definition generate (req : Request) (file : File) (s : Service) : res (string * string) :=
  b ← body req file s; Ok (filename file (s_Name s), b).

Definition Generate (req : Request) : res (list (string * string)) :=
  mapM (λ x, generate req x.1 x.2) (ProtoFile req ≫= (λ f, (λ s, (f, s)) <$> f_Service f)).

(** ** The names in the interface *)

(** How PHP reads a class name in a file: a name that starts with a backslash is
    complete, the first part of another name is replaced by the import with
    that alias, and without one the name belongs to the namespace of the file.
    Aliases are compared without case. *)
Definition php_lower (s : string) : string := text (map lower_ascii (chars s)).
Definition alias (u : string) : string := php_lower (last_chunk u).
Definition qualify (n name : string) : string := if String.eqb n "" then name else n +:+ backslash +:+ name.

Fixpoint cut_at (a : ascii) (l : list ascii) : list ascii * option (list ascii) :=
  match l with
  | [] => ([], None)
  | b :: l' => if Ascii.eqb a b then ([], Some l') else let '(x, y) := cut_at a l' in (b :: x, y)
  end.

Definition php_expand (n : string) (us : list string) (name : string) : string :=
  match cut_at "\" (chars name) with
  | ([], Some rest) => text rest
  | (seg, rest) =>
      match List.find (λ u, String.eqb (alias u) (php_lower (text seg))) us with
      | Some u => match rest with Some r => u +:+ backslash +:+ text r | None => u end
      | None => qualify n name
      end
  end.

Definition distinct_aliases (us : list string) : Prop :=
  ∀ u v, u ∈ us → v ∈ us → alias u = alias v → u = v.

Lemma cut_at_app a x y : a ∉ x → cut_at a (x ++ a :: y) = (x, Some y).
Proof.
  induction x as [|b x IH]; intros Hx; cbn [app cut_at]; [by rewrite Ascii.eqb_refl|].
  apply not_elem_of_cons in Hx as [Hb Hx]. destruct (Ascii.eqb_spec a b); [done|]. by rewrite IH.
Qed.
Lemma cut_at_none a x : a ∉ x → cut_at a x = (x, None).
Proof.
  induction x as [|b x IH]; intros Hx; cbn [cut_at]; [done|].
  apply not_elem_of_cons in Hx as [Hb Hx]. destruct (Ascii.eqb_spec a b); [done|]. by rewrite IH.
Qed.

Lemma split_on_parts a l : Forall (λ p, a ∉ p) (split_on a l).
Proof.
  induction l as [|b l IH]; cbn [split_on]; [constructor; [apply not_elem_of_nil|constructor]|].
  destruct (Ascii.eqb_spec a b) as [->|Hne]; [constructor; [apply not_elem_of_nil|done]|].
  destruct (split_on a l) as [|p ps]; [by repeat constructor; rewrite list_elem_of_singleton|].
  apply Forall_cons in IH as [Hp Hps]. constructor; [|done]. by apply not_elem_of_cons.
Qed.

Lemma last_chunk_plain n : "\"%char ∉ chars (last_chunk n).
Proof.
  unfold last_chunk, Split. destruct (last (map text (split_on "\" (chars n)))) as [p|] eqn:E; [|apply not_elem_of_nil].
  apply last_Some_elem_of, list_elem_of_fmap in E as (q & -> & Hq). cbn [default from_option id]. rewrite chars_text.
  pose proof (split_on_parts "\" (chars n)) as Hf. rewrite Forall_forall in Hf. by apply Hf.
Qed.

Lemma find_alias us u seg :
  distinct_aliases us → u ∈ us → alias u = php_lower seg →
  List.find (λ v, String.eqb (alias v) (php_lower seg)) us = Some u.
Proof.
  intros Hd Hu Ha. destruct (List.find _ us) as [v|] eqn:E.
  - apply find_some in E as [Hv Hb%String.eqb_eq]. f_equal. apply Hd; [by apply list_elem_of_In|done|congruence].
  - apply list_elem_of_In in Hu. pose proof (find_none _ _ E u Hu) as Hn. simpl in Hn.
    apply String.eqb_neq in Hn. done.
Qed.

Lemma import_elem n k v : Import n !! k = Some v → v ∈ uses n.
Proof.
  intros Hk. right. apply list_elem_of_fmap. exists (k, v). split; [done|]. unfold sorted_imports.
  assert (Hin : (k, v) ∈ map_to_list (Import n)) by (by apply elem_of_map_to_list).
  induction (map_to_list (Import n)) as [|x l IH]; [by apply elem_of_nil in Hin|]. cbn [foldr].
  assert (G : ∀ x y l, y = x ∨ y ∈ l → y ∈ insert_sorted x l).
  { clear. intros x y l. induction l as [|z l IH]; intros Hy; cbn [insert_sorted]; [set_solver|].
    destruct (String.leb x.1 z.1); [set_solver|]. apply elem_of_cons.
    destruct Hy as [Hy|[Hy|Hy]%elem_of_cons]; [right; apply IH; by left|by left|right; apply IH; by right]. }
  apply G. apply elem_of_cons in Hin as [Hin|Hin]; [by left|right; by apply IH].
Qed.

(** *** The classes meant *)

(** A part of a proto name: letters, digits and underscores, not only
    underscores. *)
Definition plain_char (a : ascii) : bool :=
  between 48 57 a || between 65 90 a || between 97 122 a || Ascii.eqb a "_".
Definition plain (p : string) : Prop :=
  Forall (λ a, plain_char a = true) (chars p) ∧ ∃ a, a ∈ chars p ∧ a ≠ "_"%char.

Definition dotted (ps : list string) : string := text (join_with "." (map chars ps)).
(** The full name of a message as the compiler gives it. *)
Definition typename (ps : list string) (name : string) : string := "." +:+ dotted (ps ++ [name]).

Definition camelized (name : string) : string := text (camel false (chars name)).
Definition spaced (ps : list string) : string := text (join_with "\" (map (camel false ∘ chars) ps)).

(** The class of a message: a keyword of PHP gets a prefix, another one for the
    messages of Google. *)
Definition php_class (ps : list string) (name : string) : string :=
  if decide (php_lower (camelized name) ∈ reservedKeywords)
  then (if decide (ps = ["google"; "protobuf"]) then "GPB" else "PB") +:+ camelized name
  else camelized name.

(** The namespace of a package: the option of the first file of the package that
    has one, else the camelized parts. *)
Definition php_namespace (req : Request) (ps : list string) (v : string) : Prop :=
  let unset g := f_Package g = Some (dotted ps) → PhpNamespace g = None in
  (∃ before f after, ProtoFile req = before ++ f :: after ∧ Forall unset before ∧
     f_Package f = Some (dotted ps) ∧ PhpNamespace f = Some v) ∨
  (Forall unset (ProtoFile req) ∧ v = spaced ps).

Lemma append_inj_l (a b c : string) : a +:+ b = a +:+ c → b = c.
Proof. intros H%(f_equal chars). rewrite !chars_app in H. apply app_inv_head in H. by apply chars_inj. Qed.

Lemma custom_namespace_spec pkg ps files c :
  pkg = "." +:+ dotted ps → custom_namespace pkg files = Ok c →
  let unset g := f_Package g = Some (dotted ps) → PhpNamespace g = None in
  match c with
  | Some v => ∃ before f after, files = before ++ f :: after ∧ Forall unset before ∧
      f_Package f = Some (dotted ps) ∧ PhpNamespace f = Some v
  | None => Forall unset files
  end.
Proof.
  intros -> H unset. induction files as [|f files IH]; cbn [custom_namespace] in H; [injection H as <-; constructor|].
  destruct (f_Package f) as [p|] eqn:Ep; [|done].
  assert (Hrec : unset f → custom_namespace ("." +:+ dotted ps) files = Ok c → match c with
    | Some v => ∃ before g after, f :: files = before ++ g :: after ∧ Forall unset before ∧
        f_Package g = Some (dotted ps) ∧ PhpNamespace g = Some v
    | None => Forall unset (f :: files) end).
  { intros Hf Hc. specialize (IH Hc). destruct c; [|by constructor].
    destruct IH as (before & g & after & -> & Hb & Hg). exists (f :: before), g, after.
    split; [done|]. split; [by constructor|done]. }
  destruct (PhpNamespace f) as [v|] eqn:Ev; [|apply Hrec; [by intros _|done]].
  destruct (String.eqb_spec ("." +:+ dotted ps) ("." +:+ p)) as [Heq|Hne].
  - injection H as <-. exists [], f, files. split; [done|]. split; [constructor|]. split; [|done].
    rewrite Ep. f_equal. symmetry. by apply (append_inj_l ".").
  - apply Hrec; [|done]. intros E. rewrite Ep in E. by injection E as ->.
Qed.

Lemma plain_ascii p : plain p → ascii_only p.
Proof.
  intros [H _]. unfold ascii_only. eapply Forall_impl; [exact H|]. intros a. clear.
  by destruct a as [[] [] [] [] [] [] [] []].
Qed.

Lemma camel_plain o l : Forall (λ a, plain_char a = true) l → Forall (λ a, plain_char a = true) (camel o l).
Proof.
  intros Hl. revert o. induction Hl as [|a l Ha _ IH]; intros o; [constructor|]. cbn [camel].
  destruct (isSpacerChar [a]); [done|]. constructor; [|done]. destruct o; [done|].
  revert Ha. clear. by destruct a as [[] [] [] [] [] [] [] []].
Qed.

Lemma camel_ne l : Forall (λ a, plain_char a = true) l → (∃ a, a ∈ l ∧ a ≠ "_"%char) → camel false l ≠ [].
Proof.
  intros Hl (a & Ha & Hne). induction Hl as [|b l Hb _ IH]; [by apply not_elem_of_nil in Ha|]. cbn [camel].
  destruct (isSpacerChar [b]) eqn:E; [|done]. apply IH. apply elem_of_cons in Ha as [<-|Ha]; [|done].
  revert Hb E Hne. clear. destruct a as [[] [] [] [] [] [] [] []]; by vm_compute.
Qed.

(** The camelized parts are words without separators. *)
Definition word (l : list ascii) : Prop := l ≠ [] ∧ Forall (λ a, plain_char a = true) l.
Lemma camel_word p : plain p → word (camel false (chars p)).
Proof. intros [H1 H2]. split; [by apply camel_ne|by apply camel_plain]. Qed.

Lemma plain_not c a : plain_char c = false → plain_char a = true → a ≠ c.
Proof. intros H1 H2 ->. congruence. Qed.

Lemma Camelize_plain p : plain p → Camelize p = camelized p.
Proof. intros H. apply chars_inj. unfold camelized. by rewrite chars_text, Camelize_chars by by apply plain_ascii. Qed.

Lemma ToLower_word l : word l → ToLower (text l) = php_lower (text l).
Proof.
  intros [_ H]. unfold ToLower, php_lower. rewrite runes_ascii_only, !chars_text.
  - f_equal. clear H. induction l as [|a l IH]; [done|]. rewrite fmap_cons. cbn. by rewrite <- IH.
  - unfold ascii_only. rewrite chars_text. eapply Forall_impl; [exact H|]. intros a. clear.
    by destruct a as [[] [] [] [] [] [] [] []].
Qed.

Lemma lower_word l : word l → word (map lower_ascii l).
Proof.
  intros [Hne H]. split; [by destruct l|]. clear Hne. induction H as [|a l Ha _ IH]; cbn [map]; constructor; [|done].
  revert Ha. clear. by destruct a as [[] [] [] [] [] [] [] []].
Qed.

Lemma ToLower_twice l : word l → ToLower (ToLower (text l)) = php_lower (text l).
Proof.
  intros Hw. rewrite (ToLower_word _ Hw).
  assert (E : ∀ k, php_lower (text k) = text (map lower_ascii k)) by (intros k; unfold php_lower; by rewrite chars_text).
  rewrite E, (ToLower_word _ (lower_word _ Hw)), E, map_map. f_equal. apply map_ext. intros a.
  by destruct a as [[] [] [] [] [] [] [] []].
Qed.

Lemma plain_bool p : forallb plain_char (chars p) && existsb (λ a, negb (Ascii.eqb a "_")) (chars p) = true → plain p.
Proof.
  intros [H1 H2]%andb_prop. split.
  - apply Forall_forall. intros a Ha%list_elem_of_In. by eapply forallb_forall.
  - apply existsb_exists in H2 as (a & Ha%list_elem_of_In & Hn). exists a. split; [done|]. intros ->. done.
Qed.

Lemma plain_dotless p : plain p → Forall (λ a, a ≠ "."%char) (chars p).
Proof. intros [H _]. eapply Forall_impl; [exact H|]. intros a. by apply plain_not. Qed.

Lemma split_dotted ps : ps ≠ [] → Forall plain ps → split_on "." (chars (dotted ps)) = map chars ps.
Proof.
  intros Hne H. unfold dotted. rewrite chars_text, split_join; [done|by destruct ps|].
  apply Forall_fmap. eapply Forall_impl; [exact H|]. apply plain_dotless.
Qed.

Lemma map_text_chars ps : map text (map chars ps) = ps.
Proof. rewrite map_map, (map_ext _ id), map_id; [done|]. apply text_chars. Qed.

Lemma dotted_inj ps qs : Forall plain ps → Forall plain qs → qs ≠ [] → dotted ps = dotted qs → ps = qs.
Proof.
  intros Hp Hq Hne E. destruct ps as [|p ps].
  - pose proof (split_dotted qs Hne Hq) as H. rewrite <- E in H. change (split_on "." (chars (dotted []))) with [[] : list ascii] in H.
    destruct qs as [|q [|]]; try done. injection H as H. apply Forall_cons in Hq as [[_ (a & Ha & _)] _].
    rewrite <- H in Ha. by apply not_elem_of_nil in Ha.
  - pose proof (split_dotted (p :: ps) ltac:(done) Hp) as H1. pose proof (split_dotted qs Hne Hq) as H2.
    rewrite E, H2 in H1. rewrite <- (map_text_chars (p :: ps)), <- H1. by rewrite map_text_chars.
Qed.

Lemma resolveReserved_class ps name : plain name → Forall plain ps →
  resolveReserved (Camelize name) ("." +:+ dotted ps) = php_class ps name.
Proof.
  intros Hn Hps. rewrite Camelize_plain by done. unfold resolveReserved, isReserved, php_class.
  pose proof (camel_word name Hn) as Hw.
  assert (E : ToLower (ToLower (camelized name)) = php_lower (camelized name)) by (by apply ToLower_twice).
  rewrite E. destruct (decide _) as [Hin|Hin].
  - rewrite (proj2 (existsb_exists _ _)).
    2:{ exists (php_lower (camelized name)). split; [by apply list_elem_of_In|apply String.eqb_refl]. }
    destruct (decide (ps = _)) as [->|Hne]; [reflexivity|].
    destruct (String.eqb_spec ("." +:+ dotted ps) ".google.protobuf") as [Hd|]; [|done].
    destruct Hne. apply dotted_inj; [done|repeat constructor; by apply plain_bool|done|]. by apply (append_inj_l ".").
  - destruct (existsb _ _) eqn:Ex; [|done]. apply existsb_exists in Ex as (k & Hk & Ek%String.eqb_eq).
    destruct Hin. rewrite Ek. by apply list_elem_of_In.
Qed.

(** Imports are only added and, for a package, always the same. *)
Definition import_of (req : Request) (msg : string) : res string :=
  c ← custom_namespace (pkg_of msg) (ProtoFile req);
  Ok (match c with Some v => v | None => Trim (parts_text (chunks_of msg).1 backslash) backslash end).

Definition well (req : Request) (n : ns) : Prop :=
  ∀ k v, Import n !! k = Some v → ∃ msg, pkg_of msg = k ∧ import_of req msg = Ok v.

Lemma chars_Join l a : chars (Join l (text [a])) = join_with a (map chars l).
Proof.
  induction l as [|p l IH]; [done|]. destruct l as [|q l]; [done|].
  change (Join (p :: q :: l) (text [a])) with (p +:+ text [a] +:+ Join (q :: l) (text [a])).
  rewrite !chars_app, IH. done.
Qed.

Lemma chunks_dotless msg : Forall (λ p, Forall (λ b, b ≠ "."%char) (chars p)) (Split msg ".").
Proof.
  unfold Split. apply Forall_fmap. eapply Forall_impl; [apply split_on_parts|]. intros p Hp. cbn. rewrite chars_text.
  apply Forall_forall. intros b Hb ->. done.
Qed.

Lemma join_nil_head ps : ps ≠ [] → join_with "." ([] :: map chars ps) = chars ("." +:+ dotted ps).
Proof. intros H. rewrite chars_app. unfold dotted. rewrite chars_text. by destruct ps. Qed.

Lemma pkg_parts msg ps : ps ≠ [] → Forall plain ps → pkg_of msg = "." +:+ dotted ps → (chunks_of msg).1 = "" :: ps.
Proof.
  intros Hne Hps H. unfold pkg_of in H. apply (f_equal chars) in H. rewrite (chars_Join _ "."), <- join_nil_head in H by done.
  assert (Hd : Forall (λ p, Forall (λ b, b ≠ "."%char) (chars p)) (chunks_of msg).1)
    by (apply Forall_take, chunks_dotless).
  apply (f_equal (split_on ".")) in H. rewrite (split_join "." ([] :: map chars ps)) in H; [|done|].
  - destruct (chunks_of msg).1 as [|c cs]; [by destruct ps|]. rewrite split_join in H; [|done|by apply Forall_fmap].
    rewrite <- (map_text_chars (c :: cs)), H. cbn [map]. by rewrite map_text_chars.
  - constructor; [constructor|]. apply Forall_fmap. eapply Forall_impl; [exact Hps|]. apply plain_dotless.
Qed.

Lemma type_parts ps name : ps ≠ [] → Forall plain ps → plain name →
  chunks_of (typename ps name) = ("" :: ps, name) ∧ pkg_of (typename ps name) = "." +:+ dotted ps.
Proof.
  intros Hne Hps Hn. assert (Hc : chunks_of (typename ps name) = ("" :: ps, name)).
  { unfold chunks_of, typename, Split. rewrite <- join_nil_head by by destruct ps.
    rewrite split_join; [|done|].
    - cbn [map]. rewrite map_text_chars. change (text []) with "". rewrite length_cons, Nat.sub_1_r. cbn [pred take].
      change ("" :: ps ++ [name]) with (("" :: ps) ++ [name]). rewrite last_snoc. f_equal.
      rewrite length_app, Nat.add_comm. cbn [length Nat.add app take]. by rewrite take_app_length.
    - constructor; [constructor|]. apply Forall_fmap, Forall_app.
      split; [|by constructor; [apply plain_dotless|]]. eapply Forall_impl; [exact Hps|]. apply plain_dotless. }
  split; [done|]. unfold pkg_of. rewrite Hc. cbn [fst]. apply chars_inj. rewrite (chars_Join _ ".").
  by rewrite <- join_nil_head.
Qed.

Lemma join_first ws : ws ≠ [] → Forall word ws → ∃ a l, join_with "\" ws = a :: l ∧ plain_char a = true.
Proof.
  intros Hne H. destruct H as [|w ws [Hw Hp] _]; [done|]. destruct w as [|a w]; [done|].
  apply Forall_cons in Hp as [Ha _]. destruct ws; cbn; eauto.
Qed.
Lemma join_last ws : ws ≠ [] → Forall word ws → ∃ l a, join_with "\" ws = l ++ [a] ∧ plain_char a = true.
Proof.
  intros Hne H. induction H as [|w ws [Hw Hp] Hws IH]; [done|]. destruct ws as [|w' ws].
  - destruct (exists_last Hw) as (l & a & ->). apply Forall_app in Hp as [_ Hp]. apply Forall_cons in Hp as [Ha _].
    cbn. eauto.
  - destruct IH as (l & a & E & Ha); [done|]. change (join_with "\" (w :: w' :: ws)) with (w ++ "\"%char :: join_with "\" (w' :: ws)).
    rewrite E. exists (w ++ "\"%char :: l), a. by rewrite <- app_assoc.
Qed.

Lemma bslash_plain a : plain_char a = true → mem_char backslash a = false.
Proof. clear. by destruct a as [[] [] [] [] [] [] [] []]. Qed.

(** The text of the parts without its outer separators. *)
Lemma trim_words ws : ws ≠ [] → Forall word ws →
  rev (drop_while (mem_char backslash) (rev (drop_while (mem_char backslash) ("\"%char :: join_with "\" ws ++ ["\"%char]))))
  = join_with "\" ws.
Proof.
  intros Hne H. destruct (join_first ws Hne H) as (a & l & E & Ha). destruct (join_last ws Hne H) as (l' & b & E' & Hb).
  change (drop_while (mem_char backslash) ("\"%char :: join_with "\" ws ++ ["\"%char]))
    with (drop_while (mem_char backslash) (join_with "\" ws ++ ["\"%char])).
  rewrite E at 1. cbn [app drop_while]. rewrite (bslash_plain a Ha). change (a :: l ++ ["\"%char]) with ((a :: l) ++ ["\"%char]).
  rewrite <- E, rev_app_distr. cbn [rev app].
  change (drop_while (mem_char backslash) ("\"%char :: rev (join_with "\" ws)))
    with (drop_while (mem_char backslash) (rev (join_with "\" ws))).
  rewrite E', rev_app_distr. cbn [rev app drop_while]. rewrite (bslash_plain b Hb).
  change (b :: rev l') with ([b] ++ rev l'). by rewrite rev_app_distr, rev_involutive.
Qed.

Lemma parts_text_chars ps : ps ≠ [] → Forall plain ps →
  chars (parts_text ps backslash) = join_with "\" (map (camel false ∘ chars) ps) ++ ["\"%char].
Proof.
  intros Hne H. induction H as [|p ps Hp Hps IH]; [done|]. cbn [parts_text foldr].
  fold (parts_text ps backslash). rewrite !chars_app. unfold identifier. cbn [String.eqb].
  rewrite Camelize_chars by by apply plain_ascii. destruct ps as [|q ps]; [done|].
  rewrite IH by done. change (chars backslash) with ["\"%char]. cbn [map].
  change (join_with "\" (?x :: ?y :: ?z)) with (x ++ "\"%char :: join_with "\" (y :: z)).
  by rewrite <- app_assoc.
Qed.

Lemma importMessage_spec req msg n n' :
  importMessage req msg n = Ok n' → well req n →
  Package n' = Package n ∧ Namespace n' = Namespace n ∧ well req n' ∧
  (∀ k, is_Some (Import n !! k) → is_Some (Import n' !! k)) ∧
  (∀ m, msg = Some m → pkg_of m ≠ "." +:+ Package n → is_Some (Import n' !! pkg_of m)).
Proof.
  unfold importMessage. destruct msg as [m|]; [|by intros [= <-]].
  destruct (String.eqb_spec (pkg_of m) ("." +:+ Package n)) as [E|E].
  { intros [= <-] Hw. split_and!; try done. by intros m' [= <-]. }
  destruct (custom_namespace (pkg_of m) (ProtoFile req)) as [c| |] eqn:Ec; try done. cbn. intros [= <-] Hw.
  split_and!; try done.
  - intros k v. cbn. destruct (decide (pkg_of m = k)) as [<-|Hne].
    + rewrite lookup_insert_eq. intros [= <-]. exists m. split; [done|]. unfold import_of. rewrite Ec. by destruct c.
    + rewrite lookup_insert_ne by done. apply Hw.
  - intros k Hk. cbn. destruct (decide (pkg_of m = k)) as [<-|Hne]; [rewrite lookup_insert_eq; by eexists|by rewrite lookup_insert_ne].
  - intros m' [= <-] _. cbn. rewrite lookup_insert_eq. by eexists.
Qed.

Lemma import_all_spec req msgs n n' :
  import_all req msgs n = Ok n' → well req n →
  Package n' = Package n ∧ Namespace n' = Namespace n ∧ well req n' ∧
  (∀ k, is_Some (Import n !! k) → is_Some (Import n' !! k)) ∧
  (∀ m, Some m ∈ msgs → pkg_of m ≠ "." +:+ Package n → is_Some (Import n' !! pkg_of m)).
Proof.
  revert n. induction msgs as [|msg msgs IH]; intros n; cbn [import_all].
  { intros [= <-] Hw. split_and!; try done. by intros m ?%elem_of_nil. }
  destruct (importMessage req msg n) as [n1| |] eqn:E; try done. cbn. intros Hr Hw.
  destruct (importMessage_spec _ _ _ _ E Hw) as (H1 & H2 & H3 & H4 & H5).
  destruct (IH n1 Hr H3) as (G1 & G2 & G3 & G4 & G5). split_and!; [congruence|congruence|done|auto|].
  intros m [Hm|Hm]%elem_of_cons Hp; [apply G4; by eapply H5|apply G5; [done|by rewrite H1]].
Qed.

Lemma spaced_words ps : Forall plain ps → Forall word (map (camel false ∘ chars) ps).
Proof. intros H. apply Forall_fmap. eapply Forall_impl; [exact H|]. apply camel_word. Qed.

Lemma trim_parts ps : ps ≠ [] → Forall plain ps → Trim (parts_text ("" :: ps) backslash) backslash = spaced ps.
Proof.
  intros Hne H. unfold Trim, spaced. f_equal. cbn [parts_text foldr]. fold (parts_text ps backslash).
  rewrite !chars_app, parts_text_chars by done. apply trim_words; [by destruct ps|by apply spaced_words].
Qed.

Lemma namespace_own ps : ps ≠ [] → Forall plain ps → namespace (Some (dotted ps)) backslash = spaced ps.
Proof.
  intros Hne H. unfold namespace, Split. rewrite split_dotted, map_text_chars by done.
  rewrite <- (trim_parts ps Hne H). unfold Trim. cbn [parts_text foldr]. fold (parts_text ps backslash).
  rewrite !chars_app. done.
Qed.

Lemma import_namespace req msg ps v : ps ≠ [] → Forall plain ps → pkg_of msg = "." +:+ dotted ps →
  import_of req msg = Ok v → php_namespace req ps v.
Proof.
  intros Hne Hps Hk. unfold import_of. rewrite (pkg_parts msg ps Hne Hps Hk), (trim_parts ps Hne Hps).
  destruct (custom_namespace _ _) as [c| |] eqn:E; try done. cbn. intros [= <-].
  pose proof (custom_namespace_spec _ ps _ c Hk E) as G. destruct c; [by left|by right].
Qed.

Lemma last_chunk_spaced ps : ps ≠ [] → Forall plain ps → last_chunk (spaced ps) ≠ "".
Proof.
  intros Hne H. unfold last_chunk, Split, spaced. rewrite chars_text, split_join; [|by destruct ps|].
  - destruct (exists_last Hne) as (qs & q & ->). rewrite !map_app. cbn [map]. rewrite last_snoc. cbn.
    apply Forall_app in H as [_ [Hq _]%Forall_cons]. destruct (camel_word q Hq) as [Hw _].
    by destruct (camel false (chars q)).
  - eapply Forall_impl; [apply spaced_words, H|]. intros w [_ Hw]. eapply Forall_impl; [exact Hw|].
    intros a. by apply plain_not.
Qed.

Lemma camelized_plain name : plain name → camelized name ≠ "" ∧ "\"%char ∉ chars (camelized name).
Proof.
  intros H. destruct (camel_word name H) as [Hne Hw]. unfold camelized. rewrite chars_text. split.
  - by destruct (camel false (chars name)).
  - intros Hin. rewrite Forall_forall in Hw. by specialize (Hw _ Hin).
Qed.

(** A class of an imported namespace is read through its alias. *)
Lemma expand_import n v c : distinct_aliases (uses n) → v ∈ uses n → last_chunk v ≠ "" →
  php_expand (Namespace n) (uses n) (last_chunk v +:+ backslash +:+ c) = v +:+ backslash +:+ c.
Proof.
  intros Hd Hv Hne. unfold php_expand.
  rewrite !chars_app. change (chars backslash) with ["\"%char]. cbn [app].
  rewrite cut_at_app by apply last_chunk_plain. rewrite !text_chars.
  rewrite (find_alias (uses n) v (last_chunk v)); [|done|done|done].
  destruct (chars (last_chunk v)) as [|a l] eqn:E; [|done].
  exfalso. apply Hne. by rewrite <- (text_chars (last_chunk v)), E.
Qed.

(** A plain class without an alias of its name belongs to the namespace. *)
Lemma expand_own n c : "\"%char ∉ chars c → (∀ u, u ∈ uses n → alias u ≠ php_lower c) →
  php_expand (Namespace n) (uses n) c = qualify (Namespace n) c.
Proof.
  intros Hb Ha. unfold php_expand. rewrite cut_at_none by done. rewrite text_chars.
  destruct (List.find _ (uses n)) as [u|] eqn:E; [|by destruct (chars c)].
  apply find_some in E as [Hu He%String.eqb_eq]. destruct (Ha u); [by apply list_elem_of_In|done].
Qed.

(** C27: message types have plain names in plain packages, no two imports of the
    interface end in the same part, and no namespace that a file chooses is
    empty or ends in a backslash.  Then every message type of another package is
    read by PHP as the class of its camelized name in the namespace of that
    package, with the prefix of Google's or of other messages when the name is a
    keyword; and a type of the own package, when its name is neither a keyword
    nor that of an import, as the class in the namespace of the file. *)
Theorem php_names_resolve req file s n ps name :
  newNamespace req file s = Ok n → distinct_aliases (uses n) →
  (∀ f v, f ∈ ProtoFile req → PhpNamespace f = Some v → last_chunk v ≠ "") →
  Some (typename ps name) ∈ types_of s → ps ≠ [] → Forall plain ps → plain name →
  (f_Package file ≠ Some (dotted ps) → ∃ v, php_namespace req ps v ∧
     php_expand (Namespace n) (uses n) (resolve (typename ps name) n) = v +:+ backslash +:+ php_class ps name) ∧
  (f_Package file = Some (dotted ps) → php_lower (camelized name) ∉ reservedKeywords →
     (∀ u, u ∈ uses n → alias u ≠ php_lower (camelized name)) →
     php_expand (Namespace n) (uses n) (resolve (typename ps name) n) =
       qualify (match PhpNamespace file with Some v => v | None => spaced ps end) (camelized name)).
Proof.
  intros Hn Hd Hc Hm Hne Hps Hname. unfold newNamespace in Hn. destruct (f_Package file) as [p|]; [|done].
  destruct (import_all_spec _ _ _ _ Hn) as (H1 & H2 & H3 & _ & H5); [by intros k v Hk|].
  cbn [Package Import Namespace] in H1, H2, H5. destruct (type_parts ps name Hne Hps Hname) as [Ech Epk].
  unfold resolve. rewrite Ech, Epk, H1. cbn [snd]. unfold identifier. cbn [String.eqb]. split.
  - intros Ho. destruct (String.eqb_spec ("." +:+ dotted ps) ("." +:+ p)) as [E|E].
    { destruct Ho. f_equal. symmetry. by apply (append_inj_l "."). }
    destruct (H5 (typename ps name) Hm) as [v Hv]; [by rewrite Epk|]. rewrite Epk in Hv. rewrite Hv.
    destruct (H3 _ _ Hv) as (msg & Hk & Hi). exists v.
    assert (Hp : php_namespace req ps v) by (by eapply import_namespace). split; [done|].
    rewrite resolveReserved_class by done. apply expand_import; [done|by eapply import_elem|].
    destruct Hp as [(before & f & after & E' & _ & _ & Hf)|[_ ->]]; [|by apply last_chunk_spaced].
    apply (Hc f); [|done]. rewrite E'. set_solver.
  - intros [= ->] Hr Ha. rewrite String.eqb_refl, Camelize_plain by done.
    rewrite expand_own; [|by apply camelized_plain|done]. rewrite H2. by rewrite namespace_own.
Qed.

(** One file is printed for each service of each file of the request, those
    that are only imported included: which files to generate is not asked. *)
Theorem generate_all_files req out :
  Generate req = Ok out →
  out.*1 = ProtoFile req ≫= (λ f, (λ s, filename f (s_Name s)) <$> f_Service f).
Proof.
  unfold Generate. intros Ho.
  assert (G : ∀ l out, mapM (λ x : File * Service, generate req x.1 x.2) l = Ok out → out.*1 = (λ x, filename x.1 (s_Name x.2)) <$> l).
  { clear. induction l as [|x l IH]; intros o Ho; [by inversion Ho|].
    change (mapM (λ x : File * Service, generate req x.1 x.2) (x :: l)) with
      (y ← generate req x.1 x.2; k ← mapM (λ x : File * Service, generate req x.1 x.2) l; mret (y :: k)) in Ho.
    destruct (generate req x.1 x.2) as [y| |] eqn:Eg; try done.
    destruct (mapM _ l) as [o'| |] eqn:E; try done. inversion Ho. rewrite !fmap_cons. f_equal; [|by apply IH].
    unfold generate in Eg. destruct (body req x.1 x.2); try done. by inversion Eg. }
  rewrite (G _ _ Ho). clear. induction (ProtoFile req) as [|f fs IH]; [done|]. cbn.
  rewrite fmap_app. f_equal; [|exact IH]. by rewrite <- list_fmap_compose.
Qed.
End Names.

(** ** Examples: the expected files under [tests/plugins/grpc/testdata] *)

Definition ascii_case : RuneCase := {| uni_IsUpper _ := false; uni_ToUpper := id; uni_ToLower := id |}.
#[local] Existing Instance ascii_case.
#[local] Existing Instance ascii_unicode.

Definition t_message : option string := Some ".import.Message".
Definition t_sub : option string := Some ".import.sub.Message".
Definition t_service : Service :=
  MkService "Service" [MkMethod "SimpleMethod" t_message t_message; MkMethod "ImportMethod" t_sub t_sub].
Definition t_file : File := MkFile "import_custom/service.proto" (Some "import") (Some "Test\CustomImport") [t_service].
Definition t_import : File := MkFile "import_custom/sub/message.proto" (Some "import.sub") (Some "Test\CustomImport\Message") [].
Definition t_request : Request := MkRequest ["import_custom/service.proto"] [t_import; t_file].

Example import_custom_name : filename t_file "Service" = "Test/CustomImport/ServiceInterface.php".
Proof. vm_compute. reflexivity. Qed.

Example import_custom_body : body t_request t_file t_service = Ok (lines [
  "<?php";
  "# Generated by the protocol buffer compiler (spiral/php-grpc). DO NOT EDIT!";
  "# source: import_custom/service.proto";
  "";
  "namespace Test\CustomImport;";
  "";
  "use Spiral\RoadRunner\GRPC;";
  "use Test\CustomImport\Message;";
  "";
  "interface ServiceInterface extends GRPC\ServiceInterface";
  "{";
  "    // GRPC specific service name.";
  "    public const NAME = " +:+ quote +:+ "import.Service" +:+ quote +:+ ";";
  "";
  "    /**";
  "    * @param GRPC\ContextInterface $ctx";
  "    * @param Message $in";
  "    * @return Message";
  "    *";
  "    * @throws GRPC\Exception\InvokeException";
  "    */";
  "    public function SimpleMethod(GRPC\ContextInterface $ctx, Message $in): Message;";
  "";
  "    /**";
  "    * @param GRPC\ContextInterface $ctx";
  "    * @param Message\Message $in";
  "    * @return Message\Message";
  "    *";
  "    * @throws GRPC\Exception\InvokeException";
  "    */";
  "    public function ImportMethod(GRPC\ContextInterface $ctx, Message\Message $in): Message\Message;";
  "}"]).
Proof. vm_compute. reflexivity. Qed.

Definition t_empty : option string := Some ".google.protobuf.Empty".
Example use_empty_types :
  (n ← newNamespace (MkRequest [] [MkFile "use_empty/service.proto" (Some "test") None []])
        (MkFile "use_empty/service.proto" (Some "test") None []) (MkService "Service" [MkMethod "Test" t_empty t_empty]);
  Ok (Namespace n, uses n, resolve ".google.protobuf.Empty" n)) =
  Ok ("Test", ["Spiral\RoadRunner\GRPC"; "Google\Protobuf"], "Protobuf\GPBEmpty").
Proof. vm_compute. reflexivity. Qed.

Lemma camelize_pass_witness : Camelize "dino_party" = "DinoParty" ∧ Camelize (Camelize "dino_party") = Camelize "dino_party".
Proof.
  destruct (camelize_pass "dino_party") as (H1 & H2 & _).
  - by repeat constructor.
  - split; [rewrite H1; vm_compute; reflexivity|exact H2].
Defined.

Definition t_ns : ns := MkNs "import" "Test\CustomImport" {[ ".import.sub" := "Test\CustomImport\Message" ]}.

Lemma php_names_resolve_witness :
  newNamespace t_request t_file t_service = Ok t_ns ∧
  ∃ v, php_expand (Namespace t_ns) (uses t_ns) (resolve ".import.sub.Message" t_ns) = v +:+ "\Message".
Proof.
  assert (E : newNamespace t_request t_file t_service = Ok t_ns) by (vm_compute; reflexivity). split; [exact E|].
  destruct (php_names_resolve t_request t_file t_service t_ns ["import"; "sub"] "Message" E) as [H _].
  - assert (Hu : uses t_ns = ["Spiral\RoadRunner\GRPC"; "Test\CustomImport\Message"]) by (vm_compute; reflexivity).
    rewrite Hu. intros u v. rewrite !elem_of_cons, !elem_of_nil. intros [->|[->|[]]] [->|[->|[]]]; vm_compute; done.
  - intros f v. unfold t_request. cbn [ProtoFile]. rewrite !elem_of_cons, elem_of_nil.
    intros [->|[->|[]]] [= <-]; vm_compute; discriminate.
  - vm_compute. right; right; left.
  - discriminate.
  - repeat constructor; apply plain_bool; reflexivity.
  - apply plain_bool; reflexivity.
  - destruct H as (v & _ & He); [vm_compute; discriminate|]. exists v.
    assert (Ec : backslash +:+ php_class ["import"; "sub"] "Message" = "\Message") by (vm_compute; reflexivity).
    rewrite <- Ec. exact He.
Defined.

Lemma generate_all_files_witness :
  ∃ out, Generate t_request = Ok out ∧ out.*1 = ["Test/CustomImport/ServiceInterface.php"].
Proof.
  eexists. split; [vm_compute; reflexivity|].
  transitivity (ProtoFile t_request ≫= (λ f, (λ s, filename f (s_Name s)) <$> f_Service f)).
  - apply (generate_all_files t_request). vm_compute. reflexivity.
  - vm_compute. reflexivity.
Defined.

(** Two packages whose namespaces end in the same part are imported under one
    alias: the types of the second are read as those of the first. *)
Definition c_a : option string := Some ".a.common.Id".
Definition c_b : option string := Some ".b.common.Id".
Example php_alias_clash :
  (n ← newNamespace (MkRequest [] [MkFile "s.proto" (Some "s") None []]) (MkFile "s.proto" (Some "s") None [])
        (MkService "S" [MkMethod "M" c_a c_b]);
  Ok (php_expand (Namespace n) (uses n) (resolve ".b.common.Id" n))) = Ok "A\Common\Id".
Proof. vm_compute. reflexivity. Qed.

(** A message of the own package with a reserved name keeps it. *)
Example php_reserved_kept : ∀ n, Package n = "s" → resolve ".s.List" n = "List".
Proof. intros [p ns i] Hp. simpl in Hp. subst p. vm_compute. reflexivity. Qed.
End PhpGen.
