(* ===== verification/Admin.v ===== *)
(** * Administration: status checks, workers, resets and RPC
    ([status], [informer], [resetter], [rpc])

    Each plugin keeps a registry of other plugins by name and forwards requests
    to them.  A registered plugin is what its method answers. *)

From stdpp Require Import base gmap strings list.
From Stdlib Require Import ZArith.
From S2P Require Import Prelude GoStrings.
Local Open Scope Z_scope.

(** ** Status *)

Module Status.
Record Config := MkConfig { Address : string; UnavailableStatusCode : Z }.

Definition InitDefaults (c : Config) : Config :=
  MkConfig (Address c) (if UnavailableStatusCode c =? 0 then 503 else UnavailableStatusCode c).

(** What [Status] or [Ready] of a plugin answers: an error, nil or a code. *)
Definition checker : Type := option Z + error.

Record Plugin := MkPlugin { statusRegistry : gmap string checker; readyRegistry : gmap string checker; cfg : Config }.

(** [unmarshal] answers nothing for an empty section, which leaves the pointer
    nil. *)
Definition Init (has : string → bool) (unmarshal : string → res (option Config)) : res Plugin :=
  let op := "checker_plugin_init" in
  if negb (has "status") then Err (EOp op (EKind Disabled)) else
  match unmarshal "status" with
  | Err e => Err (EOp op (EOp "disabled" e))
  | Panic => Panic
  | Ok None => Panic
  | Ok (Some c) => Ok (MkPlugin ∅ ∅ (InitDefaults c))
  end.

Definition CollectCheckerImpls (name : string) (r : checker) (c : Plugin) : Plugin :=
  MkPlugin (<[name := r]> (statusRegistry c)) (readyRegistry c) (cfg c).
Definition CollectReadinessImpls (name : string) (r : checker) (c : Plugin) : Plugin :=
  MkPlugin (statusRegistry c) (<[name := r]> (readyRegistry c)) (cfg c).

Definition lookup_ (op name : string) (registry : gmap string checker) : checker :=
  match registry !! name with
  | None => inr (EOp op (EErrorf "no such plugin: %s" [name]))
  | Some r => r
  end.

Definition status (name : string) (c : Plugin) : checker := lookup_ "checker_plugin_status" name (statusRegistry c).
Definition ready (name : string) (c : Plugin) : checker := lookup_ "checker_plugin_ready" name (readyRegistry c).

(** The RPC methods store the code in the caller's status [out] and log it,
    through a pointer that may be nil. *)
Definition rpc_report (op : string) (r : checker) (out : Z) : res Z :=
  match r with
  | inr e => Err (EOp op e)
  | inl (Some code) => Ok code
  | inl None => Panic
  end.
Definition rpc_Status (name : string) (out : Z) (c : Plugin) : res Z := rpc_report "checker_rpc_status" (status name c) out.
Definition rpc_Ready (name : string) (out : Z) (c : Plugin) : res Z := rpc_report "checker_rpc_ready" (ready name c) out.

(** A reply: the status and the body; the library answers a returned error. *)
Inductive reply := Reply (code : Z) (body : string) | Failed (e : error).

Definition found (name : string) (code : Z) : string :=
  "Service: " +:+ name +:+ ": Status: " +:+ Itoa code +:+ text [Ascii.ascii_of_nat 10].
Definition not_found (name : string) : string := "Service: " +:+ name +:+ " not found".

(** The loop over the plugins of a request, shared by both handlers. *)
Fixpoint check_all (unavailable : Z) (registry : gmap string checker) (names : list string) (body : string) : reply :=
  match names with
  | [] => Reply 200 body
  | n :: names' =>
      match registry !! n with
      | None => check_all unavailable registry names' (body +:+ not_found n)
      | Some (inr e) => Failed e
      | Some (inl None) => Reply 503 body
      | Some (inl (Some code)) =>
          if 500 <=? code then Reply unavailable body
          else if (100 <=? code) && (code <=? 400) then check_all unavailable registry names' (body +:+ found n code)
          else check_all unavailable registry names' body
      end
  end.

(** [query]: the plugins named in the query. *)
Definition handler (op usage : string) (registry : gmap string checker) (query : list string + error) (c : Plugin) : reply :=
  match query with
  | inr e => Failed (EOp op e)
  | inl [] => Reply 400 usage
  | inl names => check_all (UnavailableStatusCode (cfg c)) registry names ""
  end.

Definition nl : string := text [Ascii.ascii_of_nat 10].
Definition healthHandler (query : list string + error) (c : Plugin) : reply :=
  handler "checker_plugin_health_handler"
    ("No plugins provided in query. Query should be in form of: health?plugin=plugin1&plugin=plugin2 " +:+ nl)
    (statusRegistry c) query c.
Definition readinessHandler (query : list string + error) (c : Plugin) : reply :=
  handler "checker_plugin_readiness_handler"
    ("No plugins provided in query. Query should be in form of: ready?plugin=plugin1&plugin=plugin2 " +:+ nl)
    (readyRegistry c) query c.

Definition passes (r : option checker) : Prop :=
  match r with None => True | Some (inl (Some code)) => code < 500 | _ => False end.

Lemma check_all_ok u reg names body :
  u ≠ 200 → (∃ b, check_all u reg names body = Reply 200 b) ↔ Forall (λ n, passes (reg !! n)) names.
Proof.
  intros Hu. revert body. induction names as [|n names IH]; intros body; simpl.
  { split; [by constructor|by eexists]. }
  rewrite Forall_cons. destruct (reg !! n) as [[[code|]|e]|]; simpl.
  - destruct (Z.leb_spec 500 code); [split; [intros [b [= ? _]]; lia|intros [? _]; lia]|].
    destruct (_ && _); rewrite IH; split; [by split|by intros []|by split|by intros []].
  - split; [by intros [b ?]|by intros []].
  - split; [by intros [b ?]|by intros []].
  - rewrite IH. split; [by split|by intros []].
Qed.

(** A readiness request is answered with 200 exactly if every plugin it names
    is unknown or ready with a code below 500; the same holds for health. *)
Theorem status_200_iff names c :
  names ≠ [] → UnavailableStatusCode (cfg c) ≠ 200 →
  ((∃ b, readinessHandler (inl names) c = Reply 200 b) ↔ Forall (λ n, passes (readyRegistry c !! n)) names) ∧
  ((∃ b, healthHandler (inl names) c = Reply 200 b) ↔ Forall (λ n, passes (statusRegistry c !! n)) names).
Proof.
  intros Hn Hu. unfold readinessHandler, healthHandler, handler. destruct names as [|n names]; [done|].
  by split; apply check_all_ok.
Qed.

Definition w_plugin : Plugin :=
  CollectReadinessImpls "http" (inl (Some 200)) (MkPlugin ∅ ∅ (InitDefaults (MkConfig "127.0.0.1:2114" 0))).

Lemma status_200_iff_witness : ∃ b, readinessHandler (inl ["http"; "grpc"]) w_plugin = Reply 200 b.
Proof.
  apply (status_200_iff ["http"; "grpc"] w_plugin); [discriminate|discriminate|]. repeat constructor.
Defined.

(** The routes of the server, in the order they are added; [Use] of the library
    matches the paths that start with its argument, and neither handler passes a
    request on. *)
Definition routes : list (string * (list string + error → Plugin → reply)) :=
  [("/health", healthHandler); ("/ready", readinessHandler)].

(** [None]: no route, which the library answers with 404. *)
Definition dispatch (path : string) (query : list string + error) (c : Plugin) : option reply :=
  (λ r, r.2 query c) <$> List.find (λ r, HasPrefix path r.1) routes.

(** The goroutine of [Serve]: what [Listen] returns goes to the channel. *)
Definition Serve (listen : option error) : list error := option_list listen.

(** [server]: what [Shutdown] answers, or no server before [Serve]. *)
Definition Stop (server : option (option error)) : res unit :=
  match server with
  | None => Panic
  | Some (Some e) => Err (EOp "checker_plugin_stop" e)
  | Some None => Ok tt
  end.

(** No path has both prefixes: a request is answered by the handler of its
    prefix, whatever the order of the routes. *)
Theorem status_routes path query c :
  (HasPrefix path "/health" = true → dispatch path query c = Some (healthHandler query c)) ∧
  (HasPrefix path "/ready" = true → dispatch path query c = Some (readinessHandler query c)) ∧
  (HasPrefix path "/health" = false → HasPrefix path "/ready" = false → dispatch path query c = None).
Proof.
  unfold dispatch, routes. simpl. split_and!.
  - by intros ->.
  - intros Hr. pose proof (proj1 (HasPrefix_spec _ _) Hr) as [t ->]. by rewrite Hr.
  - by intros -> ->.
Qed.

(** A plugin that answers nil makes the RPC method panic. *)
Lemma status_rpc_nil_panics (name : string) out c : statusRegistry c !! name = Some (inl None : checker) → rpc_Status name out c = Panic.
Proof. intros H. unfold rpc_Status, status, lookup_. by rewrite H. Qed.
End Status.

(** ** Informer *)

Module Informer.
Section Informer.
Context {S J : Type} `{GoRange}.

(** What [Workers] and [JobsState] of a plugin answer; nil slices are nothing. *)
Record Plugin := MkPlugin {
  withJobs : gmap string (option (list J) + error); withWorkers : gmap string (option (list S)) }.

Definition Init : Plugin := MkPlugin ∅ ∅.

Definition CollectWorkers (name : string) (r : option (list S)) (p : Plugin) : Plugin :=
  MkPlugin (withJobs p) (<[name := r]> (withWorkers p)).
Definition CollectJobs (name : string) (j : option (list J) + error) (p : Plugin) : Plugin :=
  MkPlugin (<[name := j]> (withJobs p)) (withWorkers p).

Definition Workers (name : string) (p : Plugin) : option (list S) := mjoin (withWorkers p !! name).

(** Errors are skipped. *)
Definition Jobs (name : string) (p : Plugin) : option (list J) :=
  match withJobs p !! name with Some (inl l) => l | _ => None end.

Definition List_ (p : Plugin) : list string := (range_map (withWorkers p)).*1.

(** [list] is what the caller's variable holds. *)
Definition rpc_Workers (service : string) (l : option (list S)) (p : Plugin) : option (list S) :=
  match Workers service p with None => l | w => w end.
Definition rpc_Jobs (service : string) (p : Plugin) : option (list J) := Jobs service p.
End Informer.
End Informer.

(** ** Resetter *)

Module Resetter.
Section Resetter.
(** A registered plugin is the effect of its [Reset] on the system. *)
Context {W : Type} `{GoRange}.

Record Plugin := MkPlugin { registry : gmap string (W → W * option error) }.
Definition Init : Plugin := MkPlugin ∅.
Definition RegisterTarget (name : string) (r : W → W * option error) (p : Plugin) : Plugin :=
  MkPlugin (<[name := r]> (registry p)).

Definition Reset (name : string) (p : Plugin) (w : W) : W * option error :=
  match registry p !! name with
  | None => (w, Some (EOp "resetter_plugin_reset_by_name" (EErrorf "no such plugin: %s" [name])))
  | Some r => r w
  end.

Definition List_ (p : Plugin) : list string := (range_map (registry p)).*1.

(** The new state, [done] and the error. *)
Definition rpc_Reset (service : string) (p : Plugin) (w : W) : W * bool * option error :=
  match Reset service p w with
  | (w, Some e) => (w, false, Some (EOp "resetter_rpc_reset" e))
  | (w, None) => (w, true, None)
  end.

(** The names of [List_] are those for which [Reset] reaches a plugin: for any
    other the call reports an error and changes nothing. *)
Lemma resetter_list_exact name p w :
  (name ∈ List_ p → ∃ r, registry p !! name = Some r ∧ Reset name p w = r w) ∧
  (name ∉ List_ p → ∃ e, rpc_Reset name p w = (w, false, Some e)).
Proof.
  unfold List_, rpc_Reset, Reset. split.
  - intros ([k r] & -> & Hin)%list_elem_of_fmap. apply elem_of_range_map in Hin. simpl. exists r. by rewrite Hin.
  - intros Hn. destruct (registry p !! name) as [r|] eqn:E; [|by eexists]. exfalso. apply Hn. apply list_elem_of_fmap.
    exists (name, r). split; [done|]. by apply elem_of_range_map.
Qed.
End Resetter.
End Resetter.

(** ** RPC *)

Module Rpc.
Record Config := MkConfig { Listen : string }.
Definition InitDefaults (c : Config) : Config := if String.eqb (Listen c) "" then MkConfig "tcp://127.0.0.1:6001" else c.

Definition invalid_dsn : error := EStr "invalid socket DSN (tcp://:6001, unix://file.sock)".
Definition Valid (c : Config) : option error :=
  match SplitStr (Listen c) "://" with [_; _] => None | _ => Some invalid_dsn end.

(** The network and the address to dial. *)
Definition Dialer (c : Config) : string * string + error :=
  match SplitStr (Listen c) "://" with [n; a] => inl (n, a) | _ => inr invalid_dsn end.

Section Plugin.
Context {S : Type} `{GoRange}.

(** [services]: what is registered with the server of the library, once there
    is one. *)
Record Plugin := MkPlugin {
  cfg : Config; plugins : gmap string S; services : option (gmap string S); listening : bool; closed : bool }.

Definition Init (has : string → bool) (unmarshal : string → res Config) : res Plugin :=
  let op := "rpc_plugin_init" in
  if negb (has "rpc") then Err (EOp op (EKind Disabled)) else
  match unmarshal "rpc" with
  | Err e => Err (EOp op (EOp "disabled" e))
  | Panic => Panic
  | Ok c =>
      let c := InitDefaults c in
      match Valid c with
      | Some e => Err (EOp op e)
      | None => Ok (MkPlugin c ∅ None false false)
      end
  end.

Definition RegisterPlugin (name : string) (s : S) (p : Plugin) : Plugin :=
  MkPlugin (cfg p) (<[name := s]> (plugins p)) (services p) (listening p) (closed p).

(** [check]: the library's check of the methods of a service. *)
Definition Register (check : S → option error) (name : string) (s : S) (p : Plugin) : Plugin * option error :=
  match services p with
  | None => (p, Some (EStr "RPC service is not configured"))
  | Some m =>
      match check s with
      | Some e => (p, Some e)
      | None => (MkPlugin (cfg p) (plugins p) (Some (<[name := s]> m)) (listening p) (closed p), None)
      end
  end.

Fixpoint register_all (check : S → option error) (l : list (string * S)) (p : Plugin) : Plugin * option error :=
  match l with
  | [] => (p, None)
  | (n, s) :: l' =>
      match Register check n s p with
      | (p, Some e) => (p, Some (EOp "rpc_plugin_serve" e))
      | (p, None) => register_all check l' p
      end
  end.

Definition Serve (check : S → option error) (Listener : option error) (p : Plugin) : Plugin * option error :=
  let p := MkPlugin (cfg p) (plugins p) (Some ∅) (listening p) (closed p) in
  match register_all check (range_map (plugins p)) p with
  | (p, Some e) => (p, Some e)
  | (p, None) =>
      match Listener with
      | Some e => (p, Some (EOp "rpc_plugin_serve" e))
      | None => (MkPlugin (cfg p) (plugins p) (services p) true (closed p), None)
      end
  end.

(** One round of the goroutine: a failed [Accept] ends it only after [Stop];
    otherwise it is logged and tried again. *)
Inductive round := Serving | Retry | Ended.
Definition accept (failed : bool) (p : Plugin) : round :=
  if failed then (if closed p then Ended else Retry) else Serving.

(** The state is set first; before [Serve] the listener is nil. *)
Definition Stop (close : option error) (p : Plugin) : Plugin * res unit :=
  (MkPlugin (cfg p) (plugins p) (services p) (listening p) true,
   if listening p then match close with Some e => Err (EOp "rpc_plugin_stop" e) | None => Ok tt end else Panic).

Lemma register_all_ok check l p m :
  services p = Some m → NoDup l.*1 → Forall (λ x, check x.2 = None) l →
  ∃ p', register_all check l p = (p', None) ∧ plugins p' = plugins p ∧
    services p' = Some (list_to_map l ∪ m).
Proof.
  revert p m. induction l as [|[n s] l IH]; intros p m Hm Hnd Hc; simpl.
  { exists p. split_and!; [done|done|]. by rewrite (left_id_L ∅ (∪)). }
  apply NoDup_cons in Hnd as [Hn Hnd]. apply Forall_cons in Hc as [Hs Hc]. simpl in Hs. unfold Register. rewrite Hm, Hs.
  destruct (IH (MkPlugin (cfg p) (plugins p) (Some (<[n := s]> m)) (listening p) (closed p)) (<[n := s]> m)
    eq_refl Hnd Hc) as (p' & Hr & Hp & Hse).
  exists p'. split_and!; [done|done|]. rewrite Hse. f_equal.
  rewrite <- insert_union_r by (by apply not_elem_of_list_to_map). by rewrite insert_union_l.
Qed.

(** A server whose plugins all have suitable methods answers exactly for the
    registered plugins, in whatever order they are attached, and every call
    before that is refused. *)
Theorem rpc_serves_plugins check p :
  map_Forall (λ _ s, check s = None) (plugins p) →
  ∃ p', Serve check None p = (p', None) ∧ services p' = Some (plugins p) ∧ listening p' = true.
Proof.
  intros Hc. unfold Serve.
  destruct (register_all_ok check (range_map (plugins p))
    (MkPlugin (cfg p) (plugins p) (Some ∅) (listening p) (closed p)) ∅ eq_refl (range_map_NoDup _))
    as (p' & Hr & Hp & Hs).
  { apply Forall_forall. intros [n s] Hin%elem_of_range_map. by apply (Hc n). }
  cbn [plugins]. rewrite Hr. eexists. split; [done|]. split; [|done]. simpl. rewrite Hs, (right_id_L ∅ (∪)). f_equal.
  transitivity (list_to_map (map_to_list (plugins p)) : gmap string S); [|apply list_to_map_to_list].
  apply list_to_map_proper; [apply range_map_NoDup|apply range_map_perm].
Qed.
End Plugin.

Local Instance rpc_range : GoRange.
Proof. refine {| range_map A m := map_to_list m |}. done. Defined.

Lemma rpc_serves_plugins_witness :
  ∃ p', Serve (λ _ : nat, None) None
    (RegisterPlugin "kv" 1%nat (MkPlugin (MkConfig "tcp://:6001") ∅ None false false)) = (p', None) ∧
    services p' = Some {[ "kv" := 1%nat ]} ∧ listening p' = true.
Proof.
  apply (rpc_serves_plugins (λ _, None) (RegisterPlugin "kv" 1%nat (MkPlugin (MkConfig "tcp://:6001") ∅ None false false))).
  by intros n s _.
Defined.
End Rpc.
