(* ===== verification/Services.v ===== *)
(** * Operating system processes: the service plugin ([service])

    A service is a command that is run in one or several processes.  Each
    process has a goroutine that waits for its end and restarts it, and one
    goroutine per start that ends it after a time; the stop of the plugin comes
    in between.  The process is a transition system of these goroutines and of
    the operating system. *)

From stdpp Require Import base gmap strings list relations.
From Stdlib Require Import Ascii ZArith.
From S2P Require Import Prelude GoStrings.
Local Open Scope Z_scope.

Module Service.

Definition Env : Type := gmap string string.

Record Service := MkService {
  Command : string; Output : string; ProcessNum : Z; ExecTimeout : Z; RemainAfterExit : bool;
  RestartSec : Z; s_Env : Env }.

Definition with_num z s := MkService (Command s) (Output s) z (ExecTimeout s) (RemainAfterExit s) (RestartSec s) (s_Env s).
Definition with_restart z s := MkService (Command s) (Output s) (ProcessNum s) (ExecTimeout s) (RemainAfterExit s) z (s_Env s).

(** The body of the loop for the service [k], whose value was [v]. *)
Definition init_service (m : gmap string Service) (kv : string * Service) : gmap string Service :=
  let m := if ProcessNum kv.2 =? 0 then alter (with_num 1) kv.1 m else m in
  if RestartSec kv.2 =? 0 then alter (with_restart 30) kv.1 m else m.

Section Config.
Context `{GoRange}.
Definition InitDefault (services : gmap string Service) : gmap string Service :=
  foldl init_service services (range_map services).

Definition init_one (s : Service) : Service :=
  let t := if ProcessNum s =? 0 then with_num 1 s else s in
  if RestartSec s =? 0 then with_restart 30 t else t.

Lemma init_service_lookup m k s k' : m !! k = Some s →
  init_service m (k, s) !! k' = if decide (k = k') then Some (init_one s) else m !! k'.
Proof.
  intros Hk. unfold init_service, init_one. simpl. case_decide as E.
  - subst k'. destruct (ProcessNum s =? 0), (RestartSec s =? 0); rewrite ?lookup_alter_eq, Hk; done.
  - destruct (ProcessNum s =? 0), (RestartSec s =? 0); by rewrite ?lookup_alter_ne by done.
Qed.

(** Every service gets its own defaults: one process and thirty seconds. *)
Theorem service_defaults services k : InitDefault services !! k = init_one <$> services !! k.
Proof.
  unfold InitDefault.
  assert (G : ∀ l m, NoDup l.*1 → (∀ k s, (k, s) ∈ l → m !! k = Some s) →
    ∀ k, foldl init_service m l !! k = if decide (k ∈ l.*1) then init_one <$> m !! k else m !! k).
  { clear. induction l as [|[k s] l IH]; intros m Hnd Hl k'; [by rewrite decide_False by apply not_elem_of_nil|].
    apply NoDup_cons in Hnd as [Hk Hnd]. cbn [foldl]. pose proof (Hl k s ltac:(left)) as Hm. rewrite IH; [|done|].
    - rewrite init_service_lookup by done. change ((k, s) :: l).*1 with (k :: l.*1).
      destruct (decide (k = k')) as [<-|Hne].
      + rewrite decide_False by done. rewrite decide_True by left. by rewrite Hm.
      + assert (Hiff : k' ∈ k :: l.*1 ↔ k' ∈ l.*1).
        { rewrite elem_of_cons. split; [by intros [->|?]|by right]. }
        by rewrite (decide_ext _ _ _ _ Hiff).
    - intros k1 s1 Hin. rewrite init_service_lookup by done. rewrite decide_False; [apply Hl; by right|].
      intros ->. apply Hk. apply list_elem_of_fmap. by exists (k1, s1). }
  rewrite G; [|apply range_map_NoDup|intros; by apply elem_of_range_map].
  destruct (services !! k) as [s|] eqn:E; [|by case_decide].
  rewrite decide_True; [done|]. apply list_elem_of_fmap. exists (k, s). split; [done|]. by apply elem_of_range_map.
Qed.
End Config.

(** ** A process *)

(** The waiting goroutine waits for the end of a process or sleeps before the
    restart. *)
Inductive waiter := Waiting (pid : nat) | Sleeping.

Global Instance waiter_eq_dec : EqDecision waiter.
Proof. solve_decision. Defined.

(** [command]: nil, or a command whose process is nil until it was started;
    [alive] are the processes of the operating system, [execHandlers] counts
    the goroutines of that name, [starts] the successful starts; [sending] is the
    error of a failed start that waits for a place in the channel of the plugin,
    with the lock of the process held. *)
Record Process := MkProcess {
  conf : Service; command : option (option nat); Pid : nat; startTime : Z; stopped : bool;
  waiters : list waiter; execHandlers : nat; starts : nat; alive : gset nat; sending : option error }.

Definition NewServiceProcess (s : Service) : Process := MkProcess s None 0 0 false [] 0 0 ∅ None.

Definition locked (p : Process) : bool := match sending p with Some _ => true | None => false end.

(** The command line: everything between two spaces is an argument. *)
Definition command_line (rawCmd : string) : string * list string :=
  match Split rawCmd " " with
  | c :: (_ :: _) as args => (c, tail args)
  | _ => (rawCmd, [])
  end.

Definition setEnv `{GoRange} (environ : list string) (e : Env) : list string :=
  environ ++ ((λ kv, kv.1 +:+ "=" +:+ kv.2) <$> range_map e).

(** [e]: what [Start] of the command answers; the new process has a fresh
    number. *)
Definition start (e : option error) (now : Z) (p : Process) : Process :=
  match e with
  | Some e => MkProcess (conf p) (Some None) (Pid p) (startTime p) (stopped p) (waiters p) (execHandlers p) (starts p) (alive p)
      (Some (EOp "processor_start" e))
  | None =>
      let pid := S (starts p) in
      MkProcess (conf p) (Some (Some pid)) pid now (stopped p) (waiters p ++ [Waiting pid]) (S (execHandlers p))
        (S (starts p)) ({[pid]} ∪ alive p) None
  end.

Definition with_waiters l p :=
  MkProcess (conf p) (command p) (Pid p) (startTime p) (stopped p) l (execHandlers p) (starts p) (alive p) (sending p).
Definition with_alive a p :=
  MkProcess (conf p) (command p) (Pid p) (startTime p) (stopped p) (waiters p) (execHandlers p) (starts p) a (sending p).
Definition with_handlers n p :=
  MkProcess (conf p) (command p) (Pid p) (startTime p) (stopped p) (waiters p) n (starts p) (alive p) (sending p).
Definition with_stopped p :=
  MkProcess (conf p) (command p) (Pid p) (startTime p) true (waiters p) (execHandlers p) (starts p) (alive p) (sending p).

Definition with_sending e p :=
  MkProcess (conf p) (command p) (Pid p) (startTime p) (stopped p) (waiters p) (execHandlers p) (starts p) (alive p) e.

(** The waiting goroutine after [Wait] has returned. *)
Definition wait_done (i : nat) (p : Process) : option Process :=
  w ← waiters p !! i;
  match w with
  | Sleeping => None
  | Waiting pid =>
      if decide (pid ∈ alive p) then None else
      Some (with_waiters (if RemainAfterExit (conf p) && negb (stopped p) then <[i := Sleeping]> (waiters p)
                          else delete i (waiters p)) p)
  end.

(** The waiting goroutine after its delay. *)
Definition wake (i : nat) (e : option error) (now : Z) (p : Process) : option Process :=
  w ← waiters p !! i;
  match w with
  | Waiting _ => None
  | Sleeping => if locked p then None else Some (start e now (with_waiters (delete i (waiters p)) p))
  end.

(** A kill ends the process. *)
Definition kill (p : Process) : Process :=
  match command p with
  | Some (Some pid) => with_alive (alive p ∖ {[pid]}) p
  | _ => p
  end.

(** The kill waits for the lock. *)
Definition stop (p : Process) : Process :=
  let p := with_stopped p in if locked p then p else kill p.

(** A tick of an [execHandler]: it ends after it has signalled the process;
    [obeys]: the process ends on the interrupt, or was not there and got the
    kill.  A command without a process is a nil pointer. *)
Definition exec_tick (now : Z) (obeys : bool) (p : Process) : res Process :=
  if (ExecTimeout (conf p) =? 0) || negb (stopped p || (startTime p + ExecTimeout (conf p) <? now)) then Ok p else
  match command p with
  | Some (Some pid) =>
      Ok (with_handlers (pred (execHandlers p)) (if obeys then with_alive (alive p ∖ {[pid]}) p else p))
  | _ => Panic
  end.

Inductive action :=
  | AExit (pid : nat) | AWaitDone (i : nat) | AWake (i : nat) (e : option error) (now : Z)
  | AStop | AKill | ATick (now : Z) (obeys : bool) | ASent.

(** The next state; a tick that panics ends the server.  [AKill]: the kill of a
    stop that had to wait.  [ASent]: the channel has taken the error. *)
Definition exec (a : action) (p : Process) : option Process :=
  match a with
  | AExit pid => Some (with_alive (alive p ∖ {[pid]}) p)
  | AWaitDone i => wait_done i p
  | AWake i e now => wake i e now p
  | AStop => Some (stop p)
  | AKill => if stopped p && negb (locked p) then Some (kill p) else None
  | ASent => if locked p then Some (with_sending None p) else None
  | ATick now b => if decide (execHandlers p = 0%nat) then None else
                   if locked p then None else
                   match exec_tick now b p with Ok p => Some p | _ => None end
  end.

Definition pstep (p p' : Process) : Prop := ∃ a, exec a p = Some p'.

(** *** One process at a time *)

Definition single (p : Process) : Prop :=
  (waiters p = [] ∧ alive p = ∅ ∨
   waiters p = [Sleeping] ∧ alive p = ∅ ∨
   ∃ pid, waiters p = [Waiting pid] ∧ command p = Some (Some pid) ∧ alive p ⊆ {[pid]}).

Lemma start_single e now p : waiters p = [] → alive p = ∅ → single (start e now p).
Proof.
  intros Hw Ha. destruct e as [e|]; unfold single; simpl.
  - left. by rewrite Hw.
  - right; right. exists (S (starts p)). rewrite Hw, Ha. split_and!; [done|done|set_solver].
Qed.

Lemma single_sub p p' : single p → waiters p' = waiters p → command p' = command p → alive p' ⊆ alive p → single p'.
Proof.
  intros H Hw Hc Ha. unfold single. rewrite Hw, Hc.
  destruct H as [[H1 H2]|[[H1 H2]|(pid & H1 & H2 & H3)]].
  - left. split; [done|]. set_solver.
  - right; left. split; [done|]. set_solver.
  - right; right. exists pid. split_and!; [done|done|set_solver].
Qed.

Lemma kill_single p : single p → single (kill p).
Proof.
  intros Hs. unfold kill. destruct (command p) as [[pid|]|]; [|done..]. apply (single_sub p); simpl; try done. set_solver.
Qed.

Lemma pstep_single p p' : pstep p p' → single p → single p'.
Proof.
  intros [a Ha] Hs. destruct a as [pid|i|i e now| | |now b|]; simpl in Ha.
  - injection Ha as <-. apply (single_sub p); simpl; try done. set_solver.
  - unfold wait_done in Ha. destruct Hs as [[H1 H2]|[[H1 H2]|(pid & H1 & H2 & H3)]]; rewrite H1 in Ha.
    + done.
    + destruct i; by simpl in Ha.
    + destruct i; [|done]. simpl in Ha. destruct (decide _) as [|Hn]; [done|]. injection Ha as <-.
      destruct (_ && _); unfold single; simpl; [right; left|left]; (split; [done|]); set_solver.
  - unfold wake in Ha. destruct Hs as [[H1 H2]|[[H1 H2]|(pid & H1 & H2 & H3)]]; rewrite H1 in Ha.
    + done.
    + destruct i; [|done]. simpl in Ha. destruct (locked p); [done|]. injection Ha as <-. by apply start_single.
    + destruct i; by simpl in Ha.
  - injection Ha as <-. unfold stop. assert (Hs' : single (with_stopped p)) by (by apply (single_sub p)).
    destruct (locked _); [done|by apply kill_single].
  - destruct (_ && _); [|done]. injection Ha as <-. by apply kill_single.
  - destruct (decide _); [done|]. destruct (locked p); [done|]. unfold exec_tick in Ha. destruct (_ || _); [by injection Ha as <-|].
    destruct (command p) as [[pid|]|]; [|done..]. injection Ha as <-.
    destruct b; apply (single_sub p); simpl; try done. set_solver.
  - destruct (locked p); [|done]. injection Ha as <-. by apply (single_sub p).
Qed.

(** C28: whatever the scheduling of its goroutines, the exits, restarts, timeouts
    and stops, a service process runs at most one operating system process, and
    that is the one of its current command. *)
Theorem service_one_process s e now p :
  rtc pstep (start e now (NewServiceProcess s)) p →
  ∀ pid, pid ∈ alive p → command p = Some (Some pid) ∧ alive p = {[pid]}.
Proof.
  intros Hs pid Hin. assert (H : single p).
  { assert (H0 : single (start e now (NewServiceProcess s))) by by apply start_single.
    induction Hs; eauto using pstep_single. }
  destruct H as [[_ H2]|[[_ H2]|(q & _ & H2 & H3)]]; [set_solver|set_solver|].
  assert (pid = q) as -> by set_solver. split; [done|]. set_solver.
Qed.

(** *** After the stop *)

(** While a failed start waits, nothing of the process runs. *)
Definition halted (p : Process) : Prop := locked p = true → waiters p = [] ∧ alive p = ∅.

Lemma kill_halted p : halted p → halted (kill p).
Proof.
  intros H. unfold kill. destruct (command p) as [[pid|]|]; [|done..]. intros [H1 H2]%H. split; [done|]. simpl. set_solver.
Qed.

Lemma pstep_halted p p' : pstep p p' → single p → halted p → halted p'.
Proof.
  intros [a Ha] Hs Hh. destruct a as [pid|i|i e now| | |now b|]; simpl in Ha.
  - injection Ha as <-. intros [H1 H2]%Hh. split; [done|]. simpl. set_solver.
  - unfold wait_done in Ha. intros Hl. destruct (locked p) eqn:E.
    + destruct (Hh E) as [H1 _]. rewrite H1 in Ha. done.
    + destruct (waiters p !! i) as [[]|]; simpl in Ha; try done. destruct (decide _); [done|]. injection Ha as <-.
      unfold locked in E, Hl. simpl in Hl. by destruct (sending p).
  - unfold wake in Ha. destruct (waiters p !! i) as [[]|] eqn:Ei; simpl in Ha; try done. destruct (locked p); [done|].
    injection Ha as <-. destruct e as [e|]; [|done]. intros _.
    destruct Hs as [[H1 H2]|[[H1 H2]|(pid & H1 & H2 & H3)]]; rewrite H1 in Ei; [done| |by destruct i].
    destruct i; [|done]. simpl. by rewrite H1.
  - injection Ha as <-. unfold stop. destruct (locked _); [done|by apply kill_halted].
  - destruct (_ && _); [|done]. injection Ha as <-. by apply kill_halted.
  - destruct (decide _); [done|]. destruct (locked p) eqn:E; [done|]. unfold exec_tick in Ha.
    destruct (_ || _); [by injection Ha as <-|]. destruct (command p) as [[pid|]|]; [|done..]. injection Ha as <-.
    intros Hl. exfalso. unfold locked in *. destruct b; simpl in Hl; by destruct (sending p).
  - destruct (locked p); [|done]. injection Ha as <-. done.
Qed.

Lemma reachable_single s e now p : rtc pstep (start e now (NewServiceProcess s)) p → single p ∧ halted p.
Proof.
  intros Hs. assert (H0 : single (start e now (NewServiceProcess s)) ∧ halted (start e now (NewServiceProcess s))).
  { split; [by apply start_single|]. by destruct e. }
  induction Hs as [|p q r Hpq _ IH]; [done|]. destruct H0 as [H1 H2]. apply IH. split; [by eapply pstep_single|by eapply pstep_halted].
Qed.

Definition quiet (p : Process) : Prop := stopped p = true ∧ alive p = ∅ ∧ Sleeping ∉ waiters p.

Lemma kill_quiet p : quiet p → quiet (kill p).
Proof.
  intros (H1 & H2 & H3). unfold kill. destruct (command p) as [[pid|]|]; split_and!; simpl; try done. set_solver.
Qed.

Lemma pstep_quiet p p' : pstep p p' → quiet p → quiet p'.
Proof.
  intros [a Ha] (H1 & H2 & H3). destruct a as [pid|i|i e now| | |now b|]; simpl in Ha.
  - injection Ha as <-. split_and!; simpl; [done|set_solver|done].
  - unfold wait_done in Ha. destruct (waiters p !! i) as [[pid|]|]; simpl in Ha; try done.
    destruct (decide _); [done|]. injection Ha as <-. rewrite H1, andb_false_r. split_and!; simpl; [done|done|].
    intros Hin. by apply H3, (list_elem_of_delete_inv _ i).
  - unfold wake in Ha. destruct (waiters p !! i) as [[pid|]|] eqn:E; simpl in Ha; try done.
    exfalso. apply H3. by eapply list_elem_of_lookup_2.
  - injection Ha as <-. unfold stop. assert (Hq : quiet (with_stopped p)) by done.
    destruct (locked _); [done|by apply kill_quiet].
  - destruct (_ && _); [|done]. injection Ha as <-. by apply kill_quiet.
  - destruct (decide _); [done|]. destruct (locked p); [done|].
    unfold exec_tick in Ha. destruct (_ || _); [injection Ha as <-; by split_and!|].
    destruct (command p) as [[pid|]|]; [|done..]. injection Ha as <-. destruct b; split_and!; simpl; try done. set_solver.
  - destruct (locked p); [|done]. by injection Ha as <-.
Qed.

(** A stop is final unless it comes while a restart is due: from then on no
    process runs any more. *)
Theorem service_stop_final s e now p p' :
  rtc pstep (start e now (NewServiceProcess s)) p → Sleeping ∉ waiters p → rtc pstep (stop p) p' →
  stopped p' = true ∧ alive p' = ∅.
Proof.
  intros Hs Hn Hs'. apply reachable_single in Hs as [H Hh].
  assert (Hq : quiet (stop p)).
  { unfold stop. change (locked (with_stopped p)) with (locked p). destruct (locked p) eqn:El.
    { destruct (Hh El) as [H1 H2]. split_and!; simpl; [done|done|done]. }
    unfold kill. destruct H as [[H1 H2]|[[H1 H2]|(pid & H1 & H2 & H3)]].
    - destruct (command (with_stopped p)) as [[q|]|]; unfold quiet; simpl; split_and!; try done. set_solver.
    - rewrite H1 in Hn. exfalso. apply Hn. left.
    - simpl. rewrite H2. unfold quiet. simpl. split_and!; [done|set_solver|done]. }
  assert (G : quiet p') by (clear -Hs' Hq; induction Hs'; eauto using pstep_quiet).
  by destruct G as (? & ? & _).
Qed.

(** A stop that comes during the delay of a restart does not hold: the process
    is started afterwards and runs on. *)
Theorem service_restarts_after_stop s now :
  RemainAfterExit s = true →
  ∃ p p', rtc pstep (start None now (NewServiceProcess s)) p ∧ rtc pstep (stop p) p' ∧
    stopped p' = true ∧ alive p' ≠ ∅.
Proof.
  intros Hr. set (p0 := start None now (NewServiceProcess s)).
  set (p1 := with_alive (alive p0 ∖ {[1%nat]}) p0). set (p2 := with_waiters [Sleeping] p1).
  set (p3 := start None now (with_waiters [] (stop p2))).
  exists p2, p3. split; [|split].
  - eapply rtc_l; [by exists (AExit 1)|]. apply rtc_once. exists (AWaitDone 0). simpl. unfold wait_done. simpl.
    rewrite decide_False by set_solver. by rewrite Hr.
  - apply rtc_once. by exists (AWake 0 None now).
  - simpl. split; [done|]. set_solver.
Qed.

(** Without a time limit the goroutine of every start stays for ever. *)
Lemma service_handlers_pile_up s e now p :
  ExecTimeout s = 0 → rtc pstep (start e now (NewServiceProcess s)) p → execHandlers p = starts p.
Proof.
  intros He Hs.
  assert (G : conf p = s ∧ execHandlers p = starts p); [|by destruct G].
  assert (G0 : conf (start e now (NewServiceProcess s)) = s ∧
    execHandlers (start e now (NewServiceProcess s)) = starts (start e now (NewServiceProcess s))) by (by destruct e).
  induction Hs as [|p1 p2 p3 [a Ha] _ IH]; [done|]. apply IH. destruct G0 as [Hc Hh].
  destruct a as [pid|i|i e' now'| | |now' b|]; simpl in Ha.
  - by injection Ha as <-.
  - unfold wait_done in Ha. destruct (waiters p1 !! i) as [[]|]; simpl in Ha; try done. destruct (decide _); by simplify_eq.
  - unfold wake in Ha. destruct (waiters p1 !! i) as [[]|]; simpl in Ha; try done.
    destruct (locked p1); [done|]. injection Ha as <-. destruct e'; simpl; by rewrite ?Hh.
  - injection Ha as <-. unfold stop, kill. destruct (locked _); [done|]. by destruct (command (with_stopped p1)) as [[]|].
  - destruct (_ && _); [|done]. injection Ha as <-. unfold kill. by destruct (command p1) as [[]|].
  - destruct (decide _); [done|]. destruct (locked p1); [done|]. unfold exec_tick in Ha. rewrite Hc, He in Ha. simpl in Ha. by injection Ha as <-.
  - destruct (locked p1); [|done]. by injection Ha as <-.
Qed.

(** ** The plugin *)

Section Plugin.
Context `{GoRange}.

(** [errCh] has one place.  [starting]: the process the goroutine of [Serve]
    starts next, with the lock of the plugin held. *)
Record Plugin := MkPlugin {
  Services : gmap string Service; processes : list Process; errCh : option error; starting : option nat }.

Definition Init (has : string → bool) (unmarshal : string → res (gmap string Service)) : res Plugin :=
  if negb (has "service") then Err (EKind Disabled) else
  c ← wrap_err "service_plugin_init" (unmarshal "service");
  Ok (MkPlugin (InitDefault c) [] None None).

(** The goroutine of [Serve] makes all the processes, then it starts them. *)
Definition Serve (p : Plugin) : Plugin :=
  let ps := '(_, s) ← range_map (Services p); replicate (Z.to_nat (ProcessNum s)) (NewServiceProcess s) in
  MkPlugin (Services p) ps None (Some 0%nat).

Definition with_processes ps p := MkPlugin (Services p) ps (errCh p) (starting p).

(** One round of its loop, after the start before it has returned; [e] is what
    the start answers. *)
Definition start_next (e : option error) (now : Z) (p : Plugin) : option Plugin :=
  i ← starting p;
  if match i with O => false | S j => from_option locked false (processes p !! j) end then None else
  match processes p !! i with
  | None => Some (MkPlugin (Services p) (processes p) (errCh p) None)
  | Some q => Some (MkPlugin (Services p) (<[i := start e now q]> (processes p)) (errCh p) (Some (S i)))
  end.

(** A process whose start has failed sends its error when the channel is empty. *)
Definition send (i : nat) (p : Plugin) : option Plugin :=
  q ← processes p !! i; e ← sending q;
  match errCh p with
  | Some _ => None
  | None => Some (MkPlugin (Services p) (<[i := with_sending None q]> (processes p)) (Some e) (starting p))
  end.

(** The container takes an error. *)
Definition receive (p : Plugin) : option (error * Plugin) :=
  e ← errCh p; Some (e, MkPlugin (Services p) (processes p) None (starting p)).

(** Processes whose state cannot be read are left out; [None]: the call waits
    for the lock. *)
Definition Workers {S} (state : nat → string → option S) (p : Plugin) : option (list S) :=
  match starting p with
  | Some _ => None
  | None => Some (omap (λ q, state (Pid q) (Command (conf q))) (processes p))
  end.

(** In order, up to a process whose lock is held; whether the loop has ended. *)
Fixpoint stop_all (ps : list Process) : list Process * bool :=
  match ps with
  | [] => ([], true)
  | q :: ps => if locked q then (stop q :: ps, false)
               else let '(ps, b) := stop_all ps in (stop q :: ps, b)
  end.

(** Whether the call has returned. *)
Definition Stop (p : Plugin) : Plugin * bool :=
  match starting p with
  | Some _ => (p, false)
  | None => let '(ps, b) := stop_all (processes p) in (with_processes ps p, b)
  end.

(** A second failed start waits until the container has taken the error of the
    first; until then the other processes are not started and the stop of the
    plugin waits. *)
Theorem service_failed_starts_wait services q1 q2 qs e1 e2 now :
  let p := MkPlugin services (q1 :: q2 :: qs) None (Some 0%nat) in
  ∃ p', (a ← start_next (Some e1) now p; b ← send 0 a; start_next (Some e2) now b) = Some p' ∧
    (∀ e, start_next e now p' = None) ∧ send 1 p' = None ∧ Stop p' = (p', false) ∧
    ∃ p'', receive p' = Some (EOp "processor_start" e1, p'') ∧ is_Some (send 1 p'').
Proof. intros p. eexists. split; [reflexivity|]. split; [done|]. split; [done|]. split; [done|]. eexists. split; [done|]. by eexists. Qed.
End Plugin.

(** ** Examples *)

Definition w_service : Service := MkService "php worker.php" "" 1 0 true 1 ∅.

Lemma service_one_process_witness :
  let p := start None 0 (NewServiceProcess w_service) in command p = Some (Some 1%nat) ∧ alive p = {[1%nat]}.
Proof.
  intros p. apply (service_one_process w_service None 0 p); [apply rtc_refl|]. simpl. set_solver.
Defined.

Lemma service_stop_final_witness :
  let p := start None 0 (NewServiceProcess w_service) in alive (stop p) = ∅.
Proof.
  intros p. apply (service_stop_final w_service None 0 p (stop p)); [apply rtc_refl| |apply rtc_refl].
  simpl. intros Hin. apply list_elem_of_singleton in Hin. discriminate Hin.
Defined.

Lemma service_restarts_after_stop_witness :
  ∃ p p', rtc pstep (start None 0 (NewServiceProcess w_service)) p ∧ rtc pstep (stop p) p' ∧
    stopped p' = true ∧ alive p' ≠ ∅.
Proof. apply service_restarts_after_stop. reflexivity. Defined.
End Service.
