(* ===== verification/WorkerServer.v ===== *)
(** * The worker server ([server])

    The plugin that starts the PHP workers: the command and the environment of
    a worker, the relay they talk over, the pools it hands out, and the command
    that runs before the workers.  The environment a process gets from a list
    of entries is that of [os/exec]: of several entries for one name the last
    counts. *)

From stdpp Require Import base gmap strings list.
From Stdlib Require Import Ascii ZArith Lia.
From S2P Require Import Prelude GoStrings.
Local Open Scope Z_scope.

Module Server.

(** [strings.ToUpper]: the table of the letters outside ASCII is a parameter. *)
Class Uppercase := { upper_rune : list ascii → list ascii }.

Definition upper_ascii (a : ascii) : ascii :=
  if between 97 122 a then ascii_of_N (N_of_ascii a - 32) else a.

Definition ToUpper `{Uppercase} (s : string) : string :=
  text (concat (map (λ r, match r with [a] => [upper_ascii a] | _ => upper_rune r end) (runes s))).

(** ** Configuration *)

Definition Envs : Type := gmap string string.

Record OnInitConfig := MkOnInit { oi_Command : string; oi_ExecTimeout : Z; oi_Env : Envs }.
Record Config := MkConfig {
  OnInit : option OnInitConfig; Command : string; User : string; Group : string; Env : Envs;
  Relay : string; RelayTimeout : Z }.

Definition second : Z := 1000000000.

Definition InitDefaults (c : Config) : res Config :=
  if String.eqb (Command c) "" then Err (EStr "command should not be empty") else
  let relay := if String.eqb (Relay c) "" then "pipes" else Relay c in
  let timeout := if RelayTimeout c =? 0 then 60 * second else RelayTimeout c in
  let done_ o := MkConfig o (Command c) (User c) (Group c) (Env c) relay timeout in
  match OnInit c with
  | None => Ok (done_ None)
  | Some o =>
      if String.eqb (oi_Command o) "" then Err (EStr "on_init command should not be empty") else
      Ok (done_ (Some (MkOnInit (oi_Command o) (if oi_ExecTimeout o =? 0 then 60 * second else oi_ExecTimeout o) (oi_Env o))))
  end.

(** ** Environments *)

Section Env.
Context `{Uppercase} `{GoRange}.

Definition upper_pair (kv : string * string) : string * string := (ToUpper kv.1, kv.2).
Definition entry (kv : string * string) : string := kv.1 +:+ "=" +:+ kv.2.
Definition env_entries (m : Envs) : list string := entry ∘ upper_pair <$> range_map m.

(** The name and the value of an entry; an entry without [=] is no variable. *)
Fixpoint cut (l : list ascii) : option (list ascii * list ascii) :=
  match l with
  | [] => None
  | a :: l => if Ascii.eqb a "=" then Some ([], l) else '(k, v) ← cut l; Some (a :: k, v)
  end.

Definition set_var (m : Envs) (e : string) : Envs :=
  match cut (chars e) with Some (k, v) => <[text k := text v]> m | None => m end.

(** What a process sees of a list of entries. *)
Definition env_map (l : list string) : Envs := foldl set_var ∅ l.

(** The variables of a section: its names in capitals. *)
Definition upper_env (m : Envs) : Envs := list_to_map (upper_pair <$> map_to_list m).

(** No two names of the section differ in case only, and none has a [=]. *)
Definition names_ok (m : Envs) : Prop :=
  (∀ k, k ∈ dom m → Forall (λ a, a ≠ "="%char) (chars (ToUpper k))) ∧
  (∀ k1 k2, k1 ∈ dom m → k2 ∈ dom m → ToUpper k1 = ToUpper k2 → k1 = k2).

Lemma set_var_union e m m' : set_var (m ∪ m') e = set_var m e ∪ m'.
Proof. unfold set_var. destruct (cut _) as [[k v]|]; [|done]. apply insert_union_l. Qed.

Lemma env_map_app l1 l2 : env_map (l1 ++ l2) = env_map l2 ∪ env_map l1.
Proof.
  unfold env_map. rewrite foldl_app.
  assert (G : ∀ m' m, foldl set_var (m' ∪ m) l2 = foldl set_var m' l2 ∪ m).
  { induction l2 as [|e l IH]; intros m' m; [done|]. simpl. by rewrite set_var_union, IH. }
  by rewrite <- G, (left_id_L ∅ (∪)).
Qed.

Lemma cut_entry k v : Forall (λ a, a ≠ "="%char) (chars k) → cut (chars (k +:+ "=" +:+ v)) = Some (chars k, chars v).
Proof.
  rewrite !chars_app. induction 1 as [|a l Ha _ IH]; [done|]. cbn [app cut].
  apply Ascii.eqb_neq in Ha. by rewrite Ha, IH.
Qed.

Lemma set_var_entry m kv :
  Forall (λ a, a ≠ "="%char) (chars kv.1) → set_var m (entry kv) = insert_pair m kv.
Proof. intros Hk. unfold set_var, entry. rewrite cut_entry by done. by rewrite !text_chars. Qed.

Lemma upper_NoDup m : names_ok m → NoDup ((upper_pair <$> map_to_list m).*1).
Proof.
  intros [_ Hinj]. rewrite <- list_fmap_compose. change (NoDup ((ToUpper ∘ fst) <$> map_to_list m)).
  rewrite list_fmap_compose. apply NoDup_fmap_2_strong; [|apply NoDup_fst_map_to_list].
  intros k1 k2 [[? v1] [-> H1]]%list_elem_of_fmap [[? v2] [-> H2]]%list_elem_of_fmap. simpl.
  apply elem_of_map_to_list in H1, H2. apply Hinj; by apply elem_of_dom.
Qed.

Lemma upper_env_lookup m k v : names_ok m → m !! k = Some v → upper_env m !! ToUpper k = Some v.
Proof.
  intros Hok Hk. apply elem_of_list_to_map_1; [by apply upper_NoDup|].
  apply list_elem_of_fmap. exists (k, v). split; [done|]. by apply elem_of_map_to_list.
Qed.

Lemma foldl_entries l m :
  Forall (λ kv : string * string, Forall (λ a, a ≠ "="%char) (chars kv.1)) l →
  foldl set_var m (entry <$> l) = foldl insert_pair m l.
Proof.
  intros Hok. revert m. induction Hok as [|kv l Hkv _ IH]; intros m; [done|].
  rewrite fmap_cons. cbn [foldl]. by rewrite set_var_entry, IH.
Qed.

Lemma env_map_entries m : names_ok m → env_map (env_entries m) = upper_env m.
Proof.
  intros Hok. pose proof (upper_NoDup m Hok) as Hnd. unfold env_map, env_entries, upper_env.
  rewrite <- (range_map_perm m) in Hnd.
  transitivity (list_to_map (upper_pair <$> range_map m) : Envs);
    [|apply list_to_map_proper; [done|by rewrite range_map_perm]].
  rewrite list_fmap_compose, foldl_entries.
  - apply map_eq. intros k. destruct (list_to_map (upper_pair <$> range_map m) !! k) as [v|] eqn:E.
    + apply lookup_foldl_insert; [done|]. by apply elem_of_list_to_map_2.
    + rewrite lookup_foldl_insert_ne by (by apply not_elem_of_list_to_map). apply lookup_empty.
  - apply Forall_fmap, Forall_forall. intros [k v] Hin%elem_of_range_map. apply Hok. by apply elem_of_dom.
Qed.
End Env.

(** ** The plugin *)

(** [utils.CreateListener] and the pools of workers are code of other
    repositories. *)
Section Plugin.
Context `{Uppercase} `{GoRange} {Lst Pool Worker : Type} (CreateListener : string → Lst + error).

Inductive factory := Pipe | Socket (l : Lst) (timeout : Z).

Definition bad_dsn : error :=
  EOpKind "server_plugin_init_factory" Network (EStr "invalid DSN (tcp://:6001, unix://file.sock)").

Definition initFactory (relay : string) (timeout : Z) : factory + error :=
  if String.eqb relay "" || String.eqb relay "pipes" then inl Pipe else
  match SplitStr relay "://" with
  | [scheme; _] =>
      match CreateListener relay with
      | inr e => inr (EOpKind "server_plugin_init_factory" Network e)
      | inl lsn => if String.eqb scheme "unix" || String.eqb scheme "tcp" then inl (Socket lsn timeout) else inr bad_dsn
      end
  | _ => inr bad_dsn
  end.

Record Plugin := MkPlugin {
  cfg : Config; preparedCmd : list string; preparedEnvs : list string; factory_ : factory; pools : list Pool }.

(** [rpc]: what the section [rpc] gives, nil without that section. *)
Definition Init (has : string → bool) (unmarshal : string → res (option Config)) (rpc : res (option string))
    (environ : list string) : res Plugin :=
  let fail e := Err (EOpKind "server_plugin_init" InitKind e) in
  if negb (has "server") then Err (EOp "server_plugin_init" (EKind Disabled)) else
  match unmarshal "server" with
  | Err e => fail e
  | Panic => Panic
  | Ok oc =>
      match rpc with
      | Err e => fail e
      | Panic => Panic
      | Ok listen =>
          match oc with
          | None => Panic
          | Some c =>
              match InitDefaults c with
              | Err e => fail e
              | Panic => Panic
              | Ok c =>
                  let envs := environ ++ ["RR_RELAY=" +:+ Relay c] ++
                    (match listen with
                     | Some a => if String.eqb a "" then [] else ["RR_RPC=" +:+ a]
                     | None => []
                     end) ++ env_entries (Env c) in
                  match initFactory (Relay c) (RelayTimeout c) with
                  | inr e => Err (EOp "server_plugin_init" e)
                  | inl f => Ok (MkPlugin c (Split (Command c) " ") envs f [])
                  end
              end
          end
      end
  end.

(** An [exec.Cmd]. *)
Record cmd := MkCmd { Path : string; Args : list string; cmd_Env : list string }.

Definition with_args (parts : list string) (env : list string) : res cmd :=
  match parts with [] => Panic | c :: args => Ok (MkCmd c args env) end.

(** [user]: what [utils.ExecuteFromUser] answers; the command is nil when the
    user cannot be set. *)
Definition CmdFactory (user : string → option error) (env : Envs) (p : Plugin) : res (option cmd) :=
  match with_args (preparedCmd p) (preparedEnvs p ++ env_entries env) with
  | Ok c => if negb (String.eqb (User (cfg p)) "") && bool_decide (is_Some (user (User (cfg p)))) then Ok None else Ok (Some c)
  | Err e => Err e
  | Panic => Panic
  end.

Definition NewWorker (spawn : factory → option cmd → Worker + error) user (env : Envs) (p : Plugin) : res Worker :=
  match CmdFactory user env p with
  | Ok c => match spawn (factory_ p) c with
            | inl w => Ok w
            | inr e => Err (EOp "server_plugin_new_worker" e)
            end
  | Err e => Err e
  | Panic => Panic
  end.

(** [create]: [pool.NewStaticPool], which gets the factory of commands and of
    workers. *)
Definition NewWorkerPool {Opt} (create : (unit → res (option cmd)) → factory → Opt → Pool + error) user (opt : Opt) (env : Envs)
    (p : Plugin) : Plugin * (Pool + error) :=
  match create (λ _, CmdFactory user env p) (factory_ p) opt with
  | inr e => (p, inr e)
  | inl pl => (MkPlugin (cfg p) (preparedCmd p) (preparedEnvs p) (factory_ p) (pools p ++ [pl]), inl pl)
  end.

Inductive event := Destroy (p : Pool) | CloseFactory.
Definition Stop (p : Plugin) : list event := (Destroy <$> pools p) ++ [CloseFactory].

(** *** The command before the workers *)

Definition createProcess (environ : list string) (env : Envs) (c : string) : cmd :=
  let args := Split c " " in
  let envs := env_entries env ++ environ in
  if (length args <? 2)%nat then MkCmd c [] envs else MkCmd (default "" (head args)) (tail args) envs.

Inductive init_event := Started (c : cmd) | Killed | Ended.

(** [start]: what the start answers; [late]: the timer comes before the end of
    the command. *)
Definition runOnInitCommand (environ : list string) (start : option error) (late : bool) (o : OnInitConfig)
    : list init_event * option error :=
  match start with
  | Some e => ([], Some (EOp "server_on_init" e))
  | None => (Started (createProcess environ (oi_Env o) (oi_Command o)) :: [if late then Killed else Ended], None)
  end.

(** An error of the command is logged; the channel stays empty. *)
Definition Serve (environ : list string) (start : option error) (late : bool) (p : Plugin)
    : list init_event * option error :=
  match OnInit (cfg p) with
  | Some o => ((runOnInitCommand environ start late o).1, None)
  | None => ([], None)
  end.

(** *** Theorems *)

Lemma Split_ne c a : Split c a ≠ [].
Proof. unfold Split. pose proof (split_on_ne a (chars c)). by destruct (split_on a (chars c)). Qed.

Lemma env_map_one k v : Forall (λ a, a ≠ "="%char) (chars k) → env_map [k +:+ "=" +:+ v] = {[ k := v ]}.
Proof. intros Hk. unfold env_map. cbn [foldl]. by rewrite (set_var_entry ∅ (k, v)). Qed.

Lemma Init_ok has unmarshal rpc environ p :
  Init has unmarshal rpc environ = Ok p → ∃ c c' listen,
    unmarshal "server" = Ok (Some c) ∧ InitDefaults c = Ok c' ∧ rpc = Ok listen ∧ cfg p = c' ∧
    initFactory (Relay c') (RelayTimeout c') = inl (factory_ p) ∧ preparedCmd p = Split (Command c') " " ∧ pools p = [] ∧
    preparedEnvs p = environ ++ ["RR_RELAY=" +:+ Relay c'] ++
      (match listen with Some a => if String.eqb a "" then [] else ["RR_RPC=" +:+ a] | None => [] end) ++ env_entries (Env c').
Proof.
  unfold Init. destruct (negb _); [done|]. destruct (unmarshal "server") as [[c|]|e|]; destruct rpc as [listen|e'|]; try done.
  destruct (InitDefaults c) as [c'|e|] eqn:E; try done.
  destruct (initFactory _ _) as [f|e] eqn:Ef; [|done]. intros [= <-]. by exists c, c', listen.
Qed.

Lemma or_minute z : (if z =? 0 then 60 * second else z) ≠ 0.
Proof. destruct (Z.eqb_spec z 0); unfold second; lia. Qed.

Lemma InitDefaults_ok c c' : InitDefaults c = Ok c' →
  Command c' = Command c ∧ Command c ≠ "" ∧ Env c' = Env c ∧ User c' = User c ∧ RelayTimeout c' ≠ 0 ∧
  Relay c' = (if String.eqb (Relay c) "" then "pipes" else Relay c) ∧
  (∀ o, OnInit c' = Some o → oi_Command o ≠ "" ∧ oi_ExecTimeout o ≠ 0).
Proof.
  unfold InitDefaults. destruct (String.eqb_spec (Command c) "") as [|Hc]; [done|].
  destruct (OnInit c) as [o|]; [destruct (String.eqb_spec (oi_Command o) "") as [|Ho]; [done|]|];
    intros Heq; injection Heq as <-; cbn [Command Env User RelayTimeout Relay OnInit]; (split_and!; [done|done|done|done|apply or_minute|done|]).
  - intros o' Ho'. injection Ho' as <-. split; [done|apply or_minute].
  - done.
Qed.

(** The relay variables of a worker. *)
Definition relay_env (relay : string) (listen : option string) : Envs :=
  (match listen with Some a => if String.eqb a "" then ∅ else {[ "RR_RPC" := a ]} | None => ∅ end) ∪ {[ "RR_RELAY" := relay ]}.

Lemma relay_entry r : env_map ["RR_RELAY=" +:+ r] = {[ "RR_RELAY" := r ]}.
Proof. apply (env_map_one "RR_RELAY"). by repeat constructor. Qed.
Lemma listen_entry listen :
  env_map (match listen with Some a => if String.eqb a "" then [] else ["RR_RPC=" +:+ a] | None => [] end) =
  match listen with Some a => if String.eqb a "" then ∅ else {[ "RR_RPC" := a ]} | None => ∅ end.
Proof.
  destruct listen as [a|]; [|done]. destruct (String.eqb a ""); [done|].
  apply (env_map_one "RR_RPC"). by repeat constructor.
Qed.

(** What a worker sees: the variables its pool sets, in capitals, before those
    of the configuration, before the addresses of the RPC server and of the
    relay, before the environment of the server; its command line is the
    configured one. *)
Theorem worker_environment has unmarshal rpc environ p user env c :
  Init has unmarshal rpc environ = Ok p → CmdFactory user env p = Ok (Some c) →
  names_ok env → names_ok (Env (cfg p)) →
  ∃ listen, rpc = Ok listen ∧
    env_map (cmd_Env c) = upper_env env ∪ (upper_env (Env (cfg p)) ∪ (relay_env (Relay (cfg p)) listen ∪ env_map environ)) ∧
    Path c :: Args c = Split (Command (cfg p)) " ".
Proof.
  intros (c0 & c1 & listen & _ & Hd & Hr & Hcfg & _ & Hcmd & _ & Henv)%Init_ok Hf Hok1 Hok2.
  exists listen. split; [done|]. unfold CmdFactory, with_args in Hf. rewrite Hcmd in Hf.
  destruct (Split (Command c1) " ") as [|x args] eqn:Es; [done|]. destruct (_ && _); [done|]. injection Hf as <-.
  cbn [cmd_Env Path Args]. rewrite Hcfg in *. split; [|done].
  rewrite env_map_app, env_map_entries, Henv by done. rewrite !env_map_app, env_map_entries by done.
  rewrite relay_entry, listen_entry. unfold relay_env. by rewrite <- !(assoc_L (∪)).
Qed.

(** The command before the workers sees the environment of the server before
    its own variables: a variable of [on_init] that the server has too keeps
    the value of the server. *)
Theorem oninit_environment environ start late p o :
  OnInit (cfg p) = Some o → names_ok (oi_Env o) → start = None →
  ∃ c e, (Serve environ start late p).1 = [Started c; e] ∧ env_map (cmd_Env c) = env_map environ ∪ upper_env (oi_Env o) ∧
    (late = true → e = Killed).
Proof.
  intros Ho Hok ->. unfold Serve. rewrite Ho. eexists _, _. split; [done|]. split; [|by intros ->].
  assert (E : cmd_Env (createProcess environ (oi_Env o) (oi_Command o)) = env_entries (oi_Env o) ++ environ)
    by (unfold createProcess; by destruct (_ <? _)%nat).
  by rewrite E, env_map_app, env_map_entries.
Qed.

(** A plugin that starts talks over pipes exactly without a relay or with the
    relay [pipes], and otherwise over a listener for the configured address of
    a known scheme, with a time to wait. *)
Theorem server_relay has unmarshal rpc environ p :
  Init has unmarshal rpc environ = Ok p →
  match factory_ p with
  | Pipe => Relay (cfg p) = "pipes"
  | Socket l t => t ≠ 0 ∧ t = RelayTimeout (cfg p) ∧ CreateListener (Relay (cfg p)) = inl l ∧
      ∃ scheme rest, SplitStr (Relay (cfg p)) "://" = [scheme; rest] ∧ scheme ∈ ["unix"; "tcp"]
  end.
Proof.
  intros (c0 & c1 & listen & _ & Hd & _ & -> & Hf & _)%Init_ok. apply InitDefaults_ok in Hd as (_ & _ & _ & _ & Ht & Hrel & _).
  unfold initFactory in Hf. destruct (String.eqb_spec (Relay c1) "") as [E|_].
  { rewrite E in Hrel. by destruct (String.eqb_spec (Relay c0) ""). }
  destruct (String.eqb_spec (Relay c1) "pipes") as [E|_]; simpl in Hf.
  { by injection Hf as <-. }
  destruct (SplitStr (Relay c1) "://") as [|scheme [|rest [|? ?]]] eqn:Es; try done.
  destruct (CreateListener (Relay c1)) as [l|e]; [|done].
  destruct (String.eqb_spec scheme "unix") as [->|_]; simpl in Hf; [|destruct (String.eqb_spec scheme "tcp") as [->|_]; [|done]];
    injection Hf as <-; (split_and!; [done|done|done|]); eexists _, rest; (split; [done|]); set_solver.
Qed.

(** Pools that were created are destroyed once each, in order, and then the
    relay is closed; pools that could not be created are not listed. *)
Theorem server_stop_destroys {Opt} create user (reqs : list (Opt * Envs)) (p : Plugin) :
  let next := λ q r, (NewWorkerPool create user r.1 r.2 q).1 in
  let made := omap (λ r, match create (λ _, CmdFactory user r.2 p) (factory_ p) r.1 with inl pl => Some pl | _ => None end) reqs in
  Stop (foldl next p reqs) = (Destroy <$> pools p ++ made) ++ [CloseFactory].
Proof.
  intros next made. unfold Stop, made. clear made. f_equal. f_equal.
  assert (G : ∀ q, cfg q = cfg p → preparedCmd q = preparedCmd p → preparedEnvs q = preparedEnvs p → factory_ q = factory_ p →
    pools (foldl next q reqs) = pools q ++
      omap (λ r, match create (λ _, CmdFactory user r.2 p) (factory_ p) r.1 with inl pl => Some pl | _ => None end) reqs);
    [|by apply G].
  induction reqs as [|r reqs IH]; intros q H1 H2 H3 H4; [by rewrite app_nil_r|]. cbn [foldl omap list_omap].
  assert (Hc : (λ _ : unit, CmdFactory user r.2 q) = (λ _, CmdFactory user r.2 p)).
  { unfold CmdFactory. by rewrite H1, H2, H3. }
  unfold next at 2, NewWorkerPool. rewrite Hc, H4. destruct (create _ _ _) as [pl|e]; simpl.
  - rewrite IH by done. simpl. by rewrite <- (assoc_L (++)).
  - by rewrite IH.
Qed.
End Plugin.

(** ** Examples *)

Definition ascii_upper : Uppercase := {| upper_rune := id |}.
#[local] Existing Instance ascii_upper.

Definition w_env : Envs := {[ "rr_mode" := "http" ]}.
Definition w_config : Config := MkConfig (Some (MkOnInit "php init.php" 0 {[ "home" := "/app" ]})) "php worker.php" "" "" w_env "" 0.
Definition w_has (_ : string) : bool := true.
Definition w_unmarshal (_ : string) : res (option Config) := Ok (Some w_config).
Definition w_listener (_ : string) : nat + error := inl 7%nat.
Definition w_environ : list string := ["HOME=/root"; "PATH=/bin"].
Definition w_plugin : @Plugin nat nat :=
  MkPlugin (match InitDefaults w_config with Ok c => c | _ => w_config end) ["php"; "worker.php"]
    ["HOME=/root"; "PATH=/bin"; "RR_RELAY=pipes"; "RR_RPC=tcp://:6001"; "RR_MODE=http"] Pipe [].

Lemma w_init : Init (Pool := nat) w_listener w_has w_unmarshal (Ok (Some "tcp://:6001")) w_environ = Ok w_plugin.
Proof. vm_compute. reflexivity. Qed.

Lemma singleton_names_ok k v : Forall (λ a, a ≠ "="%char) (chars (ToUpper k)) → names_ok {[ k := v ]}.
Proof.
  intros Hk. split.
  - intros k' [v' [<- _]%lookup_singleton_Some]%elem_of_dom. done.
  - by intros k1 k2 [v1 [<- _]%lookup_singleton_Some]%elem_of_dom [v2 [<- _]%lookup_singleton_Some]%elem_of_dom.
Qed.

Lemma worker_environment_witness :
  ∃ c, CmdFactory (λ _, None) {[ "rr_mode" := "jobs" ]} w_plugin = Ok (Some c) ∧
    env_map (cmd_Env c) !! "RR_MODE" = Some "jobs" ∧ env_map (cmd_Env c) !! "HOME" = Some "/root".
Proof.
  exists (MkCmd "php" ["worker.php"] (preparedEnvs w_plugin ++ ["RR_MODE=jobs"])). split; [vm_compute; reflexivity|].
  destruct (worker_environment w_listener w_has w_unmarshal (Ok (Some "tcp://:6001")) w_environ w_plugin (λ _, None)
    {[ "rr_mode" := "jobs" ]} (MkCmd "php" ["worker.php"] (preparedEnvs w_plugin ++ ["RR_MODE=jobs"])) w_init) as (listen & Hl & -> & _).
  - vm_compute. reflexivity.
  - apply singleton_names_ok. by repeat constructor.
  - apply singleton_names_ok. by repeat constructor.
  - injection Hl as <-. vm_compute. by split.
Defined.

Lemma oninit_environment_witness :
  ∃ c, (Serve w_environ None false w_plugin).1 = [Started c; Ended] ∧ env_map (cmd_Env c) !! "HOME" = Some "/root".
Proof.
  destruct (oninit_environment w_environ None false w_plugin (MkOnInit "php init.php" (60 * second) {[ "home" := "/app" ]})
    eq_refl) as (c & e & Hs & He & _).
  - apply singleton_names_ok. by repeat constructor.
  - reflexivity.
  - exists c. split; [|rewrite He; vm_compute; reflexivity]. injection Hs as <- <-. reflexivity.
Defined.

Lemma server_relay_witness : factory_ w_plugin = Pipe ∧ Relay (cfg w_plugin) = "pipes".
Proof.
  split; [reflexivity|].
  exact (server_relay w_listener w_has w_unmarshal (Ok (Some "tcp://:6001")) w_environ w_plugin w_init).
Defined.
End Server.
