(* ===== verification/Logger.v ===== *)
(** * The logger plugin ([logger])

    A configuration is turned into a logger of the zap library.  The logger is
    the value the library gets: nothing, a rotating file with an encoder and a
    level, or a configuration of zap.  Reading a level and building a zap
    configuration are calls of the library. *)

From stdpp Require Import base gmap strings list.
From Stdlib Require Import ZArith Ascii Lia.
From S2P Require Import Prelude GoStrings.
Local Open Scope Z_scope.

Module Logger.

Inductive Level := DebugLevel | InfoLevel | WarnLevel | ErrorLevel | DPanicLevel | PanicLevel | FatalLevel | OtherLevel (z : Z).

Record FileLoggerConfig := MkFile { LogOutput : string; MaxSize : Z; MaxAge : Z; MaxBackups : Z; Compress : bool }.

Definition file_InitDefaults (tmp : string) (fl : FileLoggerConfig) : FileLoggerConfig :=
  MkFile (if String.eqb (LogOutput fl) "" then tmp else LogOutput fl)
    (if MaxSize fl =? 0 then 100 else MaxSize fl) (if MaxAge fl =? 0 then 24 else MaxAge fl)
    (if MaxBackups fl =? 0 then 10 else MaxBackups fl) (Compress fl).

Record Config := MkConfig {
  Mode : string; cfg_Level : string; cfg_LineEnding : string; cfg_Encoding : string;
  Output : list string; ErrorOutput : list string; FileLogger : option FileLoggerConfig }.

Definition newline : string := text [ascii_of_nat 10].

Definition InitDefault (c : Config) : Config :=
  MkConfig (if String.eqb (Mode c) "" then "development" else Mode c)
    (if String.eqb (cfg_Level c) "" then "debug" else cfg_Level c)
    (if String.eqb (cfg_LineEnding c) "" then newline else cfg_LineEnding c)
    (cfg_Encoding c) (Output c) (ErrorOutput c) (FileLogger c).

(** The parts of an encoder; [OmitKey] is the empty text. *)
Inductive level_encoder := LowercaseLevel | ColoredLevel.
Inductive name_encoder := NoName | ColoredName.
Inductive time_encoder := NoTime | EpochTime | ISO8601.
Inductive duration_encoder := NoDuration | SecondsDuration | StringDuration.
Inductive caller_encoder := NoCaller | ShortCaller.

Record EncoderConfig := MkEncoder {
  TimeKey : string; LevelKey : string; NameKey : string; CallerKey : string; FunctionKey : string; MessageKey : string;
  StacktraceKey : string; LineEnding : string; EncodeLevel : level_encoder; EncodeName : name_encoder;
  EncodeTime : time_encoder; EncodeDuration : duration_encoder; EncodeCaller : caller_encoder }.

(** [Sampling]: the first and the later messages of a second. *)
Record zconfig := MkZap {
  z_Level : Level; Development : bool; Sampling : option (Z * Z); Encoding : string; Encoder : EncoderConfig;
  OutputPaths : list string; ErrorOutputPaths : list string }.

Definition production (eol : string) : zconfig :=
  MkZap InfoLevel false (Some (100, 100)) "json"
    (MkEncoder "ts" "level" "logger" "" "" "msg" "" eol LowercaseLevel NoName EpochTime SecondsDuration ShortCaller)
    ["stderr"] ["stderr"].
Definition development (eol : string) : zconfig :=
  MkZap DebugLevel true None "console"
    (MkEncoder "ts" "level" "logger" "" "" "msg" "" eol ColoredLevel ColoredName ISO8601 StringDuration ShortCaller)
    ["stderr"] ["stderr"].
Definition raw (eol : string) : zconfig :=
  MkZap InfoLevel false None "console"
    (MkEncoder "" "" "" "" "" "message" "" eol ColoredLevel NoName NoTime NoDuration NoCaller) ["stderr"] ["stderr"].
Definition other (eol : string) : zconfig :=
  MkZap DebugLevel false None "console"
    (MkEncoder "T" "L" "N" "" "" "M" "" eol ColoredLevel ColoredName ISO8601 StringDuration ShortCaller)
    ["stderr"] ["stderr"].

(** What is built: a logger that drops everything, JSON lines in a rotating
    file, or the logger of a zap configuration. *)
Inductive logger := Nop | Rotating (f : FileLoggerConfig) (e : EncoderConfig) (l : Level) | Zap (z : zconfig).

Section Build.
Context `{Unicode} (UnmarshalText : string → option Level) (Build : zconfig → option error) (tmp : string).

Definition template (c : Config) : option zconfig :=
  let mode := ToLower (Mode c) in
  if String.eqb mode "off" || String.eqb mode "none" then None
  else Some ((if String.eqb mode "production" then production
              else if String.eqb mode "development" then development
              else if String.eqb mode "raw" then raw else other) (cfg_LineEnding c)).

Definition level_of (c : Config) (z : zconfig) : Level :=
  if String.eqb (cfg_Level c) "" then z_Level z else default (z_Level z) (UnmarshalText (cfg_Level c)).

Definition or_paths (l d : list string) : list string := match l with [] => d | _ => l end.

Definition settings (c : Config) (z : zconfig) : zconfig :=
  MkZap (level_of c z) (Development z) (Sampling z)
    (if String.eqb (cfg_Encoding c) "" then Encoding z else cfg_Encoding c) (Encoder z)
    (or_paths (Output c) (OutputPaths z)) (or_paths (ErrorOutput c) (ErrorOutputPaths z)).

Definition BuildLogger (c : Config) : logger + error :=
  match template c with
  | None => inl Nop
  | Some z =>
      let z := settings c z in
      match FileLogger c with
      | Some f => inl (Rotating (file_InitDefaults tmp f) (Encoder z) (z_Level z))
      | None => match Build z with Some e => inr e | None => inl (Zap z) end
      end
  end.

(** ** The plugin *)

Record ZapLogger := MkZapLogger { base : logger; cfg : Config; channels : gmap string Config }.

(** [unmarshal], [unmarshal_channels]: the section as a configuration and as
    channels.  Nothing is nil when the section exists. *)
Definition Init (has : string → bool) (unmarshal : string → res (option Config))
    (unmarshal_channels : string → res (gmap string Config)) : res ZapLogger :=
  let built c ch := match BuildLogger c with inl b => Ok (MkZapLogger b c ch) | inr e => Err (EOp "config_plugin_init" e) end in
  if negb (has "logs") then built (InitDefault (MkConfig "" "" "" "" [] [] None)) ∅ else
  match unmarshal "logs" with
  | Err e => Err (EOp "config_plugin_init" e)
  | Panic => Panic
  | Ok oc =>
      match unmarshal_channels "logs" with
      | Err e => Err (EOp "config_plugin_init" e)
      | Panic => Panic
      | Ok ch => match oc with None => Panic | Some c => built (InitDefault c) ch end
      end
  end.

(** A logger with its name. *)
Definition NamedLogger (name : string) (z : ZapLogger) : logger * string + error :=
  match channels z !! name with
  | Some c => match BuildLogger c with inl l => inl (l, name) | inr e => inr e end
  | None => inl (base z, name)
  end.

Definition log_level (l : logger) : option Level :=
  match l with Nop => None | Rotating _ _ l => Some l | Zap z => Some (z_Level z) end.

(** ** Theorems *)

Definition mode_level (mode : string) : Level :=
  if String.eqb mode "production" || String.eqb mode "raw" then InfoLevel else DebugLevel.

(** Every logger that is built drops everything for the modes [off] and [none]
    only, and otherwise has the configured level, or that of its mode when the
    level is missing or cannot be read: an unreadable level is no error. *)
Theorem logger_level c l :
  BuildLogger c = inl l →
  let mode := ToLower (Mode c) in
  log_level l =
    if String.eqb mode "off" || String.eqb mode "none" then None
    else Some (default (mode_level mode) (if String.eqb (cfg_Level c) "" then None else UnmarshalText (cfg_Level c))).
Proof.
  unfold BuildLogger, template. simpl. destruct (_ || _); [by intros [= <-]|].
  assert (G : ∀ z, z_Level z = mode_level (ToLower (Mode c)) →
    z_Level (settings c z) = default (mode_level (ToLower (Mode c))) (if String.eqb (cfg_Level c) "" then None else UnmarshalText (cfg_Level c))).
  { intros z Hz. simpl. unfold level_of. rewrite Hz. by destruct (String.eqb (cfg_Level c) ""). }
  match goal with |- context [settings c ?z] => specialize (G z) end.
  intros E. enough (E' : log_level l = Some (z_Level (settings c ((if String.eqb (ToLower (Mode c)) "production" then production
      else if String.eqb (ToLower (Mode c)) "development" then development
      else if String.eqb (ToLower (Mode c)) "raw" then raw else other) (cfg_LineEnding c))))).
  { rewrite E', G; [done|]. unfold mode_level.
    destruct (String.eqb_spec (ToLower (Mode c)) "production"); [done|].
    destruct (String.eqb_spec (ToLower (Mode c)) "development") as [->|]; [done|].
    by destruct (String.eqb_spec (ToLower (Mode c)) "raw"). }
  destruct (FileLogger c); [by injection E as <-|]. destruct (Build _); [done|]. by injection E as <-.
Qed.

(** With the options of a file the configured encoding and outputs have no
    effect: the lines are JSON and go to the file only. *)
Theorem logger_file_only mode level eol enc enc' out out' err err' f :
  BuildLogger (MkConfig mode level eol enc out err (Some f)) = BuildLogger (MkConfig mode level eol enc' out' err' (Some f)).
Proof. unfold BuildLogger, template. simpl. by destruct (_ || _). Qed.

(** A channel of its own is built from its section as it stands: without a mode
    it is no development logger but the unnamed one, other than the base
    logger of a section without a mode. *)
Theorem logger_channel_defaults name z c l :
  channels z !! name = Some c → Mode c = "" → FileLogger c = None → NamedLogger name z = inl (l, name) →
  ∃ zc, l = Zap zc ∧ Development zc = false ∧ MessageKey (Encoder zc) = "M" ∧
    ∀ l', BuildLogger (InitDefault c) = inl l' → ∃ zc', l' = Zap zc' ∧ Development zc' = true ∧ MessageKey (Encoder zc') = "msg".
Proof.
  unfold NamedLogger. intros -> Hm Hf. unfold BuildLogger at 1, template. rewrite Hm, Hf. cbn.
  destruct (Build _); [done|]. intros [= <-]. eexists. split; [done|]. split; [done|]. split; [done|].
  intros l'. assert (Hd : template (InitDefault c) = Some (development (cfg_LineEnding (InitDefault c)))).
  { unfold template, InitDefault. rewrite Hm. vm_compute. reflexivity. }
  unfold BuildLogger. rewrite Hd. cbn [InitDefault FileLogger]. rewrite Hf.
  match goal with |- context [Build ?x] => destruct (Build x) end; [done|]. intros [= <-]. by eexists.
Qed.
End Build.

(** ** Encoders *)

(** [color]: what the library puts around the text. *)
Section Encoders.
Inductive color := HiWhite | HiCyan | HiYellow | HiRed | HiMagenta | HiGreen.
Context (paint : color → string → string) (CapitalString : Level → string).

(** The texts that are appended. *)
Definition ColoredLevelEncoder (l : Level) : list string :=
  match l with
  | DebugLevel => [paint HiWhite (CapitalString l)]
  | InfoLevel => [paint HiCyan (CapitalString l)]
  | WarnLevel => [paint HiYellow (CapitalString l)]
  | ErrorLevel | DPanicLevel => [paint HiRed (CapitalString l)]
  | PanicLevel | FatalLevel => [paint HiMagenta (CapitalString l)]
  | OtherLevel _ => []
  end.

Definition spaces (n : nat) : string := text (replicate n " "%char).
Definition ColoredNameEncoder (s : string) : list string :=
  [paint HiGreen (if (String.length s <? 12)%nat then s +:+ spaces (12 - String.length s) else s)].

Lemma chars_length s : length (chars s) = String.length s.
Proof. induction s as [|a s IH]; [done|]. simpl. by rewrite IH. Qed.

(** Names are filled up to twelve bytes and never cut. *)
Lemma name_padding s :
  ∃ t, ColoredNameEncoder s = [paint HiGreen (s +:+ t)] ∧ String.length (s +:+ t) = Nat.max 12 (String.length s).
Proof.
  unfold ColoredNameEncoder. destruct (Nat.ltb_spec (String.length s) 12).
  - exists (spaces (12 - String.length s)). split; [done|]. rewrite <- chars_length, chars_app, length_app, chars_length.
    unfold spaces. rewrite chars_text, length_replicate. lia.
  - exists "". rewrite append_nil_r. split; [done|lia].
Qed.
End Encoders.

(** ** Examples *)

Definition w_levels (s : string) : option Level := if String.eqb s "warn" then Some WarnLevel else None.
Definition w_config : Config := MkConfig "Production" "loud" "" "" [] [] None.

Lemma logger_level_witness :
  ∃ l, BuildLogger (H := ascii_unicode) w_levels (λ _, None) "/tmp" w_config = inl l ∧ log_level l = Some InfoLevel.
Proof.
  eexists. split; [vm_compute; reflexivity|].
  exact (logger_level (H := ascii_unicode) w_levels (λ _, None) "/tmp" w_config _ eq_refl).
Defined.

Lemma logger_channel_defaults_witness :
  let c := MkConfig "" "" "" "" [] [] None in
  let z := MkZapLogger Nop c {[ "http" := c ]} in
  ∃ l zc, NamedLogger (H := ascii_unicode) w_levels (λ _, None) "/tmp" "http" z = inl (l, "http") ∧ l = Zap zc ∧ Development zc = false.
Proof.
  intros c z. eexists.
  destruct (logger_channel_defaults (H := ascii_unicode) w_levels (λ _, None) "/tmp" "http" z c
    (Zap (settings w_levels c (other "")))) as (zc & H1 & H2 & _).
  - reflexivity.
  - reflexivity.
  - reflexivity.
  - vm_compute. reflexivity.
  - exists zc. split; [|split; [exact H1|exact H2]]. vm_compute. reflexivity.
Defined.
End Logger.
