(* ===== verification/FileServer.v ===== *)
(** * The file server plugin ([fileserver])

    The plugin hands the configured directories to the fiber library and guards
    its application with a lock that [Serve] takes and a goroutine releases. *)

From stdpp Require Import base gmap strings list.
From Stdlib Require Import ZArith.
From S2P Require Import Prelude.
Local Open Scope Z_scope.

Module FileServer.

Record Cfg := MkCfg { Prefix : string; Root : string; BytesRange : bool; Compress : bool; CacheDuration : Z; MaxAge : Z }.
Record Config := MkConfig {
  Address : string; CalculateEtag : bool; Weak : bool; Configuration : slice (option Cfg); StreamRequestBody : bool }.

Definition valid_one (c : option Cfg) : res (option Cfg) :=
  match c with
  | None => Panic
  | Some c =>
      if String.eqb (Prefix c) "" then Err (EOp "static_validation" (EStr "empty prefix")) else
      Ok (Some (MkCfg (Prefix c) (if String.eqb (Root c) "" then "." else Root c) (BytesRange c) (Compress c)
        (if CacheDuration c =? 0 then 10 else CacheDuration c) (MaxAge c)))
  end.

(** The configuration with its defaults, or why it is refused. *)
Definition Valid (c : Config) : res Config :=
  if String.eqb (Address c) "" then Err (EOp "static_validation" (EStr "empty address")) else
  match Configuration c with
  | None => Err (EOp "static_validation" (EStr "no configuration to serve"))
  | Some l =>
      l ← mapM valid_one l;
      Ok (MkConfig (Address c) (CalculateEtag c) (Weak c) (Some l) (StreamRequestBody c))
  end.

(** What the application of the library is told. *)
Inductive route := Etag (weak : bool) | Static (prefix root : string) (compress range browse : bool) (cache age : Z).
Record app := MkApp { stream : bool; routes : list route }.

(** [locked]: the lock is held; [starting]: the goroutine that releases it and
    serves has not run yet. *)
Record Plugin := MkPlugin { config : option Config; app_ : option app; locked : bool; starting : bool; serving : bool }.

Definition Init (has : string → bool) (unmarshal : string → res (option Config)) : res Plugin :=
  if negb (has "fileserver") then Err (EOp "file_server_init" (EKind Disabled)) else
  c ← wrap_err "file_server_init" (unmarshal "fileserver");
  Ok (MkPlugin c None false false false).

Definition static_route (c : option Cfg) : res route :=
  match c with
  | None => Panic
  | Some c => Ok (Static (Prefix c) (Root c) (Compress c) (BytesRange c) false (i64 (10 ^ 9 * CacheDuration c)) (MaxAge c))
  end.

(** [None]: the call waits for the lock.  [listen]: what the listener for an
    address answers. *)
Definition Serve (listen : string → option error) (p : Plugin) : option (Plugin * res (option error)) :=
  if locked p then None else
  let held a s := MkPlugin (config p) a true s (serving p) in
  match config p with
  | None => Some (held None false, Panic)
  | Some c =>
      match mapM static_route (default [] (Configuration c)) with
      | Ok rs =>
          let a := MkApp (StreamRequestBody c) ((if CalculateEtag c then [Etag (Weak c)] else []) ++ rs) in
          match listen (Address c) with
          | Some e => Some (held (Some a) false, Ok (Some e))
          | None => Some (held (Some a) true, Ok None)
          end
      | _ => Some (held (Some (MkApp (StreamRequestBody c) [])) false, Panic)
      end
  end.

(** The goroutine of [Serve]. *)
Definition started (p : Plugin) : option Plugin :=
  if starting p then Some (MkPlugin (config p) (app_ p) false false true) else None.

Definition Stop (shutdown : option error) (p : Plugin) : option (Plugin * res unit) :=
  if locked p then None else
  match app_ p with
  | None => Some (p, Panic)
  | Some _ =>
      Some (MkPlugin (config p) (app_ p) false (starting p) false,
            match shutdown with Some e => Err e | None => Ok tt end)
  end.

(** A plugin whose address cannot be listened on keeps its lock: it reports the
    error, and from then on no goroutine releases the lock, so that every stop
    and every new start waits for ever. *)
Theorem fileserver_failed_serve_blocks c rs listen e sh p :
  config p = Some c → locked p = false → starting p = false →
  mapM static_route (default [] (Configuration c)) = Ok rs → listen (Address c) = Some e →
  ∃ p', Serve listen p = Some (p', Ok (Some e)) ∧ started p' = None ∧ Stop sh p' = None ∧ Serve listen p' = None.
Proof.
  intros Hc Hl Hs Hr He. unfold Serve. rewrite Hl, Hc, Hr, He. eexists. split; [done|]. by split_and!.
Qed.

(** The checks and defaults of [Valid] are not part of the start: an accepted
    configuration is served as it was written, with its empty directories and
    durations. *)
Theorem fileserver_unchecked has unmarshal c rs listen :
  has "fileserver" = true → unmarshal "fileserver" = Ok (Some c) → listen (Address c) = None →
  mapM static_route (default [] (Configuration c)) = Ok rs →
  ∃ p p' q, Init has unmarshal = Ok p ∧ Serve listen p = Some (p', Ok None) ∧ started p' = Some q ∧
    serving q = true ∧ locked q = false ∧
    (routes <$> app_ q) = Some ((if CalculateEtag c then [Etag (Weak c)] else []) ++ rs).
Proof.
  intros Hh Hu Hl Hr. unfold Init. rewrite Hh, Hu. eexists _, _, _. split; [done|].
  unfold Serve. cbn [locked config]. rewrite Hr, Hl. by split_and!.
Qed.

Definition w_config : Config := MkConfig "" false false (Some [Some (MkCfg "/" "" false false 0 0)]) false.

Lemma fileserver_failed_serve_blocks_witness :
  ∃ p', Serve (λ _, Some (EExt "in use")) (MkPlugin (Some w_config) None false false false) = Some (p', Ok (Some (EExt "in use"))) ∧
    started p' = None ∧ Stop None p' = None ∧ Serve (λ _, Some (EExt "in use")) p' = None.
Proof. by eapply (fileserver_failed_serve_blocks w_config). Defined.

Lemma fileserver_unchecked_witness :
  Valid w_config = Err (EOp "static_validation" (EStr "empty address")) ∧
  ∃ p p' q, Init (λ _, true) (λ _, Ok (Some w_config)) = Ok p ∧ Serve (λ _, None) p = Some (p', Ok None) ∧ started p' = Some q ∧
    serving q = true ∧ locked q = false ∧ (routes <$> app_ q) = Some [Static "/" "" false false false 0 0].
Proof.
  split; [reflexivity|].
  exact (fileserver_unchecked (λ _, true) (λ _, Ok (Some w_config)) w_config [Static "/" "" false false false 0 0] (λ _, None)
    eq_refl eq_refl eq_refl eq_refl).
Defined.
End FileServer.
